(* ===== verification/_CoqProject ===== *)
-Q . S2P
Prelude.v
GoLib.v
Api.v
DeepCopy.v
Effects.v
Instances.v
Helpers.v
PruneDeleted.v
TestController.v
TestRunController.v
TestSuiteController.v
HelmWatcher.v
Crash.v
Server.v
Lifecycle.v
Cluster.v
Verdicts.v
ClusterServer.v
System.v
SystemServer.v
Ownership.v
Reports.v
Logging.v
Manager.v
Mock.v
Witnesses.v
