(* ===== verification/Prelude.v ===== *)
(** * Konfirm

    Konfirm is a Kubernetes operator that runs integration tests. A [TestSuite]
    says what to test and when; the operator starts a [TestRun] for it by hand,
    on a cron schedule, or when a Helm release is deployed; a run creates one
    [Test] per template; a Test runs one pod, and the exit of the pod is its
    result. Results travel back up: pod, Test, run, suite, metrics.

    This library models the operator's controllers and proves what they do.
    It is a shallow embedding: each Go function is a Rocq definition of the
    same name, in the order of the source, and runs by computation.

    ** Files

    - [Prelude] (this file): notations for Go's comparisons, the hint
      databases and tactics of the library, and generic lemmas on lists,
      prefixes, sortedness and sublists.
    - [GoLib]: what the program uses of Go and its standard library: machine
      integers, [strconv.Atoi] and decimal printing (module [strconv]),
      [strings.Index], slicing, [time.Time.Sub] with its saturation (module
      [time]), maps that may be nil ([gomap]), [hash/fnv], and [sort.Slice] as
      a class ([SortSlice]) with insertion sort as an instance.
    - [Api]: the types of [src/api/v1alpha1], their phase methods
      ([test_types.go], [testrun_types.go], [testsuite_types.go]) and the
      fields of Kubernetes types the controllers touch; [kind] and [obj], the
      kinds of objects a client handles; [ClientObject], the interface
      [client.Object] with its laws, an instance per kind.
    - [DeepCopy]: [src/api/v1alpha1/zz_generated.deepcopy.go], on structs whose
      slices, maps and pointers lead into a heap.
    - [Effects]: programs that talk to the world. [call] lists what
      a controller may ask (get, list, create, delete, patch, status patch,
      event, metric, clock, enqueue), [reply] what it gets back; [prog] is a
      tree of calls, [fn] a function body with early returns. [wp] is the
      logic, [exec] and [run] the executions, and [wp_exec] and [wp_run]
      relate them. [ApiMachinery] is the interface to the library functions
      of apimachinery and controller-runtime the controllers rely on.
    - [Instances]: an implementation of [ApiMachinery], and sample objects.
    - [Helpers]: [src/controllers/errors.go] and [helpers.go]: [ErrorList],
      [addFinalizer], [removeFinalizer], [cleanUp], [cleanUpAll],
      [ParseHelmReleaseSecret], [computeTestRunHash].
    - [PruneDeleted]: the block that compacts a slice to the items that are
      not being deleted, shared by two controllers.
    - [TestController]: [src/controllers/test_controller.go].
    - [TestRunController]: [src/controllers/testrun_controller.go].
    - [TestSuiteController]: [src/controllers/testsuite_controller.go].
    - [HelmWatcher]: [src/controllers/helmrelease_watcher.go], with its
      producer and consumer goroutines as a step relation.
    - [Crash]: many reconciliations of one object: what the server keeps of it
      ([store]), how an exchange changes that ([stores]), the assumption that
      reads are [current], both together ([serves]), and a logic ([cwp]) for what holds at every point of an execution, so that it survives a
      crash of the controller at any of them.
    - [Server]: a concrete server for one object that meets [serves], against
      which the controllers are run, and one whose reads lag behind.
    - [Lifecycle]: the invariants of Tests, runs and suites over any number of
      reconciliations (modules [TestLife], [RunLife], [SuiteLife]).
    - [Cluster]: a parent and the children its controller creates, which move
      on while it works, again over many reconciliations that may crash;
      [ClusterServer] is a concrete server for it.
    - [Verdicts]: the two clusters of the program, a Test with its pods
      (module [TestVerdict]) and a run with its Tests ([RunVerdict]).
    - [System]: a run, its Tests and their pods as one system, in which the
      exchanges of all their controllers interleave; [SystemServer] computes
      such executions.
    - [Reports]: what a suite reports, back to the pods.
    - [Ownership]: what the controllers create belongs to the object they
      reconcile.
    - [Logging]: [src/logging/logging.go].
    - [Manager]: [src/main.go], the [SetupWithManager] methods and [init]
      functions of the other files, and the metrics.
    - [Mock]: [src/cmd/mock/main.go].
    - [Witnesses]: concrete inputs at which the hypotheses of the theorems
      hold.

    ** How the parts correspond to the code

    The state of a controller is what it holds in local variables during one
    [Reconcile]: the object it reconciles and a slice of the objects it
    controls. A pointer into a slice is an index into a list, so that aliasing
    between a pointer and its slice is visible; an assignment through it is a
    list update; an index out of range is [Panic IndexOutOfRange]. A map that
    may be nil is an [option] of a [gmap]; a write to the nil map is
    [Panic NilMapWrite]; a method call on a nil interface is
    [Panic NilDereference]. Errors are values ([error]), and a function with
    early returns has type [fn R A]: [inl r] returns [r], [inr a] goes on.
    Logging is dropped: it has no effect on the results.

    A client call that updates its argument returns the new object; on an
    error the argument stays as it is. A controller is not told how the API
    server works: it is a [prog] whose continuation takes any reply. A
    theorem states in which worlds it holds: [any] (or a universally
    quantified [env]) is every server; [reliable] is a server that accepts
    every write and stores what it was sent; [keeps_phase] and
    [keeps_schedule] are servers whose answer to a metadata patch does not
    change the suite's phase, or its schedule; [keeps_deletion] and
    [stores_finalizers] are those that do not invent a deletion time and that
    store the finalizers they are sent.

    [Reconcile] of a Test ([TestController]) gets the Test, lists its pods by
    the index that [podIndexer] fills, and goes to [finalize], [isComplete]
    or [isRunning] (which is [selectPod], [ensurePod], [followPod]).
    [Reconcile] of a run goes to [finalize], [isComplete] or [isRunning]
    (which is [mapTests], [evaluateTests], [updateRun]). [Reconcile] of a
    suite goes to [finalize], [isRunning] (which is [createRun] or
    [finishRun]) or [notRunning] (which is [ensureReady],
    [enforceHistoryLimit], [activateSchedule], [currentHelmRelease],
    [triggerRun]). They meet in the objects: a run writes the spec of a Test
    ([testFor]) and reads its phase; a suite writes the spec of a run
    ([runFor]) and reads its phase; the watcher enqueues suites by the label
    that [handleHelmTrigger] gives them. [Manager.main] reads the flags, and
    asks controller-runtime's manager for everything else, call by call
    ([mcall]); a controller it completes carries its [Reconcile].

    An object is a value, and the code's [DeepCopy()] is the identity: the
    theorems of [DeepCopy] justify that, as a copy shares no memory with its
    original.

    ** What the theorems show

    - Safety, whatever the server answers: [Reconcile_safe],
      [Reconcile_guarded], [suite_Reconcile_guarded], [suite_Reconcile_no_panic]:
      the kinds of objects each controller may touch, the phase changes it
      may write (as step relations), and which panics it may meet.
    - Invariants over any number of reconciliations, each cut off anywhere, on
      a server that may store a write and report an error: [test_lifecycle],
      [run_lifecycle], [suite_lifecycle]: phases move along the step
      relations, final phases are final, results are counted at most once.
      They assume that reads show the stored phase ([Crash.current]), which the
      manager's client, a cache, does not guarantee, and that nobody else
      writes it; [stale_reads_count_twice] is what happens otherwise.
    - Verdicts: [test_verdict_sound], [run_verdict_sound] and, for the two
      levels in one system, [verdict_end_to_end]: a run that passed has for
      every template a Test of its own, with a pod of its own that succeeded,
      and one that failed has a Test of its own with a pod that failed, in any
      interleaving of the controllers with crashes and with the progress and
      the eviction of pods. [suite_reports_pods] goes on to the gauges and
      events of the suite: each follows the write that finishes the current run
      and tells that run's verdict. [test_converges] and [run_converges] say
      that a reconciliation whose calls succeed gets there: it returns no
      error, creates what is missing, and stores a verdict when everything it
      listed has ended. They assume that reads and listings are current
      ([Cluster.current]), that there are at most ten templates, that until a
      verdict nobody else writes or deletes the object, and that nobody deletes
      the Tests of a run before its verdict.
    - Types: [children_typed]: a child carries the owner reference, namespace
      and index entry by which its controller finds it again.
    - Functional behaviour: which pod decides a Test and how its phase and
      counters follow ([selectPod_first_live], [followPod_follows],
      [isRunning_creates]); the verdict of a run ([isRunning_evaluates],
      [isRunning_complete_listing]); what triggers a suite
      ([triggerRun_decides], against an abstract decision), how its run starts
      and ends ([suite_isRunning_creates], [suite_isRunning_finishes]), the
      history limit, the current release ([latestRelease_max]).
    - The process: [main_exits] (exit codes, and what was set up when the
      manager starts), [listings_indexed] (what [Reconcile] lists by is
      indexed before, and so is what the watch lists by, with one exception),
      [flags_roundtrip].
    - Deep copies: [DeepCopy_independent].
    - Deletion: the order of finalizers and clean-up ([finalize_order],
      [run_finalize_order], [suite_finalize_order]), retention policies, and
      the loops over slices ([cleanUpAll_visits_all],
      [pruneDeleted_keeps_live]).
    - Concurrency: the goroutines of the watcher refine a sequential program
      ([goroutines_refine_drain]) and terminate ([goroutines_terminate]).
    - Round trips: finalizers, Helm versions, the index in a Test's name.
    - Behaviour that differs from what the code seems to intend, proved as it
      is: [isRunning_misattributes], [isRunning_panics],
      [isRunning_never_completes], [pruneDeleted_skips_tail],
      [helmLabel_mismatch], [helmTrigger_retriggers],
      [finalize_swallows_error], [cleanUp_reports_vanished_patch],
      [exportAll_reaches_nothing], and the
      second run that [suite_isRunning_creates] creates when the status write
      after the first one failed.

    ** Bounds

    Loops over a slice recurse on the list of indices. The compaction of a
    slice ([PruneDeleted.pruneLoop]) has no such list: its fuel is one more
    than the length of the slice, and [pruneDeleted_keeps_live] shows that it
    never runs out, since each round shrinks the rest of the slice. Decimal
    printing has one unit of fuel per binary digit, and the round trips
    through [Atoi] show that it is enough. Executions of a [prog] are finite
    by construction: in every world a handler returns or panics.

    ** What is not modelled

    The API server, the caches and the work queue are the world of [Effects]
    and the servers of [Crash] and [Cluster]; controller-runtime's manager,
    the flags of zap's options and those that imported packages register on
    the command line (controller-runtime's [kubeconfig]), Prometheus and the deep copies of
    apimachinery's types are interfaces with what the program relies on. The
    random name a server gives to an object, the cron parser, [spew] and
    [rand.SafeEncodeString] are parameters. Messages that are only logged are
    dropped. The JSON tags of the types and the validation markers are read by
    other programs; the tests and manifests of the repository are not part of
    the program.

    ** What is left to do

    The invariants over many reconciliations assume current reads; what holds
    of a single one, whatever it has read, is in the theorems on safety. The
    suite and its runs are not a [Cluster] (a suite has verdicts again and
    again), nor is the deletion of a Test while its run has no verdict, against
    which [isRunning_panics] shows the controller to be unsafe. *)

From stdpp Require Export base gmap strings list sorting.
From Stdlib Require Export ZArith Lia.

#[export] Set Default Goal Selector "!".
#[export] Set Warnings "-clear-no-such-hyp".

(** * Notations *)

Declare Scope go_scope.
Delimit Scope go_scope with go.

(** Go's comparison of two values of a comparable type. *)
Notation "a == b" := (bool_decide (a = b)) (at level 70, no associativity) : go_scope.
Notation "a != b" := (negb (bool_decide (a = b))) (at level 70, no associativity) : go_scope.

Open Scope go_scope.

(** * Hint databases *)

(** Facts the component proofs use everywhere: rewriting rules for record
    accessors and list operations, and introduction rules for traces. *)
Create HintDb konfirm discriminated.
Create Rewrite HintDb konfirm.

(** * Tactics *)

(** Splits hypotheses that are conjunctions, pairs or existentials. *)
Ltac split_hyps :=
  repeat match goal with
  | H : _ ∧ _ |- _ => destruct H
  | H : ∃ _, _ |- _ => destruct H
  end.

(** Decides every boolean comparison and every match of the goal, and closes
    what becomes trivial. *)
Ltac go_cases :=
  repeat first
    [ progress simplify_eq/=
    | progress case_bool_decide
    | case_match ];
  try done.

(** * Comparisons *)

Lemma neqb_true `{EqDecision A} (a b : A) : (a != b) = true → a ≠ b.
Proof. by intros ?%negb_true_iff%bool_decide_eq_false. Qed.

Lemma neqb_false `{EqDecision A} (a b : A) : (a != b) = false → a = b.
Proof. by intros ?%negb_false_iff%bool_decide_eq_true. Qed.

Lemma eqb_true `{EqDecision A} (a b : A) : (a == b) = true → a = b.
Proof. by intros ?%bool_decide_eq_true. Qed.

Lemma eqb_false `{EqDecision A} (a b : A) : (a == b) = false → a ≠ b.
Proof. by intros ?%bool_decide_eq_false. Qed.

(** * Lists *)

Section list_lemmas.
Context {A : Type}.
Implicit Types (l : list A) (P : A → bool).

Lemma existsb_fold_true P l b :
  fold_left (λ acc x, if P x then true else acc) l b = b || existsb P l.
Proof.
  revert b. induction l as [|x l IH]; intros b; simpl; [by rewrite orb_false_r|].
  rewrite IH. by destruct (P x), b.
Qed.

Lemma existsb_fold_false P l b :
  fold_left (λ acc x, if P x then false else acc) l b = b && negb (existsb P l).
Proof.
  revert b. induction l as [|x l IH]; intros b; simpl; [by rewrite andb_true_r|].
  rewrite IH. by destruct (P x), b.
Qed.

Lemma existsb_eq_spec `{EqDecision A} (x : A) l :
  existsb (λ y, y == x) l = true ↔ x ∈ l.
Proof.
  rewrite existsb_exists. setoid_rewrite bool_decide_eq_true.
  setoid_rewrite <-list_elem_of_In. split; [intros (y & Hy & ->)|exists x]; done.
Qed.

Lemma existsb_eq_false `{EqDecision A} (x : A) l :
  existsb (λ y, y == x) l = false ↔ x ∉ l.
Proof. rewrite <-existsb_eq_spec. by destruct (existsb _ l). Qed.

Lemma filter_id (P : A → Prop) `{!∀ x, Decision (P x)} l :
  Forall P l → filter P l = l.
Proof.
  induction 1 as [|x l Hx _ IH]; [done|].
  by rewrite filter_cons_True, IH.
Qed.

Lemma filter_none (P : A → Prop) `{!∀ x, Decision (P x)} l :
  Forall (λ x, ¬ P x) l → filter P l = [].
Proof.
  induction 1 as [|x l Hx _ IH]; [done|].
  by rewrite filter_cons_False.
Qed.

Lemma StronglySorted_filter (R : relation A) (P : A → Prop) `{!∀ x, Decision (P x)} l :
  StronglySorted R l → StronglySorted R (filter P l).
Proof.
  induction 1 as [|x l Hl IH Hx]; [constructor|].
  rewrite filter_cons. case_decide; [|done]. constructor; [done|].
  apply Forall_forall. intros y [_ Hy]%list_elem_of_filter. by eapply Forall_forall in Hx.
Qed.

Lemma omap_length_le {B} (f : A → option B) (l : list A) : length (omap f l) ≤ length l.
Proof. induction l as [|x l IH]; [done|]. cbn. destruct (f x); cbn; lia. Qed.

Lemma Forall_app_intro (P : A → Prop) l k :
  Forall P l → Forall P k → Forall P (l ++ k).
Proof. intros. by apply Forall_app. Qed.

End list_lemmas.

#[export] Hint Resolve Forall_app_intro : konfirm.
#[export] Hint Constructors Forall : konfirm.

(** * Strings *)

Section string_lemmas.
Implicit Types s : string.

Lemma str_app_cons c s1 s2 : String c s1 +:+ s2 = String c (s1 +:+ s2).
Proof. done. Qed.

Lemma str_app_nil_l s : "" +:+ s = s.
Proof. done. Qed.

Lemma str_app_assoc s1 s2 s3 : (s1 +:+ s2) +:+ s3 = s1 +:+ s2 +:+ s3.
Proof. induction s1 as [|c s1 IH]; [done|]. by rewrite !str_app_cons, IH. Qed.

Lemma str_app_nil_r s : s +:+ "" = s.
Proof. induction s as [|c s IH]; [done|]. by rewrite str_app_cons, IH. Qed.

Lemma str_app_inj s a b : s +:+ a = s +:+ b → a = b.
Proof. induction s as [|c s IH]; [done|]. rewrite !str_app_cons. intros [= H]. auto. Qed.

Lemma str_length_app s1 s2 :
  String.length (s1 +:+ s2) = String.length s1 + String.length s2.
Proof. induction s1 as [|c s1 IH]; [done|]. rewrite str_app_cons. simpl. by rewrite IH. Qed.

Lemma substring_prefix s1 s2 : String.substring 0 (String.length s1) (s1 +:+ s2) = s1.
Proof.
  induction s1 as [|c s1 IH]; [by destruct s2|].
  rewrite str_app_cons. simpl. by rewrite IH.
Qed.

Lemma substring_middle s1 s2 s3 :
  String.substring (String.length s1) (String.length s2) (s1 +:+ s2 +:+ s3) = s2.
Proof.
  induction s1 as [|c s1 IH]; [rewrite str_app_nil_l; apply substring_prefix|].
  rewrite str_app_cons. simpl. done.
Qed.

(** A string with no [c] before its first [c]: splitting is unique. *)
Fixpoint str_mem (c : Ascii.ascii) s : bool :=
  match s with
  | EmptyString => false
  | String d s => (d == c) || str_mem c s
  end.

Lemma str_mem_app c s1 s2 : str_mem c (s1 +:+ s2) = str_mem c s1 || str_mem c s2.
Proof.
  induction s1 as [|d s1 IH]; [done|].
  rewrite str_app_cons. simpl. by rewrite IH, orb_assoc.
Qed.

Lemma index_char_app c s1 s2 :
  str_mem c s1 = false →
  String.index 0 (String c "") (s1 +:+ String c s2) = Some (String.length s1).
Proof.
  induction s1 as [|d s1 IH]; intros Hc.
  - rewrite str_app_nil_l. simpl. destruct (Ascii.ascii_dec c c); [by destruct s2|done].
  - simpl in Hc. apply orb_false_iff in Hc as [Hd Hc]. apply bool_decide_eq_false in Hd.
    rewrite str_app_cons. simpl. destruct (Ascii.ascii_dec c d); [congruence|].
    by rewrite IH.
Qed.

Lemma index_char_none c s :
  str_mem c s = false → String.index 0 (String c "") s = None.
Proof.
  induction s as [|d s IH]; intros Hc; [done|].
  simpl in Hc. apply orb_false_iff in Hc as [Hd Hc]. apply bool_decide_eq_false in Hd.
  simpl. destruct (Ascii.ascii_dec c d); [congruence|]. by rewrite IH.
Qed.

Lemma split_char_inj c s1 s2 t1 t2 :
  str_mem c s1 = false → str_mem c t1 = false →
  s1 +:+ String c s2 = t1 +:+ String c t2 → s1 = t1 ∧ s2 = t2.
Proof.
  revert t1. induction s1 as [|d s1 IH]; intros [|e t1] Hs Ht.
  - rewrite !str_app_nil_l. intros [= ->]. done.
  - rewrite str_app_nil_l, str_app_cons. intros [= -> _].
    simpl in Ht. by rewrite bool_decide_eq_true_2 in Ht.
  - rewrite str_app_nil_l, str_app_cons. intros [= -> _].
    simpl in Hs. by rewrite bool_decide_eq_true_2 in Hs.
  - rewrite !str_app_cons. intros [= -> H]. simpl in Hs, Ht.
    apply orb_false_iff in Hs as [_ Hs], Ht as [_ Ht].
    destruct (IH t1 Hs Ht H) as [-> ->]. done.
Qed.

End string_lemmas.
