(* ===== verification/GoLib.v ===== *)
(** The parts of the Go language and its standard library the program uses:
    machine integers, [strconv.Atoi], decimal printing, [strings.Index],
    [time.Time.Sub], nil-able string maps and [hash/fnv].

    Integers are [Z] with their width written out. A Go [string] is a
    [string], whose characters are the bytes of the Go value. *)

From S2P Require Import Prelude.
From Stdlib Require Import Ascii String.
From stdpp Require Import strings.

Local Open Scope Z_scope.

(** * Machine integers *)

Definition maxInt64 : Z := 2 ^ 63 - 1.
Definition minInt64 : Z := - 2 ^ 63.
Definition maxUint64 : Z := 2 ^ 64 - 1.

(** Conversion to [int8]: keeps the low eight bits, as two's complement. *)
Definition to_int8 (z : Z) : Z := (z + 128) mod 256 - 128.

(** Conversion to [uint32]. *)
Definition to_uint32 (z : Z) : Z := z mod 2 ^ 32.

(** * Decimal numbers *)

Module strconv.

(** The two errors [strconv] reports. *)
Inductive NumError := ErrSyntax | ErrRange.

#[export] Instance NumError_eq_dec : EqDecision NumError.
Proof. solve_decision. Defined.

(** The value of a decimal digit: [ch -= '0'; if ch > 9 { ... }]. *)
Definition digit (c : ascii) : option Z :=
  let ch := Z.of_nat (nat_of_ascii c) - 48 in
  if bool_decide (0 ≤ ch ≤ 9 ) then Some ch else None.

(** The digit loop of [strconv.ParseUint] in base 10: stops at the first byte
    that is not a digit, or at the first prefix that does not fit 64 bits. *)
Fixpoint parse_digits (n : Z) (s : string) : NumError + Z :=
  match s with
  | EmptyString => inr n
  | String c s =>
      match digit c with
      | None => inl ErrSyntax
      | Some d =>
          if bool_decide (maxUint64 < n * 10 + d ) then inl ErrRange
          else parse_digits (n * 10 + d) s
      end
  end.

(** [strconv.ParseUint(s, 10, 64)] *)
Definition ParseUint (s : string) : NumError + Z :=
  match s with
  | EmptyString => inl ErrSyntax
  | _ => parse_digits 0 s
  end.

(** [strconv.Atoi] on a platform with a 64-bit [int]: an optional sign, then
    digits. *)
Definition Atoi (s : string) : NumError + Z :=
  let '(neg, digits) :=
    match s with
    | String "+" r => (false, r)
    | String "-" r => (true, r)
    | _ => (false, s)
    end in
  match ParseUint digits with
  | inl e => inl e
  | inr un =>
      if negb neg && bool_decide (maxInt64 < un ) then inl ErrRange
      else if neg && bool_decide (- minInt64 < un ) then inl ErrRange
      else inr (if neg then - un else un)%Z
  end.

(** The decimal digits of a natural number, as [strconv.Itoa], [%d] and
    [fmt.Sprint] print it. [fuel] bounds the number of digits. *)
Definition digit_char (d : Z) : ascii := ascii_of_nat (Z.to_nat (48 + d)).

Fixpoint utoa (fuel : nat) (n : Z) (acc : string) : string :=
  match fuel with
  | O => acc
  | S fuel =>
      let acc := String (digit_char (n mod 10)) acc in
      if bool_decide (n < 10 ) then acc else utoa fuel (n / 10) acc
  end.

(** The number of digits of [n] is at most its number of bits, plus one. *)
Definition utoa_fuel (n : Z) : nat := S (Z.to_nat (Z.log2 n)).

Definition Itoa (n : Z) : string :=
  if bool_decide (n < 0)%Z
  then String "-" (utoa (utoa_fuel (- n)) (- n) EmptyString)
  else utoa (utoa_fuel n) n EmptyString.

End strconv.

(** * Strings *)

(** [strings.Index(s, substr)] *)
Definition strings_Index (s substr : string) : Z :=
  match String.index 0 substr s with
  | Some n => Z.of_nat n
  | None => -1
  end.

(** [len(s)] *)
Definition len (s : string) : Z := Z.of_nat (String.length s).

(** The slice expression [s[lo:hi]], for [0 <= lo <= hi <= len(s)]. *)
Definition slice (s : string) (lo hi : Z) : string :=
  String.substring (Z.to_nat lo) (Z.to_nat (hi - lo)) s.

(** The slice between two others. *)
Lemma slice_app s1 s2 s3 lo hi :
  lo = len s1 → hi = (lo + len s2) → slice (s1 +:+ s2 +:+ s3) lo hi = s2.
Proof.
  intros -> ->. unfold slice, len. rewrite Nat2Z.id.
  replace (Z.to_nat _) with (String.length s2) by lia. apply substring_middle.
Qed.

Lemma len_app s1 s2 : len (s1 +:+ s2) = (len s1 + len s2).
Proof. unfold len. rewrite str_length_app. lia. Qed.

Lemma strings_Index_none c s :
  str_mem c s = false → strings_Index s (String c "") = (-1)%Z.
Proof. intros H. unfold strings_Index. by rewrite index_char_none. Qed.

Lemma strings_Index_app c s1 s2 :
  str_mem c s1 = false → strings_Index (s1 +:+ String c s2) (String c "") = len s1.
Proof. intros H. unfold strings_Index. by rewrite index_char_app. Qed.

Lemma strings_Index_some c s :
  strings_Index s (String c "") ≠ (-1)%Z → ∃ s1 s2, s = s1 +:+ String c s2 ∧ str_mem c s1 = false.
Proof.
  intros H. destruct (str_mem c s) eqn:Hm; [clear H|by rewrite strings_Index_none in H].
  induction s as [|d s IH]; simpl in Hm; [done|].
  case_bool_decide as Hd; [subst; by exists "", s|]. simpl in Hm.
  destruct (IH Hm) as (s1 & s2 & -> & Hs1). exists (String d s1), s2. split; [done|].
  simpl. by rewrite bool_decide_eq_false_2.
Qed.

(** * Time *)

Module time.

Definition Second : Z := 1000000000.
Definition Minute : Z := 60 * Second.

(** [t.Sub(u)]: the difference in nanoseconds, saturated to a [Duration]. *)
Definition Sub (t u : Z) : Z := Z.max minInt64 (Z.min maxInt64 (t - u)).

End time.

(** * Maps from strings to strings, with Go's nil map *)

Abbreviation gomap := (option (gmap string string)).

(** [m[k]]: the zero value when the key is missing or the map is nil. *)
Definition map_get (m : gomap) (k : string) : string :=
  default "" (m ≫= lookup k).

(** [v, ok := m[k]] *)
Definition map_get_ok (m : gomap) (k : string) : string * bool :=
  match m ≫= lookup k with
  | Some v => (v, true)
  | None => ("", false)
  end.

(** [m[k] = v]: writing to a nil map panics, here [None]. *)
Definition map_set (m : gomap) (k v : string) : option gomap :=
  (λ g, Some (<[k:=v]> g)) <$> m.

(** [delete(m, k)]: a no-op on a nil map. *)
Definition map_delete (m : gomap) (k : string) : gomap := delete k <$> m.

(** * hash/fnv *)

Module fnv.

Definition offset32 : Z := 2166136261.
Definition prime32 : Z := 16777619.

(** One byte of FNV-1a: [hash ^= c; hash *= prime32], in [uint32]. *)
Definition step32a (hash : Z) (c : ascii) : Z :=
  to_uint32 (Z.lxor hash (Z.of_nat (nat_of_ascii c)) * prime32).

(** [h := fnv.New32a(); h.Write(data); h.Sum32()] *)
Fixpoint write32a (hash : Z) (data : string) : Z :=
  match data with
  | EmptyString => hash
  | String c data => write32a (step32a hash c) data
  end.

Definition Sum32a (data : string) : Z := write32a offset32 data.

End fnv.

(** * Sorting *)

(** [sort.Slice] sorts by a strict weak order, without a guarantee on the
    order of equal elements, which changes between versions of Go; so it is any
    function of the slice that does so. *)
Class SortSlice := {
  sort_Slice {A} (less : A → A → bool) : list A → list A;
  sort_Slice_Permutation {A} (less : A → A → bool) l : sort_Slice less l ≡ₚ l;
  sort_Slice_Sorted {A} (less : A → A → bool) l :
    (∀ x y z, less y x = false → less z y = false → less z x = false) →
    (∀ x y, less x y = true → less y x = false) →
    Sorted (λ x y, less y x = false) (sort_Slice less l) }.

(** Insertion sort, which [sort.Slice] uses on short slices. *)
Section insertion_sort.
Context {A : Type} (less : A → A → bool).

Fixpoint sort_insert (x : A) (l : list A) : list A :=
  match l with
  | [] => [x]
  | y :: l => if less y x then y :: sort_insert x l else x :: y :: l
  end.

Definition insertion_sort (l : list A) : list A := foldr sort_insert [] l.

Lemma sort_insert_Permutation x l : sort_insert x l ≡ₚ x :: l.
Proof.
  induction l as [|y l IH]; [done|]. simpl. destruct (less y x); [|done].
  rewrite IH. apply Permutation_swap.
Qed.

Lemma sort_insert_Sorted x l :
  (∀ x y, less x y = true → less y x = false) →
  Sorted (λ x y, less y x = false) l → Sorted (λ x y, less y x = false) (sort_insert x l).
Proof.
  intros Hasym. induction 1 as [|y l Hl IH Hhd]; simpl; [by repeat constructor|].
  destruct (less y x) eqn:Hyx; [|by repeat constructor].
  constructor; [done|]. destruct l as [|z l]; simpl; [constructor; auto|].
  destruct (less z x); constructor; [by inversion Hhd|auto].
Qed.

End insertion_sort.

#[export] Instance insertion_SortSlice : SortSlice.
Proof.
  refine {| sort_Slice A less l := insertion_sort less l |}; intros A less l.
  - induction l as [|x l IH]; [done|]. simpl. by rewrite sort_insert_Permutation, IH.
  - intros _ Hasym. induction l as [|x l IH]; simpl; [constructor|]. by apply sort_insert_Sorted.
Defined.

(** * Lemmas *)

Lemma time_Sub_bounds t u : (minInt64 ≤ time.Sub t u ≤ maxInt64)%Z.
Proof. unfold time.Sub, minInt64, maxInt64. lia. Qed.

Lemma time_Sub_exact t u :
  (minInt64 ≤ t - u ≤ maxInt64)%Z → time.Sub t u = (t - u)%Z.
Proof. unfold time.Sub. lia. Qed.

Lemma to_uint32_bounds z : (0 ≤ to_uint32 z < 2 ^ 32)%Z.
Proof. apply Z.mod_pos_bound. lia. Qed.

Lemma write32a_app h a b :
  fnv.write32a h (a ++ b) = fnv.write32a (fnv.write32a h a) b.
Proof. revert h. induction a as [|c a IH]; intros h; simpl; [done|apply IH]. Qed.

Lemma write32a_bounds data h :
  (0 ≤ h < 2 ^ 32)%Z → (0 ≤ fnv.write32a h data < 2 ^ 32)%Z.
Proof.
  revert h. induction data as [|c data IH]; intros h Hh; simpl; [done|].
  apply IH, to_uint32_bounds.
Qed.

Lemma Sum32a_bounds data : (0 ≤ fnv.Sum32a data < 2 ^ 32)%Z.
Proof. apply write32a_bounds. unfold fnv.offset32. lia. Qed.

Lemma map_get_insert (m : gmap string string) k v : map_get (Some (<[k:=v]> m)) k = v.
Proof. unfold map_get. simpl. by rewrite lookup_insert_eq. Qed.

(** The published FNV-1a test vectors for "", "a" and "foobar". *)
Example fnv_empty : fnv.Sum32a "" = 0x811c9dc5%Z.
Proof. vm_compute. reflexivity. Qed.
Example fnv_a : fnv.Sum32a "a" = 0xe40c292c%Z.
Proof. vm_compute. reflexivity. Qed.
Example fnv_foobar : fnv.Sum32a "foobar" = 0xbf9cf968%Z.
Proof. vm_compute. reflexivity. Qed.

(** * Decimal round trip *)

Module strconv_facts.
Import strconv.

Lemma digit_digit_char d : 0 ≤ d ≤ 9 → digit (digit_char d) = Some d.
Proof.
  intros H. unfold digit, digit_char.
  rewrite nat_ascii_embedding by lia.
  rewrite bool_decide_eq_true_2 by lia. f_equal; lia.
Qed.

Lemma parse_digits_utoa fuel n acc :
  0 ≤ n < 10 ^ Z.of_nat (S fuel) → n ≤ maxUint64 →
  parse_digits 0 (utoa (S fuel) n acc) = parse_digits n acc.
Proof.
  revert n acc. induction fuel as [|fuel IH]; intros n acc Hn Hmax.
  - change (10 ^ Z.of_nat 1) with 10 in Hn. cbn [utoa].
    rewrite bool_decide_eq_true_2 by lia. cbn [parse_digits].
    rewrite Z.mod_small by lia. rewrite digit_digit_char by lia.
    rewrite bool_decide_eq_false_2 by lia. f_equal; lia.
  - pose proof (Z.div_mod n 10 ltac:(lia)) as Hdm.
    pose proof (Z.mod_pos_bound n 10 ltac:(lia)) as Hm.
    remember (S fuel) as f eqn:Hf. cbn [utoa]. subst f.
    case_bool_decide as Hlt.
    + cbn [parse_digits]. rewrite Z.mod_small by lia.
      rewrite digit_digit_char by lia.
      rewrite bool_decide_eq_false_2 by lia. f_equal; lia.
    + rewrite IH; [|split; [apply Z.div_pos; lia|]|].
      * cbn [parse_digits]. rewrite digit_digit_char by lia.
        rewrite bool_decide_eq_false_2 by lia. f_equal; lia.
      * apply Z.div_lt_upper_bound; [lia|].
        rewrite <-Z.pow_succ_r by lia. rewrite <-Nat2Z.inj_succ. lia.
      * lia.
Qed.

(** A printed number ends with its last digit, and starts with a digit. *)
Lemma utoa_last fuel n acc :
  ∃ p, utoa (S fuel) n acc = p +:+ String (digit_char (n mod 10)) acc.
Proof.
  revert n acc. induction fuel as [|fuel IH]; intros n acc.
  - exists "". cbn [utoa]. by case_bool_decide.
  - remember (S fuel) as f eqn:Hf. cbn [utoa]. subst f.
    case_bool_decide; [by exists ""|].
    destruct (IH (n / 10) (String (digit_char (n mod 10)) acc)) as [p ->].
    exists (p +:+ String (digit_char (n / 10 mod 10)) "").
    by rewrite str_app_assoc.
Qed.

Lemma utoa_head fuel n acc :
  0 ≤ n → ∃ d r, utoa (S fuel) n acc = String (digit_char d) r ∧ 0 ≤ d ≤ 9.
Proof.
  revert n acc. induction fuel as [|fuel IH]; intros n acc Hn;
    pose proof (Z.mod_pos_bound n 10 ltac:(lia)).
  - exists (n mod 10), acc. cbn [utoa]. case_bool_decide; split; [done|lia|done|lia].
  - remember (S fuel) as f eqn:Hf. cbn [utoa]. subst f.
    case_bool_decide; [exists (n mod 10), acc; split; [done|lia]|].
    apply IH. apply Z.div_pos; lia.
Qed.

Lemma utoa_fuel_enough n : 0 ≤ n → n < 10 ^ Z.of_nat (utoa_fuel n).
Proof.
  intros Hn. unfold utoa_fuel. rewrite Nat2Z.inj_succ, Z2Nat.id by apply Z.log2_nonneg.
  destruct (decide (n = 0)) as [->|Hne]; [done|].
  pose proof (Z.log2_spec n ltac:(lia)) as [_ Hl].
  eapply Z.lt_le_trans; [exact Hl|].
  apply Z.pow_le_mono_l. lia.
Qed.

Lemma ParseUint_Itoa n :
  0 ≤ n ≤ maxUint64 → ParseUint (utoa (utoa_fuel n) n "") = inr n.
Proof.
  intros Hn. pose proof (utoa_fuel_enough n ltac:(lia)) as Hf. unfold utoa_fuel in *.
  destruct (utoa_head (Z.to_nat (Z.log2 n)) n "" ltac:(lia)) as (d & r & E & _).
  unfold ParseUint. rewrite E, <-E.
  rewrite parse_digits_utoa by lia. done.
Qed.

(** A digit is not a sign, so [Atoi] parses all of an unsigned number. *)
Lemma Atoi_digit d r :
  0 ≤ d ≤ 9 →
  Atoi (String (digit_char d) r) =
    match ParseUint (String (digit_char d) r) with
    | inl e => inl e
    | inr un => if bool_decide (maxInt64 < un) then inl ErrRange else inr un
    end.
Proof.
  intros Hd.
  assert (d = 0 ∨ d = 1 ∨ d = 2 ∨ d = 3 ∨ d = 4 ∨ d = 5 ∨ d = 6 ∨ d = 7 ∨ d = 8 ∨ d = 9)
    as Hcases by lia.
  unfold Atoi. by repeat destruct Hcases as [->|Hcases]; [..|subst d];
    vm_compute (digit_char _); cbn -[ParseUint maxInt64]; rewrite ?andb_false_r.
Qed.

(** Every 64-bit integer is read back as it was printed. *)
Lemma Atoi_Itoa n : minInt64 ≤ n ≤ maxInt64 → Atoi (Itoa n) = inr n.
Proof.
  intros Hn. unfold Itoa, minInt64, maxInt64 in *. case_bool_decide as Hneg.
  - unfold Atoi. rewrite ParseUint_Itoa by (unfold maxUint64; lia).
    cbn [negb andb]. unfold minInt64. rewrite bool_decide_eq_false_2 by lia.
    f_equal; lia.
  - pose proof (ParseUint_Itoa n ltac:(unfold maxUint64; lia)) as Hp.
    unfold utoa_fuel in *.
    destruct (utoa_head (Z.to_nat (Z.log2 n)) n "" ltac:(lia)) as (d & r & E & Hd).
    rewrite E in Hp |- *. rewrite Atoi_digit, Hp by done.
    by rewrite bool_decide_eq_false_2 by (unfold maxInt64; lia).
Qed.

Lemma Itoa_last n : 0 ≤ n → ∃ p, Itoa n = p +:+ String (digit_char (n mod 10)) "".
Proof.
  intros Hn. unfold Itoa. rewrite bool_decide_eq_false_2 by lia. apply utoa_last.
Qed.

(** A one-byte string is a number exactly when its byte is a digit. *)
Lemma Atoi_single c :
  Atoi (String c "") = match digit c with Some d => inr d | None => inl ErrSyntax end.
Proof. destruct c as [[] [] [] [] [] [] [] []]; vm_compute; reflexivity. Qed.

Lemma digit_bounds c d : digit c = Some d → 0 ≤ d ≤ 9.
Proof. unfold digit. case_bool_decide; intros; simplify_eq; lia. Qed.

End strconv_facts.
