(* ===== verification/Api.v ===== *)
(** The data of the program: the v1alpha1 API types ([src/api/v1alpha1]) and
    the fields of the Kubernetes core types the controllers read or write.

    Phases and policies are strings, as in Go: a stored object may hold any
    string there, not only the declared constants. A [metav1.Time] is the
    number of nanoseconds since the epoch; a pointer to one is an [option].
    A field of type [Opaque] stands for all the fields of a Kubernetes type
    the program only carries along. *)

From S2P Require Import Prelude.
From S2P Require Import GoLib.
From Stdlib Require Strings.Byte.

Local Open Scope Z_scope.

Definition Opaque := string.

(** * groupversion_info.go *)

Definition GroupName : string := "konfirm.goraft.tech".
Definition GroupVersion_String : string := GroupName +:+ "/" +:+ "v1alpha1".

(** * metav1 *)

Record TypeMeta := mkTypeMeta {
  APIVersion : string;
  Kind : string }.

(** [metav1.ListMeta]: carried along. *)
Definition ListMeta := Opaque.

Record OwnerReference := mkOwnerReference {
  or_APIVersion : string;
  or_Kind : string;
  or_Name : string;
  or_UID : string;
  or_Controller : option bool;
  or_BlockOwnerDeletion : option bool }.

Record ObjectMeta := mkObjectMeta {
  Name : string;
  GenerateName : string;
  Namespace : string;
  UID : string;
  Generation : Z;
  CreationTimestamp : Z;
  DeletionTimestamp : option Z;
  Labels : gomap;
  Annotations : gomap;
  OwnerReferences : list OwnerReference;
  Finalizers : list string }.

Record NamespacedName := mkNamespacedName {
  nn_Namespace : string;
  nn_Name : string }.

(** [metav1.Condition], without the [LastTransitionTime] the program never
    reads. *)
Record Condition := mkCondition {
  cond_Type : string;
  cond_Status : string;
  cond_ObservedGeneration : Z;
  cond_Reason : string;
  cond_Message : string }.

Definition ConditionTrue : string := "True".
Definition ConditionFalse : string := "False".

Definition set_Finalizers (fs : list string) (m : ObjectMeta) : ObjectMeta :=
  mkObjectMeta (Name m) (GenerateName m) (Namespace m) (UID m) (Generation m)
    (CreationTimestamp m) (DeletionTimestamp m) (Labels m) (Annotations m)
    (OwnerReferences m) fs.

Lemma set_Finalizers_same m : set_Finalizers (Finalizers m) m = m.
Proof. by destruct m. Qed.

Definition set_Labels (ls : gomap) (m : ObjectMeta) : ObjectMeta :=
  mkObjectMeta (Name m) (GenerateName m) (Namespace m) (UID m) (Generation m)
    (CreationTimestamp m) (DeletionTimestamp m) ls (Annotations m)
    (OwnerReferences m) (Finalizers m).

Definition set_Annotations (an : gomap) (m : ObjectMeta) : ObjectMeta :=
  mkObjectMeta (Name m) (GenerateName m) (Namespace m) (UID m) (Generation m)
    (CreationTimestamp m) (DeletionTimestamp m) (Labels m) an
    (OwnerReferences m) (Finalizers m).

(** * core/v1 *)

Definition PodPending : string := "Pending".
Definition PodRunning : string := "Running".
Definition PodSucceeded : string := "Succeeded".
Definition PodFailed : string := "Failed".
Definition RestartPolicyNever : string := "Never".

Record PodSpec := mkPodSpec {
  RestartPolicy : string;
  ps_rest : Opaque }.

Record PodTemplateSpec := mkPodTemplateSpec {
  pt_ObjectMeta : ObjectMeta;
  pt_Spec : PodSpec }.

(** [ContainerStatus]: its name, and [State.Terminated.Message] when
    [State.Terminated] is not nil. *)
Record ContainerStatus := mkContainerStatus {
  cs_Name : string;
  cs_Terminated : option string }.

Record PodStatus := mkPodStatus {
  pod_Phase : string;
  ContainerStatuses : list ContainerStatus }.

Record Pod := mkPod {
  pod_ObjectMeta : ObjectMeta;
  pod_Spec : PodSpec;
  pod_Status : PodStatus }.

Record Secret := mkSecret {
  secret_ObjectMeta : ObjectMeta;
  secret_Type : string }.

(** * test_types.go *)

Definition RetainPolicy := string.
Definition RetainAlways : RetainPolicy := "Always".
Definition RetainNever : RetainPolicy := "Never".
Definition RetainOnFailure : RetainPolicy := "OnFailure".

Record TestTemplate := mkTestTemplate {
  Description : string;
  tt_RetentionPolicy : RetainPolicy;
  tt_Template : PodTemplateSpec }.

Record TestSpec := mkTestSpec {
  ts_RetentionPolicy : RetainPolicy;
  ts_Template : PodTemplateSpec }.

Definition TestPhase := string.
Definition TestPending : TestPhase := "Pending".
Definition TestStarting : TestPhase := "Starting".
Definition TestRunning : TestPhase := "Running".
Definition TestPassed : TestPhase := "Passed".
Definition TestFailed : TestPhase := "Failed".
Definition TestPhaseUnknown : TestPhase := "Unknown".

Definition TestPhase_FromPodPhase (phase : string) : TestPhase :=
  if phase == PodPending then TestStarting
  else if phase == PodRunning then TestRunning
  else if phase == PodSucceeded then TestPassed
  else if phase == PodFailed then TestFailed
  else TestPending.

Definition TestPhase_IsFinal (p : TestPhase) : bool :=
  (p == TestPassed) || (p == TestFailed).

Definition TestPhase_IsSuccess (p : TestPhase) : bool := p == TestPassed.

Definition TestPhase_String (p : TestPhase) : string := p.

Record TestStatus := mkTestStatus {
  test_Conditions : list Condition;
  test_Phase : TestPhase;
  test_Messages : gomap }.

Record Test := mkTest {
  test_TypeMeta : TypeMeta;
  test_ObjectMeta : ObjectMeta;
  test_Spec : TestSpec;
  test_Status : TestStatus }.

Record TestList := mkTestList {
  testlist_TypeMeta : TypeMeta;
  testlist_ListMeta : ListMeta;
  testlist_Items : list Test }.

Definition set_test_Status (s : TestStatus) (t : Test) : Test :=
  mkTest (test_TypeMeta t) (test_ObjectMeta t) (test_Spec t) s.

(** * testrun_types.go *)

Definition TestRunPhase := string.
Definition TestRunStarting : TestRunPhase := "Starting".
Definition TestRunRunning : TestRunPhase := "Running".
Definition TestRunPassed : TestRunPhase := "Passed".
Definition TestRunFailed : TestRunPhase := "Failed".

Definition TestRunPhase_IsFinal (t : TestRunPhase) : bool :=
  (t == TestRunPassed) || (t == TestRunFailed).

Record TestRunSpec := mkTestRunSpec {
  trs_RetentionPolicy : RetainPolicy;
  trs_Tests : list TestTemplate }.

Record TestResult := mkTestResult {
  tr_Description : string;
  tr_Passed : bool;
  tr_Test : string }.

Record TestRunStatus := mkTestRunStatus {
  run_Conditions : list Condition;
  run_Phase : TestRunPhase;
  run_Message : string;
  run_Results : list TestResult }.

Record TestRun := mkTestRun {
  run_TypeMeta : TypeMeta;
  run_ObjectMeta : ObjectMeta;
  run_Spec : TestRunSpec;
  run_Status : TestRunStatus }.

Record TestRunList := mkTestRunList {
  runlist_TypeMeta : TypeMeta;
  runlist_ListMeta : ListMeta;
  runlist_Items : list TestRun }.

Definition set_run_Status (s : TestRunStatus) (t : TestRun) : TestRun :=
  mkTestRun (run_TypeMeta t) (run_ObjectMeta t) (run_Spec t) s.

(** * testsuite_types.go *)

Definition TestSuitePhase := string.
Definition TestSuitePending : TestSuitePhase := "Pending".
Definition TestSuiteReady : TestSuitePhase := "Ready".
Definition TestSuiteRunning : TestSuitePhase := "Running".
Definition TestSuiteError : TestSuitePhase := "Error".

Definition TestSuitePhase_IsPending (p : TestSuitePhase) : bool := p == TestSuitePending.
Definition TestSuitePhase_IsReady (p : TestSuitePhase) : bool := p == TestSuiteReady.
Definition TestSuitePhase_IsRunning (p : TestSuitePhase) : bool := p == TestSuiteRunning.
Definition TestSuitePhase_IsError (p : TestSuitePhase) : bool := p == TestSuitePending.

Record TestSuiteHelmTrigger := mkTestSuiteHelmTrigger {
  ht_Release : string }.

Record TestSuiteTriggers := mkTestSuiteTriggers {
  Schedule : string;
  HelmRelease : string }.

Record TestSuiteHelmSetUp := mkTestSuiteHelmSetUp {
  SecretName : string;
  ChartKey : string;
  ValuesKey : string }.

Record TestSuiteSetUp := mkTestSuiteSetUp {
  Helm : TestSuiteHelmSetUp }.

Record TestSuiteSpec := mkTestSuiteSpec {
  HistoryLimit : Byte.byte;
  SetUp : TestSuiteSetUp;
  suite_Template : TestRunSpec;
  When : TestSuiteTriggers }.

Record TestSuiteTrigger := mkTestSuiteTrigger {
  NeedsRun : bool }.

Record TestSuiteStatus := mkTestSuiteStatus {
  suite_Conditions : list Condition;
  suite_Phase : TestSuitePhase;
  CurrentTestRun : string;
  NextRun : option Z }.

Record TestSuite := mkTestSuite {
  suite_TypeMeta : TypeMeta;
  suite_ObjectMeta : ObjectMeta;
  suite_Spec : TestSuiteSpec;
  suite_Trigger : TestSuiteTrigger;
  suite_Status : TestSuiteStatus }.

Record TestSuiteList := mkTestSuiteList {
  suitelist_TypeMeta : TypeMeta;
  suitelist_ListMeta : ListMeta;
  suitelist_Items : list TestSuite }.

Definition set_suite_Status (s : TestSuiteStatus) (t : TestSuite) : TestSuite :=
  mkTestSuite (suite_TypeMeta t) (suite_ObjectMeta t) (suite_Spec t) (suite_Trigger t) s.

Definition set_suite_Trigger (g : TestSuiteTrigger) (t : TestSuite) : TestSuite :=
  mkTestSuite (suite_TypeMeta t) (suite_ObjectMeta t) (suite_Spec t) g (suite_Status t).

Definition set_suite_ObjectMeta (m : ObjectMeta) (t : TestSuite) : TestSuite :=
  mkTestSuite (suite_TypeMeta t) m (suite_Spec t) (suite_Trigger t) (suite_Status t).

(** * helmpolicy_types.go *)

Record HelmPolicySpec := mkHelmPolicySpec {
  ExportTo : list string }.

Record HelmPolicy := mkHelmPolicy {
  policy_TypeMeta : TypeMeta;
  policy_ObjectMeta : ObjectMeta;
  policy_Spec : HelmPolicySpec }.

Record HelmPolicyList := mkHelmPolicyList {
  policylist_TypeMeta : TypeMeta;
  policylist_ListMeta : ListMeta;
  policylist_Items : list HelmPolicy }.

(** * The kinds of objects the client handles *)

Inductive kind := KPod | KTest | KTestRun | KTestSuite | KHelmPolicy | KSecret.

Definition obj (k : kind) : Type :=
  match k with
  | KPod => Pod
  | KTest => Test
  | KTestRun => TestRun
  | KTestSuite => TestSuite
  | KHelmPolicy => HelmPolicy
  | KSecret => Secret
  end.

(** [client.Object]: what every object offers by embedding an [ObjectMeta].
    The laws say that it is a field of the object. *)
Class ClientObject (k : kind) := {
  GetObjectMeta : obj k → ObjectMeta;
  SetObjectMeta : ObjectMeta → obj k → obj k;
  Get_SetObjectMeta m o : GetObjectMeta (SetObjectMeta m o) = m;
  Set_GetObjectMeta o : SetObjectMeta (GetObjectMeta o) o = o;
  Set_SetObjectMeta m n o : SetObjectMeta m (SetObjectMeta n o) = SetObjectMeta m o }.

#[export] Instance Pod_Object : ClientObject KPod.
Proof.
  refine {| GetObjectMeta := pod_ObjectMeta : obj KPod → _;
    SetObjectMeta m (p : obj KPod) := mkPod m (pod_Spec p) (pod_Status p) |};
    by intros; repeat match goal with o : obj _ |- _ => destruct o end.
Defined.

#[export] Instance Test_Object : ClientObject KTest.
Proof.
  refine {| GetObjectMeta := test_ObjectMeta : obj KTest → _;
    SetObjectMeta m (t : obj KTest) :=
      mkTest (test_TypeMeta t) m (test_Spec t) (test_Status t) |};
    by intros; repeat match goal with o : obj _ |- _ => destruct o end.
Defined.

#[export] Instance TestRun_Object : ClientObject KTestRun.
Proof.
  refine {| GetObjectMeta := run_ObjectMeta : obj KTestRun → _;
    SetObjectMeta m (t : obj KTestRun) :=
      mkTestRun (run_TypeMeta t) m (run_Spec t) (run_Status t) |};
    by intros; repeat match goal with o : obj _ |- _ => destruct o end.
Defined.

#[export] Instance TestSuite_Object : ClientObject KTestSuite.
Proof.
  refine {| GetObjectMeta := suite_ObjectMeta : obj KTestSuite → _;
    SetObjectMeta m (t : obj KTestSuite) := set_suite_ObjectMeta m t |};
    by intros; repeat match goal with o : obj _ |- _ => destruct o end.
Defined.

#[export] Instance HelmPolicy_Object : ClientObject KHelmPolicy.
Proof.
  refine {| GetObjectMeta := policy_ObjectMeta : obj KHelmPolicy → _;
    SetObjectMeta m (t : obj KHelmPolicy) := mkHelmPolicy (policy_TypeMeta t) m (policy_Spec t) |};
    by intros; repeat match goal with o : obj _ |- _ => destruct o end.
Defined.

#[export] Instance Secret_Object : ClientObject KSecret.
Proof.
  refine {| GetObjectMeta := secret_ObjectMeta : obj KSecret → _;
    SetObjectMeta m (t : obj KSecret) := mkSecret m (secret_Type t) |};
    by intros; repeat match goal with o : obj _ |- _ => destruct o end.
Defined.

(** The accessors the interface derives from the metadata. *)
Section accessors.
Context {k : kind} `{!ClientObject k}.
Implicit Types o : obj k.

Definition GetName o : string := Name (GetObjectMeta o).
Definition GetNamespace o : string := Namespace (GetObjectMeta o).
Definition GetDeletionTimestamp o : option Z := DeletionTimestamp (GetObjectMeta o).
Definition GetFinalizers o : list string := Finalizers (GetObjectMeta o).
Definition SetFinalizers (fs : list string) o : obj k :=
  SetObjectMeta (set_Finalizers fs (GetObjectMeta o)) o.

(** [obj.GetDeletionTimestamp() != nil] *)
Definition is_deleted o : bool :=
  match GetDeletionTimestamp o with Some _ => true | None => false end.

Lemma GetFinalizers_SetFinalizers fs o : GetFinalizers (SetFinalizers fs o) = fs.
Proof. unfold GetFinalizers, SetFinalizers. by rewrite Get_SetObjectMeta. Qed.

Lemma GetDeletionTimestamp_SetFinalizers fs o :
  GetDeletionTimestamp (SetFinalizers fs o) = GetDeletionTimestamp o.
Proof. unfold GetDeletionTimestamp, SetFinalizers. by rewrite Get_SetObjectMeta. Qed.

Lemma GetName_SetFinalizers fs o : GetName (SetFinalizers fs o) = GetName o.
Proof. unfold GetName, SetFinalizers. by rewrite Get_SetObjectMeta. Qed.

Lemma SetFinalizers_same o : SetFinalizers (GetFinalizers o) o = o.
Proof.
  unfold SetFinalizers, GetFinalizers.
  rewrite set_Finalizers_same. apply Set_GetObjectMeta.
Qed.

Lemma SetFinalizers_twice fs gs o :
  SetFinalizers fs (SetFinalizers gs o) = SetFinalizers fs o.
Proof.
  unfold SetFinalizers. rewrite Get_SetObjectMeta, Set_SetObjectMeta.
  by destruct (GetObjectMeta o).
Qed.

End accessors.

#[export] Hint Rewrite @GetFinalizers_SetFinalizers @GetDeletionTimestamp_SetFinalizers
  @GetName_SetFinalizers @SetFinalizers_same @SetFinalizers_twice : konfirm.

(** * GetObjects *)

(** [TestList.GetObjects], [TestRunList.GetObjects] and
    [TestSuiteList.GetObjects]: pointers to the items of the list, in order.
    A pointer to item [i] is its index. *)
Definition GetObjects {k : kind} (items : list (obj k)) : list nat :=
  seq 0 (length items).

Definition TestList_GetObjects (l : TestList) : list nat :=
  GetObjects (k:=KTest) (testlist_Items l).
Definition TestRunList_GetObjects (l : TestRunList) : list nat :=
  GetObjects (k:=KTestRun) (runlist_Items l).
Definition TestSuiteList_GetObjects (l : TestSuiteList) : list nat :=
  GetObjects (k:=KTestSuite) (suitelist_Items l).
