(* ===== verification/DeepCopy.v ===== *)
(** [src/api/v1alpha1/zz_generated.deepcopy.go]: the deep copies of the API
    types, on a heap.

    Everywhere else in this library an object is a value, and
    [orig := suite.DeepCopy()] is [let orig := suite]. In Go an object is a
    struct whose slices, maps and pointers lead into the heap, where a copy may
    share them with its original. Here structs are records over locations
    ([Test_], [TestRunSpec_], ...), and [owns h r v L] says that in the heap
    [h] the struct [r] holds the value [v] of [Api], for which it reads the
    cells [L]. The theorems show that a deep copy holds the same value and
    shares no cell with its original, so that writes through one are not seen
    through the other, which is what the other files rely on.

    The types of apimachinery and core/v1 are library types, with library deep
    copies: the class [Library] has the types, and [LibraryCopies] the
    documented behaviour of their methods. *)

From S2P Require Import Prelude.
From S2P Require Import GoLib.
From S2P Require Import Api.

(** * The heap *)

Definition loc := nat.

(** A slice is nil, or an array and a length. *)
Definition slice := option (loc * nat).

(** The structs of the library types, and what their methods keep on the heap. *)
Class Library := {
  ObjectMeta_ : Type;
  ListMeta_ : Type;
  PodTemplateSpec_ : Type;
  Condition_ : Type;
  LibCell : Type }.

(** ** The structs of the package *)

Record HelmPolicySpec_ := mkHelmPolicySpec_ { ExportTo_ : slice }.

Record TestRunStatus_ := mkTestRunStatus_ {
  run_Conditions_ : slice;
  run_Phase_ : TestRunPhase;
  run_Message_ : string;
  run_Results_ : slice }.

Record TestRunSpec_ := mkTestRunSpec_ {
  trs_RetentionPolicy_ : RetainPolicy;
  trs_Tests_ : slice }.

Record TestStatus_ := mkTestStatus_ {
  test_Conditions_ : slice;
  test_Phase_ : TestPhase;
  test_Messages_ : option loc }.

Record TestSuiteSpec_ := mkTestSuiteSpec_ {
  HistoryLimit_ : Byte.byte;
  SetUp_ : TestSuiteSetUp;
  suite_Template_ : TestRunSpec_;
  When_ : TestSuiteTriggers }.

Record TestSuiteStatus_ := mkTestSuiteStatus_ {
  suite_Conditions_ : slice;
  suite_Phase_ : TestSuitePhase;
  CurrentTestRun_ : string;
  NextRun_ : option loc }.

Section structs.
Context `{Lib : Library}.

Record HelmPolicy_ := mkHelmPolicy_ {
  policy_TypeMeta_ : TypeMeta;
  policy_ObjectMeta_ : ObjectMeta_;
  policy_Spec_ : HelmPolicySpec_ }.

Record TestTemplate_ := mkTestTemplate_ {
  Description_ : string;
  tt_RetentionPolicy_ : RetainPolicy;
  tt_Template_ : PodTemplateSpec_ }.

Record TestSpec_ := mkTestSpec_ {
  ts_RetentionPolicy_ : RetainPolicy;
  ts_Template_ : PodTemplateSpec_ }.

Record Test_ := mkTest_ {
  test_TypeMeta_ : TypeMeta;
  test_ObjectMeta_ : ObjectMeta_;
  test_Spec_ : TestSpec_;
  test_Status_ : TestStatus_ }.

Record TestRun_ := mkTestRun_ {
  run_TypeMeta_ : TypeMeta;
  run_ObjectMeta_ : ObjectMeta_;
  run_Spec_ : TestRunSpec_;
  run_Status_ : TestRunStatus_ }.

Record TestSuite_ := mkTestSuite_ {
  suite_TypeMeta_ : TypeMeta;
  suite_ObjectMeta_ : ObjectMeta_;
  suite_Spec_ : TestSuiteSpec_;
  suite_Trigger_ : TestSuiteTrigger;
  suite_Status_ : TestSuiteStatus_ }.

(** [HelmPolicyList], [TestList], [TestRunList] and [TestSuiteList]. *)
Record List_ := mkList_ {
  list_TypeMeta_ : TypeMeta;
  list_ListMeta_ : ListMeta_;
  list_Items_ : slice }.

(** ** Cells *)

(** The element types of the arrays. A pointer to a struct leads to an array
    of one. *)
Inductive code :=
| CString | CTime | CCondition
| CHelmPolicy | CHelmPolicyList | CHelmPolicySpec
| CTest | CTestList | CTestSpec | CTestStatus | CTestTemplate | CTestResult
| CTestRun | CTestRunList | CTestRunSpec | CTestRunStatus
| CTestSuite | CTestSuiteList | CTestSuiteSpec | CTestSuiteStatus
| CTestSuiteSetUp | CTestSuiteHelmSetUp | CTestSuiteHelmTrigger
| CTestSuiteTrigger | CTestSuiteTriggers.

#[export] Instance code_eq_dec : EqDecision code.
Proof. solve_decision. Defined.

Definition interp (c : code) : Type :=
  match c with
  | CString => string | CTime => Z | CCondition => Condition_
  | CHelmPolicy => HelmPolicy_ | CHelmPolicyList => List_ | CHelmPolicySpec => HelmPolicySpec_
  | CTest => Test_ | CTestList => List_ | CTestSpec => TestSpec_ | CTestStatus => TestStatus_
  | CTestTemplate => TestTemplate_ | CTestResult => TestResult
  | CTestRun => TestRun_ | CTestRunList => List_ | CTestRunSpec => TestRunSpec_
  | CTestRunStatus => TestRunStatus_
  | CTestSuite => TestSuite_ | CTestSuiteList => List_ | CTestSuiteSpec => TestSuiteSpec_
  | CTestSuiteStatus => TestSuiteStatus_ | CTestSuiteSetUp => TestSuiteSetUp
  | CTestSuiteHelmSetUp => TestSuiteHelmSetUp | CTestSuiteHelmTrigger => TestSuiteHelmTrigger
  | CTestSuiteTrigger => TestSuiteTrigger | CTestSuiteTriggers => TestSuiteTriggers
  end.

Inductive cell :=
| Array (c : code) (xs : list (interp c))
| Map (m : gmap string string)
| LibraryCell (x : LibCell).

End structs.

Abbreviation heap := (gmap loc cell).

(** ** Programs on the heap *)

Section programs.
Context `{Lib : Library}.

(** [None] is a dereference of nil or of a location of another type. *)
Definition st (A : Type) := heap → option (A * heap).

Definition ret {A} (a : A) : st A := λ h, Some (a, h).
Definition then_ {A B} (m : st A) (f : A → st B) : st B := λ h,
  match m h with Some (a, h) => f a h | None => None end.

Definition alloc (x : cell) : st loc := λ h,
  let l := fresh (dom h) in Some (l, <[l := x]> h).

Definition load (c : code) (l : loc) : st (list (interp c)) := λ h,
  match h !! l with
  | Some (Array c' xs) =>
      match decide (c' = c) with
      | left e => Some (eq_rect c' (λ c, list (interp c)) xs c e, h)
      | right _ => None
      end
  | _ => None
  end.

Definition load_map (l : loc) : st (gmap string string) := λ h,
  match h !! l with Some (Map m) => Some (m, h) | _ => None end.

End programs.

Notation "'let+' x := m 'in' f" := (then_ m (λ x, f))
  (at level 10, x name, m at level 200, f at level 200) : go_scope.

(** * The generated functions *)

(** The deep copies of the library types. *)
Class LibraryMethods `{Lib : Library} := {
  ObjectMeta_DeepCopyInto : ObjectMeta_ → st ObjectMeta_;
  ListMeta_DeepCopyInto : ListMeta_ → st ListMeta_;
  PodTemplateSpec_DeepCopyInto : PodTemplateSpec_ → st PodTemplateSpec_;
  Condition_DeepCopyInto : Condition_ → st Condition_;
  (** [metav1.Time.DeepCopy] of a pointer that is not nil. *)
  Time_DeepCopy : loc → st loc }.

Section functions.
Context `{Lib : Library} `{LM : !LibraryMethods}.

(** [for i := range *in { ( *in)[i].DeepCopyInto(&( *out)[i]) }]: nothing else
    sees the new array before it is filled. *)
Fixpoint copy_items {R} (into : R → st R) (xs : list R) : st (list R) :=
  match xs with
  | [] => ret []
  | x :: xs => let+ y := into x in let+ ys := copy_items into xs in ret (y :: ys)
  end.

(** [if in.F != nil { *out = make([]T, len( *in)); ... }] *)
Definition copy_slice (c : code) (into : interp c → st (interp c)) (s : slice) : st slice :=
  match s with
  | None => ret None
  | Some (l, n) =>
      let+ xs := load c l in
      let+ ys := copy_items into (take n xs) in
      let+ l := alloc (Array c ys) in
      ret (Some (l, n))
  end.

(** The same with [copy( *out, *in)] in place of the loop. *)
Definition copy_plain (c : code) : slice → st slice := copy_slice c ret.

(** [make(map[string]string, len( *in))], and the loop that inserts the entries. *)
Definition copy_map (m : option loc) : st (option loc) :=
  match m with
  | None => ret None
  | Some l => let+ m := load_map l in
      let+ l := alloc (Map (map_fold (λ key val out, <[key := val]> out) ∅ m)) in
      ret (Some l)
  end.

(** The body of every [DeepCopy]: nil for nil, or a new struct. *)
Definition copy_pointer (c : code) (into : interp c → st (interp c)) (in_ : option loc) :
    st (option loc) :=
  match in_ with
  | None => ret None
  | Some l =>
      let+ xs := load c l in
      match xs with
      | [x] => let+ out := into x in let+ l := alloc (Array c [out]) in ret (Some l)
      | _ => λ _, None
      end
  end.

(** The body of every [DeepCopyObject]: an interface value holds the type with
    the pointer, and is nil for nil. *)
Definition copy_object (c : code) (copy : option loc → st (option loc)) (in_ : option loc) :
    st (option (code * loc)) :=
  let+ out := copy in_ in
  ret (match out with Some l => Some (c, l) | None => None end).

(** ** [DeepCopyInto] *)

(** [*out = *in], for a struct without references. *)
Definition TestResult_DeepCopyInto (in_ : TestResult) : st TestResult := ret in_.
Definition TestSuiteHelmSetUp_DeepCopyInto (in_ : TestSuiteHelmSetUp) : st TestSuiteHelmSetUp := ret in_.
Definition TestSuiteHelmTrigger_DeepCopyInto (in_ : TestSuiteHelmTrigger) : st TestSuiteHelmTrigger := ret in_.
Definition TestSuiteSetUp_DeepCopyInto (in_ : TestSuiteSetUp) : st TestSuiteSetUp := ret in_.
Definition TestSuiteTrigger_DeepCopyInto (in_ : TestSuiteTrigger) : st TestSuiteTrigger := ret in_.
Definition TestSuiteTriggers_DeepCopyInto (in_ : TestSuiteTriggers) : st TestSuiteTriggers := ret in_.

Definition HelmPolicySpec_DeepCopyInto (in_ : HelmPolicySpec_) : st HelmPolicySpec_ :=
  let+ exportTo := copy_plain CString (ExportTo_ in_) in
  ret (mkHelmPolicySpec_ exportTo).

Definition HelmPolicy_DeepCopyInto (in_ : HelmPolicy_) : st HelmPolicy_ :=
  let+ meta := ObjectMeta_DeepCopyInto (policy_ObjectMeta_ in_) in
  let+ spec := HelmPolicySpec_DeepCopyInto (policy_Spec_ in_) in
  ret (mkHelmPolicy_ (policy_TypeMeta_ in_) meta spec).

Definition TestTemplate_DeepCopyInto (in_ : TestTemplate_) : st TestTemplate_ :=
  let+ template := PodTemplateSpec_DeepCopyInto (tt_Template_ in_) in
  ret (mkTestTemplate_ (Description_ in_) (tt_RetentionPolicy_ in_) template).

Definition TestSpec_DeepCopyInto (in_ : TestSpec_) : st TestSpec_ :=
  let+ template := PodTemplateSpec_DeepCopyInto (ts_Template_ in_) in
  ret (mkTestSpec_ (ts_RetentionPolicy_ in_) template).

Definition TestStatus_DeepCopyInto (in_ : TestStatus_) : st TestStatus_ :=
  let+ conditions := copy_slice CCondition Condition_DeepCopyInto (test_Conditions_ in_) in
  let+ messages := copy_map (test_Messages_ in_) in
  ret (mkTestStatus_ conditions (test_Phase_ in_) messages).

Definition Test_DeepCopyInto (in_ : Test_) : st Test_ :=
  let+ meta := ObjectMeta_DeepCopyInto (test_ObjectMeta_ in_) in
  let+ spec := TestSpec_DeepCopyInto (test_Spec_ in_) in
  let+ status := TestStatus_DeepCopyInto (test_Status_ in_) in
  ret (mkTest_ (test_TypeMeta_ in_) meta spec status).

Definition TestRunSpec_DeepCopyInto (in_ : TestRunSpec_) : st TestRunSpec_ :=
  let+ tests := copy_slice CTestTemplate TestTemplate_DeepCopyInto (trs_Tests_ in_) in
  ret (mkTestRunSpec_ (trs_RetentionPolicy_ in_) tests).

Definition TestRunStatus_DeepCopyInto (in_ : TestRunStatus_) : st TestRunStatus_ :=
  let+ conditions := copy_slice CCondition Condition_DeepCopyInto (run_Conditions_ in_) in
  let+ results := copy_plain CTestResult (run_Results_ in_) in
  ret (mkTestRunStatus_ conditions (run_Phase_ in_) (run_Message_ in_) results).

Definition TestRun_DeepCopyInto (in_ : TestRun_) : st TestRun_ :=
  let+ meta := ObjectMeta_DeepCopyInto (run_ObjectMeta_ in_) in
  let+ spec := TestRunSpec_DeepCopyInto (run_Spec_ in_) in
  let+ status := TestRunStatus_DeepCopyInto (run_Status_ in_) in
  ret (mkTestRun_ (run_TypeMeta_ in_) meta spec status).

Definition TestSuiteSpec_DeepCopyInto (in_ : TestSuiteSpec_) : st TestSuiteSpec_ :=
  let+ template := TestRunSpec_DeepCopyInto (suite_Template_ in_) in
  ret (mkTestSuiteSpec_ (HistoryLimit_ in_) (SetUp_ in_) template (When_ in_)).

Definition TestSuiteStatus_DeepCopyInto (in_ : TestSuiteStatus_) : st TestSuiteStatus_ :=
  let+ conditions := copy_slice CCondition Condition_DeepCopyInto (suite_Conditions_ in_) in
  let+ nextRun :=
    match NextRun_ in_ with
    | None => ret None
    | Some t => let+ t := Time_DeepCopy t in ret (Some t)
    end in
  ret (mkTestSuiteStatus_ conditions (suite_Phase_ in_) (CurrentTestRun_ in_) nextRun).

Definition TestSuite_DeepCopyInto (in_ : TestSuite_) : st TestSuite_ :=
  let+ meta := ObjectMeta_DeepCopyInto (suite_ObjectMeta_ in_) in
  let+ spec := TestSuiteSpec_DeepCopyInto (suite_Spec_ in_) in
  let+ status := TestSuiteStatus_DeepCopyInto (suite_Status_ in_) in
  ret (mkTestSuite_ (suite_TypeMeta_ in_) meta spec (suite_Trigger_ in_) status).

(** The lists differ in their items only. *)
Definition copy_list (c : code) (into : interp c → st (interp c)) (in_ : List_) : st List_ :=
  let+ meta := ListMeta_DeepCopyInto (list_ListMeta_ in_) in
  let+ items := copy_slice c into (list_Items_ in_) in
  ret (mkList_ (list_TypeMeta_ in_) meta items).

Definition HelmPolicyList_DeepCopyInto : List_ → st List_ := copy_list CHelmPolicy HelmPolicy_DeepCopyInto.
Definition TestList_DeepCopyInto : List_ → st List_ := copy_list CTest Test_DeepCopyInto.
Definition TestRunList_DeepCopyInto : List_ → st List_ := copy_list CTestRun TestRun_DeepCopyInto.
Definition TestSuiteList_DeepCopyInto : List_ → st List_ := copy_list CTestSuite TestSuite_DeepCopyInto.

(** ** [DeepCopy] and [DeepCopyObject] *)

Definition HelmPolicy_DeepCopy := copy_pointer CHelmPolicy HelmPolicy_DeepCopyInto.
Definition HelmPolicyList_DeepCopy := copy_pointer CHelmPolicyList HelmPolicyList_DeepCopyInto.
Definition HelmPolicySpec_DeepCopy := copy_pointer CHelmPolicySpec HelmPolicySpec_DeepCopyInto.
Definition Test_DeepCopy := copy_pointer CTest Test_DeepCopyInto.
Definition TestList_DeepCopy := copy_pointer CTestList TestList_DeepCopyInto.
Definition TestResult_DeepCopy := copy_pointer CTestResult TestResult_DeepCopyInto.
Definition TestRun_DeepCopy := copy_pointer CTestRun TestRun_DeepCopyInto.
Definition TestRunList_DeepCopy := copy_pointer CTestRunList TestRunList_DeepCopyInto.
Definition TestRunSpec_DeepCopy := copy_pointer CTestRunSpec TestRunSpec_DeepCopyInto.
Definition TestRunStatus_DeepCopy := copy_pointer CTestRunStatus TestRunStatus_DeepCopyInto.
Definition TestSpec_DeepCopy := copy_pointer CTestSpec TestSpec_DeepCopyInto.
Definition TestStatus_DeepCopy := copy_pointer CTestStatus TestStatus_DeepCopyInto.
Definition TestSuite_DeepCopy := copy_pointer CTestSuite TestSuite_DeepCopyInto.
Definition TestSuiteHelmSetUp_DeepCopy := copy_pointer CTestSuiteHelmSetUp TestSuiteHelmSetUp_DeepCopyInto.
Definition TestSuiteHelmTrigger_DeepCopy := copy_pointer CTestSuiteHelmTrigger TestSuiteHelmTrigger_DeepCopyInto.
Definition TestSuiteList_DeepCopy := copy_pointer CTestSuiteList TestSuiteList_DeepCopyInto.
Definition TestSuiteSetUp_DeepCopy := copy_pointer CTestSuiteSetUp TestSuiteSetUp_DeepCopyInto.
Definition TestSuiteSpec_DeepCopy := copy_pointer CTestSuiteSpec TestSuiteSpec_DeepCopyInto.
Definition TestSuiteStatus_DeepCopy := copy_pointer CTestSuiteStatus TestSuiteStatus_DeepCopyInto.
Definition TestSuiteTrigger_DeepCopy := copy_pointer CTestSuiteTrigger TestSuiteTrigger_DeepCopyInto.
Definition TestSuiteTriggers_DeepCopy := copy_pointer CTestSuiteTriggers TestSuiteTriggers_DeepCopyInto.
Definition TestTemplate_DeepCopy := copy_pointer CTestTemplate TestTemplate_DeepCopyInto.

Definition HelmPolicy_DeepCopyObject := copy_object CHelmPolicy HelmPolicy_DeepCopy.
Definition HelmPolicyList_DeepCopyObject := copy_object CHelmPolicyList HelmPolicyList_DeepCopy.
Definition Test_DeepCopyObject := copy_object CTest Test_DeepCopy.
Definition TestList_DeepCopyObject := copy_object CTestList TestList_DeepCopy.
Definition TestRun_DeepCopyObject := copy_object CTestRun TestRun_DeepCopy.
Definition TestRunList_DeepCopyObject := copy_object CTestRunList TestRunList_DeepCopy.
Definition TestSuite_DeepCopyObject := copy_object CTestSuite TestSuite_DeepCopy.
Definition TestSuiteList_DeepCopyObject := copy_object CTestSuiteList TestSuiteList_DeepCopy.

End functions.

(** * What a struct holds *)

(** [owns h r v L]: in the heap [h] the struct [r] holds [v], reading the
    cells [L]. *)
Class Represents `{Lib : Library} (R V : Type) := {
  owns : heap → R → V → gset loc → Prop;
  owns_dom h r v L : owns h r v L → L ⊆ dom h;
  owns_frame h h' r v L :
    (∀ l, l ∈ L → h' !! l = h !! l) → owns h r v L → owns h' r v L }.

(** A copying function returns a struct that holds the same value in new
    cells. *)
Definition copied `{Represents R V} (h : heap) (v : V) (o : option (R * heap)) : Prop :=
  ∃ r h' L, o = Some (r, h') ∧ h ⊆ h' ∧ owns h' r v L ∧ L ## dom h.

Class Copies `{Represents R V} (into : R → st R) :=
  copies h r v L : owns h r v L → copied h v (into r h).

(** A struct without references. *)
Definition plain `{Lib : Library} {A : Type} : Represents A A.
Proof.
  refine {| owns _ r v L := r = v ∧ L = ∅ |}.
  - intros h r v L [_ ->]. set_solver.
  - done.
Defined.

Section heaps.
Context `{Lib : Library}.
Implicit Types (h : heap) (l : loc) (L : gset loc).

Lemma owns_mono {R V} `{!Represents R V} h h' (r : R) (v : V) L :
  h ⊆ h' → owns h r v L → owns h' r v L.
Proof.
  intros Hh Ho. eapply owns_frame; [|exact Ho]. intros l Hl.
  apply (owns_dom _ _ _ _ Ho) in Hl. apply elem_of_dom in Hl as [x Hx].
  rewrite Hx. by eapply lookup_weaken.
Qed.

Lemma load_Array c l xs h : h !! l = Some (Array c xs) → load c l h = Some (xs, h).
Proof.
  intros Hl. unfold load. rewrite Hl. destruct (decide (c = c)) as [e|]; [|done].
  by rewrite (proof_irrel e eq_refl).
Qed.

Lemma alloc_fresh x h :
  ∃ l, alloc x h = Some (l, <[l := x]> h) ∧ l ∉ dom h ∧ h ⊆ <[l := x]> h.
Proof.
  exists (fresh (dom h)). pose proof (is_fresh (dom h)) as Hf. split_and!; [done..|].
  by apply insert_subseteq, not_elem_of_dom.
Qed.

Lemma map_fold_copy (m : gmap string string) :
  map_fold (λ key val out, <[key := val]> out) ∅ m = m.
Proof.
  apply (map_fold_weak_ind (λ out m, out = m)); [done|]. by intros key val m' out _ ->.
Qed.

(** ** Slices, maps and pointers *)

(** The items of an array, with the cells of each. *)
Inductive owns_items {R V} `{!Represents R V} h : list R → list V → gset loc → Prop :=
| owns_nil : owns_items h [] [] ∅
| owns_cons r v rs vs L L' :
    owns h r v L → owns_items h rs vs L' → owns_items h (r :: rs) (v :: vs) (L ∪ L').

Definition owns_slice (c : code) {V} `{!Represents (interp c) V} h (s : slice) (vs : list V) L : Prop :=
  match s with
  | None => vs = [] ∧ L = ∅
  | Some (l, n) => ∃ xs L', h !! l = Some (Array c xs) ∧ n ≤ length xs ∧
      owns_items h (take n xs) vs L' ∧ L = {[ l ]} ∪ L'
  end.

Definition owns_map h (m : option loc) (v : gomap) L : Prop :=
  match m with
  | None => v = None ∧ L = ∅
  | Some l => ∃ m, h !! l = Some (Map m) ∧ v = Some m ∧ L = {[ l ]}
  end.

Definition owns_pointer (c : code) {V} `{!Represents (interp c) V} h (p : option loc) (v : option V) L : Prop :=
  match p with
  | None => v = None ∧ L = ∅
  | Some l => ∃ x v' L', h !! l = Some (Array c [x]) ∧ v = Some v' ∧ owns h x v' L' ∧ L = {[ l ]} ∪ L'
  end.

Lemma owns_items_dom {R V} `{!Represents R V} h (rs : list R) (vs : list V) L :
  owns_items h rs vs L → L ⊆ dom h.
Proof. induction 1 as [|r v rs vs L L' Hr _ IH]; [set_solver|]. apply owns_dom in Hr. set_solver. Qed.

Lemma owns_items_frame {R V} `{!Represents R V} h h' (rs : list R) (vs : list V) L :
  (∀ l, l ∈ L → h' !! l = h !! l) → owns_items h rs vs L → owns_items h' rs vs L.
Proof.
  intros Hh Ho. induction Ho as [|r v rs vs L L' Hr Ho IH]; [constructor|]. constructor.
  - eapply owns_frame; [|done]. set_solver.
  - apply IH. set_solver.
Qed.

Lemma owns_slice_dom c {V} `{!Represents (interp c) V} h s (vs : list V) L :
  owns_slice c h s vs L → L ⊆ dom h.
Proof.
  destruct s as [[l n]|]; simpl; [|by intros [_ ->]; set_solver].
  intros (xs & L' & Hl & _ & Ho%owns_items_dom & ->). apply elem_of_dom_2 in Hl. set_solver.
Qed.

Lemma owns_slice_frame c {V} `{!Represents (interp c) V} h h' s (vs : list V) L :
  (∀ l, l ∈ L → h' !! l = h !! l) → owns_slice c h s vs L → owns_slice c h' s vs L.
Proof.
  intros Hh. destruct s as [[l n]|]; simpl; [|done].
  intros (xs & L' & Hl & Hn & Ho & ->). exists xs, L'. split_and!; [|done| |done].
  - rewrite Hh; [done|set_solver].
  - eapply owns_items_frame; [|done]. set_solver.
Qed.

Lemma owns_map_dom h m v L : owns_map h m v L → L ⊆ dom h.
Proof.
  destruct m as [l|]; simpl; [|by intros [_ ->]; set_solver].
  intros (m & Hl & _ & ->). apply elem_of_dom_2 in Hl. set_solver.
Qed.

Lemma owns_map_frame h h' m v L :
  (∀ l, l ∈ L → h' !! l = h !! l) → owns_map h m v L → owns_map h' m v L.
Proof.
  intros Hh. destruct m as [l|]; simpl; [|done]. intros (m & Hl & -> & ->).
  exists m. by rewrite Hh by set_solver.
Qed.

Lemma owns_pointer_dom c {V} `{!Represents (interp c) V} h p (v : option V) L :
  owns_pointer c h p v L → L ⊆ dom h.
Proof.
  destruct p as [l|]; simpl; [|by intros [_ ->]; set_solver].
  intros (x & v' & L' & Hl & _ & Ho%owns_dom & ->). apply elem_of_dom_2 in Hl. set_solver.
Qed.

Lemma owns_pointer_frame c {V} `{!Represents (interp c) V} h h' p (v : option V) L :
  (∀ l, l ∈ L → h' !! l = h !! l) → owns_pointer c h p v L → owns_pointer c h' p v L.
Proof.
  intros Hh. destruct p as [l|]; simpl; [|done]. intros (x & v' & L' & Hl & -> & Ho & ->).
  exists x, v', L'. split_and!; [|done| |done].
  - rewrite Hh; [done|set_solver].
  - eapply owns_frame; [|done]. set_solver.
Qed.

(** ** Copies *)

(** The copy of a field, after those of others: what the original holds is
    still there. *)
Lemma copied_field {R V} `{!Represents R V} {R' V'} `{!Represents R' V'}
    (into : R → st R) `{!Copies into} h0 h r (v : V) L (v' : V') (f : R → st R') :
  owns h0 r v L → h0 ⊆ h →
  (∀ r h' M, h ⊆ h' → h0 ⊆ h' → owns h' r v M → M ## dom h0 → copied h0 v' (f r h')) →
  copied h0 v' (then_ (into r) f h).
Proof.
  intros Ho H0 Hf. destruct (copies h r v L) as (y & h1 & M & Hy & Hh1 & Hoy & HM);
    [by eapply owns_mono|].
  unfold then_. rewrite Hy. eapply Hf; [done|by trans h|done|].
  apply subseteq_dom in H0. set_solver.
Qed.

Lemma copied_ret {R V} `{!Represents R V} h h' (r : R) (v : V) L :
  h ⊆ h' → owns h' r v L → L ## dom h → copied h v (ret r h').
Proof. intros. by exists r, h', L. Qed.

Lemma dom_trans h h' L : h ⊆ h' → L ## dom h' → L ## dom h.
Proof. intros Hh%subseteq_dom HL. set_solver. Qed.

Lemma owns_items_mono {R V} `{!Represents R V} h h' (rs : list R) (vs : list V) L :
  h ⊆ h' → owns_items h rs vs L → owns_items h' rs vs L.
Proof.
  intros Hh Ho. eapply owns_items_frame; [|exact Ho]. intros l Hl.
  apply (owns_items_dom _ _ _ _ Ho) in Hl. apply elem_of_dom in Hl as [x Hx].
  rewrite Hx. by eapply lookup_weaken.
Qed.

Lemma copy_items_copied {R V} `{!Represents R V} (into : R → st R) `{!Copies into} h rs (vs : list V) L :
  owns_items h rs vs L →
  ∃ ys h' M, copy_items into rs h = Some (ys, h') ∧ h ⊆ h' ∧ owns_items h' ys vs M ∧
    M ## dom h ∧ length ys = length rs.
Proof.
  revert h vs L. induction rs as [|r rs IH]; intros h vs L Ho; inversion Ho; subst; simpl.
  { exists [], h, ∅. split_and!; [done|done|constructor|set_solver|done]. }
  destruct (copies h r v L0 ltac:(done)) as (y & h1 & M1 & Hy & Hh1 & Hoy & HM1).
  destruct (IH h1 vs0 L') as (ys & h2 & M2 & Hys & Hh2 & Hoys & HM2 & Hlen);
    [by eapply owns_items_mono|].
  exists (y :: ys), h2, (M1 ∪ M2). unfold then_. rewrite Hy, Hys. split_and!.
  - done.
  - by trans h1.
  - constructor; [by eapply owns_mono|done].
  - apply (dom_trans h h1) in HM2; [|done]. set_solver.
  - simpl. by rewrite Hlen.
Qed.

(** Slices, maps and pointers as representations of lists and maps. *)
Definition slice_repr (c : code) {V} `{!Represents (interp c) V} : Represents slice (list V) := {|
  owns := owns_slice c; owns_dom := owns_slice_dom c; owns_frame := owns_slice_frame c |}.

Definition map_repr : Represents (option loc) gomap := {|
  owns := owns_map; owns_dom := owns_map_dom; owns_frame := owns_map_frame |}.

Definition pointer_repr (c : code) {V} `{!Represents (interp c) V} :
    Represents (option loc) (option V) := {|
  owns := owns_pointer c; owns_dom := owns_pointer_dom c; owns_frame := owns_pointer_frame c |}.

Lemma copies_ret {A} : @Copies Lib A A plain ret.
Proof.
  intros h r v L [-> ->]. exists v, h, ∅. by split_and!; [..|set_solver].
Qed.

(** A new cell, and what it leads to. *)
Lemma alloc_owned {R V} `{!Represents R V} h0 h (x : R) (v : V) L y :
  h0 ⊆ h → owns h x v L → L ## dom h0 →
  ∃ l, alloc y h = Some (l, <[l := y]> h) ∧ h0 ⊆ <[l := y]> h ∧
    owns (<[l := y]> h) x v L ∧ {[ l ]} ∪ L ## dom h0.
Proof.
  intros Hh Ho HL. destruct (alloc_fresh y h) as (l & Ha & Hl & Hsub).
  exists l. split_and!; [done|by trans h|by eapply owns_mono|].
  apply subseteq_dom in Hh. set_solver.
Qed.

Lemma copies_slice c {V} `{!Represents (interp c) V} (into : interp c → st (interp c)) `{!Copies into} :
  @Copies Lib slice (list V) (slice_repr c) (copy_slice c into).
Proof.
  intros h [[l n]|] vs L; simpl.
  2:{ intros [-> ->]. exists None, h, ∅. by split_and!; [..|set_solver]. }
  intros (xs & L' & Hl & Hn & Ho & ->).
  destruct (copy_items_copied into h _ _ _ Ho) as (ys & h1 & M & Hc & Hh1 & Hys & HM & Hlen).
  destruct (alloc_fresh (Array c ys) h1) as (l' & Ha & Hl' & Hsub).
  exists (Some (l', n)), (<[l' := Array c ys]> h1), ({[ l' ]} ∪ M).
  unfold then_. rewrite (load_Array _ _ _ _ Hl), Hc, Ha.
  apply subseteq_dom in Hh1 as Hd. split_and!; [done|by trans h1| |set_solver].
  assert (length ys = n) as Hn' by (rewrite Hlen, length_take; lia).
  exists ys, M. rewrite lookup_insert_eq, take_ge by lia. split_and!; [done|lia| |done].
  by eapply owns_items_mono.
Qed.

Lemma copies_map : @Copies Lib (option loc) gomap map_repr copy_map.
Proof.
  intros h [l|] v L; simpl.
  2:{ intros [-> ->]. exists None, h, ∅. by split_and!; [..|set_solver]. }
  intros (m & Hl & -> & ->). destruct (alloc_fresh (Map m) h) as (l' & Ha & Hl' & Hsub).
  exists (Some l'), (<[l' := Map m]> h), {[ l' ]}.
  unfold then_, load_map. rewrite Hl, map_fold_copy, Ha.
  split_and!; [done|done| |set_solver]. exists m. by rewrite lookup_insert_eq.
Qed.

Lemma copies_pointer c {V} `{!Represents (interp c) V} (into : interp c → st (interp c)) `{!Copies into} :
  @Copies Lib (option loc) (option V) (pointer_repr c) (copy_pointer c into).
Proof.
  intros h [l|] v L; simpl.
  2:{ intros [-> ->]. exists None, h, ∅. by split_and!; [..|set_solver]. }
  intros (x & v' & L' & Hl & -> & Ho & ->).
  destruct (copies h x v' L' Ho) as (y & h1 & M & Hy & Hh1 & Hoy & HM).
  destruct (alloc_owned h h1 y v' M (Array c [y]) Hh1 Hoy HM) as (l' & Ha & Hsub & Hoy' & HM').
  exists (Some l'), (<[l' := Array c [y]]> h1), ({[ l' ]} ∪ M).
  unfold then_. rewrite (load_Array _ _ _ _ Hl), Hy, Ha. split_and!; [done..| |done].
  exists y, v', M. by rewrite lookup_insert_eq.
Qed.

End heaps.

(** * The structs of the package *)

(** The documented behaviour of the library's deep copies. *)
Class LibraryCopies `{LM : LibraryMethods} := {
  #[global] ObjectMeta_Represents :: Represents ObjectMeta_ ObjectMeta;
  #[global] ListMeta_Represents :: Represents ListMeta_ ListMeta;
  #[global] PodTemplateSpec_Represents :: Represents PodTemplateSpec_ PodTemplateSpec;
  #[global] Condition_Represents :: Represents Condition_ Condition;
  #[global] ObjectMeta_Copies :: Copies ObjectMeta_DeepCopyInto;
  #[global] ListMeta_Copies :: Copies ListMeta_DeepCopyInto;
  #[global] PodTemplateSpec_Copies :: Copies PodTemplateSpec_DeepCopyInto;
  #[global] Condition_Copies :: Copies Condition_DeepCopyInto;
  Time_Copies h l (t : Z) : h !! l = Some (Array CTime [t]) →
    ∃ l' h', Time_DeepCopy l h = Some (l', h') ∧ h ⊆ h' ∧
      h' !! l' = Some (Array CTime [t]) ∧ l' ∉ dom h }.

(** Closes the laws of a struct, from those of its fields. *)
Ltac struct_dom :=
  intros h r v L; intros; split_hyps; subst;
  repeat match goal with H : owns _ _ _ _ |- _ => apply owns_dom in H end; set_solver.

Ltac struct_frame :=
  intros h h' r v L Hframe; intros; split_hyps; subst;
  repeat match goal with |- ∃ _, _ => eexists | |- _ ∧ _ => split end;
  first [eassumption|done|eapply owns_frame; [|eassumption]; set_solver].

Section laws.
Context `{Lib : Library} `{LM : !LibraryMethods} `{LC : !LibraryCopies}.

#[export] Instance string_Represents : Represents string string := plain.
#[export] Instance TestResult_Represents : Represents TestResult TestResult := plain.
#[export] Instance TestSuiteHelmSetUp_Represents : Represents TestSuiteHelmSetUp TestSuiteHelmSetUp := plain.
#[export] Instance TestSuiteHelmTrigger_Represents : Represents TestSuiteHelmTrigger TestSuiteHelmTrigger := plain.
#[export] Instance TestSuiteSetUp_Represents : Represents TestSuiteSetUp TestSuiteSetUp := plain.
#[export] Instance TestSuiteTrigger_Represents : Represents TestSuiteTrigger TestSuiteTrigger := plain.
#[export] Instance TestSuiteTriggers_Represents : Represents TestSuiteTriggers TestSuiteTriggers := plain.

#[export] Instance HelmPolicySpec_Represents : Represents HelmPolicySpec_ HelmPolicySpec.
Proof.
  refine {| owns h r v L := owns (Represents:=slice_repr CString) h (ExportTo_ r) (ExportTo v) L |}.
  - struct_dom.
  - struct_frame.
Defined.

#[export] Instance HelmPolicy_Represents : Represents HelmPolicy_ HelmPolicy.
Proof.
  refine {| owns h r v L :=
    policy_TypeMeta_ r = policy_TypeMeta v ∧ ∃ L1 L2,
      owns h (policy_ObjectMeta_ r) (policy_ObjectMeta v) L1 ∧
      owns h (policy_Spec_ r) (policy_Spec v) L2 ∧ L = L1 ∪ L2 |}.
  - struct_dom.
  - struct_frame.
Defined.

#[export] Instance TestTemplate_Represents : Represents TestTemplate_ TestTemplate.
Proof.
  refine {| owns h r v L :=
    Description_ r = Description v ∧
    tt_RetentionPolicy_ r = tt_RetentionPolicy v ∧ owns h (tt_Template_ r) (tt_Template v) L |}.
  - struct_dom.
  - struct_frame.
Defined.

#[export] Instance TestSpec_Represents : Represents TestSpec_ TestSpec.
Proof.
  refine {| owns h r v L :=
    ts_RetentionPolicy_ r = ts_RetentionPolicy v ∧ owns h (ts_Template_ r) (ts_Template v) L |}.
  - struct_dom.
  - struct_frame.
Defined.

#[export] Instance TestStatus_Represents : Represents TestStatus_ TestStatus.
Proof.
  refine {| owns h r v L :=
    test_Phase_ r = test_Phase v ∧ ∃ L1 L2,
      owns (Represents:=slice_repr CCondition) h (test_Conditions_ r) (test_Conditions v) L1 ∧
      owns (Represents:=map_repr) h (test_Messages_ r) (test_Messages v) L2 ∧
      L = L1 ∪ L2 |}.
  - struct_dom.
  - struct_frame.
Defined.

#[export] Instance Test_Represents : Represents Test_ Test.
Proof.
  refine {| owns h r v L :=
    test_TypeMeta_ r = test_TypeMeta v ∧ ∃ L1 L2 L3,
      owns h (test_ObjectMeta_ r) (test_ObjectMeta v) L1 ∧
      owns h (test_Spec_ r) (test_Spec v) L2 ∧
      owns h (test_Status_ r) (test_Status v) L3 ∧
      L = L1 ∪ L2 ∪ L3 |}.
  - struct_dom.
  - struct_frame.
Defined.

#[export] Instance TestRunSpec_Represents : Represents TestRunSpec_ TestRunSpec.
Proof.
  refine {| owns h r v L :=
    trs_RetentionPolicy_ r = trs_RetentionPolicy v ∧ owns (Represents:=slice_repr CTestTemplate) h (trs_Tests_ r) (trs_Tests v) L |}.
  - struct_dom.
  - struct_frame.
Defined.

#[export] Instance TestRunStatus_Represents : Represents TestRunStatus_ TestRunStatus.
Proof.
  refine {| owns h r v L :=
    run_Phase_ r = run_Phase v ∧
    run_Message_ r = run_Message v ∧ ∃ L1 L2,
      owns (Represents:=slice_repr CCondition) h (run_Conditions_ r) (run_Conditions v) L1 ∧
      owns (Represents:=slice_repr CTestResult) h (run_Results_ r) (run_Results v) L2 ∧
      L = L1 ∪ L2 |}.
  - struct_dom.
  - struct_frame.
Defined.

#[export] Instance TestRun_Represents : Represents TestRun_ TestRun.
Proof.
  refine {| owns h r v L :=
    run_TypeMeta_ r = run_TypeMeta v ∧ ∃ L1 L2 L3,
      owns h (run_ObjectMeta_ r) (run_ObjectMeta v) L1 ∧
      owns h (run_Spec_ r) (run_Spec v) L2 ∧
      owns h (run_Status_ r) (run_Status v) L3 ∧
      L = L1 ∪ L2 ∪ L3 |}.
  - struct_dom.
  - struct_frame.
Defined.

#[export] Instance TestSuiteSpec_Represents : Represents TestSuiteSpec_ TestSuiteSpec.
Proof.
  refine {| owns h r v L :=
    HistoryLimit_ r = HistoryLimit v ∧
    SetUp_ r = SetUp v ∧
    When_ r = When v ∧ owns h (suite_Template_ r) (suite_Template v) L |}.
  - struct_dom.
  - struct_frame.
Defined.

#[export] Instance Time_Represents : Represents Z Z := plain.

#[export] Instance TestSuiteStatus_Represents : Represents TestSuiteStatus_ TestSuiteStatus.
Proof.
  refine {| owns h r v L :=
    suite_Phase_ r = suite_Phase v ∧
    CurrentTestRun_ r = CurrentTestRun v ∧ ∃ L1 L2,
      owns (Represents:=slice_repr CCondition) h (suite_Conditions_ r) (suite_Conditions v) L1 ∧
      owns (Represents:=pointer_repr CTime) h (NextRun_ r) (NextRun v) L2 ∧
      L = L1 ∪ L2 |}.
  - struct_dom.
  - struct_frame.
Defined.

#[export] Instance TestSuite_Represents : Represents TestSuite_ TestSuite.
Proof.
  refine {| owns h r v L :=
    suite_TypeMeta_ r = suite_TypeMeta v ∧
    suite_Trigger_ r = suite_Trigger v ∧ ∃ L1 L2 L3,
      owns h (suite_ObjectMeta_ r) (suite_ObjectMeta v) L1 ∧
      owns h (suite_Spec_ r) (suite_Spec v) L2 ∧
      owns h (suite_Status_ r) (suite_Status v) L3 ∧
      L = L1 ∪ L2 ∪ L3 |}.
  - struct_dom.
  - struct_frame.
Defined.

#[export] Instance HelmPolicyList_Represents : Represents List_ HelmPolicyList.
Proof.
  refine {| owns h r v L :=
    list_TypeMeta_ r = policylist_TypeMeta v ∧ ∃ L1 L2,
      owns h (list_ListMeta_ r) (policylist_ListMeta v) L1 ∧
      owns (Represents:=slice_repr CHelmPolicy) h (list_Items_ r) (policylist_Items v) L2 ∧
      L = L1 ∪ L2 |}.
  - struct_dom.
  - struct_frame.
Defined.

#[export] Instance TestList_Represents : Represents List_ TestList.
Proof.
  refine {| owns h r v L :=
    list_TypeMeta_ r = testlist_TypeMeta v ∧ ∃ L1 L2,
      owns h (list_ListMeta_ r) (testlist_ListMeta v) L1 ∧
      owns (Represents:=slice_repr CTest) h (list_Items_ r) (testlist_Items v) L2 ∧
      L = L1 ∪ L2 |}.
  - struct_dom.
  - struct_frame.
Defined.

#[export] Instance TestRunList_Represents : Represents List_ TestRunList.
Proof.
  refine {| owns h r v L :=
    list_TypeMeta_ r = runlist_TypeMeta v ∧ ∃ L1 L2,
      owns h (list_ListMeta_ r) (runlist_ListMeta v) L1 ∧
      owns (Represents:=slice_repr CTestRun) h (list_Items_ r) (runlist_Items v) L2 ∧
      L = L1 ∪ L2 |}.
  - struct_dom.
  - struct_frame.
Defined.

#[export] Instance TestSuiteList_Represents : Represents List_ TestSuiteList.
Proof.
  refine {| owns h r v L :=
    list_TypeMeta_ r = suitelist_TypeMeta v ∧ ∃ L1 L2,
      owns h (list_ListMeta_ r) (suitelist_ListMeta v) L1 ∧
      owns (Represents:=slice_repr CTestSuite) h (list_Items_ r) (suitelist_Items v) L2 ∧
      L = L1 ∪ L2 |}.
  - struct_dom.
  - struct_frame.
Defined.

(** A struct is copied field by field; at the end it is put together from what
    the copies left. *)
Ltac extend := repeat first [done | eassumption | etrans; [eassumption|]].
Ltac field := eapply copied_field;
  [apply _|eassumption|extend|intros ? ? ? ? ? ? ?].
Ltac field_by H := eapply (copied_field _ (Copies0:=H));
  [eassumption|extend|intros ? ? ? ? ? ? ?].
Ltac assemble :=
  eapply copied_ret;
    [extend
    |hnf; repeat match goal with |- ∃ _, _ => eexists | |- _ ∧ _ => split end;
      first [eassumption|eapply owns_mono; [|eassumption]; extend|done]
    |set_solver].

#[export] Instance slice_CString_Copies : @Copies Lib slice (list string) (slice_repr CString) (copy_plain CString) :=
  copies_slice CString ret (Copies0:=copies_ret).
#[export] Instance slice_CTestResult_Copies :
    @Copies Lib slice (list TestResult) (slice_repr CTestResult) (copy_plain CTestResult) :=
  copies_slice CTestResult ret (Copies0:=copies_ret).
#[export] Instance slice_CCondition_Copies :
    @Copies Lib slice (list Condition) (slice_repr CCondition) (copy_slice CCondition Condition_DeepCopyInto) :=
  copies_slice CCondition Condition_DeepCopyInto.

#[export] Instance HelmPolicySpec_Copies : Copies HelmPolicySpec_DeepCopyInto.
Proof.
  intros h r v L Ho. unfold HelmPolicySpec_DeepCopyInto.
  eapply (copied_field _ (Copies0:=slice_CString_Copies)); [exact Ho|done|].
  intros s h' M Ha Hh Hs HM. eapply copied_ret; [done| |exact HM]. exact Hs.
Qed.

#[export] Instance HelmPolicy_Copies : Copies HelmPolicy_DeepCopyInto.
Proof.
  intros h r v L (Ht & L1 & L2 & H1 & H2 & ->). unfold HelmPolicy_DeepCopyInto.
  field. field. assemble.
Qed.

#[export] Instance TestTemplate_Copies : Copies TestTemplate_DeepCopyInto.
Proof.
  intros h r v L (Hd & Hr & Ho). unfold TestTemplate_DeepCopyInto.
  field. assemble.
Qed.

#[export] Instance TestSpec_Copies : Copies TestSpec_DeepCopyInto.
Proof.
  intros h r v L (Hr & Ho). unfold TestSpec_DeepCopyInto.
  field. assemble.
Qed.

#[export] Instance TestStatus_Copies : Copies TestStatus_DeepCopyInto.
Proof.
  intros h r v L (Hp & L1 & L2 & H1 & H2 & ->). unfold TestStatus_DeepCopyInto.
  field_by slice_CCondition_Copies. field_by copies_map. assemble.
Qed.

#[export] Instance Test_Copies : Copies Test_DeepCopyInto.
Proof.
  intros h r v L (Ht & L1 & L2 & L3 & H1 & H2 & H3 & ->). unfold Test_DeepCopyInto.
  field. field. field. assemble.
Qed.

#[export] Instance slice_CTestTemplate_Copies :
    @Copies Lib slice (list TestTemplate) (slice_repr CTestTemplate)
      (copy_slice CTestTemplate TestTemplate_DeepCopyInto) :=
  copies_slice CTestTemplate TestTemplate_DeepCopyInto.

#[export] Instance TestRunSpec_Copies : Copies TestRunSpec_DeepCopyInto.
Proof.
  intros h r v L (Hr & Ho). unfold TestRunSpec_DeepCopyInto.
  field_by slice_CTestTemplate_Copies. assemble.
Qed.

#[export] Instance TestRunStatus_Copies : Copies TestRunStatus_DeepCopyInto.
Proof.
  intros h r v L (Hp & Hm & L1 & L2 & H1 & H2 & ->). unfold TestRunStatus_DeepCopyInto.
  field_by slice_CCondition_Copies. field_by slice_CTestResult_Copies. assemble.
Qed.

#[export] Instance TestRun_Copies : Copies TestRun_DeepCopyInto.
Proof.
  intros h r v L (Ht & L1 & L2 & L3 & H1 & H2 & H3 & ->). unfold TestRun_DeepCopyInto.
  field. field. field. assemble.
Qed.

#[export] Instance TestSuiteSpec_Copies : Copies TestSuiteSpec_DeepCopyInto.
Proof.
  intros h r v L (Hl & Hs & Hw & Ho). unfold TestSuiteSpec_DeepCopyInto.
  field. assemble.
Qed.

(** A pointer to a time. *)
Lemma copies_time :
  @Copies Lib (option loc) (option Z) (pointer_repr CTime) (λ p,
    match p with None => ret None | Some t => let+ t := Time_DeepCopy t in ret (Some t) end).
Proof.
  intros h [l|] v L; simpl.
  2:{ intros [-> ->]. exists None, h, ∅. by split_and!; [..|set_solver]. }
  intros (x & v' & L' & Hl & -> & [-> ->] & ->).
  destruct (Time_Copies h l v' Hl) as (l' & h' & Hc & Hh & Hl' & Hf).
  exists (Some l'), h', ({[ l' ]} ∪ ∅). unfold then_. rewrite Hc.
  split_and!; [done|done| |set_solver]. by exists v', v', ∅.
Qed.

#[export] Instance TestSuiteStatus_Copies : Copies TestSuiteStatus_DeepCopyInto.
Proof.
  intros h r v L (Hp & Hr & L1 & L2 & H1 & H2 & ->). unfold TestSuiteStatus_DeepCopyInto.
  field_by slice_CCondition_Copies. field_by copies_time. assemble.
Qed.

#[export] Instance TestSuite_Copies : Copies TestSuite_DeepCopyInto.
Proof.
  intros h r v L (Ht & Hg & L1 & L2 & L3 & H1 & H2 & H3 & ->). unfold TestSuite_DeepCopyInto.
  field. field. field. assemble.
Qed.

(** The lists, whose functions are one up to the type of the items. *)
Lemma copies_list c {V V'} `{!Represents (interp c) V} `{!Represents List_ V'}
    (into : interp c → st (interp c)) `{!Copies into}
    (tm : V' → TypeMeta) (lm : V' → ListMeta) (items : V' → list V) :
  (∀ h r v L, owns h r v L ↔ list_TypeMeta_ r = tm v ∧ ∃ L1 L2,
     owns h (list_ListMeta_ r) (lm v) L1 ∧
     owns (Represents:=slice_repr c) h (list_Items_ r) (items v) L2 ∧ L = L1 ∪ L2) →
  Copies (R:=List_) (V:=V') (copy_list c into).
Proof.
  intros Hrepr h r v L (Ht & L1 & L2 & H1 & H2 & ->)%Hrepr. unfold copy_list.
  field. field_by (copies_slice c into). eapply copied_ret; [extend| |].
  - apply Hrepr. split; [done|]. eexists _, _. split_and!; [|eassumption|done].
    eapply owns_mono; [|eassumption]. done.
  - set_solver.
Qed.

#[export] Instance HelmPolicyList_Copies :
  @Copies Lib List_ HelmPolicyList HelmPolicyList_Represents HelmPolicyList_DeepCopyInto.
Proof. by apply (copies_list CHelmPolicy (V':=HelmPolicyList) _ policylist_TypeMeta policylist_ListMeta policylist_Items). Qed.

#[export] Instance TestList_Copies :
  @Copies Lib List_ TestList TestList_Represents TestList_DeepCopyInto.
Proof. by apply (copies_list CTest (V':=TestList) _ testlist_TypeMeta testlist_ListMeta testlist_Items). Qed.

#[export] Instance TestRunList_Copies :
  @Copies Lib List_ TestRunList TestRunList_Represents TestRunList_DeepCopyInto.
Proof. by apply (copies_list CTestRun (V':=TestRunList) _ runlist_TypeMeta runlist_ListMeta runlist_Items). Qed.

#[export] Instance TestSuiteList_Copies :
  @Copies Lib List_ TestSuiteList TestSuiteList_Represents TestSuiteList_DeepCopyInto.
Proof. by apply (copies_list CTestSuite (V':=TestSuiteList) _ suitelist_TypeMeta suitelist_ListMeta suitelist_Items). Qed.

(** * Properties *)

(** What a [DeepCopy] promises: for a pointer to an object that holds [v], a
    pointer to a copy that holds [v] too; the object is as it was, and the two
    are independent: whatever is written to the cells of the copy, or to any
    cell the copy does not read, the other one holds what it held. *)
Definition independent_copy (c : code) {V} `{!Represents (interp c) V}
    (copy : option loc → st (option loc)) : Prop :=
  (∀ h, copy None h = Some (None, h)) ∧
  ∀ h l v L, owns_pointer c h (Some l) v L → ∃ l' h' L',
    copy (Some l) h = Some (Some l', h') ∧ l' ∉ dom h ∧ L ## L' ∧
    owns_pointer c h' (Some l) v L ∧ owns_pointer c h' (Some l') v L' ∧
    (∀ h'', (∀ x, x ∉ L' → h'' !! x = h' !! x) → owns_pointer c h'' (Some l) v L) ∧
    (∀ h'', (∀ x, x ∈ L' → h'' !! x = h' !! x) → owns_pointer c h'' (Some l') v L').

Lemma copies_independent c {V} `{!Represents (interp c) V} (into : interp c → st (interp c))
    `{!Copies into} : independent_copy c (copy_pointer c into).
Proof.
  split; [done|]. intros h l v L Ho.
  destruct (copies_pointer c into h (Some l) v L Ho) as (p & h' & L' & Hc & Hh & Ho' & HL).
  assert (owns_pointer c h' (Some l) v L) as Hl
    by (by eapply (owns_mono (Represents0:=pointer_repr c))).
  assert (L ## L') as Hdisj.
  { apply owns_pointer_dom in Ho. set_solver. }
  destruct p as [l'|].
  2:{ destruct Ho' as [-> _]. by destruct Ho as (? & ? & ? & _ & ? & _). }
  exists l', h', L'. split_and!; [done| |done|done|done|..].
  - destruct Ho' as (? & ? & ? & _ & _ & _ & ->). set_solver.
  - intros h'' Hw. eapply owns_pointer_frame; [|exact Hl]. intros x Hx. apply Hw. set_solver.
  - intros h'' Hw. by eapply owns_pointer_frame.
Qed.

(** C37: the deep copies of the API objects, and of their lists, are independent
    copies: the copy holds the same value, in cells of its own, so that
    neither of the two sees what is written through the other. *)
Theorem DeepCopy_independent :
  independent_copy CTest (V:=Test) Test_DeepCopy ∧
  independent_copy CTestRun (V:=TestRun) TestRun_DeepCopy ∧
  independent_copy CTestSuite (V:=TestSuite) TestSuite_DeepCopy ∧
  independent_copy CHelmPolicy (V:=HelmPolicy) HelmPolicy_DeepCopy ∧
  independent_copy CTestList (Represents0:=TestList_Represents) TestList_DeepCopy ∧
  independent_copy CTestRunList (Represents0:=TestRunList_Represents) TestRunList_DeepCopy ∧
  independent_copy CTestSuiteList (Represents0:=TestSuiteList_Represents) TestSuiteList_DeepCopy ∧
  independent_copy CHelmPolicyList (Represents0:=HelmPolicyList_Represents) HelmPolicyList_DeepCopy.
Proof. split_and!; apply copies_independent, _. Qed.

End laws.
