(* ===== verification/Effects.v ===== *)
(** Effectful code: the calls a controller makes to the rest of the world, the
    programs that make them, and the logic the component proofs use.

    The API server, the event recorder, the metrics registry, the clock and
    the work queue are not part of the repository. A controller is a [prog]:
    a tree that makes a [call] and continues with whatever [reply] it gets, so
    the world is a parameter. [wp env m Q] says that [m] meets [Q] for every
    world whose replies satisfy [env]; [run] executes [m] against a concrete
    world, and [wp_run] relates the two. *)

From S2P Require Import Prelude.
From S2P Require Import GoLib.
From S2P Require Import Api.
From Stdlib Require Import Setoid Morphisms.

(** * Errors *)

(** A Go [error]: built by [errors.New], or returned by the API client with
    the reason of its [metav1.Status]. *)
Inductive error :=
| errors_New (text : string)
| ErrAPI (reason text : string).

(** [err.Error()] *)
Definition err_Error (e : error) : string :=
  match e with errors_New t => t | ErrAPI _ t => t end.

(** * Calls and replies *)

(** [client.ListOption] *)
Inductive ListOption :=
| InNamespace (ns : string)
| MatchingFields (key value : string)
| MatchingLabels (labels : list (string * string))
| MatchingFieldsSelector (selector : string).

(** The metric vectors the program registers. *)
Inductive metric := passed | failed | suitePassing | suiteFailing | suiteRuns.

Inductive metric_op :=
| WithLabelValues (m : metric) (labels : list string)
| Inc (m : metric) (labels : list string)
| SetGauge (m : metric) (labels : list string) (value : Z).

(** What a controller asks of the world. A patch carries the object it is
    computed from ([client.MergeFrom(orig)]) and the new object. *)
Inductive call : Type :=
| CGet (k : kind) (key : NamespacedName)
| CList (k : kind) (opts : list ListOption)
| CCreate (k : kind) (o : obj k)
| CDelete (k : kind) (o : obj k)
| CPatch (k : kind) (orig new : obj k)
| CStatusPatch (k : kind) (orig new : obj k)
| CEvent (k : kind) (o : obj k) (eventtype reason message : string)
| CMetric (op : metric_op)
| CNow
| CEnqueue (req : NamespacedName).

(** What the world answers: writes return the stored object, except [Delete]. *)
Definition reply (c : call) : Type :=
  match c with
  | CGet k _ => error + obj k
  | CList k _ => error + list (obj k)
  | CCreate k _ => error + obj k
  | CDelete _ _ => option error
  | CPatch k _ _ => error + obj k
  | CStatusPatch k _ _ => error + obj k
  | CEvent _ _ _ _ _ => unit
  | CMetric _ => unit
  | CNow => Z
  | CEnqueue _ => unit
  end.

(** * Programs *)

(** Go's run-time panics; [OutOfFuel] marks a bounded loop that was given too
    small a bound, and is proved unreachable. *)
Inductive panic := IndexOutOfRange | NilDereference | NilMapWrite | TypeAssertion | OutOfFuel.

Inductive prog (A : Type) : Type :=
| Ret (a : A)
| Panic (p : panic)
| Call (c : call) (cont : reply c → prog A).

Arguments Ret {A} a.
Arguments Panic {A} p.
Arguments Call {A} c cont.

Fixpoint bind {A B} (m : prog A) (f : A → prog B) : prog B :=
  match m with
  | Ret a => f a
  | Panic p => Panic p
  | Call c cont => Call c (λ r, bind (cont r) f)
  end.

Notation "'let*' x := m 'in' f" := (bind m (λ x, f))
  (at level 10, x name, m at level 200, f at level 200) : go_scope.
Notation "'let*' ' p := m 'in' f" := (bind m (λ x, match x with p => f end))
  (at level 10, p pattern, m at level 200, f at level 200) : go_scope.

Definition call_ (c : call) : prog (reply c) := Call c Ret.

(** A function body with early returns: [inl r] is [return r], [inr a]
    continues with [a]. *)
Abbreviation fn R A := (prog (R + A)).

Definition return_ {R A} (r : R) : fn R A := Ret (inl r).
Definition next {R A} (a : A) : fn R A := Ret (inr a).
Definition lift {R A} (m : prog A) : fn R A := bind m (λ a, Ret (inr a)).
Definition bind_fn {R A B} (m : fn R A) (f : A → fn R B) : fn R B :=
  bind m (λ x, match x with inl r => Ret (inl r) | inr a => f a end).
Definition func {R} (body : fn R R) : prog R :=
  bind body (λ x, match x with inl r | inr r => Ret r end).

Notation "'let!' x := m 'in' f" := (bind_fn m (λ x, f))
  (at level 10, x name, m at level 200, f at level 200) : go_scope.
Notation "'let!' ' p := m 'in' f" := (bind_fn m (λ x, match x with p => f end))
  (at level 10, p pattern, m at level 200, f at level 200) : go_scope.

(** Indexing a slice. *)
Definition index {A} (l : list A) (i : nat) : prog A :=
  match l !! i with Some a => Ret a | None => Panic IndexOutOfRange end.

(** * The client's methods *)

Definition client_Get (k : kind) (key : NamespacedName) : prog (error + obj k) :=
  call_ (CGet k key).
Definition client_List (k : kind) (opts : list ListOption) : prog (error + list (obj k)) :=
  call_ (CList k opts).
Definition client_Delete {k} (o : obj k) : prog (option error) := call_ (CDelete k o).

(** The methods that update the object they are given with the server's
    answer, and leave it as it is on an error. *)
Definition updating {k} (o : obj k) (r : error + obj k) : option error * obj k :=
  match r with inl e => (Some e, o) | inr o' => (None, o') end.

Definition client_Create {k} (o : obj k) : prog (option error * obj k) :=
  Call (CCreate k o) (λ r, Ret (updating o r)).
Definition client_Patch {k} (o orig : obj k) : prog (option error * obj k) :=
  Call (CPatch k orig o) (λ r, Ret (updating o r)).
Definition Status_Patch {k} (o orig : obj k) : prog (option error * obj k) :=
  Call (CStatusPatch k orig o) (λ r, Ret (updating o r)).

Definition Recorder_Event {k} (o : obj k) (eventtype reason message : string) : prog unit :=
  call_ (CEvent k o eventtype reason message).
Definition Metric (op : metric_op) : prog unit := call_ (CMetric op).
Definition Clock_Now : prog Z := call_ CNow.

(** * controller-runtime's requests and results *)

Abbreviation Request := NamespacedName.

Record Result := mkResult {
  Requeue : bool;
  RequeueAfter : Z }.

(** [ctrl.Result{}] *)
Definition noResult : Result := mkResult false 0.

(** * Library functions the controllers rely on *)

(** [apimachinery], [controller-runtime] and [k8s.io/utils] functions, with
    their documented behaviour. *)
Class ApiMachinery := {
  (** [apierrors.IsNotFound], which [errors.New] values never are. *)
  IsNotFound : error → bool;
  IsNotFound_New s : IsNotFound (errors_New s) = false;
  (** [client.IgnoreNotFound] returns nil on NotFound errors, and other
      values unmodified. *)
  IgnoreNotFound : option error → option error;
  IgnoreNotFound_spec e :
    IgnoreNotFound e = match e with
      | Some x => if IsNotFound x then None else Some x
      | None => None
      end;
  (** [meta.SetStatusCondition] updates the condition of the type, or appends it. *)
  SetStatusCondition : list Condition → Condition → list Condition;
  SetStatusCondition_find cs c t :
    list_find (λ x, cond_Type x = t) (SetStatusCondition cs c) ≫= Some ∘ snd =
      if decide (t = cond_Type c) then Some c
      else list_find (λ x, cond_Type x = t) cs ≫= Some ∘ snd;
  (** [metav1.GetControllerOf]: the owner reference marked as controller. *)
  GetControllerOf : ObjectMeta → option OwnerReference;
  GetControllerOf_spec m :
    GetControllerOf m =
      list_find (λ o, or_Controller o = Some true) (OwnerReferences m) ≫= Some ∘ snd;
  (** [slices.Contains] *)
  slices_Contains : list string → string → bool;
  slices_Contains_spec l s : slices_Contains l s = true ↔ s ∈ l }.

(** * Traces and weakest preconditions *)

(** One exchange with the world. *)
Record event := Ev { ev_call : call; ev_reply : reply ev_call }.

Inductive outcome (A : Type) := Done (a : A) | Panicked (p : panic).
Arguments Done {A} a.
Arguments Panicked {A} p.

(** An assumption on the world: which replies it may give to a call. *)
Definition world := ∀ c : call, reply c → Prop.
Definition any : world := λ _ _, True.

(** [wp env m Q]: in every world that keeps to [env], the exchanges of [m] and
    its outcome satisfy [Q]. *)
Fixpoint wp {A} (env : world) (m : prog A) (Q : list event → outcome A → Prop) : Prop :=
  match m with
  | Ret a => Q [] (Done a)
  | Panic p => Q [] (Panicked p)
  | Call c cont => ∀ r, env c r → wp env (cont r) (λ t o, Q (Ev c r :: t) o)
  end.

(** The same, and the program does not panic. *)
Definition returns {A} (Q : list event → A → Prop) (t : list event) (o : outcome A) : Prop :=
  match o with Done a => Q t a | Panicked _ => False end.

(** [m] only makes exchanges that satisfy [P]. *)
Definition only {A} (P : event → Prop) (t : list event) (_ : outcome A) : Prop := Forall P t.

(** [m] does not panic, and only makes exchanges that satisfy [P]. *)
Definition safe {A} (P : event → Prop) : list event → outcome A → Prop :=
  returns (λ t _, Forall P t).

(** [m] panics with [p] at most, and only makes exchanges that satisfy [P]. *)
Definition guarded {A} (p : panic) (P : event → Prop) (t : list event) (o : outcome A) : Prop :=
  Forall P t ∧ match o with Done _ => True | Panicked q => q = p end.

(** Running a program against a world with a state. *)
Fixpoint run {A W} (serve : ∀ c, W → reply c * W) (m : prog A) (w : W) :
    list event * outcome A * W :=
  match m with
  | Ret a => ([], Done a, w)
  | Panic p => ([], Panicked p, w)
  | Call c cont =>
      let '(r, w) := serve c w in
      let '(t, o, w) := run serve (cont r) w in
      (Ev c r :: t, o, w)
  end.

Section wp.
Context {env : world}.

Lemma wp_mono {A} (m : prog A) (Q Q' : list event → outcome A → Prop) :
  (∀ t o, Q t o → Q' t o) → wp env m Q → wp env m Q'.
Proof.
  revert Q Q'. induction m as [a|p|c k IH]; intros Q Q' H; simpl; [auto..|].
  intros Hm r Hr. eapply (IH r); [|by apply Hm]. auto.
Qed.

Lemma wp_bind {A B} (m : prog A) (f : A → prog B) Q :
  wp env m (λ t o, match o with
    | Done a => wp env (f a) (λ t' o', Q (t ++ t') o')
    | Panicked p => Q t (Panicked p)
    end) ↔ wp env (bind m f) Q.
Proof.
  revert Q. induction m as [a|p|c k IH]; intros Q; simpl; [done..|].
  split; intros H r Hr; specialize (H r Hr);
    by apply (IH r (λ t o, Q (Ev c r :: t) o)).
Qed.

Lemma wp_and {A} (m : prog A) Q Q' :
  wp env m Q → wp env m Q' → wp env m (λ t o, Q t o ∧ Q' t o).
Proof.
  revert Q Q'. induction m as [a|p|c k IH]; intros Q Q'; simpl; [done..|].
  intros H H' r Hr. apply (IH r); [by apply H|by apply H'].
Qed.

(** The rule used at a call to a function with a specification. *)
Lemma wp_use {A B} (m : prog A) (f : A → prog B) (Q : list event → outcome A → Prop) Q' :
  wp env m Q →
  (∀ t a, Q t (Done a) → wp env (f a) (λ t' o', Q' (t ++ t') o')) →
  (∀ t p, Q t (Panicked p) → Q' t (Panicked p)) →
  wp env (bind m f) Q'.
Proof.
  intros Hm Hf Hp. apply wp_bind. revert Hm. apply wp_mono.
  intros t [a|p]; [apply Hf|apply Hp].
Qed.

Lemma wp_use_returns {A B} (m : prog A) (f : A → prog B) (Q : list event → A → Prop) Q' :
  wp env m (returns Q) →
  (∀ t a, Q t a → wp env (f a) (λ t' o', Q' (t ++ t') o')) →
  wp env (bind m f) Q'.
Proof. intros Hm Hf. eapply wp_use; [done|done|]. by intros t p []. Qed.

Lemma wp_env_mono {A} (env' : world) (m : prog A) Q :
  (∀ c r, env' c r → env c r) → wp env m Q → wp env' m Q.
Proof.
  intros Henv. revert Q. induction m as [a|p|c k IH]; intros Q; simpl; [done..|].
  intros H r Hr. apply (IH r), H. by apply Henv.
Qed.

(** The rules for function bodies with early returns. *)
Lemma wp_bind_fn {R A B} (m : fn R A) (f : A → fn R B) Q :
  wp env m (λ t o, match o with
    | Done (inl r) => Q t (Done (inl r))
    | Done (inr a) => wp env (f a) (λ t' o', Q (t ++ t') o')
    | Panicked p => Q t (Panicked p)
    end) → wp env (bind_fn m f) Q.
Proof.
  intros H. apply wp_bind. revert H. apply wp_mono. intros t [[r|a]|p]; simpl; [|done..].
  by rewrite app_nil_r.
Qed.

Lemma wp_lift_bind_fn {R A B} (m : prog A) (f : A → fn R B) Q :
  wp env m (λ t o, match o with
    | Done a => wp env (f a) (λ t' o', Q (t ++ t') o')
    | Panicked p => Q t (Panicked p)
    end) → wp env (bind_fn (lift m) f) Q.
Proof.
  intros H. apply wp_bind_fn, wp_bind. revert H. apply wp_mono. intros t [a|p]; [|done].
  simpl. by rewrite app_nil_r.
Qed.

Lemma wp_func_bind {R A} (m : fn R A) (f : A → fn R R) Q :
  wp env m (λ t o, match o with
    | Done (inl r) => Q t (Done r)
    | Done (inr a) => wp env (func (f a)) (λ t' o', Q (t ++ t') o')
    | Panicked p => Q t (Panicked p)
    end) → wp env (func (bind_fn m f)) Q.
Proof.
  intros H. apply wp_bind, wp_bind_fn. revert H. apply wp_mono.
  intros t [[r|a]|p]; simpl; [by rewrite app_nil_r| |done].
  intros H. apply (proj2 (wp_bind _ _ _)) in H. revert H. apply wp_mono.
  intros t' [x|p]; [|done]. apply wp_mono. intros t'' o. by rewrite app_assoc.
Qed.

Lemma wp_func_lift_bind {R A} (m : prog A) (f : A → fn R R) Q :
  wp env m (λ t o, match o with
    | Done a => wp env (func (f a)) (λ t' o', Q (t ++ t') o')
    | Panicked p => Q t (Panicked p)
    end) → wp env (func (bind_fn (lift m) f)) Q.
Proof.
  intros H. apply wp_func_bind, wp_bind. revert H. apply wp_mono. intros t [a|p]; [|done].
  simpl. by rewrite app_nil_r.
Qed.

Lemma wp_func_lift {R} (m : prog R) Q : wp env m Q → wp env (func (lift m)) Q.
Proof.
  intros H. do 2 apply (proj1 (wp_bind _ _ _)). revert H. apply wp_mono.
  intros t [r|p]; simpl; [|done]. by rewrite !app_nil_r.
Qed.

(** A property of single exchanges holds of a sequence when it holds of its
    parts. *)
Lemma wp_only_bind {A B} (P : event → Prop) (m : prog A) (f : A → prog B) :
  wp env m (only P) → (∀ a, wp env (f a) (only P)) → wp env (bind m f) (only P).
Proof.
  intros Hm Hf. eapply wp_use; [done| |done].
  intros t a Ht. eapply wp_mono; [|apply Hf].
  intros t' o Ht'. by apply Forall_app_intro.
Qed.

Lemma wp_only_mono {A} (P P' : event → Prop) (m : prog A) :
  (∀ e, P e → P' e) → wp env m (only P) → wp env m (only P').
Proof. intros HP. apply wp_mono. intros t o Ht. by eapply Forall_impl. Qed.

Lemma wp_index {A} (l : list A) i a Q :
  l !! i = Some a → Q [] (Done a) → wp env (index l i) Q.
Proof. intros Hi HQ. unfold index. by rewrite Hi. Qed.

End wp.

(** * Rules for properties that compose *)

(** A family of postconditions of which a sequence of programs satisfies one
    when its parts do, whatever the first part returns. *)
Class Composable (Q : ∀ A : Type, list event → outcome A → Prop) := {
  composable_ret A (a : A) : Q A [] (Done a);
  composable_app A B t t' (a : A) (o : outcome B) :
    Q A t (Done a) → Q B t' o → Q B (t ++ t') o;
  composable_panic A B t p : Q A t (Panicked p) → Q B t (Panicked p) }.

#[export] Instance only_composable P : Composable (λ A, @only A P).
Proof.
  split; unfold only; [done| |done].
  intros A B t t' a o. apply Forall_app_intro.
Qed.

#[export] Instance safe_composable P : Composable (λ A, @safe A P).
Proof.
  split; unfold safe; simpl; [done| |done].
  intros A B t t' a [b|p]; simpl; [|done]. apply Forall_app_intro.
Qed.

#[export] Instance guarded_composable p P : Composable (λ A, @guarded A p P).
Proof.
  split; unfold guarded; [done| |done].
  intros A B t t' a o [? _] [? ?]. split; [by apply Forall_app_intro|done].
Qed.

Section composable.
Context {env : world} {Q : ∀ A : Type, list event → outcome A → Prop} `{!Composable Q}.

Lemma wp_comp_ret {A} (a : A) : wp env (Ret a) (Q A).
Proof. apply composable_ret. Qed.

Lemma wp_comp_bind {A B} (m : prog A) (f : A → prog B) :
  wp env m (Q A) → (∀ a, wp env (f a) (Q B)) → wp env (bind m f) (Q B).
Proof.
  intros Hm Hf. eapply wp_use; [exact Hm| |].
  - intros t a Ha. eapply wp_mono; [|apply Hf]. intros t' o. by apply (composable_app _ _ t t' a).
  - intros t p. apply composable_panic.
Qed.

Lemma wp_comp_lift {R A} (m : prog A) :
  wp env m (Q A) → wp env (lift (R:=R) m) (Q (R + A)%type).
Proof. intros Hm. apply wp_comp_bind; [done|]. intros a. apply wp_comp_ret. Qed.

Lemma wp_comp_bind_fn {R A B} (m : fn R A) (f : A → fn R B) :
  wp env m (Q (R + A)%type) → (∀ a, wp env (f a) (Q (R + B)%type)) →
  wp env (bind_fn m f) (Q (R + B)%type).
Proof.
  intros Hm Hf. apply wp_comp_bind; [done|]. intros [r|a]; [apply wp_comp_ret|apply Hf].
Qed.

Lemma wp_comp_func {R} (m : fn R R) : wp env m (Q (R + R)%type) → wp env (func m) (Q R).
Proof. intros Hm. apply wp_comp_bind; [done|]. intros [r|r]; apply wp_comp_ret. Qed.

(** A program whose result is described by [returns] satisfies [Q] when its
    trace does. *)
Lemma wp_comp_returns {A} (m : prog A) (P : list event → A → Prop) :
  (∀ t a, P t a → Q A t (Done a)) → wp env m (returns P) → wp env m (Q A).
Proof. intros HP. apply wp_mono. intros t [a|p]; [apply HP|done]. Qed.

Lemma wp_comp_use {A B} (m : prog A) (f : A → prog B) (P : list event → A → Prop) :
  wp env m (returns P) → (∀ t a, P t a → Q A t (Done a)) →
  (∀ t a, P t a → wp env (f a) (Q B)) → wp env (bind m f) (Q B).
Proof.
  intros Hm HP Hf. eapply wp_use_returns; [exact Hm|]. intros t a Ha.
  eapply wp_mono; [|by eapply Hf]. intros t' o.
  apply (composable_app _ _ t t' a). by apply HP.
Qed.

Lemma wp_comp_use_fn {R A B} (m : prog A) (f : A → fn R B) (P : list event → A → Prop) :
  wp env m (returns P) → (∀ t a, P t a → Q A t (Done a)) →
  (∀ t a, P t a → wp env (f a) (Q (R + B)%type)) →
  wp env (bind_fn (lift m) f) (Q (R + B)%type).
Proof.
  intros Hm HP Hf. unfold bind_fn, lift.
  do 2 apply (proj1 (wp_bind _ _ _)). revert Hm. apply wp_mono.
  intros t [a|p] Ha; [|done]. simpl. rewrite app_nil_r.
  eapply wp_mono; [|by apply (Hf t a)]. intros t' o.
  apply (composable_app _ _ t t' a). by apply HP.
Qed.

End composable.

(** The rule for using a specification that only speaks of the trace. *)
Lemma safe_mono {A} {env : world} (P P' : event → Prop) (m : prog A) :
  (∀ e, P e → P' e) → wp env m (safe P) → wp env m (safe P').
Proof.
  intros HP. apply wp_mono. intros t [a|p]; [|done]. intros Ht. by eapply Forall_impl.
Qed.

Lemma guarded_safe {A} {env : world} p (P : event → Prop) (m : prog A) :
  wp env m (safe P) → wp env m (guarded p P).
Proof. apply wp_mono. intros t [a|q]; [|done]. done. Qed.

Lemma guarded_index {A} {env : world} (P : event → Prop) (l : list A) i :
  wp env (index l i) (guarded IndexOutOfRange P).
Proof. unfold index. destruct (l !! i); split; constructor. Qed.

(** A single call. *)
Lemma safe_call {A} {env : world} (P : event → Prop) c (f : reply c → A) :
  (∀ r, P (Ev c r)) → wp env (Call c (λ r, Ret (f r))) (safe P).
Proof. intros HP r _. constructor; [apply HP|constructor]. Qed.

(** [m] does not panic, and what it continues with satisfies [P]. *)
Definition yields {R A} (P : A → Prop) : list event → outcome (R + A) → Prop :=
  returns (λ _ r, match r with inr a => P a | inl _ => True end).

Section yields.
Context {env : world} {R : Type}.

Lemma wp_yields_bind {A B} (P : A → Prop) (P' : B → Prop) (m : fn R A) (f : A → fn R B) :
  wp env m (yields P) → (∀ a, P a → wp env (f a) (yields P')) →
  wp env (bind_fn m f) (yields P').
Proof.
  intros Hm Hf. apply wp_bind_fn. revert Hm. apply wp_mono.
  intros t [[r|a]|p] H; [done| |done]. eapply wp_mono; [|by apply Hf]. by intros t' [o|?].
Qed.

Lemma wp_yields_lift {A B} (P : A → Prop) (P' : B → Prop) (m : prog A) (f : A → fn R B) :
  wp env m (returns (λ _, P)) → (∀ a, P a → wp env (f a) (yields P')) →
  wp env (bind_fn (lift m) f) (yields P').
Proof.
  intros Hm Hf. apply wp_lift_bind_fn. revert Hm. apply wp_mono.
  intros t [a|p] H; [|done]. eapply wp_mono; [|by apply Hf]. by intros t' [o|?].
Qed.

Lemma wp_yields_func (m : fn R R) :
  wp env m (yields (λ _, True)) → wp env (func m) (returns (λ _ _, True)).
Proof. intros Hm. apply wp_bind. revert Hm. apply wp_mono. by intros t [[r|r]|p]. Qed.

Lemma wp_yields_true {A} (P : event → Prop) (m : fn R A) :
  wp env m (safe P) → wp env m (yields (λ _, True)).
Proof. apply wp_mono. by intros t [[r|a]|p]. Qed.

Lemma wp_returns_true {A} (P : event → Prop) (m : prog A) :
  wp env m (safe P) → wp env m (returns (λ _ _, True)).
Proof. apply wp_mono. by intros t [a|p]. Qed.

End yields.

(** What [wp] proves of a program holds of its executions. *)
Theorem wp_run {A W} (env : world) (serve : ∀ c, W → reply c * W) (m : prog A) Q w :
  (∀ c w, env c (serve c w).1) →
  wp env m Q →
  Q (run serve m w).1.1 (run serve m w).1.2.
Proof.
  intros Henv. revert Q w. induction m as [a|p|c k IH]; intros Q w; simpl; [done..|].
  intros H. specialize (Henv c w) as Hr.
  destruct (serve c w) as [r w'] eqn:E. simpl in Hr.
  specialize (IH r _ w' (H r Hr)).
  by destruct (run serve (k r) w') as [[t o] w''].
Qed.

(** The executions of a program, against a world that may answer anything. *)
Inductive exec {A} : prog A → list event → outcome A → Prop :=
| exec_ret a : exec (Ret a) [] (Done a)
| exec_panic p : exec (Panic p) [] (Panicked p)
| exec_call c cont r t o : exec (cont r) t o → exec (Call c cont) (Ev c r :: t) o.

Lemma wp_exec {A} (m : prog A) Q : wp any m Q ↔ ∀ t o, exec m t o → Q t o.
Proof.
  split.
  - intros Hm t o He. revert Q Hm. induction He as [a|p|c k r t o He IH]; intros Q Hm; [done..|].
    apply (IH (λ t o, Q (Ev c r :: t) o)), Hm. done.
  - revert Q. induction m as [a|p|c k IH]; intros Q H; simpl; [apply H; constructor..|].
    intros r _. apply IH. intros t o He. apply H. by constructor.
Qed.

(** * What a trace wrote *)

(** The object, when it is of kind [k']. *)
Definition as_kind (k' : kind) {k : kind} : obj k → option (obj k') :=
  match k return obj k → option (obj k') with
  | KPod => match k' return Pod → option (obj k') with KPod => Some | _ => λ _, None end
  | KTest => match k' return Test → option (obj k') with KTest => Some | _ => λ _, None end
  | KTestRun => match k' return TestRun → option (obj k') with KTestRun => Some | _ => λ _, None end
  | KTestSuite => match k' return TestSuite → option (obj k') with KTestSuite => Some | _ => λ _, None end
  | KHelmPolicy => match k' return HelmPolicy → option (obj k') with KHelmPolicy => Some | _ => λ _, None end
  | KSecret => match k' return Secret → option (obj k') with KSecret => Some | _ => λ _, None end
  end.

(** The objects of kind [k] a trace asks to create. *)
Definition created (k : kind) (t : list event) : list (obj k) :=
  omap (λ e, match ev_call e with CCreate k' o => as_kind k o | _ => None end) t.

(** Its status writes of objects of kind [k]: the object before, after, and
    whether the server accepted the write. *)
Definition status_writes (k : kind) (t : list event) : list (obj k * obj k * bool) :=
  omap (λ e, match e with
    | Ev c r =>
        match c return reply c → option (obj k * obj k * bool) with
        | CStatusPatch k' orig new => λ r,
            orig ← as_kind k orig; new ← as_kind k new;
            Some (orig, new, match r with inl _ => false | inr _ => true end)
        | _ => λ _, None
        end r
    end) t.

(** The exchange was not answered by an error. *)
Definition succeeded (e : event) : Prop :=
  match e with
  | Ev c r =>
      match c return reply c → Prop with
      | CGet _ _ => λ r, ∃ o, r = inr o
      | CList _ _ => λ r, ∃ l, r = inr l
      | CCreate _ _ => λ r, ∃ o, r = inr o
      | CDelete _ _ => λ r, r = None
      | CPatch _ _ _ => λ r, ∃ o, r = inr o
      | CStatusPatch _ _ _ => λ r, ∃ o, r = inr o
      | _ => λ _, True
      end r
  end.

(** Some exchange of [t] was answered by an error. *)
Definition failing (t : list event) : Prop := Exists (λ e, ¬ succeeded e) t.

(** The counters it increments. *)
Definition counted (t : list event) : list metric :=
  omap (λ e, match ev_call e with CMetric (Inc m _) => Some m | _ => None end) t.

(** The gauges it sets. *)
Definition gauges (t : list event) : list (metric * Z) :=
  omap (λ e, match ev_call e with CMetric (SetGauge m _ v) => Some (m, v) | _ => None end) t.

(** The times it read from the clock. *)
Definition times (t : list event) : list Z :=
  omap (λ e, match e with
    | Ev c r => match c return reply c → option Z with CNow => Some | _ => λ _, None end r
    end) t.

(** A world whose writes succeed, and store what was sent. *)
Definition reliable : world := λ c,
  match c return reply c → Prop with
  | CPatch _ _ new => λ r, r = inr new
  | CStatusPatch _ _ new => λ r, r = inr new
  | CDelete _ _ => λ r, r = None
  | _ => λ _, True
  end.

Lemma reliable_status k (orig new : obj k) r :
  reliable (CStatusPatch k orig new) r → r = inr new.
Proof. done. Qed.

Lemma reliable_patch k (orig new : obj k) r : reliable (CPatch k orig new) r → r = inr new.
Proof. done. Qed.

Lemma reliable_delete k (o : obj k) r : reliable (CDelete k o) r → r = None.
Proof. done. Qed.

Lemma created_app k t t' : created k (t ++ t') = created k t ++ created k t'.
Proof. apply omap_app. Qed.

Lemma status_writes_app k t t' :
  status_writes k (t ++ t') = status_writes k t ++ status_writes k t'.
Proof. apply omap_app. Qed.

#[export] Hint Rewrite created_app status_writes_app : konfirm.

(** * Equality of programs up to their continuations *)

Fixpoint prog_eq {A} (m n : prog A) : Prop :=
  match m, n with
  | Ret a, Ret b => a = b
  | Panic p, Panic q => p = q
  | Call c k, Call d l =>
      ∃ e : c = d, ∀ r, prog_eq (k r) (l (eq_rect c reply r d e))
  | _, _ => False
  end.

Lemma prog_eq_refl {A} (m : prog A) : prog_eq m m.
Proof.
  induction m as [a|p|c k IH]; simpl; [done..|].
  exists eq_refl. done.
Qed.

Lemma wp_prog_eq {A} env (m n : prog A) Q :
  prog_eq m n → wp env m Q → wp env n Q.
Proof.
  revert n Q. induction m as [a|p|c k IH]; intros [b|q|d l] Q; simpl; try done.
  - by intros ->.
  - by intros ->.
  - intros [-> H] Hw r Hr. apply (IH r); [apply H|by apply Hw].
Qed.

Lemma bind_assoc {A B C} (m : prog A) (f : A → prog B) (g : B → prog C) :
  prog_eq (bind (bind m f) g) (bind m (λ a, bind (f a) g)).
Proof.
  induction m as [a|p|c k IH]; simpl; [apply prog_eq_refl|done|].
  exists eq_refl. done.
Qed.

(** * Function bodies that hand on a value with a property *)

Section hands.
Context {env : world} {R : Type}.

(** Every exchange satisfies [P], and what the body goes on with satisfies [J]. *)
Definition hands {A} (P : event → Prop) (J : A → Prop) (t : list event) (o : outcome (R + A)) : Prop :=
  Forall P t ∧ match o with Done (inr a) => J a | _ => True end.

Lemma hands_bind {A B} P (J : A → Prop) (J' : B → Prop) (m : fn R A) (f : A → fn R B) :
  wp env m (hands P J) → (∀ a, J a → wp env (f a) (hands P J')) → wp env (bind_fn m f) (hands P J').
Proof.
  intros Hm Hf. apply wp_bind_fn. revert Hm. apply wp_mono.
  intros t [[r|a]|p] [Ht Ha]; [done| |done]. eapply wp_mono; [|by apply Hf].
  intros t' o [Ht' Ho]. split; [by apply Forall_app_intro|done].
Qed.

Lemma hands_lift {A B} P (J : A → Prop) (J' : B → Prop) (m : prog A) (f : A → fn R B) :
  wp env m (λ t o, Forall P t ∧ match o with Done a => J a | _ => True end) →
  (∀ a, J a → wp env (f a) (hands P J')) → wp env (bind_fn (lift m) f) (hands P J').
Proof.
  intros Hm Hf. apply wp_lift_bind_fn. revert Hm. apply wp_mono.
  intros t [a|p] [Ht Ha]; [|done]. eapply wp_mono; [|by apply Hf].
  intros t' o [Ht' Ho]. split; [by apply Forall_app_intro|done].
Qed.

Lemma hands_only {A} P (m : fn R A) : wp env m (only P) → wp env m (hands P (λ _, True)).
Proof. apply wp_mono. intros t o Ht. split; [done|]. by destruct o as [[]|]. Qed.

Lemma hands_end P (m : prog R) : wp env m (only P) → wp env (lift m) (hands (A:=R) P (λ _, True)).
Proof.
  intros Hm. apply hands_only. apply (wp_comp_lift (Q:=λ A, @only A P)). exact Hm.
Qed.

Lemma hands_func P (m : fn R R) : wp env m (hands P (λ _, True)) → wp env (func m) (only P).
Proof.
  intros Hm. apply (wp_comp_func (Q:=λ A, @only A P)). revert Hm. apply wp_mono. by intros t o [].
Qed.

(** A body that is proved to make exchanges of another kind. *)
Lemma hands_guarded {A} P P' p (m : fn R A) :
  (∀ e, P' e → P e) → wp env m (guarded p P') → wp env m (hands P (λ _, True)).
Proof.
  intros HP Hm. apply hands_only. revert Hm. apply wp_mono. intros t o [Ht _].
  by eapply Forall_impl.
Qed.

End hands.

(** * Tactics *)

(** Reduces the client's methods to the calls they make, and receives the
    replies. *)
Ltac wp_simpl :=
  unfold client_Get, client_List, client_Delete, client_Create, client_Patch, Status_Patch,
    Recorder_Event, Metric, Clock_Now, call_, return_, next, lift, bind_fn, func in *;
  cbn [bind wp reply updating] in *.

Lemma guarded_call {A} {env : world} p (P : event → Prop) c (f : reply c → A) :
  (∀ r, P (Ev c r)) → wp env (Call c (λ r, Ret (f r))) (guarded p P).
Proof. intros HP. by apply guarded_safe, safe_call. Qed.

(** One step of a proof that every exchange of a handler is admissible:
    splits a sequence, decides a test, or reduces a call to its event. [Q] is
    the family of postconditions. *)
Ltac wp_comp_step Q m :=
  lazymatch m with
  | func _ => apply (wp_comp_func (Q:=Q))
  | bind_fn _ _ => apply (wp_comp_bind_fn (Q:=Q)); [|intros ?]
  | bind _ _ => apply (wp_comp_bind (Q:=Q)); [|intros ?]
  | lift _ => apply (wp_comp_lift (Q:=Q))
  | return_ _ => apply (wp_comp_ret (Q:=Q))
  | next _ => apply (wp_comp_ret (Q:=Q))
  | Ret _ => apply (wp_comp_ret (Q:=Q))
  | match ?x with _ => _ end => destruct x eqn:?
  | index _ _ => apply guarded_index
  | call_ _ => first [apply safe_call | apply guarded_call]; intros ?
  | client_Get _ _ => first [apply safe_call | apply guarded_call]; intros ?
  | client_List _ _ => first [apply safe_call | apply guarded_call]; intros ?
  | client_Delete _ => first [apply safe_call | apply guarded_call]; intros ?
  | client_Create _ => first [apply safe_call | apply guarded_call]; intros ?
  | client_Patch _ _ => first [apply safe_call | apply guarded_call]; intros ?
  | Status_Patch _ _ => first [apply safe_call | apply guarded_call]; intros ?
  | Recorder_Event _ _ _ _ => first [apply safe_call | apply guarded_call]; intros ?
  | Metric _ => first [apply safe_call | apply guarded_call]; intros ?
  | Clock_Now => first [apply safe_call | apply guarded_call]; intros ?
  end.

Ltac wp_safe_step :=
  lazymatch goal with
  | |- wp ?env ?m (@safe _ ?P) => wp_comp_step (λ A, @safe A P) m
  | |- wp ?env ?m (@guarded _ ?p ?P) => wp_comp_step (λ A, @guarded A p P) m
  end.

(** Runs a handler, using the specifications of the database; leaves the
    events whose admissibility is not trivial. *)
Ltac wp_safe :=
  repeat (cbn beta iota zeta; first
    [ solve [eauto 3 with konfirm nocore] | wp_safe_step
    | solve [apply guarded_safe; eauto 3 with konfirm nocore] ]);
  cbn [ev_call]; try done.
