(* ===== verification/Instances.v ===== *)
(** An implementation of the library functions of [Effects.ApiMachinery] that
    obeys their documented behaviour: the interface can be met, and programs
    can be evaluated. *)

From S2P Require Import Prelude.
From S2P Require Import GoLib.
From S2P Require Import Api.
From S2P Require Import Effects.

(** The condition of the type is replaced, or the condition appended. *)
Fixpoint set_condition (cs : list Condition) (c : Condition) : list Condition :=
  match cs with
  | [] => [c]
  | x :: cs => if cond_Type x == cond_Type c then c :: cs else x :: set_condition cs c
  end.

Lemma set_condition_find cs c t :
  list_find (λ x, cond_Type x = t) (set_condition cs c) ≫= Some ∘ snd =
    if decide (t = cond_Type c) then Some c
    else list_find (λ x, cond_Type x = t) cs ≫= Some ∘ snd.
Proof.
  induction cs as [|x cs IH]; simpl.
  - by repeat case_decide; simplify_eq.
  - case_bool_decide as Hx; simpl.
    + repeat case_decide; simplify_eq/=; try congruence.
    + destruct (decide (cond_Type x = t)) as [Hxt|Hxt]; [by rewrite decide_False by congruence|].
      destruct (list_find (λ x, cond_Type x = t) (set_condition cs c)) as [[]|],
        (list_find (λ x, cond_Type x = t) cs) as [[]|]; simpl in *; case_decide; by simplify_eq.
Qed.

Definition reason_NotFound : string := "NotFound".

#[export] Instance machinery : ApiMachinery.
Proof.
  refine {|
    IsNotFound e := match e with ErrAPI reason _ => reason == reason_NotFound | _ => false end;
    IgnoreNotFound e := match e with
      | Some (ErrAPI reason text) =>
          if reason == reason_NotFound then None else Some (ErrAPI reason text)
      | _ => e
      end;
    SetStatusCondition := set_condition;
    GetControllerOf m :=
      snd <$> list_find (λ o, or_Controller o = Some true) (OwnerReferences m);
    slices_Contains l s := existsb (λ x, x == s) l |}.
  - done.
  - intros [[]|]; done.
  - apply set_condition_find.
  - intros m. by destruct (list_find _ _).
  - intros l s. apply existsb_eq_spec.
Defined.

(** * Sample objects *)

Definition meta (ns name gen : string) (created : Z) (deleted : option Z) (fins : list string) :
    ObjectMeta :=
  mkObjectMeta name gen ns ("uid-" +:+ name) 1 created deleted None None [] fins.

Definition template : PodTemplateSpec :=
  mkPodTemplateSpec (meta "" "" "" 0 None []) (mkPodSpec "" "containers").

Definition pod (name phase : string) (deleted : option Z) (fins : list string) : Pod :=
  mkPod (meta "ns" name "" 0 deleted fins) (mkPodSpec RestartPolicyNever "containers")
    (mkPodStatus phase []).

Definition test (name gen : string) (phase : TestPhase) (fins : list string) : Test :=
  mkTest (mkTypeMeta GroupVersion_String "Test") (meta "ns" name gen 0 None fins)
    (mkTestSpec RetainNever template) (mkTestStatus [] phase None).

Definition testrun (name : string) (created : Z) (phase : TestRunPhase) (tests : list TestTemplate) :
    TestRun :=
  mkTestRun (mkTypeMeta GroupVersion_String "TestRun") (meta "ns" name "" created None [])
    (mkTestRunSpec RetainNever tests) (mkTestRunStatus [] phase "" []).

Definition suite (phase : TestSuitePhase) (current release : string) : TestSuite :=
  mkTestSuite (mkTypeMeta GroupVersion_String "TestSuite") (meta "ns" "suite" "" 0 None [])
    (mkTestSuiteSpec Byte.x03 (mkTestSuiteSetUp (mkTestSuiteHelmSetUp "" "" ""))
       (mkTestRunSpec RetainNever []) (mkTestSuiteTriggers "" release))
    (mkTestSuiteTrigger false) (mkTestSuiteStatus [] phase current None).

Definition secret (labels : gmap string string) : Secret :=
  mkSecret (mkObjectMeta "sh.helm.release.v1.app.v7" "" "ns" "uid" 1 0 None (Some labels) None [] [])
    "helm.sh/release.v1".
