(* ===== verification/Helpers.v ===== *)
(** [src/controllers/errors.go] and [src/controllers/helpers.go]: error lists,
    conditions, finalizers, clean-up, the template hash, and Helm release
    metadata. *)

From S2P Require Import Prelude.
From S2P Require Import GoLib.
From S2P Require Import Api.
From S2P Require Import Effects.

(** * errors.go *)

Record ErrorList := mkErrorList { errors : list error }.

Definition ErrorList_Append (e : ErrorList) (err : error) : ErrorList :=
  mkErrorList (errors e ++ [err]).

Definition ErrorList_HasError (e : ErrorList) : bool :=
  bool_decide (0 < length (errors e)).

Definition newline : string := String (Ascii.ascii_of_nat 10) "".

Definition ErrorList_Error (e : ErrorList) : option error :=
  match errors e with
  | e0 :: rest =>
      Some (errors_New (fold_left (λ b ei, b +:+ err_Error ei +:+ newline) rest (err_Error e0)))
  | [] => None
  end.

(** * Conditions *)

Fixpoint getCondition (condition : string) (from : list Condition) : option Condition * bool :=
  match from with
  | c :: from => if cond_Type c == condition then (Some c, true) else getCondition condition from
  | [] => (None, false)
  end.

Definition hasCondition (condition matching : string) (from : list Condition) : bool :=
  match getCondition condition from with
  | (Some c, true) => cond_Status c == matching
  | _ => false
  end.

(** * Finalizers and clean-up *)

Section client_helpers.
Context `{AM : !ApiMachinery}.
Context {k : kind} `{!ClientObject k}.
Implicit Types o : obj k.

(** The object a pointer leads to is returned with the results. *)
Definition addFinalizer (finalizer : string) o : prog ((bool * option error) * obj k) :=
  let patch :=
    fold_left (λ patch f, if f == finalizer then false else patch) (GetFinalizers o) true in
  if patch then
    let orig := o in
    let o := SetFinalizers (GetFinalizers o ++ [finalizer]) o in
    let* '(err, o) := client_Patch o orig in
    Ret ((patch, err), o)
  else Ret ((patch, None), o).

Definition removeFinalizer (finalizer : string) o : prog ((bool * option error) * obj k) :=
  let '(patch, newFinalizers) :=
    fold_left (λ '(patch, newFinalizers) f,
      if f == finalizer then (true, newFinalizers)
      else (patch, newFinalizers ++ [f]))
      (GetFinalizers o) (false, []) in
  if (patch : bool) then
    let orig := o in
    let o := SetFinalizers newFinalizers o in
    let* '(err, o) := client_Patch o orig in
    Ret ((patch, err), o)
  else Ret ((patch, None), o).

Definition cleanUp (finalizer : string) o : prog ((bool * option error) * obj k) :=
  let modified := false in
  let remove (modified : bool) :=
    let* '((patched, err), o) := removeFinalizer finalizer o in
    match err with
    | Some e => Ret ((modified, Some e), o)
    | None =>
        let modified := modified || patched in
        Ret ((modified, IgnoreNotFound err), o)
    end in
  match GetDeletionTimestamp o with
  | None =>
      let* err := client_Delete o in
      match err with
      | None => remove true
      | Some e => Ret ((false, IgnoreNotFound (Some e)), o)
      end
  | Some _ => remove modified
  end.

(** The loop over the pointers [objs] into the slice [items]. *)
Fixpoint cleanUpAll_loop (finalizer : string) (objs : list nat)
    (modified : bool) (errs : ErrorList) (items : list (obj k)) :
    prog ((bool * ErrorList) * list (obj k)) :=
  match objs with
  | [] => Ret ((modified, errs), items)
  | p :: objs =>
      let* o := index items p in
      let* '((m, err), o) := cleanUp finalizer o in
      let items := <[p := o]> items in
      let modified := modified || m in
      let errs := match err with Some e => ErrorList_Append errs e | None => errs end in
      cleanUpAll_loop finalizer objs modified errs items
  end.

Definition cleanUpAll (finalizer : string) (objs : list nat) (items : list (obj k)) :
    prog ((bool * option error) * list (obj k)) :=
  let* '((modified, errs), items) :=
    cleanUpAll_loop finalizer objs false (mkErrorList []) items in
  Ret ((modified, ErrorList_Error errs), items).

End client_helpers.

(** * computeTestRunHash *)

(** [spew]'s dump of the specification and [rand.SafeEncodeString] are library
    functions. *)
Definition computeTestRunHash (spew_Fprintf : TestRunSpec → string)
    (rand_SafeEncodeString : string → string) (testRun : TestRunSpec) : string :=
  let digest := strconv.Itoa (fnv.Sum32a (spew_Fprintf testRun)) in
  rand_SafeEncodeString digest.

(** * Helm releases *)

Record HelmReleaseMeta := mkHelmReleaseMeta {
  hrm_Namespace : string;
  hrm_Name : string;
  hrm_Version : Z;
  hrm_VersionString : string;
  hrm_Status : string }.

Definition LabelValue (hrm : option HelmReleaseMeta) : string :=
  match hrm with
  | None => ""
  | Some hrm =>
      let val := hrm_Name hrm in
      if hrm_Namespace hrm != "" then val +:+ ("." +:+ hrm_Namespace hrm) else val
  end.

Definition HelmSecretType : string := "helm.sh/release.v1".

(** [ok] is false together with a partly filled release when a label is missing. *)
Definition ParseHelmReleaseSecret (secret : option Secret) : option HelmReleaseMeta * bool :=
  match secret with
  | None => (None, false)
  | Some secret =>
      if secret_Type secret != HelmSecretType then (None, false)
      else
        let ns := Namespace (secret_ObjectMeta secret) in
        let labels := Labels (secret_ObjectMeta secret) in
        let '(name, ok) := map_get_ok labels "name" in
        if negb ok then (Some (mkHelmReleaseMeta ns name 0 "" ""), false)
        else
        let '(version, ok) := map_get_ok labels "version" in
        if negb ok then (Some (mkHelmReleaseMeta ns name 0 version ""), false)
        else
        let '(status, ok) := map_get_ok labels "status" in
        if negb ok then (Some (mkHelmReleaseMeta ns name 0 version status), false)
        else
        match strconv.Atoi version with
        | inr v => (Some (mkHelmReleaseMeta ns name v version status), true)
        | inl _ => (Some (mkHelmReleaseMeta ns name 0 version status), false)
        end
  end.

(** * Error lists *)

Lemma ErrorList_Error_None e : ErrorList_Error e = None ↔ errors e = [].
Proof. unfold ErrorList_Error. destruct (errors e); naive_solver. Qed.

Lemma ErrorList_HasError_false e : ErrorList_HasError e = false ↔ errors e = [].
Proof.
  unfold ErrorList_HasError. rewrite bool_decide_eq_false. destruct (errors e); simpl.
  - split; [done|lia].
  - split; [lia|done].
Qed.

(** * Conditions *)

(** [getCondition] is the first condition of the type. *)
Lemma getCondition_find condition from :
  getCondition condition from =
    match list_find (λ c, cond_Type c = condition) from with
    | Some (_, c) => (Some c, true)
    | None => (None, false)
    end.
Proof.
  induction from as [|c from IH]; [done|]. cbn [getCondition list_find].
  case_bool_decide; case_decide; [done..|].
  rewrite IH. by destruct (list_find _ from) as [[]|].
Qed.

(** After [SetStatusCondition] the condition of its type is the one set, and
    the others are as before. *)
Lemma getCondition_SetStatusCondition `{AM : !ApiMachinery} cs c t :
  getCondition t (SetStatusCondition cs c) =
    if decide (t = cond_Type c) then (Some c, true) else getCondition t cs.
Proof.
  rewrite !getCondition_find. pose proof (SetStatusCondition_find cs c t) as Hfind.
  destruct (list_find (λ c0, cond_Type c0 = t) (SetStatusCondition cs c)) as [[i x]|];
    destruct (list_find (λ c0, cond_Type c0 = t) cs) as [[j y]|];
    simpl in Hfind; case_decide as Hc; by simplify_eq/=.
Qed.

(** * Finalizers *)

Section client_helpers_facts.
Context `{AM : !ApiMachinery}.
Context {k : kind} `{!ClientObject k}.
Context {env : world}.
Implicit Types o : obj k.

(** [removeFinalizer]'s loop, as a membership test and a filter. *)
Lemma removeFinalizer_fold (finalizer : string) (fs : list string) (patch : bool) (acc : list string) :
  fold_left (λ '(patch, newFinalizers) f,
      if f == finalizer then (true, newFinalizers)
      else (patch, newFinalizers ++ [f])) fs (patch, acc)
  = (patch || existsb (λ f, f == finalizer) fs, acc ++ filter (.≠ finalizer) fs).
Proof.
  revert patch acc. induction fs as [|f fs IH]; intros patch acc; simpl.
  - by rewrite orb_false_r, app_nil_r.
  - rewrite filter_cons. case_bool_decide as Hf; rewrite IH; simpl.
    + subst. rewrite decide_False by auto. by rewrite orb_true_r.
    + rewrite decide_True by done. by rewrite <-app_assoc.
Qed.

(** The outcome of a write: either the call failed and the object keeps the
    local changes, or it is what the server returned. *)
Definition patched (orig new : obj k) (t : list event) (err : option error) (o : obj k) : Prop :=
  ∃ r, env (CPatch k orig new) r ∧ t = [Ev (CPatch k orig new) r] ∧ (err, o) = updating new r.

Definition addFinalizer_out (finalizer : string) o (t : list event)
    (res : (bool * option error) * obj k) : Prop :=
  if decide (finalizer ∈ GetFinalizers o) then t = [] ∧ res = ((false, None), o)
  else ∃ err o', res = ((true, err), o') ∧
         patched o (SetFinalizers (GetFinalizers o ++ [finalizer]) o) t err o'.

Definition removeFinalizer_out (finalizer : string) o (t : list event)
    (res : (bool * option error) * obj k) : Prop :=
  if decide (finalizer ∈ GetFinalizers o)
  then ∃ err o', res = ((true, err), o') ∧
         patched o (SetFinalizers (filter (.≠ finalizer) (GetFinalizers o)) o) t err o'
  else t = [] ∧ res = ((false, None), o).

Lemma addFinalizer_wp finalizer o :
  wp env (addFinalizer finalizer o) (returns (addFinalizer_out finalizer o)).
Proof.
  unfold addFinalizer, addFinalizer_out.
  rewrite (existsb_fold_false (λ f, f == finalizer)). simpl.
  case_decide as Hin.
  - rewrite (proj2 (existsb_eq_spec _ _) Hin). done.
  - rewrite (proj2 (existsb_eq_false _ _) Hin). simpl.
    intros r Hr. destruct (updating _ r) as [err o'] eqn:E. simpl.
    exists err, o'. split; [done|]. exists r. done.
Qed.

Lemma removeFinalizer_wp finalizer o :
  wp env (removeFinalizer finalizer o) (returns (removeFinalizer_out finalizer o)).
Proof.
  unfold removeFinalizer, removeFinalizer_out. rewrite removeFinalizer_fold. simpl.
  case_decide as Hin.
  - rewrite (proj2 (existsb_eq_spec _ _) Hin). simpl.
    intros r Hr. destruct (updating _ r) as [err o'] eqn:E. simpl.
    exists err, o'. split; [done|]. exists r. done.
  - by rewrite (proj2 (existsb_eq_false _ _) Hin).
Qed.

(** What [cleanUp] does: deletes the object unless it is already being
    deleted, and then removes the finalizer. *)
Definition cleanUp_out (finalizer : string) o (t : list event)
    (res : (bool * option error) * obj k) : Prop :=
  ∃ modified t',
    (∃ patched err, removeFinalizer_out finalizer o t' ((patched, err), res.2) ∧
       res.1 = (match err with Some _ => modified | None => modified || patched end, err) ∧
       ((GetDeletionTimestamp o ≠ None ∧ modified = false ∧ t = t') ∨
        (GetDeletionTimestamp o = None ∧ modified = true ∧ t = Ev (CDelete k o) None :: t')))
    ∨ (∃ e, GetDeletionTimestamp o = None ∧ t = [Ev (CDelete k o) (Some e)] ∧
         res = ((false, IgnoreNotFound (Some e)), o)).

Lemma IgnoreNotFound_None : IgnoreNotFound None = None.
Proof. by rewrite IgnoreNotFound_spec. Qed.

Lemma cleanUp_wp finalizer o :
  wp env (cleanUp finalizer o) (returns (cleanUp_out finalizer o)).
Proof.
  unfold cleanUp. destruct (GetDeletionTimestamp o) as [d|] eqn:Hd.
  - eapply wp_use_returns; [apply removeFinalizer_wp|].
    intros t [[patched err] o'] Hout.
    destruct err as [e|]; simpl; exists false, t; left; exists patched;
      [exists (Some e)|exists None]; rewrite ?app_nil_r, ?IgnoreNotFound_None;
      repeat split; try done; left; by rewrite Hd.
  - simpl. intros [e|] _; simpl.
    + exists false, []. right. by exists e.
    + eapply wp_use_returns; [apply removeFinalizer_wp|].
      intros t [[patched err] o'] Hout.
      destruct err as [e|]; simpl; exists true, t; left; exists patched;
        [exists (Some e)|exists None]; rewrite ?app_nil_r, ?IgnoreNotFound_None;
        repeat split; try done; right; by rewrite Hd.
Qed.

(** One round of [cleanUpAll] on the object [o]: what it exchanged and returned. *)
Abbreviation round := (list event * ((bool * option error) * obj k))%type.

(** The rounds of the loop: one per pointer, in order, whatever their errors. *)
Definition cleanUp_rounds (finalizer : string) (objs : list nat) (items items' : list (obj k))
    (rounds : list round) : Prop :=
  Forall2 (λ p (rd : round), ∃ o, items !! p = Some o ∧
    cleanUp_out finalizer o rd.1 rd.2 ∧ items' !! p = Some rd.2.2) objs rounds.

Lemma cleanUp_rounds_insert finalizer objs p o items items' rounds :
  p ∉ objs → cleanUp_rounds finalizer objs (<[p:=o]> items) items' rounds →
  cleanUp_rounds finalizer objs items items' rounds.
Proof.
  intros Hp Hr. induction Hr as [|q rd objs rounds (x & Hx & Hrest) _ IH]; [constructor|].
  apply not_elem_of_cons in Hp as [Hpq Hp]. constructor; [|by apply IH].
  exists x. by rewrite list_lookup_insert_ne in Hx.
Qed.

Definition cleanUpAll_loop_out finalizer objs (modified : bool) errs items (t : list event)
    (res : (bool * ErrorList) * list (obj k)) : Prop :=
  length res.2 = length items ∧ (∀ q, q ∉ objs → res.2 !! q = items !! q) ∧
  ∃ rounds, cleanUp_rounds finalizer objs items res.2 rounds ∧
    t = concat (fst <$> rounds) ∧
    res.1.1 = modified || existsb (λ rd : round, rd.2.1.1) rounds ∧
    errors res.1.2 = errors errs ++ omap (λ rd : round, rd.2.1.2) rounds.

Lemma cleanUpAll_loop_wp finalizer objs modified errs items :
  NoDup objs → Forall (λ p, p < length items) objs →
  wp env (cleanUpAll_loop finalizer objs modified errs items)
    (returns (cleanUpAll_loop_out finalizer objs modified errs items)).
Proof.
  intros Hnd. revert modified errs items.
  induction Hnd as [|p objs Hp Hnd IH]; intros modified errs items Hlt; simpl.
  { split; [done|]. split; [done|]. exists []. rewrite orb_false_r, app_nil_r.
    repeat split; constructor. }
  apply Forall_cons in Hlt as [Hplt Hlt].
  destruct (lookup_lt_is_Some_2 items p Hplt) as [o Ho].
  unfold index. rewrite Ho. simpl.
  eapply wp_use_returns; [apply cleanUp_wp|]. intros t [[m err] o'] Hout.
  eapply wp_mono; [|apply IH; by rewrite length_insert].
  intros t' [[[m' errs'] items']|?]; [|done].
  intros (Hlen & Hother & rounds & Hrounds & -> & Hm & Herrs). simpl in *.
  rewrite length_insert in Hlen. split; [done|]. split.
  { intros q Hq. apply not_elem_of_cons in Hq as [Hqp Hq].
    rewrite Hother by done. by rewrite list_lookup_insert_ne. }
  exists ((t, ((m, err), o')) :: rounds). simpl. split_and!; [| done | |].
  - constructor.
    + exists o. split; [done|]. split; [done|]. rewrite Hother by done.
      by rewrite list_lookup_insert_eq.
    + by eapply cleanUp_rounds_insert.
  - by rewrite Hm, orb_assoc.
  - rewrite Herrs. by destruct err; simpl; rewrite <-?app_assoc.
Qed.

End client_helpers_facts.

Arguments patched {k} env orig new t err o.
Arguments addFinalizer_out {k _} env finalizer o t res.
Arguments removeFinalizer_out {k _} env finalizer o t res.
Arguments cleanUp_out {_ k _} env finalizer o t res.
Arguments cleanUp_rounds {_ k _} env finalizer objs items items' rounds.
Arguments cleanUpAll_loop_out {_ k _} env finalizer objs modified errs items t res.

(** * What housekeeping exchanges *)

(** Deletions and metadata patches of objects of kind [k]. *)
Definition is_cleanup (k : kind) (e : event) : Prop :=
  match ev_call e with
  | CDelete k' _ => k' = k
  | CPatch k' _ _ => k' = k
  | _ => False
  end.

(** Errors are those of failed calls. *)
Lemma patched_failing `{AM : !ApiMachinery} {k} `{!ClientObject k} {env : world}
    (orig new : obj k) t e o :
  patched env orig new t (Some e) o → failing t.
Proof.
  intros ([e'|o'] & _ & -> & Hu); [|done]. left. by intros [x [=]].
Qed.

Lemma removeFinalizer_out_failing `{AM : !ApiMachinery} {k} `{!ClientObject k} {env : world}
    finalizer (o : obj k) t m e o' :
  removeFinalizer_out env finalizer o t ((m, Some e), o') → failing t.
Proof.
  unfold removeFinalizer_out. case_decide; [|by intros [_ [=]]].
  intros (err & x & [= _ <- <-] & Hp). by eapply patched_failing.
Qed.

Lemma cleanUp_out_failing `{AM : !ApiMachinery} {k} `{!ClientObject k} {env : world}
    finalizer (o : obj k) t m e o' :
  cleanUp_out env finalizer o t ((m, Some e), o') → failing t.
Proof.
  intros (m' & t' & [(p & err & Hr & [= _ <-] & Ht)|(e' & _ & -> & _)]).
  - apply removeFinalizer_out_failing in Hr.
    destruct Ht as [(_ & _ & ->)|(_ & _ & ->)]; [done|by right].
  - by left.
Qed.

(** A loop over objects collects no error exactly when no round has one. *)
Lemma round_errors {A B : Type} (rounds : list (A * ((bool * option error) * B))) :
  omap (λ rd, rd.2.1.2) rounds = [] ↔ Forall (λ rd, rd.2.1.2 = None) rounds.
Proof.
  induction rounds as [|[t [[m [e|]] o]] rounds IH]; simpl; [done|..].
  - split; [done|]. intros [H _]%Forall_cons_1. done.
  - rewrite Forall_cons, <-IH. simpl. tauto.
Qed.

Section cleanup_events.
Context `{AM : !ApiMachinery} {k : kind} `{!ClientObject k} {env : world}.
Implicit Types o : obj k.

Lemma removeFinalizer_out_cleanup finalizer o t res :
  removeFinalizer_out env finalizer o t res → Forall (is_cleanup k) t.
Proof.
  unfold removeFinalizer_out. case_decide.
  - intros (err & o' & _ & r & _ & -> & _). by repeat constructor.
  - intros [-> _]. constructor.
Qed.

Lemma cleanUp_out_cleanup finalizer o t res :
  cleanUp_out env finalizer o t res → Forall (is_cleanup k) t.
Proof.
  intros (m & t' & [(p & err & Hr%removeFinalizer_out_cleanup & _ & Ht)|(e & _ & -> & _)]).
  - destruct Ht as [(_ & _ & ->)|(_ & _ & ->)]; by repeat constructor.
  - by repeat constructor.
Qed.

Lemma cleanUpAll_loop_out_cleanup finalizer objs m errs items t res :
  cleanUpAll_loop_out env finalizer objs m errs items t res → Forall (is_cleanup k) t.
Proof.
  intros (_ & _ & rounds & Hr & -> & _). apply Forall_concat, Forall_fmap.
  induction Hr as [|p rd objs' rounds (o & _ & Ho & _) _ IH]; constructor; [|done].
  by eapply cleanUp_out_cleanup.
Qed.

(** An error of [removeFinalizer] comes from its patch, which was needed. *)
Lemma removeFinalizer_out_absent finalizer o t res :
  finalizer ∉ GetFinalizers o → removeFinalizer_out env finalizer o t res →
  t = [] ∧ res = ((false, None), o).
Proof. intros Hf. unfold removeFinalizer_out. by rewrite decide_False. Qed.

Lemma cleanUpAll_wp finalizer objs items :
  NoDup objs → Forall (λ p, p < length items) objs →
  wp env (cleanUpAll finalizer objs items) (returns (λ t res,
    ∃ errs, cleanUpAll_loop_out env finalizer objs false (mkErrorList []) items t
              ((res.1.1, errs), res.2) ∧
            res.1.2 = ErrorList_Error errs)).
Proof.
  intros Hnd Hlt. eapply wp_use_returns; [by apply cleanUpAll_loop_wp|].
  intros t [[m errs] items'] Hout. simpl. exists errs. by rewrite app_nil_r.
Qed.

End cleanup_events.

Lemma created_cleanup k k' t : Forall (is_cleanup k) t → created k' t = [].
Proof.
  induction 1 as [|[[] r] t He _ IH]; [done|..]; unfold is_cleanup in He; simpl in *; done.
Qed.

#[export] Hint Resolve removeFinalizer_out_cleanup cleanUp_out_cleanup
  cleanUpAll_loop_out_cleanup : konfirm.

(** The pointers of [GetObjects] are distinct and within the list. *)
Lemma GetObjects_NoDup {k} (items : list (obj k)) : NoDup (GetObjects items).
Proof. apply NoDup_seq. Qed.

Lemma GetObjects_lt {k} (items : list (obj k)) :
  Forall (λ p, p < length items) (GetObjects items).
Proof. apply Forall_forall. intros p Hp%elem_of_seq. lia. Qed.

Lemma take_GetObjects_NoDup {k} n (items : list (obj k)) : NoDup (take n (GetObjects items)).
Proof. eapply sublist_NoDup; [apply (GetObjects_NoDup items)|apply sublist_take]. Qed.

Lemma take_GetObjects_lt {k} n (items : list (obj k)) :
  Forall (λ p, p < length items) (take n (GetObjects items)).
Proof. apply Forall_take, (GetObjects_lt items). Qed.

#[export] Hint Resolve GetObjects_NoDup GetObjects_lt : konfirm.

(** The same as rules for handlers whose exchanges all satisfy some [P]. *)
Section cleanup_safe.
Context `{AM : !ApiMachinery} {k : kind} `{!ClientObject k} {env : world}.
Context (P : event → Prop) (HP : ∀ e, is_cleanup k e → P e).
Implicit Types o : obj k.

Lemma addFinalizer_safe f o : wp env (addFinalizer f o) (safe P).
Proof using HP.
  eapply wp_mono; [|apply addFinalizer_wp].
  intros t [r|?]; [|done]. unfold safe, returns, addFinalizer_out. case_decide.
  - intros [-> _]. constructor.
  - intros (err & o' & _ & r' & _ & -> & _). constructor; [by apply HP|constructor].
Qed.

Lemma removeFinalizer_safe f o : wp env (removeFinalizer f o) (safe P).
Proof using HP.
  eapply wp_mono; [|apply removeFinalizer_wp].
  intros t [r|?]; [|done]. intros Hr. eapply Forall_impl; [|exact HP].
  by eapply removeFinalizer_out_cleanup.
Qed.

Lemma cleanUp_safe f o : wp env (cleanUp f o) (safe P).
Proof using HP.
  eapply wp_mono; [|apply cleanUp_wp].
  intros t [r|?]; [|done]. intros Hr. eapply Forall_impl; [|exact HP].
  by eapply cleanUp_out_cleanup.
Qed.

Lemma cleanUpAll_safe f objs (items : list (obj k)) :
  NoDup objs → Forall (λ p, p < length items) objs →
  wp env (cleanUpAll f objs items) (safe P).
Proof using HP.
  intros Hnd Hlt. eapply wp_mono; [|by apply cleanUpAll_wp].
  intros t [r|?]; [|done]. intros (errs & Hr & _). eapply Forall_impl; [|exact HP].
  by eapply cleanUpAll_loop_out_cleanup.
Qed.

End cleanup_safe.

(** * Properties *)

(** A world whose server stores the finalizers of a metadata patch: what it
    returns has the finalizers it was sent. *)
Definition stores_finalizers (k : kind) `{!ClientObject k} : world := λ c,
  match c return reply c → Prop with
  | CPatch k' _ new => λ r, ∀ (e : k' = k) o',
      r = inr o' → GetFinalizers (eq_rect k' obj o' k e) = GetFinalizers (eq_rect k' obj new k e)
  | _ => λ _, True
  end.

Section finalizer_properties.
Context `{AM : !ApiMachinery} {k : kind} `{!ClientObject k}.
Implicit Types o : obj k.

(** Whether or not the server accepted the patch, the object in memory has
    the finalizers that were sent. *)
Lemma patched_finalizers orig new t err o :
  patched (stores_finalizers k) orig new t err o → GetFinalizers o = GetFinalizers new.
Proof.
  intros (r & Hr & -> & Hupd). destruct r as [e|o']; simpl in Hupd; simplify_eq; [done|].
  exact (Hr eq_refl _ eq_refl).
Qed.

Lemma addFinalizer_out_elem finalizer o t res :
  addFinalizer_out (stores_finalizers k) finalizer o t res →
  GetFinalizers res.2 =
    if decide (finalizer ∈ GetFinalizers o) then GetFinalizers o
    else GetFinalizers o ++ [finalizer].
Proof.
  unfold addFinalizer_out. case_decide.
  - by intros [-> ->].
  - intros (err & o' & -> & Hp%patched_finalizers). simpl. rewrite Hp.
    apply GetFinalizers_SetFinalizers.
Qed.

Lemma removeFinalizer_out_elem finalizer o t res :
  removeFinalizer_out (stores_finalizers k) finalizer o t res →
  GetFinalizers res.2 = filter (.≠ finalizer) (GetFinalizers o).
Proof.
  unfold removeFinalizer_out. case_decide as Hf.
  - intros (err & o' & -> & Hp%patched_finalizers). simpl. rewrite Hp.
    apply GetFinalizers_SetFinalizers.
  - intros [-> ->]. symmetry. apply filter_id, Forall_forall. intros f Hin ->. done.
Qed.

(** C29: adding a finalizer the object lacks and removing it again gives back
    its finalizers, in their order, with exactly two patches, whether the server
    accepts them or not. *)
Theorem finalizer_roundtrip finalizer o :
  finalizer ∉ GetFinalizers o →
  wp (stores_finalizers k)
    (let* '(_, o1) := addFinalizer finalizer o in removeFinalizer finalizer o1)
    (returns (λ t '(_, o2), GetFinalizers o2 = GetFinalizers o ∧ length t = 2)).
Proof.
  intros Hf. eapply wp_use_returns; [apply addFinalizer_wp|].
  intros t1 [r1 o1] Hadd. pose proof (addFinalizer_out_elem _ _ _ _ Hadd) as Hfs.
  simpl in Hfs. rewrite decide_False in Hfs by done.
  eapply wp_mono; [|apply removeFinalizer_wp].
  intros t2 [[r2 o2]|?]; [|done]. simpl. intros Hrem.
  pose proof (removeFinalizer_out_elem _ _ _ _ Hrem) as Hgs. simpl in Hgs.
  rewrite Hgs, Hfs, filter_app, (filter_id _ (GetFinalizers o)), filter_cons_False, filter_nil,
    app_nil_r; [split; [done|]|by intros []|].
  - unfold addFinalizer_out in Hadd. rewrite decide_False in Hadd by done.
    unfold removeFinalizer_out in Hrem. rewrite decide_True in Hrem by (rewrite Hfs; set_solver).
    destruct Hadd as (? & ? & _ & ? & _ & -> & _), Hrem as (? & ? & _ & ? & _ & -> & _). done.
  - apply Forall_forall. intros f Hin ->. done.
Qed.

End finalizer_properties.

Section cleanup_properties.
Context `{AM : !ApiMachinery} {k : kind} `{!ClientObject k} {env : world}.
Implicit Types o : obj k.

(** The rounds over all pointers of a slice are the rounds over its items. *)
Lemma cleanUp_rounds_items finalizer (items items' : list (obj k)) rounds :
  length items' = length items →
  cleanUp_rounds env finalizer (GetObjects items) items items' rounds →
  Forall2 (λ o rd, cleanUp_out env finalizer o rd.1 rd.2) items rounds ∧
  items' = (λ rd, rd.2.2) <$> rounds.
Proof.
  unfold cleanUp_rounds, GetObjects. intros Hlen Hr.
  pose proof (Forall2_length _ _ _ Hr) as Hl. rewrite length_seq in Hl.
  assert (∀ i o rd, items !! i = Some o → rounds !! i = Some rd →
    cleanUp_out env finalizer o rd.1 rd.2 ∧ items' !! i = Some rd.2.2) as Hi.
  { intros i o rd Ho Hrd. eapply Forall2_lookup_r in Hr as (p & Hp & x & Hx & Hout & Hx');
      [|exact Hrd]. apply lookup_seq in Hp as [-> _]. simpl in *. by simplify_eq. }
  split.
  - apply Forall2_same_length_lookup_2; [done|]. intros i o rd Ho Hrd. by eapply Hi.
  - apply list_eq. intros i. rewrite list_lookup_fmap.
    destruct (rounds !! i) as [rd|] eqn:Hrd; simpl.
    + destruct (lookup_lt_is_Some_2 items i) as [o Ho].
      { rewrite Hl. by eapply lookup_lt_Some. }
      by eapply Hi.
    + apply lookup_ge_None. rewrite Hlen, Hl. by apply lookup_ge_None.
Qed.

(** The rounds over the first [n] pointers are the rounds over the first [n]
    items. *)
Lemma cleanUp_rounds_take finalizer n (items items' : list (obj k)) rounds :
  cleanUp_rounds env finalizer (take n (GetObjects items)) items items' rounds →
  Forall2 (λ o rd, cleanUp_out env finalizer o rd.1 rd.2) (take n items) rounds.
Proof.
  unfold cleanUp_rounds, GetObjects. intros Hr.
  pose proof (Forall2_length _ _ _ Hr) as Hl. rewrite length_take, length_seq in Hl.
  apply Forall2_same_length_lookup_2; [by rewrite length_take|].
  intros i o rd Ho Hrd. eapply Forall2_lookup_r in Hr as (p & Hp & x & Hx & Hout & _); [|exact Hrd].
  apply lookup_take_Some in Hp as [Hp Hi]. apply lookup_seq in Hp as [-> _].
  apply lookup_take_Some in Ho as [Ho _]. simpl in *. by simplify_eq.
Qed.

(** The rounds delete every object that is not being deleted yet. *)
Lemma cleanUp_rounds_delete finalizer (items : list (obj k)) rounds :
  Forall2 (λ o rd, cleanUp_out env finalizer o rd.1 rd.2) items rounds →
  Forall (λ o, is_deleted o = true ∨ Exists (λ e, ev_call e = CDelete k o) (concat (fst <$> rounds)))
    items.
Proof.
  induction 1 as [|o rd items rounds Hout _ IH]; [constructor|]. simpl. constructor.
  - unfold is_deleted. destruct Hout as (m & t' & [(pt & err & _ & _ & Ht)|(e & _ & -> & _)]).
    + destruct Ht as [(Hd & _)|(_ & _ & ->)]; [left; by destruct (GetDeletionTimestamp o)|].
      right. apply Exists_app. left. by left.
    + right. apply Exists_app. left. by left.
  - eapply Forall_impl; [exact IH|]. intros x [?|?]; [by left|]. right. apply Exists_app. by right.
Qed.

(** C28: [cleanUpAll] runs [cleanUp] once on every object of the list, in
    order, whatever errors occur on the way; it reports a modification when
    one of the rounds did, and returns an error exactly when one did. *)
Theorem cleanUpAll_visits_all finalizer (items : list (obj k)) :
  wp env (cleanUpAll finalizer (GetObjects items) items)
    (returns (λ t '((modified, err), items'), ∃ rounds,
      Forall2 (λ o rd, cleanUp_out env finalizer o rd.1 rd.2) items rounds ∧
      t = concat (fst <$> rounds) ∧
      items' = (λ rd, rd.2.2) <$> rounds ∧
      modified = existsb (λ rd, rd.2.1.1) rounds ∧
      (err = None ↔ Forall (λ rd, rd.2.1.2 = None) rounds))).
Proof.
  eapply wp_mono; [|apply cleanUpAll_wp; auto with konfirm].
  intros t [[[modified err] items']|?]; [|done]. simpl.
  intros (errs & (Hlen & _ & rounds & Hr & Ht & Hm & Herrs) & Herr). simpl in *.
  apply cleanUp_rounds_items in Hr as [Hr Hitems]; [|done].
  exists rounds. split_and!; try done.
  rewrite Herr, ErrorList_Error_None, Herrs. apply round_errors.
Qed.

(** [cleanUp] treats an object that is gone differently at its two calls:
    a NotFound answer to the deletion is no error, but a NotFound answer to
    the patch that removes the finalizer is returned, because [IgnoreNotFound]
    is only reached when there is no error. *)
Theorem cleanUp_reports_vanished_patch finalizer o e d :
  IsNotFound e = true → GetDeletionTimestamp o = Some d → finalizer ∈ GetFinalizers o →
  wp (λ c r, match c return reply c → Prop with
      | CPatch _ _ _ => λ r, r = inl e
      | CDelete _ _ => λ r, r = Some e
      | _ => λ _, True end r)
    (let* '(r1, _) := cleanUp finalizer o in
     let* '(r2, _) := cleanUp finalizer (SetObjectMeta (mkObjectMeta "" "" "" "" 0 0 None
       None None [] []) o) in Ret (r1, r2))
    (returns (λ _ r, r = ((false, Some e), (false, None)))).
Proof.
  intros He Hd Hf. unfold cleanUp. rewrite Hd.
  unfold GetDeletionTimestamp at 1. rewrite Get_SetObjectMeta. simpl.
  unfold removeFinalizer. rewrite removeFinalizer_fold. simpl.
  rewrite (proj2 (existsb_eq_spec _ _) Hf). simpl.
  intros r ->. simpl. intros r ->. simpl. by rewrite IgnoreNotFound_spec, He.
Qed.

End cleanup_properties.

(** The text of an [ErrorList] is the texts of its errors one after the
    other; the line breaks come after the second and later errors, so the
    first two run together. *)
Theorem ErrorList_Error_text e0 e1 rest :
  ErrorList_Error (mkErrorList (e0 :: e1 :: rest)) =
    Some (errors_New (err_Error e0 +:+ err_Error e1 +:+ newline +:+
      foldr (λ e b, err_Error e +:+ newline +:+ b) "" rest)).
Proof.
  unfold ErrorList_Error. simpl. do 2 f_equal.
  assert (∀ b, fold_left (λ b ei, b +:+ err_Error ei +:+ newline) rest b =
    b +:+ foldr (λ e b, err_Error e +:+ newline +:+ b) "" rest) as H.
  { induction rest as [|e rest IH]; intros b; simpl; [by rewrite str_app_nil_r|].
    by rewrite IH, !str_app_assoc. }
  by rewrite H, !str_app_assoc.
Qed.

(** * Helm releases *)

(** When a secret is a Helm release, and what is read from it. *)
Definition helm_release_of (s : Secret) (r : HelmReleaseMeta) : Prop :=
  secret_Type s = HelmSecretType ∧
  hrm_Namespace r = Namespace (secret_ObjectMeta s) ∧
  ∃ labels, Labels (secret_ObjectMeta s) = Some labels ∧
    labels !! "name" = Some (hrm_Name r) ∧
    labels !! "version" = Some (hrm_VersionString r) ∧
    labels !! "status" = Some (hrm_Status r) ∧
    strconv.Atoi (hrm_VersionString r) = inr (hrm_Version r).

(** [ParseHelmReleaseSecret] accepts exactly the secrets of the Helm type
    that carry the three labels with a decimal version that fits an [int],
    and returns what the labels say. *)
Theorem ParseHelmReleaseSecret_iff s r :
  ParseHelmReleaseSecret (Some s) = (Some r, true) ↔ helm_release_of s r.
Proof.
  unfold ParseHelmReleaseSecret, helm_release_of, map_get_ok.
  destruct r as [ns n v vs st]; simpl.
  split.
  - intros H. case_bool_decide as Ht; [|done]. simpl in H.
    destruct (Labels (secret_ObjectMeta s)) as [labels|]; [|done]. simpl in H.
    destruct (labels !! "name") eqn:Hn, (labels !! "version") eqn:Hv,
      (labels !! "status") eqn:Hs; simpl in H; try done.
    destruct (strconv.Atoi _) eqn:Ha; simplify_eq. by eauto 10.
  - intros (Ht & Hns & labels & Hl & Hn & Hv & Hs & Ha).
    rewrite Hl. simpl. rewrite Hn, Hv, Hs. simpl. rewrite Ha.
    by rewrite bool_decide_eq_true_2, Hns.
Qed.

(** The version [Helm] writes is the version that is parsed, for every
    64-bit revision number, negative ones included. *)
Theorem helm_version_roundtrip s labels v :
  (minInt64 ≤ v ≤ maxInt64)%Z → secret_Type s = HelmSecretType →
  Labels (secret_ObjectMeta s) = Some (<["version" := strconv.Itoa v]> labels) →
  is_Some (labels !! "name") → is_Some (labels !! "status") →
  ∃ r, ParseHelmReleaseSecret (Some s) = (Some r, true) ∧ hrm_Version r = v.
Proof.
  intros Hv Ht Hl [n Hn] [st Hs].
  exists (mkHelmReleaseMeta (Namespace (secret_ObjectMeta s)) n v (strconv.Itoa v) st).
  split; [|done]. apply ParseHelmReleaseSecret_iff. split_and!; [done..|].
  exists (<["version" := strconv.Itoa v]> labels). simpl. split_and!; [done| | | |].
  - by rewrite lookup_insert_ne.
  - by rewrite lookup_insert_eq.
  - by rewrite lookup_insert_ne.
  - by apply strconv_facts.Atoi_Itoa.
Qed.

(** The digest of a template is a decimal number of 32 bits. *)
Theorem computeTestRunHash_digest spew enc testRun :
  ∃ h, (0 ≤ h < 2 ^ 32)%Z ∧ h = fnv.Sum32a (spew testRun) ∧
    computeTestRunHash spew enc testRun = enc (strconv.Itoa h) ∧
    strconv.Atoi (strconv.Itoa h) = inr h.
Proof.
  exists (fnv.Sum32a (spew testRun)). pose proof (Sum32a_bounds (spew testRun)) as Hb.
  split; [done|]. split; [done|]. split; [done|].
  apply strconv_facts.Atoi_Itoa. unfold minInt64, maxInt64. lia.
Qed.
