(* ===== verification/PruneDeleted.v ===== *)
(** The "handle deleted objects" block that [testrun_controller.go] and
    [testsuite_controller.go] share word for word: it removes the finalizers
    of deleted items of a slice, and compacts the slice to the others by
    moving items from its end. *)

From S2P Require Import Prelude.
From S2P Require Import GoLib.
From S2P Require Import Api.
From S2P Require Import Effects.
From S2P Require Import Helpers.

Section prune.
Context {k : kind} `{!ClientObject k}.
Context (finalizer : string).

(** [for j--; i < j; j-- { ... }]: looks from the end for an item to move to
    [i]. An error is returned at once. The program always enters it with
    [i < j]; otherwise [items[:j]] would be out of range. *)
Fixpoint fillFromEnd (i j : nat) (items : list (obj k)) : fn error (list (obj k) * nat) :=
  match j with
  | O => Panic IndexOutOfRange
  | S j =>
      if bool_decide (i < j) then
        let! tj := lift (index items j) in
        if negb (is_deleted tj) then next (<[i := tj]> items, j)
        else
          let! ti := lift (index items i) in
          let! '((_, err), ti) := lift (removeFinalizer finalizer ti) in
          match err with
          | Some e => return_ e
          | None => fillFromEnd i j (<[i := ti]> items)
          end
      else next (items, j)
  end.

(** [for i, j := 0, len(items); i < j; i++ { ... }] *)
Fixpoint pruneLoop (fuel i j : nat) (items : list (obj k)) : fn error (list (obj k)) :=
  match fuel with
  | O => Panic OutOfFuel
  | S fuel =>
      if bool_decide (i < j) then
        let! ti := lift (index items i) in
        if is_deleted ti then
          let! '((_, err), ti) := lift (removeFinalizer finalizer ti) in
          match err with
          | Some e => return_ e
          | None =>
              let! '(items, j) := fillFromEnd i j (<[i := ti]> items) in
              pruneLoop fuel (S i) j (take j items)
          end
        else pruneLoop fuel (S i) j items
      else next items
  end.

Definition pruneDeleted (items : list (obj k)) : fn error (list (obj k)) :=
  pruneLoop (S (length items)) 0 (length items) items.

End prune.

(** * Lemmas *)

Section prune_facts.
Context {k : kind} `{!ClientObject k} {env : world}.
Context (finalizer : string).
Implicit Types (o x y z : obj k) (items pre mid rest : list (obj k)).

(** The patches that write the object [x], or what the server made of it. *)
Definition is_patch (e : event) : Prop :=
  match ev_call e with CPatch k' _ _ => k' = k | _ => False end.

Lemma removeFinalizer_out_patch finalizer0 o t res :
  removeFinalizer_out env finalizer0 o t res → Forall is_patch t.
Proof.
  unfold removeFinalizer_out. case_decide.
  - intros (err & o' & _ & r & _ & -> & _). by repeat constructor.
  - intros [-> _]. constructor.
Qed.

Definition live o : Prop := is_deleted o = false.
#[export] Instance live_dec o : Decision (live o).
Proof. unfold live. apply _. Defined.

Lemma insert_middle pre x y rest : <[length pre := y]> (pre ++ x :: rest) = pre ++ y :: rest.
Proof. rewrite insert_app_r_alt, Nat.sub_diag by done. done. Qed.

(** What the inner loop leaves: the items before [i], and a compaction of
    those after it. *)
Definition filled pre mid (t : list event) (r : error + (list (obj k) * nat)) : Prop :=
  Forall is_patch t ∧
  match r with
  | inl _ => True
  | inr (items', j') => ∃ mid',
      take j' items' = pre ++ mid' ∧ j' = length pre + length mid' ∧
      length mid' ≤ length mid ∧
      filter live mid' ≡ₚ filter live mid ∧
      match mid' with y :: _ => live y | [] => True end
  end.

Lemma fillFromEnd_wp pre x mid rest :
  wp env (fillFromEnd finalizer (length pre) (length pre + S (length mid)) (pre ++ x :: mid ++ rest))
    (returns (filled pre mid)).
Proof.
  revert x rest. induction mid as [|z mid IH] using rev_ind; intros x rest.
  - rewrite Nat.add_1_r. cbn [fillFromEnd length].
    rewrite bool_decide_eq_false_2 by lia. split; [constructor|].
    exists []. rewrite app_nil_r. split_and!; [by rewrite take_app_length|simpl; lia|done..].
  - rewrite length_app, Nat.add_1_r, Nat.add_succ_r. cbn [fillFromEnd].
    rewrite bool_decide_eq_true_2 by (simpl; lia).
    assert ((pre ++ x :: (mid ++ [z]) ++ rest) !! (length pre + S (length mid)) = Some z) as Hz.
    { replace (pre ++ x :: (mid ++ [z]) ++ rest) with ((pre ++ x :: mid) ++ z :: rest)
        by (by rewrite <-!app_assoc).
      apply list_lookup_middle. rewrite length_app. simpl. lia. }
    apply wp_lift_bind_fn, (wp_index _ _ _ _ Hz).
    destruct (is_deleted z) eqn:Hd; simpl.
    + assert ((pre ++ x :: (mid ++ [z]) ++ rest) !! length pre = Some x) as Hx.
      { by rewrite lookup_app_r, Nat.sub_diag by lia. }
      apply wp_lift_bind_fn, (wp_index _ _ _ _ Hx), wp_lift_bind_fn.
      eapply wp_mono; [|apply removeFinalizer_wp].
      intros t [[[pt err] x']|?]; [|done]. intros Hout%removeFinalizer_out_patch.
      destruct err as [e|]; [split; [by rewrite app_nil_r|done]|].
      rewrite insert_middle, <-app_assoc.
      eapply wp_mono; [|apply (IH x' ([z] ++ rest))].
      intros t' [r|?]; [|done]. intros [Ht' Hr]. simpl.
      split; [by apply Forall_app_intro|]. destruct r as [e|[items' j']]; [done|].
      destruct Hr as (mid' & H1 & H2 & H3 & H4 & H5). exists mid'.
      rewrite length_app, filter_app, filter_cons_False, filter_nil, app_nil_r
        by (unfold live; congruence).
      split_and!; [done..|lia|done|done].
    + split; [constructor|]. exists (z :: mid). rewrite insert_middle.
      split_and!.
      * rewrite take_app_add, firstn_cons. do 2 f_equal.
        by rewrite <-app_assoc, take_app_length.
      * done.
      * rewrite length_app. simpl. lia.
      * rewrite filter_cons_True, filter_app, filter_cons_True, filter_nil by done.
        by rewrite Permutation_cons_append.
      * done.
Qed.

(** The result of the outer loop from a slice whose first [i] items are live. *)
Definition pruned items (t : list event) (r : error + list (obj k)) : Prop :=
  Forall is_patch t ∧
  match r with inl _ => True | inr items' => items' ≡ₚ filter live items end.

Lemma pruneLoop_wp fuel pre items :
  Forall live pre → length items < fuel →
  wp env (pruneLoop finalizer fuel (length pre) (length (pre ++ items)) (pre ++ items))
    (returns (pruned (pre ++ items))).
Proof.
  revert pre items. induction fuel as [|fuel IH]; intros pre items Hpre Hfuel; [lia|].
  cbn [pruneLoop]. rewrite length_app. destruct items as [|x mid].
  { rewrite bool_decide_eq_false_2 by (simpl; lia). split; [constructor|].
    by rewrite app_nil_r, filter_id. }
  rewrite bool_decide_eq_true_2 by (simpl; lia).
  assert ((pre ++ x :: mid) !! length pre = Some x) as Hx.
  { by rewrite lookup_app_r, Nat.sub_diag by lia. }
  apply wp_lift_bind_fn, (wp_index _ _ _ _ Hx).
  destruct (is_deleted x) eqn:Hd.
  - apply wp_lift_bind_fn. eapply wp_mono; [|apply removeFinalizer_wp].
    intros t [[[pt err] x']|?]; [|done]. intros Hout%removeFinalizer_out_patch.
    destruct err as [e|]; [split; [by rewrite app_nil_r|done]|].
    rewrite insert_middle. apply wp_bind_fn.
    pose proof (fillFromEnd_wp pre x' mid []) as Hfill. rewrite app_nil_r in Hfill.
    eapply wp_mono; [|exact Hfill]. clear Hfill.
    intros t' [[e|[items' j']]|?]; [| |done]; intros [Ht' Hr].
    { split; [|done]. simpl. by apply Forall_app_intro. }
    destruct Hr as (mid' & -> & -> & Hlen & Hperm & Hhd). simpl in Hfuel.
    assert (filter live (pre ++ x :: mid) ≡ₚ filter live (pre ++ mid')) as Hsame.
    { rewrite !filter_app, filter_cons_False by (unfold live; congruence). by rewrite Hperm. }
    destruct mid' as [|y mid'].
    + rewrite Nat.add_0_r, app_nil_r in *. destruct fuel as [|fuel]; [lia|].
      cbn [pruneLoop]. rewrite bool_decide_eq_false_2 by lia.
      split; [auto with konfirm|]. by rewrite Hsame, filter_id.
    + pose proof (IH (pre ++ [y]) mid') as IH'.
      rewrite <-!app_assoc, !length_app in IH'. simpl in *.
      replace (length pre + 1) with (S (length pre)) in IH' by lia.
      eapply wp_mono; [|apply IH'; [apply Forall_app_intro; auto with konfirm|lia]].
      intros t'' [r|?]; [|done]. intros [Ht'' Hr]. split; [auto with konfirm|].
      destruct r as [e|items'']; [done|]. by rewrite Hr, Hsame.
  - pose proof (IH (pre ++ [x]) mid) as IH'.
    rewrite <-!app_assoc, !length_app in IH'. simpl in *.
    replace (length pre + 1) with (S (length pre)) in IH' by lia.
    apply IH'; [apply Forall_app_intro; auto with konfirm|lia].
Qed.

Lemma pruneDeleted_wp items : wp env (pruneDeleted finalizer items) (returns (pruned items)).
Proof. apply (pruneLoop_wp (S (length items)) [] items); [constructor|simpl; lia]. Qed.

End prune_facts.

Arguments is_patch k e : clear implicits.

Section prune_properties.
Context {k : kind} `{!ClientObject k}.
Implicit Types items rest : list (obj k).

(** C27: the compaction terminates within the slice's length and never indexes
    out of range; unless a patch fails, what it leaves are exactly the items
    that are not being deleted, each as often as before. *)
Theorem pruneDeleted_keeps_live {env : world} finalizer items :
  wp env (pruneDeleted finalizer items) (returns (λ t r,
    Forall (is_patch k) t ∧
    match r with
    | inl _ => True
    | inr items' => items' ≡ₚ filter live items
    end)).
Proof. apply pruneDeleted_wp. Qed.

(** As a rule for handlers whose exchanges all satisfy some [P]. *)
Lemma pruneDeleted_safe {env : world} (P : event → Prop) finalizer items :
  (∀ e, is_patch k e → P e) → wp env (pruneDeleted finalizer items) (safe P).
Proof.
  intros HP. eapply wp_mono; [|apply pruneDeleted_wp].
  intros t [r|?]; [|done]. intros [Ht _]. by eapply Forall_impl.
Qed.

(** Without deleted items it exchanges nothing. *)
Lemma pruneLoop_nop finalizer fuel i (items : list (obj k)) :
  Forall live items → i ≤ length items → length items < fuel + i →
  pruneLoop finalizer fuel i (length items) items = next items.
Proof.
  intros Hl. revert i. induction fuel as [|fuel IH]; intros i Hi Hf; [simpl in Hf; lia|].
  cbn [pruneLoop]. case_bool_decide as Hlt; [|done].
  destruct (lookup_lt_is_Some_2 items i Hlt) as [x Hx]. unfold index. rewrite Hx.
  unfold bind_fn at 1, lift. cbn [bind]. rewrite (Forall_lookup_1 _ _ _ _ Hl Hx).
  apply IH; lia.
Qed.

Lemma pruneDeleted_nop finalizer (items : list (obj k)) :
  Forall live items → pruneDeleted finalizer items = next items.
Proof. intros Hl. apply pruneLoop_nop; [done|lia..]. Qed.

Lemma removeFinalizer_absent finalizer (o : obj k) :
  finalizer ∉ GetFinalizers o → removeFinalizer finalizer o = Ret ((false, None), o).
Proof.
  intros Hf. unfold removeFinalizer. rewrite removeFinalizer_fold.
  by rewrite (proj2 (existsb_eq_false _ _) Hf).
Qed.

Lemma fillFromEnd_S finalizer i j (items : list (obj k)) :
  fillFromEnd finalizer i (S j) items =
    if bool_decide (i < j) then
      let! tj := lift (index items j) in
      if negb (is_deleted tj) then next (<[i := tj]> items, j)
      else
        let! ti := lift (index items i) in
        let! '((_, err), ti) := lift (removeFinalizer finalizer ti) in
        match err with
        | Some e => return_ e
        | None => fillFromEnd finalizer i j (<[i := ti]> items)
        end
    else next (items, j).
Proof. done. Qed.

(** On deleted items only, the inner loop comes down to [i] without an
    exchange when item [i] has no finalizer left. *)
Lemma fillFromEnd_dead finalizer (x : obj k) mid rest :
  finalizer ∉ GetFinalizers x → Forall (λ o : obj k, is_deleted o = true) mid →
  fillFromEnd finalizer 0 (S (length mid)) (x :: mid ++ rest) = next (x :: mid ++ rest, 0).
Proof.
  intros Hx. revert rest. induction mid as [|z mid IH] using rev_ind; intros rest Hdead; [done|].
  apply Forall_app in Hdead as [Hdead [Hz _]%Forall_cons_1].
  rewrite length_app, Nat.add_1_r, fillFromEnd_S.
  rewrite bool_decide_eq_true_2 by lia. unfold index.
  assert ((x :: (mid ++ [z]) ++ rest) !! S (length mid) = Some z) as ->.
  { simpl. rewrite <-app_assoc. by apply list_lookup_middle. }
  unfold bind_fn at 1, lift at 1. cbn [bind]. rewrite Hz. cbn [negb].
  unfold bind_fn, lift. cbn [bind lookup list_lookup].
  rewrite removeFinalizer_absent by done. cbn [bind].
  change (<[0:=x]> (x :: (mid ++ [z]) ++ rest)) with (x :: (mid ++ [z]) ++ rest).
  rewrite <-app_assoc. by apply IH.
Qed.

(** When all items are being deleted, only the first one has its finalizer
    removed: the inner loop releases item [i] again instead of item [j], so the
    finalizers of the others stay, and they are dropped from the slice. *)
Theorem pruneDeleted_skips_tail finalizer x rest :
  Forall (λ o : obj k, is_deleted o = true) (x :: rest) →
  wp (stores_finalizers k) (pruneDeleted finalizer (x :: rest)) (returns (λ t r,
    Forall (λ e, ∃ new, ev_call e = CPatch k x new) t ∧ length t ≤ 1 ∧
    (r = inr [] ∨ ∃ e, r = inl e))).
Proof.
  intros [Hx Hrest]%Forall_cons. unfold pruneDeleted. cbn [length pruneLoop].
  rewrite bool_decide_eq_true_2 by lia.
  apply wp_lift_bind_fn, (wp_index (x :: rest) 0 x); [done|]. rewrite Hx.
  apply wp_lift_bind_fn. eapply wp_mono; [|apply removeFinalizer_wp].
  intros t [[[pt err] x']|?]; [|done]. unfold returns at 1. intros Hout.
  assert (Forall (λ e, ∃ new, ev_call e = CPatch k x new) t ∧ length t ≤ 1) as [Ht Hlen].
  { unfold removeFinalizer_out in Hout. case_decide.
    - destruct Hout as (? & ? & _ & ? & _ & -> & _). split; [|simpl; lia].
      constructor; [by eexists|constructor].
    - destruct Hout as [-> _]. split; [constructor|simpl; lia]. }
  destruct err as [e|]; [simpl; rewrite app_nil_r; split_and!; [done..|right; by exists e]|].
  apply removeFinalizer_out_elem in Hout. simpl in Hout.
  change (<[0:=x']> (x :: rest)) with (x' :: rest).
  pose proof (fillFromEnd_dead finalizer x' rest []) as Hfill. rewrite app_nil_r in Hfill.
  rewrite Hfill; [|rewrite Hout; by intros [? _]%list_elem_of_filter|done].
  simpl. rewrite !app_nil_r. split_and!; [done..|by left].
Qed.

End prune_properties.
