(* ===== verification/TestController.v ===== *)
(** [src/controllers/test_controller.go]: the controller that runs one Test in
    a pod.

    The state of the controller is the Test and the pods it gets from the API
    server; a pointer into the slice of pods is an index. [Reconcile] is the
    entry point, [isRunning] and [isComplete] its two phases. *)

From S2P Require Import Prelude.
From S2P Require Import GoLib.
From S2P Require Import Api.
From S2P Require Import Effects.
From S2P Require Import Helpers.

(** * Constants *)

Definition podIndexKey : string := ".metadata.controller".
Definition PodCreatedCondition : string := "PodCreated".
Definition TestCompletedCondition : string := "TestCompleted".
Definition TestStartingEvent : string := "PodCreated".
Definition TestPassedEvent : string := "TestPassed".
Definition TestFailedEvent : string := "TestFailed".
Definition TestErrorEvent : string := "ErrorCreatingPod".
Definition TestControllerFinalizer : string := GroupName +:+ "/test-controller".

(** * Updates of a Test's status *)

Definition set_test_Phase (p : TestPhase) (t : Test) : Test :=
  set_test_Status (mkTestStatus (test_Conditions (test_Status t)) p
    (test_Messages (test_Status t))) t.

Definition set_test_Messages (m : gomap) (t : Test) : Test :=
  set_test_Status (mkTestStatus (test_Conditions (test_Status t))
    (test_Phase (test_Status t)) m) t.

Section controller.
Context `{AM : !ApiMachinery}.

(** [TestReconciler.ErrRequeueDelay]; the other fields are the capabilities
    of [Effects]. *)
Context (ErrRequeueDelay : Z).

(** [meta.SetStatusCondition(&test.Status.Conditions, ...)] *)
Definition set_test_Condition (c : Condition) (t : Test) : Test :=
  set_test_Status (mkTestStatus (SetStatusCondition (test_Conditions (test_Status t)) c)
    (test_Phase (test_Status t)) (test_Messages (test_Status t))) t.

(** [if err = client.IgnoreNotFound(err); err != nil { errs.Append(err) }] on
    an error. *)
Definition append_found (errs : ErrorList) (err : option error) : ErrorList :=
  match err with
  | None => errs
  | Some _ =>
      match IgnoreNotFound err with
      | Some e => ErrorList_Append errs e
      | None => errs
      end
  end.

Definition requeue : Result := mkResult true ErrRequeueDelay.

(** * isRunning *)

(** Removes the finalizers of deleted pods, and keeps the pods that are not
    deleted or that completed before they were. *)
Fixpoint dropDeletedPods (idxs : list nat) (pods : list Pod) (newPods : list nat)
    (errs : ErrorList) : prog ((list Pod * list nat) * ErrorList) :=
  match idxs with
  | [] => Ret ((pods, newPods), errs)
  | i :: idxs =>
      let* p := index pods i in
      match DeletionTimestamp (pod_ObjectMeta p) with
      | Some _ =>
          let* '((patched, err), p) := removeFinalizer (k:=KPod) TestControllerFinalizer p in
          let pods := <[i := p]> pods in
          let errs := append_found errs err in
          let phase := pod_Phase (pod_Status p) in
          let newPods :=
            if (phase == PodSucceeded) || (phase == PodFailed) then newPods ++ [i] else newPods in
          dropDeletedPods idxs pods newPods errs
      | None => dropDeletedPods idxs pods (newPods ++ [i]) errs
      end
  end.

(** Reduces the pods to [pod]: a pod that is not deleted replaces a deleted
    one, any other pod is cleaned up. *)
Fixpoint reducePods (rest : list nat) (pod : nat) (pods : list Pod) (errs : ErrorList) :
    prog ((nat * list Pod) * ErrorList) :=
  match rest with
  | [] => Ret ((pod, pods), errs)
  | i :: rest =>
      let* newPod := index pods i in
      let* current := index pods pod in
      if negb (is_deleted (k:=KPod) newPod) && is_deleted (k:=KPod) current
      then reducePods rest i pods errs
      else
        let* '((_, err), newPod) := cleanUp (k:=KPod) TestControllerFinalizer newPod in
        let errs := append_found errs err in
        reducePods rest pod (<[i := newPod]> pods) errs
  end.

(** Determines the pod that decides the result, if there is one. *)
Definition selectPod (pods : list Pod) : fn (Result * option error) (option Pod) :=
  if bool_decide (0 < length pods) then
    let! '((pods, newPods), errs) :=
      lift (dropDeletedPods (seq 0 (length pods)) pods [] (mkErrorList [])) in
    if ErrorList_HasError errs then return_ (requeue, ErrorList_Error errs)
    else
      match newPods with
      | pod :: rest =>
          let! '((pod, pods), errs) := lift (reducePods rest pod pods (mkErrorList [])) in
          if ErrorList_HasError errs then return_ (requeue, ErrorList_Error errs)
          else
            let! p := lift (index pods pod) in
            next (Some p)
      | [] => next None
      end
  else next None.

(** The pod of a Test: its template, owned by the Test, never restarted. *)
Definition podFor (test : Test) : Pod :=
  let tmpl := ts_Template (test_Spec test) in
  let m := pt_ObjectMeta tmpl in
  let meta := test_ObjectMeta test in
  mkPod
    (mkObjectMeta "" (Name meta +:+ "-") (Namespace meta) (UID m) (Generation m)
      (CreationTimestamp m) (DeletionTimestamp m) (Labels m) (Annotations m)
      [mkOwnerReference (APIVersion (test_TypeMeta test)) (Kind (test_TypeMeta test))
         (Name meta) (UID meta) (Some true) (Some true)]
      [TestControllerFinalizer])
    (mkPodSpec RestartPolicyNever (ps_rest (pt_Spec tmpl)))
    (mkPodStatus "" []).

(** Creates a pod when no usable one exists. *)
Definition ensurePod (test : Test) (pod : option Pod) : fn (Result * option error) Pod :=
  match pod with
  | Some pod => next pod
  | None =>
      let! '(err, pod) := lift (client_Create (k:=KPod) (podFor test)) in
      match err with
      | Some _ =>
          let! _ := lift (Recorder_Event (k:=KTest) test "Warning" TestErrorEvent
            "An error occurred while creating a test pod") in
          return_ (requeue, err)
      | None => next pod
      end
  end.

(** The messages of the terminated containers; a later status of the same
    name replaces an earlier one. *)
Definition terminationMessages (statuses : list ContainerStatus) : gmap string string :=
  fold_left (λ m cs,
    match cs_Terminated cs with
    | Some message => <[cs_Name cs := message]> m
    | None => m
    end) statuses ∅.

Definition podName (pod : Pod) : string := Name (pod_ObjectMeta pod).

(** The status of a Test whose pod has started. *)
Definition startedStatus (phase : TestPhase) (what : string) (test : Test) (pod : Pod) : Test :=
  let gen := Generation (test_ObjectMeta test) in
  let test := set_test_Phase phase test in
  let test := set_test_Condition (mkCondition PodCreatedCondition "True" gen "PodCreated"
    ("Created pod " +:+ podName pod)) test in
  set_test_Condition (mkCondition TestCompletedCondition "False" gen "PodNotCompleted"
    ("Pod " +:+ podName pod +:+ what)) test.

(** The status of a Test whose pod has completed. *)
Definition completedStatus (phase : TestPhase) (reason what : string) (test : Test) (pod : Pod) : Test :=
  let gen := Generation (test_ObjectMeta test) in
  let test := set_test_Phase phase test in
  let test := set_test_Messages
    (Some (terminationMessages (ContainerStatuses (pod_Status pod)))) test in
  set_test_Condition (mkCondition TestCompletedCondition "True" gen reason
    ("Pod " +:+ podName pod +:+ what)) test.

(** [switch pod.Status.Phase]: progresses the Test to the phase of its pod. *)
Definition followPod (test : Test) (pod : Pod) : prog (Result * option error) :=
  let phase := pod_Phase (pod_Status pod) in
  let ns := Namespace (test_ObjectMeta test) in
  if phase == PodPending then
    if test_Phase (test_Status test) != TestStarting then
      let orig := test in
      let test := startedStatus TestStarting " is pending" test pod in
      let* '(err, test) := Status_Patch (k:=KTest) test orig in
      let res := match err with Some _ => requeue | None => noResult end in
      let* _ := Recorder_Event (k:=KTest) test "Normal" TestStartingEvent
        ("Created pod " +:+ podName pod) in
      Ret (res, err)
    else Ret (noResult, None)
  else if phase == PodRunning then
    if test_Phase (test_Status test) != TestRunning then
      let orig := test in
      let test := startedStatus TestRunning " is running" test pod in
      let* '(err, test) := Status_Patch (k:=KTest) test orig in
      let res := match err with Some _ => requeue | None => noResult end in
      Ret (res, err)
    else Ret (noResult, None)
  else if phase == PodSucceeded then
    let orig := test in
    let test := completedStatus TestPassed "PodSucceeded" " completed successfully" test pod in
    let* '(err, test) := Status_Patch (k:=KTest) test orig in
    match err with
    | Some _ => Ret (requeue, err)
    | None =>
        let* _ := Metric (Inc passed [Namespace (test_ObjectMeta test)]) in
        let* _ := Recorder_Event (k:=KTest) test "Normal" TestPassedEvent
          ("Pod " +:+ podName pod +:+ " succeeded") in
        Ret (noResult, None)
    end
  else if phase == PodFailed then
    let orig := test in
    let test := completedStatus TestFailed "PodFailed" " failed" test pod in
    let* '(err, test) := Status_Patch (k:=KTest) test orig in
    match err with
    | Some _ => Ret (requeue, err)
    | None =>
        let* _ := Metric (Inc failed [Namespace (test_ObjectMeta test)]) in
        let* _ := Recorder_Event (k:=KTest) test "Normal" TestFailedEvent
          ("Pod " +:+ podName pod +:+ " failed") in
        Ret (noResult, None)
    end
  else Ret (noResult, None).

Definition isRunning (test : Test) (pods : list Pod) : prog (Result * option error) :=
  func (
    let! pod := selectPod pods in
    let! pod := ensurePod test pod in
    lift (followPod test pod)).

(** * isComplete *)

Fixpoint releaseDeletedPods (idxs : list nat) (pods : list Pod) (errs : ErrorList) :
    prog (list Pod * ErrorList) :=
  match idxs with
  | [] => Ret (pods, errs)
  | i :: idxs =>
      let* pod := index pods i in
      if is_deleted (k:=KPod) pod then
        let* '((patched, err), pod) := removeFinalizer (k:=KPod) TestControllerFinalizer pod in
        releaseDeletedPods idxs (<[i := pod]> pods) (append_found errs err)
      else releaseDeletedPods idxs pods errs
  end.

(** [for i := range pods { if _, e := cleanUp(..., &pods[i]); e != nil { errs.Append(e) } }],
    also used when the Test is deleted. *)
Fixpoint cleanUpPods (idxs : list nat) (pods : list Pod) (errs : ErrorList) :
    prog (list Pod * ErrorList) :=
  match idxs with
  | [] => Ret (pods, errs)
  | i :: idxs =>
      let* pod := index pods i in
      let* '((_, err), pod) := cleanUp (k:=KPod) TestControllerFinalizer pod in
      let errs := match err with Some e => ErrorList_Append errs e | None => errs end in
      cleanUpPods idxs (<[i := pod]> pods) errs
  end.

(** Whether the retention policy asks for the pods to be removed. *)
Definition dropsPods (policy : RetainPolicy) (phase : TestPhase) : bool :=
  (policy == RetainNever) || ((policy == RetainOnFailure) && (phase == TestPassed)).

Definition isComplete (test : Test) (pods : list Pod) : prog (Result * option error) :=
  let* '(pods, errs) := releaseDeletedPods (seq 0 (length pods)) pods (mkErrorList []) in
  if ErrorList_HasError errs then Ret (requeue, ErrorList_Error errs)
  else if dropsPods (ts_RetentionPolicy (test_Spec test)) (test_Phase (test_Status test)) then
    if bool_decide (0 < length pods) then
      let* '(pods, errs) := cleanUpPods (seq 0 (length pods)) pods (mkErrorList []) in
      if ErrorList_HasError errs then Ret (requeue, ErrorList_Error errs)
      else Ret (noResult, None)
    else Ret (noResult, None)
  else Ret (noResult, None).

(** * Reconcile *)

(** The branch for a Test that is being deleted. The error of the final
    [removeFinalizer] is a variable of its own block: the function returns
    the outer error, which is nil. *)
Definition finalize (test : Test) (pods : list Pod) : prog (Result * option error) :=
  func (
    let! _ :=
      if bool_decide (0 < length pods) then
        let! '(_, errs) := lift (cleanUpPods (seq 0 (length pods)) pods (mkErrorList [])) in
        if ErrorList_HasError errs then return_ (requeue, ErrorList_Error errs) else next tt
      else next tt in
    let! _ := lift (removeFinalizer (k:=KTest) TestControllerFinalizer test) in
    return_ (noResult, None)).

(** Sets the phase of a Test without one to Pending. *)
Definition ensurePhase (test : Test) : fn (Result * option error) Test :=
  if test_Phase (test_Status test) == "" then
    let orig := test in
    let test := set_test_Phase TestPending test in
    let! '(err, test) := lift (Status_Patch (k:=KTest) test orig) in
    match err with
    | Some _ => return_ (requeue, err)
    | None => next test
    end
  else next test.

Definition Reconcile (req : Request) : prog (Result * option error) :=
  func (
    let! r := lift (client_Get KTest req) in
    match r with
    | inl e =>
        match IgnoreNotFound (Some e) with
        | Some e => return_ (requeue, Some e)
        | None => return_ (noResult, None)
        end
    | inr test =>
        let ns := Namespace (test_ObjectMeta test) in
        let! _ := lift (Metric (WithLabelValues passed [ns])) in
        let! _ := lift (Metric (WithLabelValues passed [ns])) in
        let! r := lift (client_List KPod
          [InNamespace (nn_Namespace req); MatchingFields podIndexKey (nn_Name req)]) in
        match r with
        | inl e => return_ (requeue, Some e)
        | inr pods =>
            if is_deleted (k:=KTest) test then lift (finalize test pods)
            else
              let! '((patched, e), test) :=
                lift (addFinalizer (k:=KTest) TestControllerFinalizer test) in
              match e with
              | Some _ =>
                  match IgnoreNotFound e with
                  | Some err => return_ (requeue, Some err)
                  | None => return_ (noResult, None)
                  end
              | None =>
                  let! test := ensurePhase test in
                  if TestPhase_IsFinal (test_Phase (test_Status test))
                  then lift (isComplete test pods)
                  else lift (isRunning test pods)
              end
        end
    end).

(** * SetupWithManager *)

(** The function that indexes pods by the Test that controls them. *)
Definition podIndexer (pod : Pod) : list string :=
  match GetControllerOf (pod_ObjectMeta pod) with
  | None => []
  | Some owner =>
      if (or_APIVersion owner == GroupVersion_String) && (or_Kind owner == "Test")
      then [or_Name owner] else []
  end.

End controller.

(** * The loops over the pods *)

Section loops.
Context `{AM : !ApiMachinery} {env : world}.
Implicit Types (pods : list Pod) (idxs rest newPods : list nat) (i pod : nat).

(** The pod at index [i] is not being deleted. *)
Definition live_at (pods : list Pod) (i : nat) : Prop :=
  ∃ p : Pod, pods !! i = Some p ∧ is_deleted (k:=KPod) p = false.

(** The exchange of [e] writes to the pod [p]. *)
Definition writes_pod (p : Pod) (e : event) : Prop :=
  ev_call e = CDelete KPod p ∨ ∃ new, ev_call e = CPatch KPod p new.

Lemma removeFinalizer_writes finalizer (p : Pod) t res :
  removeFinalizer_out (k:=KPod) env finalizer p t res → Forall (writes_pod p) t.
Proof.
  unfold removeFinalizer_out. case_decide.
  - intros (err & o' & _ & r & _ & -> & _). constructor; [|constructor]. right. by eexists.
  - intros [-> _]. constructor.
Qed.

Lemma cleanUp_writes finalizer (p : Pod) t res :
  cleanUp_out (k:=KPod) env finalizer p t res →
  Forall (λ e, ev_call e = CDelete KPod p ∨ ∃ new, ev_call e = CPatch KPod p new) t.
Proof.
  intros (m & t' & [(pt & err & Hr%removeFinalizer_writes & _ & Ht)|(e & _ & -> & _)]).
  - destruct Ht as [(_ & _ & ->)|(_ & _ & ->)]; [done|]. constructor; [by left|done].
  - constructor; [by left|constructor].
Qed.

(** [p'] is the pod [p], but for the finalizers if it is being deleted, or
    what the server answered to their patch. *)
Definition obtained (p : Pod) (t : list event) (p' : Pod) : Prop :=
  p' = p ∨ is_deleted (k:=KPod) p = true ∧
    ((∃ fs, p' = SetFinalizers (k:=KPod) fs p) ∨
     ∃ orig new : obj KPod, Ev (CPatch KPod orig new) (inr p') ∈ t).

Lemma obtained_mono p t t' p' : t ⊆ t' → obtained p t p' → obtained p t' p'.
Proof.
  intros Ht [->|[Hd [Hf|(orig & new & Hin)]]]; [by left|right; split; [done|by left]|].
  right. split; [done|]. right. exists orig, new. by apply Ht.
Qed.

Lemma removeFinalizer_obtained finalizer (p p' : Pod) t r :
  removeFinalizer_out (k:=KPod) env finalizer p t (r, p') → is_deleted (k:=KPod) p = true →
  obtained p t p'.
Proof.
  unfold removeFinalizer_out. case_decide; [|by intros [_ [= _ <-]]; left].
  intros (err & o' & [= _ <-] & [e|x] & _ & -> & [= _ ->]) Hd; right; (split; [done|]).
  - left. by eexists.
  - right. eexists _, _. by left.
Qed.

Lemma append_found_errors errs err :
  errors (append_found errs err) = errors errs ∨ ∃ e, err = Some e.
Proof. destruct err as [e|]; [right; by exists e|by left]. Qed.

(** The invariant of [dropDeletedPods]: it writes only to deleted pods, keeps
    every pod that is not deleted, and keeps the order of the pods. *)
Definition dropDeletedPods_out (idxs : list nat) pods (newPods : list nat) errs (t : list event)
    (res : (list Pod * list nat) * ErrorList) : Prop :=
  length res.1.1 = length pods ∧
  (∀ i, live_at pods i → res.1.1 !! i = pods !! i) ∧
  (∃ l, res.1.2 = newPods ++ l ∧ l `sublist_of` idxs ∧
     ∀ i, i ∈ idxs → live_at pods i → i ∈ l) ∧
  (∀ i, i ∉ idxs → res.1.1 !! i = pods !! i) ∧
  (∀ i (p' : Pod), res.1.1 !! i = Some p' → ∃ p : Pod, pods !! i = Some p ∧
     (p' = p ∨ ∃ t r, removeFinalizer_out (k:=KPod) env TestControllerFinalizer p t (r, p'))) ∧
  Forall (λ e, ∃ p : Pod, writes_pod p e ∧ is_deleted (k:=KPod) p = true) t ∧
  (∀ i (p' : Pod), res.1.1 !! i = Some p' → ∃ p : Pod, pods !! i = Some p ∧ obtained p t p') ∧
  (errors res.2 = errors errs ∨ failing t).

Lemma live_at_insert pods i (p q : Pod) j :
  pods !! i = Some p → is_deleted (k:=KPod) p = true →
  live_at pods j → i ≠ j ∧ live_at (<[i:=q]> pods) j.
Proof.
  intros Hp Hd (x & Hx & Hxd).
  assert (i ≠ j) by (intros ->; simplify_eq; congruence).
  split; [done|]. exists x. by rewrite list_lookup_insert_ne.
Qed.

Lemma dropDeletedPods_wp idxs pods newPods errs :
  NoDup idxs → Forall (λ i, i < length pods) idxs →
  wp env (dropDeletedPods idxs pods newPods errs)
    (returns (dropDeletedPods_out idxs pods newPods errs)).
Proof.
  intros Hnd. revert pods newPods errs.
  induction Hnd as [|i idxs Hi Hnd IH]; intros pods newPods errs Hlt; cbn [dropDeletedPods].
  { simpl. split_and!; [done|done| |done|by eauto|constructor| |by left].
    - exists []. rewrite app_nil_r. split_and!; [done..|]. by intros ? ?%elem_of_nil.
    - intros i p' Hp'. exists p'. split; [done|by left]. }
  apply Forall_cons in Hlt as [Hilt Hlt].
  destruct (lookup_lt_is_Some_2 pods i Hilt) as [p Hp].
  unfold index. rewrite Hp. cbn [bind].
  destruct (DeletionTimestamp (pod_ObjectMeta p)) as [d|] eqn:Hd.
  - assert (is_deleted (k:=KPod) p = true) as Hdel
      by (unfold is_deleted, GetDeletionTimestamp; simpl; by rewrite Hd).
    eapply wp_use_returns; [apply (removeFinalizer_wp (k:=KPod))|]. intros t [[pt err] p'] Hout.
    cbn zeta beta iota. set (newPods' := if _ : bool then _ else _).
    assert (∃ l, newPods' = newPods ++ l ∧ l `sublist_of` [i]) as (l & Hl & Hsub).
    { subst newPods'. destruct (_ || _); [by exists [i]|].
      exists []. rewrite app_nil_r. split; [done|apply sublist_nil_l]. }
    eapply wp_mono; [|apply IH; by rewrite length_insert].
    intros t' [[[pods' newPods''] errs']|?]; [|done].
    intros (Hlen & Hlive & (l' & Hl' & Hsub' & Hin) & Hout' & Hfrom & Hw & Hgot & Herrs). simpl in *.
    rewrite length_insert in Hlen. split_and!; [done| | | | | | |].
    + intros j Hj. destruct (live_at_insert pods i p p' j Hp Hdel Hj) as [Hne Hj'].
      rewrite Hlive by done. by apply list_lookup_insert_ne.
    + exists (l ++ l'). rewrite Hl', Hl, app_assoc. split_and!; [done| |].
      * by apply (sublist_app l [i] l' idxs).
      * intros j Hjin Hj. destruct (live_at_insert pods i p p' j Hp Hdel Hj) as [Hne Hj'].
        apply elem_of_cons in Hjin as [->|Hjin]; [done|]. apply elem_of_app. right. auto.
    + intros j [Hji Hj]%not_elem_of_cons. rewrite Hout' by done.
      by apply list_lookup_insert_ne.
    + intros j x' Hx'. destruct (decide (j = i)) as [->|Hne].
      * rewrite Hout', list_lookup_insert_eq in Hx' by done. simplify_eq.
        exists p. split; [done|]. right. by exists t, (pt, err).
      * destruct (Hfrom j x' Hx') as (x & Hx & Hor). exists x.
        by rewrite list_lookup_insert_ne in Hx by done.
    + apply Forall_app_intro; [|done].
      eapply Forall_impl; [by eapply removeFinalizer_writes|]. intros e He. by exists p.
    + intros j x' Hx'. destruct (decide (j = i)) as [->|Hne].
      * rewrite Hout', list_lookup_insert_eq in Hx' by done. simplify_eq.
        exists p. split; [done|]. apply removeFinalizer_obtained in Hout; [|done].
        eapply obtained_mono; [|done]. set_solver.
      * destruct (Hgot j x' Hx') as (x & Hx & Hor). exists x.
        rewrite list_lookup_insert_ne in Hx by done. split; [done|].
        eapply obtained_mono; [|done]. set_solver.
    + destruct Herrs as [Herrs|Hf]; [|right; apply Exists_app; by right].
      destruct (append_found_errors errs err) as [Happ|[e ->]]; [left; simpl; congruence|].
      right. apply Exists_app. left. exact (removeFinalizer_out_failing (k:=KPod) _ _ _ _ _ _ Hout).
  - eapply wp_mono; [|by apply IH].
    intros t' [[[pods' newPods''] errs']|?]; [|done].
    intros (Hlen & Hlive & (l & Hl & Hsub & Hin) & Hout' & Hfrom & Hw & Hgot & Herrs). simpl in *.
    split_and!; [done|done| | |done|done|done|done];
      [|intros j [_ Hj]%not_elem_of_cons; by apply Hout']. exists (i :: l). rewrite Hl, <-app_assoc. split_and!.
    + done.
    + by apply sublist_skip.
    + intros j [->|Hj]%elem_of_cons Hjl; [by left|right; auto].
Qed.

(** The pod [reducePods] settles on: the current one unless it is deleted and
    another is not; then the first one that is not. *)
Fixpoint pick (pods : list Pod) (pod : nat) (rest : list nat) : nat :=
  match rest with
  | [] => pod
  | i :: rest =>
      match pods !! i, pods !! pod with
      | Some p, Some c =>
          if negb (is_deleted (k:=KPod) p) && is_deleted (k:=KPod) c
          then pick pods i rest else pick pods pod rest
      | _, _ => pod
      end
  end.

Definition reducePods_out rest pod pods errs (t : list event)
    (res : (nat * list Pod) * ErrorList) : Prop :=
  res.1.1 = pick pods pod rest ∧ length res.1.2 = length pods ∧
  res.1.2 !! pick pods pod rest = pods !! pick pods pod rest ∧
  Forall (λ e, ∃ i (p : Pod), i ∈ rest ∧ i ≠ pick pods pod rest ∧ pods !! i = Some p ∧ writes_pod p e) t ∧
  (errors res.2 = errors errs ∨ failing t).

Lemma pick_elem pods pod rest : pick pods pod rest = pod ∨ pick pods pod rest ∈ rest.
Proof.
  revert pod. induction rest as [|i rest IH]; intros pod; simpl; [by left|].
  destruct (pods !! i), (pods !! pod); try by left.
  destruct (_ && _); [destruct (IH i) as [->|?]|destruct (IH pod) as [->|?]]; set_solver.
Qed.

Lemma pick_insert pods i p pod rest :
  i ∉ rest → i ≠ pod → pick (<[i:=p]> pods) pod rest = pick pods pod rest.
Proof.
  revert pod. induction rest as [|j rest IH]; intros pod Hi Hpod; simpl; [done|].
  apply not_elem_of_cons in Hi as [Hij Hi].
  rewrite !list_lookup_insert_ne by done.
  destruct (pods !! j), (pods !! pod); try done.
  destruct (_ && _); by apply IH.
Qed.

Lemma reducePods_wp rest pod pods errs :
  NoDup (pod :: rest) → Forall (λ i, i < length pods) (pod :: rest) →
  wp env (reducePods rest pod pods errs) (returns (reducePods_out rest pod pods errs)).
Proof.
  revert pod pods errs. induction rest as [|i rest IH]; intros pod pods errs Hnd Hlt;
    cbn [reducePods].
  { simpl. split_and!; [done..|constructor|by left]. }
  apply Forall_cons in Hlt as [Hpodlt Hlt]. apply Forall_cons in Hlt as [Hilt Hlt].
  apply NoDup_cons in Hnd as [Hpod Hnd]. apply NoDup_cons in Hnd as [Hi Hnd].
  apply not_elem_of_cons in Hpod as [Hne Hpod].
  destruct (lookup_lt_is_Some_2 pods i Hilt) as [p Hp].
  destruct (lookup_lt_is_Some_2 pods pod Hpodlt) as [c Hc].
  unfold index. rewrite Hp, Hc. cbn [bind].
  unfold reducePods_out. simpl. rewrite Hp, Hc.
  destruct (negb (is_deleted (k:=KPod) p) && is_deleted (k:=KPod) c) eqn:Hsw.
  - eapply wp_mono; [|apply IH; by constructor].
    intros t [[[q pods'] errs']|?]; [|done].
    unfold reducePods_out. simpl. intros (-> & Hlen & Hq & Ht & Herrs).
    split_and!; try done. eapply Forall_impl; [done|].
    intros e (j & x & Hj & ? & ? & ?). exists j, x. set_solver.
  - eapply wp_use_returns; [apply (cleanUp_wp (k:=KPod))|]. intros t [[m err] p'] Hout.
    cbn zeta beta iota.
    eapply wp_mono; [|apply IH; [by constructor|by constructor; rewrite ?length_insert]].
    intros t' [[[q pods'] errs']|?]; [|done].
    unfold reducePods_out. simpl. rewrite length_insert, pick_insert by done.
    intros (-> & Hlen & Hq & Ht & Herrs).
    assert (i ≠ pick pods pod rest) as Hpick.
    { destruct (pick_elem pods pod rest) as [->|Hin]; [done|]. by intros ->. }
    rewrite list_lookup_insert_ne in Hq by done.
    split_and!; try done; [apply Forall_app_intro|].
    3:{ destruct Herrs as [Herrs|Hf]; [|right; apply Exists_app; by right].
      destruct (append_found_errors errs err) as [Happ|[e ->]]; [left; simpl; congruence|].
      right. apply Exists_app. left. exact (cleanUp_out_failing (k:=KPod) _ _ _ _ _ _ Hout). }
    + eapply Forall_impl; [by eapply cleanUp_writes|].
      intros e He. exists i, p. split_and!; [set_solver|done..].
    + eapply Forall_impl; [done|]. intros e (j & x & Hj & Hjp & Hx & He).
      exists j, x. rewrite list_lookup_insert_ne in Hx by (by intros ->). set_solver.
Qed.

(** The loops that touch every pod keep the slice's length, and only write
    to pods. *)
Definition podLoop_out (pods : list Pod) (t : list event) (res : list Pod * ErrorList) : Prop :=
  length res.1 = length pods ∧ Forall (is_cleanup KPod) t.

Lemma releaseDeletedPods_wp idxs pods errs :
  Forall (λ i, i < length pods) idxs →
  wp env (releaseDeletedPods idxs pods errs) (returns (λ t res, podLoop_out pods t res ∧
    Forall (λ e, ∃ new p, ev_call e = CPatch KPod p new) t)).
Proof.
  revert pods errs. induction idxs as [|i idxs IH]; intros pods errs Hlt; cbn [releaseDeletedPods].
  { simpl. repeat constructor. }
  apply Forall_cons in Hlt as [Hilt Hlt].
  destruct (lookup_lt_is_Some_2 pods i Hilt) as [p Hp].
  unfold index. rewrite Hp. cbn [bind]. destruct (is_deleted (k:=KPod) p); [|by apply IH].
  eapply wp_use_returns; [apply (removeFinalizer_wp (k:=KPod))|]. intros t [[pt err] p'] Hout.
  eapply wp_mono; [|apply IH; by rewrite length_insert].
  intros t' [[pods' errs']|?]; [|done]. intros [[Hlen Ht] Hp']. simpl in *.
  rewrite length_insert in Hlen. split; [split; [done|]|]; apply Forall_app_intro; try done.
  - by eapply removeFinalizer_out_cleanup.
  - revert Hout. unfold removeFinalizer_out. case_decide.
    + intros (err' & o' & _ & r & _ & -> & _). constructor; [|constructor]. by eexists _, _.
    + intros [-> _]. constructor.
Qed.

(** The rounds of [cleanUpPods]: as for [cleanUpAll], with the errors kept. *)
Lemma cleanUpPods_wp idxs pods errs :
  NoDup idxs → Forall (λ i, i < length pods) idxs →
  wp env (cleanUpPods idxs pods errs) (returns (λ t res,
    ∃ m, cleanUpAll_loop_out (k:=KPod) env TestControllerFinalizer idxs false errs pods t
           ((m, res.2), res.1))).
Proof.
  intros Hnd Hlt.
  enough (∀ m, wp env (cleanUpPods idxs pods errs) (returns (λ t res,
    ∃ m', cleanUpAll_loop_out (k:=KPod) env TestControllerFinalizer idxs m errs pods t
           ((m', res.2), res.1)))) by done.
  intros m.
  assert (∀ (Q : list event → outcome (list Pod * ErrorList) → Prop),
    wp env (cleanUpAll_loop (k:=KPod) TestControllerFinalizer idxs m errs pods)
      (λ t o, Q t match o with Done (_, e, ps) => Done (ps, e) | Panicked p => Panicked p end) →
    wp env (cleanUpPods idxs pods errs) Q) as Hsim.
  { clear. revert m errs pods. induction idxs as [|i idxs IH]; intros m errs pods Q; simpl; [done|].
    unfold index. destruct (pods !! i); simpl; [|done].
    intros H. apply (proj2 (wp_bind _ _ _)) in H. apply (proj1 (wp_bind _ _ _)).
    revert H. apply wp_mono. intros t [[[m' err] p']|?]; [|done].
    apply (IH (m || m') _ _ (λ t' o', Q (t ++ t') o')). }
  apply Hsim. eapply wp_mono; [|by apply cleanUpAll_loop_wp].
  intros t [[[m' e] ps]|?]; [|done]. intros Hout. by exists m'.
Qed.

End loops.

(** * Selecting the pod *)

(** A world whose server never revives an object: what a patch returns is
    being deleted exactly when what was sent is. *)
Definition keeps_deletion (k : kind) `{!ClientObject k} : world := λ c,
  match c return reply c → Prop with
  | CPatch k' _ new => λ r, ∀ (e : k' = k) o',
      r = inr o' → is_deleted (eq_rect k' obj o' k e) = is_deleted (eq_rect k' obj new k e)
  | _ => λ _, True
  end.

Section selection.
Context `{AM : !ApiMachinery}.
Context (ErrRequeueDelay : Z).
Implicit Types (pods : list Pod) (rest : list nat) (i j pod : nat).

(** In an ascending list of pointers, [pick] is the first pod that is not
    deleted, when there is one. *)
Lemma pick_first_live pods pod rest :
  StronglySorted lt (pod :: rest) → Forall (λ i, i < length pods) (pod :: rest) →
  ∀ i, i ∈ pod :: rest → live_at pods i →
  live_at pods (pick pods pod rest) ∧ pick pods pod rest ≤ i.
Proof.
  revert pod. induction rest as [|j rest IH]; intros pod Hs Hlt i Hi Hlive.
  { apply list_elem_of_singleton in Hi as ->. done. }
  apply StronglySorted_inv in Hs as [Hs Hpod].
  apply StronglySorted_inv in Hs as Hj. destruct Hj as [Hs' Hj].
  apply Forall_cons in Hpod as [Hpj Hpod].
  apply Forall_cons in Hlt as [Hl1 Hlt]. pose proof Hlt as Hlt'.
  apply Forall_cons in Hlt as [Hl2 Hlt].
  destruct (lookup_lt_is_Some_2 pods pod Hl1) as [c Hc].
  destruct (lookup_lt_is_Some_2 pods j Hl2) as [p Hp].
  cbn [pick obj]. rewrite Hp, Hc.
  assert (StronglySorted lt (pod :: rest)) as Hs'' by (by constructor).
  destruct (is_deleted (k:=KPod) c) eqn:Hcd, (is_deleted (k:=KPod) p) eqn:Hpd; simpl.
  - apply IH; [done|by constructor| |done].
    destruct Hlive as (x & Hx & Hxd). apply elem_of_cons in Hi as [->|[->|Hi]%elem_of_cons];
      [simplify_eq; congruence..|by right].
  - apply IH; [done|done| |done].
    destruct Hlive as (x & Hx & Hxd). apply elem_of_cons in Hi as [->|Hi];
      [simplify_eq; congruence|done].
  - apply elem_of_cons in Hi as [->|[->|Hi]%elem_of_cons].
    + apply IH; [done|by constructor|by left|done].
    + destruct (IH pod Hs'' ltac:(by constructor) pod) as [? ?]; [by left|by exists c|].
      split; [done|lia].
    + apply IH; [done|by constructor|by right|done].
  - destruct (IH pod Hs'' ltac:(by constructor) pod) as [? ?]; [by left|by exists c|].
    split; [done|]. apply elem_of_cons in Hi as [->|[->|Hi]%elem_of_cons]; [lia..|].
    pose proof (proj1 (Forall_forall _ _) Hpod i Hi). simpl in *. lia.
Qed.

Lemma seq_StronglySorted n m : StronglySorted lt (seq n m).
Proof.
  revert n. induction m as [|m IH]; intros n; simpl; constructor; [done|].
  apply Forall_forall. intros x Hx%elem_of_seq. lia.
Qed.

Lemma sublist_StronglySorted (l k : list nat) :
  l `sublist_of` k → StronglySorted lt k → StronglySorted lt l.
Proof.
  induction 1 as [|x l k Hs IH|x l k Hs IH]; intros Hk; [done|..];
    apply StronglySorted_inv in Hk as [Hk Hx]; [|auto].
  constructor; [auto|]. apply Forall_forall. intros y Hy.
  pose proof (sublist_submseteq _ _ Hs) as Hsub.
  apply (proj1 (Forall_forall _ _) Hx). by eapply elem_of_submseteq.
Qed.

Lemma StronglySorted_lt_NoDup (l : list nat) : StronglySorted lt l → NoDup l.
Proof.
  induction 1 as [|x l Hl IH Hx]; constructor; [|done].
  intros Hin. pose proof (proj1 (Forall_forall _ _) Hx x Hin). simpl in *. lia.
Qed.

(** A patch of a pod's finalizers does not change whether it is deleted. *)
Lemma removeFinalizer_keeps_deletion finalizer (p p' : Pod) t r :
  removeFinalizer_out (k:=KPod) (keeps_deletion KPod) finalizer p t (r, p') →
  is_deleted (k:=KPod) p' = is_deleted (k:=KPod) p.
Proof.
  unfold removeFinalizer_out. case_decide; [|by intros [_ [= _ <-]]].
  intros (err & o' & [= _ <-] & r' & Hr & _ & Hupd).
  assert (is_deleted (k:=KPod) (SetFinalizers (k:=KPod)
    (filter (.≠ finalizer) (GetFinalizers (k:=KPod) p)) p) = is_deleted (k:=KPod) p) as Hsame by done.
  destruct r' as [e|o'']; simpl in Hupd; simplify_eq; [done|].
  rewrite <-Hsame. exact (Hr eq_refl _ eq_refl).
Qed.

(** Errors in a list that started empty are those of failed calls. *)
Lemma ErrorList_fresh errs t :
  errors errs = errors (mkErrorList []) ∨ failing t → ErrorList_HasError errs = true → failing t.
Proof. intros [He|]; [|done]. unfold ErrorList_HasError. by rewrite He. Qed.

Lemma ErrorList_HasError_Some errs :
  ErrorList_HasError errs = true → ∃ e, ErrorList_Error errs = Some e.
Proof.
  unfold ErrorList_Error, ErrorList_HasError. destruct (errors errs); [done|]. by eexists.
Qed.

(** C12: [selectPod] settles on the first pod that is not being deleted. It
    returns that pod, or, when one of its calls failed, an error to retry. In
    both cases it never writes to it: every write is to a pod that is being
    deleted, or to one that is listed after it. The server may do anything but
    answer the patch of a pod that is being deleted with one that is not. *)
Theorem selectPod_first_live pods i (p : Pod) :
  pods !! i = Some p → is_deleted (k:=KPod) p = false →
  (∀ j (q : Pod), j < i → pods !! j = Some q → is_deleted (k:=KPod) q = true) →
  wp (keeps_deletion KPod) (selectPod ErrRequeueDelay pods) (returns (λ t r,
    (r = inr (Some p) ∨ failing t ∧ ∃ err, r = inl (requeue ErrRequeueDelay, Some err)) ∧
    Forall (λ e, ∃ q : Pod, writes_pod q e ∧
      (is_deleted (k:=KPod) q = true ∨ ∃ j, i < j ∧ pods !! j = Some q)) t)).
Proof.
  intros Hp Hlive Hfirst. unfold selectPod.
  rewrite bool_decide_eq_true_2 by (apply lookup_lt_Some in Hp; lia).
  unfold bind_fn, lift. do 2 apply (proj1 (wp_bind _ _ _)).
  eapply wp_mono; [|apply dropDeletedPods_wp; [apply NoDup_seq|apply (GetObjects_lt (k:=KPod))]].
  intros t [[[pods' newPods] errs]|?]; [|done].
  intros (Hlen & Hkeep & (l & Hl & Hsub & Hin) & _ & Hfrom & Hw & _ & Herrs). simpl in *. subst newPods.
  assert (Forall (λ e, ∃ q : Pod, writes_pod q e ∧
    (is_deleted (k:=KPod) q = true ∨ ∃ j, i < j ∧ pods !! j = Some q)) t) as Hwt.
  { eapply Forall_impl; [exact Hw|]. intros e (q & Hq & Hd). exists q. auto. }
  assert (live_at pods i) as Hli by (by exists p).
  destruct (ErrorList_HasError errs) eqn:Herr.
  { simpl. rewrite !app_nil_r. split; [|done]. right.
    split; [by eapply ErrorList_fresh|]. destruct (ErrorList_HasError_Some _ Herr) as [e ->]. by exists e. }
  assert (i ∈ l) as Hil.
  { apply Hin; [|done]. apply elem_of_seq. apply lookup_lt_Some in Hp. lia. }
  assert (StronglySorted lt l) as Hsorted.
  { eapply sublist_StronglySorted; [done|apply seq_StronglySorted]. }
  assert (Forall (λ i, i < length pods') l) as Hlt.
  { apply Forall_forall. intros x Hx. rewrite Hlen.
    apply sublist_submseteq in Hsub. eapply elem_of_submseteq in Hx; [|done].
    apply elem_of_seq in Hx. lia. }
  destruct l as [|pod rest]; [by apply elem_of_nil in Hil|].
  assert (pods' !! i = Some p) as Hp' by (by rewrite Hkeep).
  destruct (pick_first_live pods' pod rest Hsorted Hlt i Hil) as [Hpl Hle]; [by exists p|].
  assert (∀ j (q : Pod), pods' !! j = Some q → is_deleted (k:=KPod) q = true ∨
    i ≤ j ∧ pods !! j = Some q) as Hcase.
  { intros j q Hq. destruct (Hfrom _ _ Hq) as (x & Hx & Hor).
    destruct (is_deleted (k:=KPod) q) eqn:Hqd; [by left|right].
    assert (is_deleted (k:=KPod) x = false) as Hxd
      by (destruct Hor as [->|(tr & r & ?%removeFinalizer_keeps_deletion)]; congruence).
    split.
    - destruct (decide (i ≤ j)) as [|Hn]; [done|]. assert (j < i) as Hj by lia.
      rewrite (Hfirst j x Hj Hx) in Hxd. done.
    - rewrite <-Hkeep; [done|by exists x]. }
  assert (pick pods' pod rest = i) as Hpick.
  { destruct Hpl as (x' & Hx' & Hxd'). destruct (Hcase _ _ Hx') as [?|[? _]]; [congruence|lia]. }
  do 2 apply (proj1 (wp_bind _ _ _)).
  eapply wp_mono; [|by apply reducePods_wp; [apply StronglySorted_lt_NoDup|]].
  intros t2 [[[c pods2] errs2]|?]; [|done].
  unfold reducePods_out. simpl. intros (-> & Hlen2 & Hc & Hw2 & Herrs2). rewrite Hpick in *.
  assert (Forall (λ e, ∃ q : Pod, writes_pod q e ∧
    (is_deleted (k:=KPod) q = true ∨ ∃ j, i < j ∧ pods !! j = Some q)) (t ++ t2)) as Hwt2.
  { apply Forall_app_intro; [done|]. eapply Forall_impl; [exact Hw2|].
    intros e (j & q & _ & Hne & Hq & He). exists q. split; [done|].
    destruct (Hcase _ _ Hq) as [?|[? ?]]; [by left|right]. exists j. split; [lia|done]. }
  destruct (ErrorList_HasError errs2) eqn:Herr2.
  { simpl. rewrite !app_nil_r. split; [|done]. right. split.
    - apply Exists_app. right. change (failing t2). by eapply ErrorList_fresh.
    - destruct (ErrorList_HasError_Some _ Herr2) as [e ->]. by exists e. }
  unfold index. rewrite Hc, Hp'. simpl. rewrite !app_nil_r. split; [by left|done].
Qed.

End selection.

(** * Safety of the whole controller *)

(** The phase changes the controller may write. A Test without a phase
    becomes Pending; a Test that is not final follows its pod. *)
Inductive phase_step : TestPhase → TestPhase → Prop :=
| step_pending : phase_step "" TestPending
| step_starting p : TestPhase_IsFinal p = false → p ≠ TestStarting → phase_step p TestStarting
| step_running p : TestPhase_IsFinal p = false → p ≠ TestRunning → phase_step p TestRunning
| step_passed p : TestPhase_IsFinal p = false → phase_step p TestPassed
| step_failed p : TestPhase_IsFinal p = false → phase_step p TestFailed.

(** What the controller may exchange: it deletes and patches pods, creates
    the pod of a Test, patches the metadata of Tests, and moves the phase of a
    Test along [phase_step], changing nothing but the status. *)
Definition test_event (e : event) : Prop :=
  match ev_call e with
  | CGet k _ => k = KTest
  | CList k opts => k = KPod ∧ ∃ req : Request,
      opts = [InNamespace (nn_Namespace req); MatchingFields podIndexKey (nn_Name req)]
  | CCreate k o =>
      match k return obj k → Prop with
      | KPod => λ o, ∃ test, o = podFor test
      | _ => λ _, False
      end o
  | CDelete k _ => k = KPod
  | CPatch k _ _ => k = KPod ∨ k = KTest
  | CStatusPatch k orig new =>
      match k return obj k → obj k → Prop with
      | KTest => λ orig new, phase_step (test_Phase (test_Status orig)) (test_Phase (test_Status new)) ∧
          new = set_test_Status (test_Status new) orig
      | _ => λ _ _, False
      end orig new
  | CEvent k _ _ _ _ => k = KTest
  | CMetric _ => True
  | CNow => False
  | CEnqueue _ => False
  end.

Section safety.
Context `{AM : !ApiMachinery} {env : world}.
Context (ErrRequeueDelay : Z).
Implicit Types (pods : list Pod) (test : Test).

Lemma is_cleanup_test_event e : is_cleanup KPod e → test_event e.
Proof. destruct e as [[] r]; unfold is_cleanup, test_event; simpl; try done. by left. Qed.

Lemma writes_pod_is_cleanup (p : Pod) e : writes_pod p e → is_cleanup KPod e.
Proof. destruct e as [c r]. unfold writes_pod, is_cleanup. simpl. intros [->|[new ->]]; done. Qed.

(** [selectPod] only cleans up pods. It finds no pod only when none is live,
    returns one that was listed, or what the server made of it, and fails only
    when a call failed. *)
Definition selectPod_out pods (t : list event) (r : (Result * option error) + option Pod) : Prop :=
  Forall (is_cleanup KPod) t ∧
  match r with
  | inl res => res.2 ≠ None ∧ failing t
  | inr None => ¬ ∃ i, live_at pods i
  | inr (Some p') => ∃ p, p ∈ pods ∧ obtained p t p'
  end.

Lemma selectPod_wp pods :
  wp env (selectPod ErrRequeueDelay pods) (returns (selectPod_out pods)).
Proof.
  unfold selectPod. case_bool_decide as Hlen0; simpl.
  2:{ split; [constructor|]. intros (i & p & Hp%lookup_lt_Some & _). lia. }
  unfold bind_fn, lift. do 2 apply (proj1 (wp_bind _ _ _)).
  eapply wp_mono; [|apply dropDeletedPods_wp; [apply NoDup_seq|apply (GetObjects_lt (k:=KPod))]].
  intros t [[[pods' newPods] errs]|?]; [|done].
  intros (Hlen & Hkeep & (l & Hl & Hsub & Hin) & _ & _ & Hw & Hgot & Herrs). simpl in *. subst newPods.
  assert (Forall (is_cleanup KPod) t) as Ht.
  { eapply Forall_impl; [exact Hw|]. intros e (q & Hq & _). by eapply writes_pod_is_cleanup. }
  destruct (ErrorList_HasError errs) eqn:Herr.
  { simpl. rewrite !app_nil_r. split; [done|].
    destruct (ErrorList_HasError_Some _ Herr) as [e ->]. split; [done|by eapply ErrorList_fresh]. }
  destruct l as [|pod rest].
  { simpl. rewrite !app_nil_r. split; [done|]. intros (i & Hi).
    apply (not_elem_of_nil i), Hin; [|done].
    destruct Hi as (p & Hp%lookup_lt_Some & _). apply elem_of_seq. lia. }
  assert (Forall (λ i, i < length pods') (pod :: rest)) as Hlt.
  { apply Forall_forall. intros x Hx. rewrite Hlen.
    apply sublist_submseteq in Hsub. eapply elem_of_submseteq in Hx; [|done].
    apply elem_of_seq in Hx. lia. }
  do 2 apply (proj1 (wp_bind _ _ _)).
  eapply wp_mono; [|apply reducePods_wp; [|done]].
  2:{ eapply sublist_NoDup; [apply NoDup_seq|done]. }
  intros t2 [[[c pods2] errs2]|?]; [|done].
  unfold reducePods_out. simpl. intros (-> & Hlen2 & Hc & Hw2 & Herrs2).
  assert (Forall (is_cleanup KPod) t2) as Ht2.
  { eapply Forall_impl; [exact Hw2|]. intros e (? & q & _ & _ & _ & Hq). by eapply writes_pod_is_cleanup. }
  destruct (ErrorList_HasError errs2) eqn:Herr2; simpl.
  { rewrite !app_nil_r. split; [auto with konfirm|].
    destruct (ErrorList_HasError_Some _ Herr2) as [e ->]. split; [done|].
    apply Exists_app. right. change (failing t2). by eapply ErrorList_fresh. }
  assert (pick pods' pod rest < length pods2) as Hpick.
  { rewrite Hlen2. destruct (pick_elem pods' pod rest) as [->|Hin'].
    - by apply Forall_cons in Hlt as [? _].
    - apply Forall_cons in Hlt as [_ Hlt]. by apply (proj1 (Forall_forall _ _) Hlt). }
  apply lookup_lt_is_Some_2 in Hpick as [p' Hp]. unfold index. rewrite Hp. simpl.
  rewrite !app_nil_r. split; [auto with konfirm|].
  rewrite Hc in Hp. destruct (Hgot _ _ Hp) as (p & Hin' & Hob). exists p.
  split; [by eapply list_elem_of_lookup_2|]. eapply obtained_mono; [|exact Hob]. set_solver.
Qed.

(** A single live pod is selected at once. *)
Lemma selectPod_single pod :
  is_deleted (k:=KPod) pod = false → selectPod ErrRequeueDelay [pod] = next (Some pod).
Proof.
  intros Hv. unfold is_deleted, GetDeletionTimestamp in Hv. simpl in Hv.
  unfold selectPod. simpl. by destruct (DeletionTimestamp _).
Qed.

(** The loops over the pods only delete and patch them. *)
Lemma selectPod_tidy pods : wp env (selectPod ErrRequeueDelay pods) (safe (is_cleanup KPod)).
Proof. eapply wp_mono; [|apply selectPod_wp]. by intros t [r|?]; [intros [? _]|]. Qed.

Lemma cleanUpPods_tidy pods errs :
  wp env (cleanUpPods (seq 0 (length pods)) pods errs) (safe (is_cleanup KPod)).
Proof.
  eapply wp_mono; [|apply cleanUpPods_wp; [apply NoDup_seq|apply (GetObjects_lt (k:=KPod))]].
  intros t [[ps es]|?]; [|done]. intros [m Hout]. by eapply cleanUpAll_loop_out_cleanup.
Qed.

Lemma releaseDeletedPods_tidy pods errs :
  wp env (releaseDeletedPods (seq 0 (length pods)) pods errs) (safe (is_cleanup KPod)).
Proof.
  eapply wp_mono; [|apply releaseDeletedPods_wp, (GetObjects_lt (k:=KPod))].
  intros t [[ps es]|?]; [|done]. by intros [[_ ?] _].
Qed.

Lemma selectPod_safe pods : wp env (selectPod ErrRequeueDelay pods) (safe test_event).
Proof. eapply safe_mono; [apply is_cleanup_test_event|apply selectPod_tidy]. Qed.

Lemma cleanUpPods_safe pods errs :
  wp env (cleanUpPods (seq 0 (length pods)) pods errs) (safe test_event).
Proof. eapply safe_mono; [apply is_cleanup_test_event|apply cleanUpPods_tidy]. Qed.

Lemma releaseDeletedPods_safe pods errs :
  wp env (releaseDeletedPods (seq 0 (length pods)) pods errs) (safe test_event).
Proof. eapply safe_mono; [apply is_cleanup_test_event|apply releaseDeletedPods_tidy]. Qed.

Lemma removeFinalizer_test_safe test f :
  wp env (removeFinalizer (k:=KTest) f test) (safe test_event).
Proof.
  eapply wp_mono; [|apply (removeFinalizer_wp (k:=KTest))].
  intros t [r|?]; [|done]. unfold safe, returns, removeFinalizer_out. case_decide.
  - intros (err & o' & _ & r' & _ & -> & _). constructor; [by right|constructor].
  - intros [-> _]. constructor.
Qed.

Lemma addFinalizer_test_safe test f :
  wp env (addFinalizer (k:=KTest) f test) (safe test_event).
Proof.
  eapply wp_mono; [|apply (addFinalizer_wp (k:=KTest))].
  intros t [r|?]; [|done]. unfold safe, returns, addFinalizer_out. case_decide.
  - intros [-> _]. constructor.
  - intros (err & o' & _ & r' & _ & -> & _). constructor; [by right|constructor].
Qed.

#[local] Hint Resolve selectPod_safe cleanUpPods_safe releaseDeletedPods_safe
  removeFinalizer_test_safe addFinalizer_test_safe : konfirm.

Lemma ensurePod_safe test pod : wp env (ensurePod ErrRequeueDelay test pod) (safe test_event).
Proof.
  unfold ensurePod. wp_safe. by exists test.
Qed.

Lemma followPod_safe test pod :
  TestPhase_IsFinal (test_Phase (test_Status test)) = false →
  wp env (followPod ErrRequeueDelay test pod) (safe test_event).
Proof.
  intros Hf. unfold followPod. wp_safe; (split; [|done]).
  - apply step_starting; [done|by apply neqb_true].
  - apply step_running; [done|by apply neqb_true].
  - by apply step_passed.
  - by apply step_failed.
Qed.

#[local] Hint Resolve ensurePod_safe followPod_safe : konfirm.

Lemma test_isRunning_safe test pods :
  TestPhase_IsFinal (test_Phase (test_Status test)) = false →
  wp env (isRunning ErrRequeueDelay test pods) (safe test_event).
Proof. intros Hf. unfold isRunning. wp_safe. Qed.

Lemma test_isComplete_safe test pods : wp env (isComplete ErrRequeueDelay test pods) (safe test_event).
Proof. unfold isComplete. wp_safe. Qed.

Lemma test_finalize_safe test pods : wp env (finalize ErrRequeueDelay test pods) (safe test_event).
Proof. unfold finalize. wp_safe. Qed.

Lemma test_ensurePhase_safe test : wp env (ensurePhase ErrRequeueDelay test) (safe test_event).
Proof.
  unfold ensurePhase. wp_safe. split; [|done]. simpl.
  apply eqb_true in Heqb as ->. constructor.
Qed.

#[local] Hint Resolve test_isRunning_safe test_isComplete_safe test_finalize_safe test_ensurePhase_safe : konfirm.

Lemma test_Reconcile_events req : wp env (Reconcile ErrRequeueDelay req) (safe test_event).
Proof. unfold Reconcile. wp_safe. split; [done|]. by exists req. Qed.

(** C5: whatever the API server answers, reconciling a Test does not panic,
    writes only to its own kinds of objects, creates no pod but the Test's
    own, and changes the phase of a Test only along [phase_step]: from a phase
    that is not final. *)
Theorem Reconcile_safe req : wp env (Reconcile ErrRequeueDelay req) (safe test_event).
Proof. apply test_Reconcile_events. Qed.

End safety.

(** However often a Test is reconciled, its phase never changes once it
    is Passed or Failed, and it is never empty again. *)
Theorem phase_steps_final p q :
  rtc phase_step p q → (TestPhase_IsFinal p = true → q = p) ∧ (p ≠ "" → q ≠ "").
Proof.
  induction 1 as [p|p r q Hstep _ [IH1 IH2]]; [done|].
  destruct Hstep as [|p Hp _|p Hp _|p Hp|p Hp]; 
    (split; [intros Hf; first [congruence|by vm_compute in Hf]|intros _; by apply IH2]).
Qed.

(** * What each phase does *)

(** The counter of a final phase. *)
Definition counter_of (p : TestPhase) : option metric :=
  if p == TestPassed then Some passed else if p == TestFailed then Some failed else None.

Section behaviour.
Context `{AM : !ApiMachinery} {env : world}.
Context (ErrRequeueDelay : Z).
Implicit Types (pods : list Pod) (test : Test).

Lemma followPod_creates_nothing test pod :
  wp env (followPod ErrRequeueDelay test pod) (safe (λ e, created KPod [e] = [])).
Proof. unfold followPod. wp_safe. Qed.

Lemma safe_created {A} (m : prog A) :
  wp env m (safe (λ e, created KPod [e] = [])) → wp env m (returns (λ t _, created KPod t = [])).
Proof.
  apply wp_mono. intros t [a|?]; [|done]. intros Ht. change (created KPod t = []).
  induction Ht as [|e t He _ IH]; [done|].
  change (e :: t) with ([e] ++ t). by rewrite created_app, He, IH.
Qed.

Lemma ensurePod_then_follow test pod :
  wp env (func (let! pod := ensurePod ErrRequeueDelay test pod in
                lift (followPod ErrRequeueDelay test pod)))
    (returns (λ t _, created KPod t = match pod with Some _ => [] | None => [podFor test] end)).
Proof.
  assert (∀ p, wp env (func (lift (R:=Result * option error) (followPod ErrRequeueDelay test p)))
    (returns (λ t _, created KPod t = []))) as Hf.
  { intros p. apply safe_created. pose proof (followPod_creates_nothing test p).
    wp_safe. }
  destruct pod as [p|]; [apply Hf|].
  intros [e|p] _; simpl; [done|].
  eapply wp_mono; [|apply (Hf p)]. intros t [a|?]; [|done]. simpl. by intros ->.
Qed.

(** C14: a Test never has two pods created for it: nothing is created while
    some pod of the Test is not being deleted, exactly one pod is created
    when it has none, and never more than one in a reconciliation. *)
Theorem isRunning_creates test pods :
  wp env (isRunning ErrRequeueDelay test pods) (returns (λ t _,
    ((∃ i, live_at pods i) → created KPod t = []) ∧
    (pods = [] → created KPod t = [podFor test]) ∧
    (created KPod t = [] ∨ created KPod t = [podFor test]))).
Proof.
  unfold isRunning. apply wp_func_bind.
  eapply wp_mono; [|apply wp_and; [apply (selectPod_wp ErrRequeueDelay pods)|]].
  2:{ instantiate (1 := λ t o, pods = [] → o = Done (inr None)).
      destruct pods as [|p ps]; [done|].
      eapply wp_mono; [|apply (selectPod_wp ErrRequeueDelay (p :: ps))]. by intros. }
  intros t [[r|pod]|?] [Hsel Hn]; simpl in Hsel; [..|done]; destruct Hsel as [Ht Hlive];
    apply (created_cleanup KPod KPod) in Ht.
  - simpl. rewrite Ht. split_and!; [done| |by left].
    intros Hp. by specialize (Hn Hp).
  - eapply wp_mono; [|apply (ensurePod_then_follow test pod)].
    intros t' [a|?]; [|done]. simpl. intros Ht'. rewrite created_app, Ht, Ht'. simpl.
    destruct pod as [p|]; split_and!; try done; [|by left|by right].
    intros Hp. by specialize (Hn Hp).
Qed.

End behaviour.

Section results.
Context `{AM : !ApiMachinery} {env : world}.
Context (ErrRequeueDelay : Z).
Implicit Types (pods : list Pod) (test : Test).

(** The phases of a pod the controller follows. *)
Definition known_pod_phase (p : string) : Prop :=
  p = PodPending ∨ p = PodRunning ∨ p = PodSucceeded ∨ p = PodFailed.

(** C13: the Test's phase follows its pod's as [FromPodPhase] maps it: one
    status write to the mapped phase, or none when the Test is already
    Starting or Running there, or when the pod's phase is unknown. A result is
    counted exactly when the write of its final phase succeeded, and a failed
    write is retried. *)
Theorem followPod_follows test pod :
  TestPhase_IsFinal (test_Phase (test_Status test)) = false →
  wp env (followPod ErrRequeueDelay test pod) (returns (λ t res,
    let phase := pod_Phase (pod_Status pod) in
    let target := TestPhase_FromPodPhase phase in
    (known_pod_phase phase → test_Phase (test_Status test) ≠ target →
      ∃ new ok, status_writes KTest t = [(test, new, ok)] ∧
        test_Phase (test_Status new) = target ∧
        counted t = (if ok : bool then option_list (counter_of target) else []) ∧
        (ok = true → res = (noResult, None)) ∧
        (ok = false → res.1 = requeue ErrRequeueDelay ∧ res.2 ≠ None)) ∧
    (¬ known_pod_phase phase ∨ test_Phase (test_Status test) = target →
      t = [] ∧ res = (noResult, None)))).
Proof.
  intros Hnf. unfold followPod, TestPhase_FromPodPhase, known_pod_phase.
  repeat case_bool_decide; simpl; try congruence.
  all: try (split_and!; [intros; intuition congruence|intros; intuition congruence]).
  all: try (split; [intros _ ?; congruence|done]).
  all: intros [e|new] _; simpl; try (intros [] _; simpl); try (intros [] _; simpl).
  all: split; [intros _ _; eexists _, _; split_and!; [done..|by intros|by intros]|].
  all: try (intros [Hn|Heq]; [exfalso; tauto|]).
  all: try congruence.
  all: rewrite Heq in Hnf; vm_compute in Hnf; done.
Qed.

(** The messages of a Test are those of its terminated containers; for a
    repeated name the last one counts. *)
Theorem terminationMessages_lookup (statuses : list ContainerStatus) n :
  terminationMessages statuses !! n =
    last (omap (λ cs, if decide (cs_Name cs = n) then cs_Terminated cs else None) statuses).
Proof.
  unfold terminationMessages.
  induction statuses as [|cs statuses IH] using rev_ind; [done|].
  rewrite fold_left_app, omap_app. simpl.
  destruct (cs_Terminated cs) as [m|]; simpl.
  - rewrite lookup_insert. case_decide as Hn; simpl.
    + by rewrite last_snoc.
    + by rewrite app_nil_r.
  - rewrite IH. by case_decide; rewrite app_nil_r.
Qed.

(** The events that delete the pod [p]. *)
Definition deletes (p : Pod) (e : event) : Prop := ev_call e = CDelete KPod p.

Lemma releaseDeletedPods_nop pods idxs errs :
  Forall (λ p : Pod, is_deleted (k:=KPod) p = false) pods →
  Forall (λ i, i < length pods) idxs →
  releaseDeletedPods idxs pods errs = Ret (pods, errs).
Proof.
  intros Hlive. induction idxs as [|i idxs IH]; intros Hlt; cbn [releaseDeletedPods]; [done|].
  apply Forall_cons in Hlt as [Hi Hlt].
  destruct (lookup_lt_is_Some_2 pods i Hi) as [p Hp].
  unfold index. rewrite Hp. cbn [bind].
  by rewrite (Forall_lookup_1 _ _ _ _ Hlive Hp), IH.
Qed.

Lemma cleanUp_out_deletes finalizer (p : Pod) t res :
  is_deleted (k:=KPod) p = false →
  cleanUp_out (k:=KPod) env finalizer p t res → Exists (deletes p) t.
Proof.
  unfold is_deleted. intros Hd.
  intros (m & t' & [(pt & err & _ & _ & [(Hd' & _)|(_ & _ & ->)])|(e & _ & -> & _)]).
  - by destruct (GetDeletionTimestamp _).
  - by left.
  - by left.
Qed.

(** The retention policy of a completed Test. With pods that are not
    being deleted, a policy that retains them exchanges nothing at all, and
    one that does not deletes every one of them, whatever errors occur, and
    is retried unless every deletion succeeded or found nothing. *)
Theorem isComplete_retention test pods :
  Forall (λ p : Pod, is_deleted (k:=KPod) p = false) pods →
  wp env (isComplete ErrRequeueDelay test pods) (returns (λ t res,
    if dropsPods (ts_RetentionPolicy (test_Spec test)) (test_Phase (test_Status test))
    then Forall (λ p, Exists (deletes p) t) pods ∧
      (res = (noResult, None) ∨ res.1 = requeue ErrRequeueDelay ∧ res.2 ≠ None)
    else t = [] ∧ res = (noResult, None))).
Proof.
  intros Hlive. unfold isComplete.
  rewrite releaseDeletedPods_nop by (try done; apply (GetObjects_lt (k:=KPod))). simpl.
  destruct (dropsPods _ _); [|done].
  case_bool_decide as Hlen; [|].
  2:{ destruct pods; simpl in *; [|lia]. split; [constructor|by left]. }
  eapply wp_use_returns.
  { apply cleanUpPods_wp; [apply NoDup_seq|apply (GetObjects_lt (k:=KPod))]. }
  intros t [pods' errs] (m & Hout). destruct Hout as (Hlen' & _ & rounds & Hr & -> & _).
  simpl in *. apply (cleanUp_rounds_items (k:=KPod)) in Hr as [Hr _]; [|done].
  assert (Forall (λ p, Exists (deletes p) (concat (fst <$> rounds))) pods) as Hall.
  { clear -Hlive Hr. induction Hr as [|p rd pods rounds Hout Hr IH]; [constructor|].
    apply Forall_cons in Hlive as [Hp Hlive]. simpl. constructor.
    - apply Exists_app. left. by eapply cleanUp_out_deletes.
    - eapply Forall_impl; [by apply IH|]. intros q Hq. apply Exists_app. by right. }
  destruct (ErrorList_HasError errs) eqn:Herr; simpl; rewrite app_nil_r; (split; [done|]).
  - right. split; [done|]. rewrite ErrorList_Error_None. intros Hnil.
    apply ErrorList_HasError_false in Hnil. congruence.
  - by left.
Qed.

(** The pods a Test creates are found again: the indexer files the Test's
    pod under the Test's name, so the next reconciliation lists it. *)
Theorem podIndexer_podFor test :
  test_TypeMeta test = mkTypeMeta GroupVersion_String "Test" →
  podIndexer (podFor test) = [Name (test_ObjectMeta test)].
Proof.
  intros Ht. unfold podIndexer. rewrite GetControllerOf_spec. simpl.
  rewrite Ht. done.
Qed.

(** C30: a Test that is being deleted keeps its finalizer until all its pods
    are cleaned up: the Test itself is patched only after every clean-up
    succeeded, and otherwise the error is returned for a retry. *)
Theorem finalize_order test pods :
  wp env (finalize ErrRequeueDelay test pods) (returns (λ t res, ∃ rounds,
    Forall2 (λ p rd, cleanUp_out (k:=KPod) env TestControllerFinalizer p rd.1 rd.2) pods rounds ∧
    (if decide (Forall (λ rd, rd.2.1.2 = None) rounds)
     then ∃ t' r, t = concat (fst <$> rounds) ++ t' ∧
       removeFinalizer_out (k:=KTest) env TestControllerFinalizer test t' r ∧
       res = (noResult, None)
     else t = concat (fst <$> rounds) ∧ res.1 = requeue ErrRequeueDelay ∧ res.2 ≠ None))).
Proof.
  assert (wp env (func (let! _ := lift (removeFinalizer (k:=KTest) TestControllerFinalizer test) in
      return_ (A:=Result * option error) (noResult, None)))
    (returns (λ t res, ∃ r, removeFinalizer_out (k:=KTest) env TestControllerFinalizer test t r ∧
      res = (noResult, None)))) as Hlast.
  { apply wp_func_lift_bind. eapply wp_mono; [|apply (removeFinalizer_wp (k:=KTest))].
    intros t [r|?]; [|done]. simpl. intros Hr. exists r. by rewrite app_nil_r. }
  unfold finalize. apply wp_func_bind. case_bool_decide as Hlen.
  2:{ destruct pods; simpl in *; [|lia]. eapply wp_mono; [|apply Hlast].
      intros t [res|?]; [|done]. intros (r & Hr & ->). exists []. split; [constructor|].
      rewrite decide_True by constructor. by exists t, r. }
  apply wp_lift_bind_fn.
  eapply wp_mono; [|apply cleanUpPods_wp; [apply NoDup_seq|apply (GetObjects_lt (k:=KPod))]].
  intros t [[pods' errs]|?]; [|done]. intros (m & Hlen' & _ & rounds & Hr & -> & _ & Herrs).
  simpl in *. apply (cleanUp_rounds_items (k:=KPod)) in Hr as [Hr _]; [|done].
  assert (errors errs = [] ↔ Forall (λ rd, rd.2.1.2 = None) rounds) as Hnone.
  { rewrite Herrs. apply round_errors. }
  destruct (ErrorList_HasError errs) eqn:Herr; simpl.
  - rewrite app_nil_r. exists rounds. split; [done|]. rewrite decide_False.
    + split_and!; [done..|]. rewrite ErrorList_Error_None. intros Hnil.
      apply ErrorList_HasError_false in Hnil. congruence.
    + rewrite <-Hnone. intros Hnil%ErrorList_HasError_false. congruence.
  - rewrite app_nil_r. eapply wp_mono; [|apply Hlast].
    intros t' [res|?]; [|done]. intros (r & Hr' & ->). exists rounds. split; [done|].
    rewrite decide_True by (by apply Hnone, ErrorList_HasError_false). by exists t', r.
Qed.

End results.

(** When a deleted Test has no pods left and the patch that removes its
    finalizer fails, [Reconcile] returns no error and asks for no retry. *)
Theorem finalize_swallows_error `{AM : !ApiMachinery} ErrRequeueDelay test e :
  TestControllerFinalizer ∈ Finalizers (test_ObjectMeta test) →
  wp (λ c r, match c return reply c → Prop with
      | CPatch _ _ _ => λ r, r = inl e | _ => λ _, True end r)
    (finalize ErrRequeueDelay test [])
    (returns (λ t res, length t = 1 ∧ res = (noResult, None))).
Proof.
  intros Hin. unfold finalize. simpl. apply wp_func_lift_bind.
  eapply wp_mono; [|apply (removeFinalizer_wp (k:=KTest))].
  intros t [r|?]; [|done]. unfold returns at 1, removeFinalizer_out.
  rewrite decide_True by done. intros (? & ? & _ & ? & _ & -> & _). done.
Qed.
