(* ===== verification/TestRunController.v ===== *)
(** [src/controllers/testrun_controller.go]: the controller that runs the Tests
    of a TestRun and collects their results.

    The state is the TestRun and the slice of Tests it controls; a pointer
    into that slice is an index, so that [mapped] aliases the slice as in the
    code. *)

From S2P Require Import Prelude.
From S2P Require Import GoLib.
From S2P Require Import Api.
From S2P Require Import Effects.
From S2P Require Import Helpers.
From S2P Require Import PruneDeleted.
From S2P Require TestController.

(** * Constants *)

Definition testIndexKey : string := ".metadata.controller".
Definition TestRunControllerFinalizer : string := GroupName +:+ "/testrun-controller".
Definition TestRunStartedCondition : string := "RunStarted".
Definition TestRunCompletedCondition : string := "RunCompleted".

(** * Updates of a TestRun's status *)

Definition set_run_Phase (p : TestRunPhase) (r : TestRun) : TestRun :=
  set_run_Status (mkTestRunStatus (run_Conditions (run_Status r)) p
    (run_Message (run_Status r)) (run_Results (run_Status r))) r.

Definition set_run_Message (m : string) (r : TestRun) : TestRun :=
  set_run_Status (mkTestRunStatus (run_Conditions (run_Status r)) (run_Phase (run_Status r))
    m (run_Results (run_Status r))) r.

Definition set_run_Results (rs : list TestResult) (r : TestRun) : TestRun :=
  set_run_Status (mkTestRunStatus (run_Conditions (run_Status r)) (run_Phase (run_Status r))
    (run_Message (run_Status r)) rs) r.

(** [fmt.Sprintf("%s-%d-", testRun.Name, i)] *)
Definition testGenerateName (name : string) (i : nat) : string :=
  name +:+ "-" +:+ strconv.Itoa (Z.of_nat i) +:+ "-".

(** The index a Test's [GenerateName] encodes: one byte, before the last one. *)
Definition testIndex (gn : string) : error + Z :=
  let l := len gn in
  if bool_decide (4 ≤ l)%Z then
    let idxStr := slice gn (l - 2) (l - 1) in
    match strconv.Atoi idxStr with
    | inr i => inr i
    | inl _ => inl (errors_New "non-integer test index")
    end
  else inl (errors_New "test name does not meet min length").

Section controller.
Context `{AM : !ApiMachinery}.
Context (ErrRequeueDelay : Z).

Definition set_run_Condition (c : Condition) (r : TestRun) : TestRun :=
  set_run_Status (mkTestRunStatus (SetStatusCondition (run_Conditions (run_Status r)) c)
    (run_Phase (run_Status r)) (run_Message (run_Status r)) (run_Results (run_Status r))) r.

Definition requeue : Result := mkResult true ErrRequeueDelay.

(** * isRunning *)

(** The loop that maps the Tests to the templates of the run. The inner [i],
    the parsed index, shadows the loop's: the Test stored for template [i] is
    the one at position [i] of the slice. *)
Fixpoint mapTests (idxs : list nat) (maxIndex : Z) (items : list Test) (mapped : list (option nat)) :
    fn (Result * option error) (list Test * list (option nat)) :=
  match idxs with
  | [] => next (items, mapped)
  | i :: idxs =>
      let! test := lift (index items i) in
      let! '(mapped, err) :=
        match testIndex (GenerateName (test_ObjectMeta test)) with
        | inr i =>
            if bool_decide (i ≤ maxIndex)%Z then
              if bool_decide (0 ≤ i < Z.of_nat (length items))%Z
              then next (<[Z.to_nat i := Some (Z.to_nat i)]> mapped, None)
              else Panic IndexOutOfRange
            else next (mapped, Some (errors_New "test index greater than max"))
        | inl e => next (mapped, Some e)
        end in
      match err with
      | None => mapTests idxs maxIndex items mapped
      | Some _ =>
          let! '((_, err), test) :=
            lift (cleanUp (k:=KTest) TestRunControllerFinalizer test) in
          match err with
          | Some e => return_ (requeue, Some e)
          | None => mapTests idxs maxIndex (<[i := test]> items) mapped
          end
      end
  end.

(** The Test created for template [i]. *)
Definition testFor (testRun : TestRun) (i : nat) (template : TestTemplate) : Test :=
  let meta := run_ObjectMeta testRun in
  mkTest (mkTypeMeta "" "")
    (mkObjectMeta "" (testGenerateName (Name meta) i) (Namespace meta) "" 0 0 None None None
      [mkOwnerReference (APIVersion (run_TypeMeta testRun)) (Kind (run_TypeMeta testRun))
         (Name meta) (UID meta) (Some true) (Some true)]
      [TestController.TestControllerFinalizer])
    (mkTestSpec (trs_RetentionPolicy (run_Spec testRun)) (tt_Template template))
    (mkTestStatus [] "" None).

(** [completions], [passes] and [failures] *)
Record tally := mkTally { completions : Z; passes : Z; failures : Z }.

(** The loop over [mapped], from index [i]: creates the missing Tests and
    collects the results of the completed ones. *)
Fixpoint evaluateTests (i : nat) (mapped : list (option nat)) (items : list Test)
    (testRun : TestRun) (n : tally) : fn (Result * option error) (TestRun * tally) :=
  match mapped with
  | [] => next (testRun, n)
  | None :: mapped =>
      let! template := lift (index (trs_Tests (run_Spec testRun)) i) in
      let! '(err, test) := lift (client_Create (k:=KTest) (testFor testRun i template)) in
      match err with
      | Some _ => return_ (requeue, err)
      | None =>
          let! _ := lift (Recorder_Event (k:=KTestRun) testRun "Normal" "CreatedTest"
            ("Created test " +:+ Name (test_ObjectMeta test))) in
          evaluateTests (S i) mapped items testRun n
      end
  | Some p :: mapped =>
      let! test := lift (index items p) in
      let phase := test_Phase (test_Status test) in
      if TestPhase_IsFinal phase then
        let! template := lift (index (trs_Tests (run_Spec testRun)) i) in
        let passed := TestPhase_IsSuccess phase in
        let result := mkTestResult (Description template) passed (Name (test_ObjectMeta test)) in
        let n :=
          if passed then mkTally (completions n + 1) (passes n + 1) (failures n)
          else mkTally (completions n + 1) (passes n) (failures n + 1) in
        let testRun := set_run_Results (run_Results (run_Status testRun) ++ [result]) testRun in
        evaluateTests (S i) mapped items testRun n
      else evaluateTests (S i) mapped items testRun n
  end.

(** The status of a run that is in progress. *)
Definition inProgress (testRun : TestRun) (count : Z) (n : tally) : TestRun :=
  let gen := Generation (run_ObjectMeta testRun) in
  let testRun := set_run_Phase TestRunRunning testRun in
  let testRun := set_run_Message
    (strconv.Itoa (count - completions n) +:+ " test(s) in progress. " +:+
     strconv.Itoa (passes n) +:+ " test(s) passed. " +:+
     strconv.Itoa (failures n) +:+ " test(s) failed.") testRun in
  let testRun := set_run_Condition (mkCondition TestRunStartedCondition ConditionTrue gen
    "TestRunStarted" "Test run has started") testRun in
  set_run_Condition (mkCondition TestRunCompletedCondition ConditionFalse gen
    "TestRunInProgress" "Test run is executing") testRun.

(** The status of a run whose Tests are all complete. *)
Definition completed (testRun : TestRun) (n : tally) : TestRun :=
  let gen := Generation (run_ObjectMeta testRun) in
  if bool_decide (failures n = 0%Z) then
    let testRun := set_run_Phase TestRunPassed testRun in
    let testRun := set_run_Message
      (strconv.Itoa (failures n) +:+ " of " +:+ strconv.Itoa (completions n) +:+
       " tests passed") testRun in
    set_run_Condition (mkCondition TestRunCompletedCondition ConditionTrue gen
      "TestRunPassed" (run_Message (run_Status testRun))) testRun
  else
    let testRun := set_run_Phase TestRunFailed testRun in
    let testRun := set_run_Message
      (strconv.Itoa (failures n) +:+ " of " +:+ strconv.Itoa (completions n) +:+
       " tests failed") testRun in
    set_run_Condition (mkCondition TestRunCompletedCondition ConditionTrue gen
      "TestRunFailed" (run_Message (run_Status testRun))) testRun.

(** The part of [isRunning] after the loops: the status of the run. [orig] is
    the run before its results were collected. *)
Definition updateRun (orig testRun : TestRun) (count : Z) (n : tally) :
    prog (Result * option error) :=
  if bool_decide (count ≠ completions n) then
    let testRun := inProgress testRun count n in
    let* '(err, testRun) := Status_Patch (k:=KTestRun) testRun orig in
    match err with
    | None => Ret (noResult, None)
    | Some _ => Ret (requeue, err)
    end
  else
    let testRun := completed testRun n in
    let* _ :=
      if bool_decide (failures n = 0%Z)
      then Recorder_Event (k:=KTestRun) testRun "Normal" "TestRunPassed"
             (run_Message (run_Status testRun))
      else Recorder_Event (k:=KTestRun) testRun "Warning" "TestRunFailed"
             (run_Message (run_Status testRun)) in
    let* '(err, testRun) := Status_Patch (k:=KTestRun) testRun orig in
    match err with
    | None => Ret (noResult, None)
    | Some _ =>
        match IgnoreNotFound err with
        | None => Ret (noResult, None)
        | Some e => Ret (requeue, Some e)
        end
    end.

Definition isRunning (testRun : TestRun) (items : list Test) : prog (Result * option error) :=
  func (
    let n := length (trs_Tests (run_Spec testRun)) in
    let maxIndex := (Z.of_nat n - 1)%Z in
    let! '(items, mapped) :=
      mapTests (seq 0 (length items)) maxIndex items (replicate n None) in
    let orig := testRun in
    let testRun := set_run_Results [] testRun in
    let! '(testRun, n) := evaluateTests 0 mapped items testRun (mkTally 0 0 0) in
    lift (updateRun orig testRun (Z.of_nat (length mapped)) n)).

(** * isComplete *)

Definition dropsTests (policy : RetainPolicy) (phase : TestRunPhase) : bool :=
  (policy == RetainNever) || ((policy == RetainOnFailure) && (phase == TestRunPassed)).

Definition isComplete (testRun : TestRun) (items : list Test) : prog (Result * option error) :=
  if dropsTests (trs_RetentionPolicy (run_Spec testRun)) (run_Phase (run_Status testRun)) then
    let* '((_, err), _) :=
      cleanUpAll (k:=KTest) TestRunControllerFinalizer (GetObjects (k:=KTest) items) items in
    match err with
    | Some _ => Ret (requeue, err)
    | None => Ret (noResult, None)
    end
  else Ret (noResult, None).

(** * Reconcile *)

Definition ensureFinalizer (testRun : TestRun) : fn (Result * option error) TestRun :=
  if negb (TestRunPhase_IsFinal (run_Phase (run_Status testRun))) &&
     negb (is_deleted (k:=KTestRun) testRun) then
    let! '((patched, err), testRun) :=
      lift (addFinalizer (k:=KTestRun) TestRunControllerFinalizer testRun) in
    match err with
    | Some _ =>
        match IgnoreNotFound err with
        | None => return_ (noResult, None)
        | Some e => return_ (requeue, Some e)
        end
    | None => next testRun
    end
  else next testRun.

Definition ensurePhase (testRun : TestRun) : fn (Result * option error) TestRun :=
  if run_Phase (run_Status testRun) == "" then
    let orig := testRun in
    let testRun := set_run_Message "Test Run is starting" (set_run_Phase TestRunStarting testRun) in
    let! '(err, testRun) := lift (Status_Patch (k:=KTestRun) testRun orig) in
    match err with
    | Some _ =>
        match IgnoreNotFound err with
        | None => return_ (noResult, None)
        | Some e => return_ (requeue, Some e)
        end
    | None =>
        let! _ := lift (Recorder_Event (k:=KTestRun) testRun "Normal" "TestRunCreated"
          (run_Message (run_Status testRun))) in
        next testRun
    end
  else next testRun.

(** The branch for a TestRun that is being deleted. *)
Definition finalize (testRun : TestRun) (items : list Test) : prog (Result * option error) :=
  if bool_decide (0 < length items) then
    let* '((_, err), _) :=
      cleanUpAll (k:=KTest) TestRunControllerFinalizer (GetObjects (k:=KTest) items) items in
    match err with
    | Some _ => Ret (requeue, err)
    | None => Ret (noResult, None)
    end
  else
    let* '((patched, err), _) :=
      removeFinalizer (k:=KTestRun) TestRunControllerFinalizer testRun in
    match err with
    | Some _ => Ret (requeue, err)
    | None => Ret (noResult, None)
    end.

(** The block that handles deleted Tests. *)
Definition pruneTests (items : list Test) : fn (Result * option error) (list Test) :=
  let! r := lift (pruneDeleted (k:=KTest) TestRunControllerFinalizer items) in
  match r with
  | inl err => return_ (requeue, Some err)
  | inr items => next items
  end.

Definition Reconcile (req : Request) : prog (Result * option error) :=
  func (
    let! r := lift (client_Get KTestRun req) in
    match r with
    | inl e =>
        match IgnoreNotFound (Some e) with
        | None => return_ (noResult, None)
        | Some e => return_ (requeue, Some e)
        end
    | inr testRun =>
        let! r := lift (client_List KTest
          [InNamespace (nn_Namespace req); MatchingFields testIndexKey (nn_Name req)]) in
        match r with
        | inl e => return_ (noResult, Some e)
        | inr items =>
            let! testRun := ensureFinalizer testRun in
            let! testRun := ensurePhase testRun in
            if is_deleted (k:=KTestRun) testRun then lift (finalize testRun items)
            else
              let! items := pruneTests items in
              if TestRunPhase_IsFinal (run_Phase (run_Status testRun))
              then lift (isComplete testRun items)
              else lift (isRunning testRun items)
        end
    end).

(** * SetupWithManager *)

(** The function that indexes Tests by the TestRun that controls them. *)
Definition testIndexer (test : Test) : list string :=
  match GetControllerOf (test_ObjectMeta test) with
  | None => []
  | Some owner =>
      if (or_APIVersion owner == GroupVersion_String) && (or_Kind owner == "TestRun")
      then [or_Name owner] else []
  end.

End controller.

(** * Mapping the Tests to the templates *)

(** [t] carries the index [k] in its name. *)
Definition has_index (k : nat) (t : Test) : bool :=
  match testIndex (GenerateName (test_ObjectMeta t)) with
  | inr i => bool_decide (i = Z.of_nat k)
  | inl _ => false
  end.

(** A listing in which every Test carries the index of one of [n] templates,
    and of a position of the listing. *)
Definition well_indexed (n : nat) (items : list Test) : Prop :=
  Forall (λ t, ∃ k, testIndex (GenerateName (test_ObjectMeta t)) = inr (Z.of_nat k) ∧
    k < n ∧ k < length items) items.

(** What [mapTests] computes from such a listing: template [k] is mapped to
    position [k] when some Test carries the index [k]. *)
Definition mapping (n : nat) (items : list Test) : list (option nat) :=
  (λ k, if existsb (has_index k) items then Some k else None) <$> seq 0 n.

(** The Test each template is evaluated by. *)
Definition tests_of (n : nat) (items : list Test) : list (option Test) :=
  (λ k, if existsb (has_index k) items then items !! k else None) <$> seq 0 n.

Lemma testIndex_bounds gn i : testIndex gn = inr i → (0 ≤ i ≤ 9)%Z.
Proof.
  unfold testIndex. case_bool_decide as Hl; [|done].
  unfold slice. replace (Z.to_nat (len gn - 1 - (len gn - 2))) with 1 by lia.
  assert (∀ (m : nat) s, String.substring m 1 s = "" ∨ ∃ c, String.substring m 1 s = String c "") as H1.
  { induction m as [|m IH]; intros [|c s]; simpl; [by left|right|by left|apply IH].
    exists c. by destruct s. }
  destruct (H1 (Z.to_nat (len gn - 2)) gn) as [->|[c ->]]; [done|].
  rewrite strconv_facts.Atoi_single. destruct (strconv.digit c) as [d|] eqn:Hd; [|done].
  intros [= <-]. by eapply strconv_facts.digit_bounds.
Qed.

(** Only the last digit of the index survives the round trip. *)
Lemma testIndex_GenerateName name i :
  name ≠ "" → testIndex (testGenerateName name i) = inr (Z.of_nat i `mod` 10)%Z.
Proof.
  intros Hname. destruct (strconv_facts.Itoa_last (Z.of_nat i)) as [p Hp]; [lia|].
  unfold testGenerateName. rewrite Hp.
  set (c := strconv.digit_char _). unfold testIndex.
  replace (name +:+ "-" +:+ (p +:+ String c "") +:+ "-")
    with ((name +:+ "-" +:+ p) +:+ String c "" +:+ "-") by (by rewrite !str_app_assoc).
  assert (1 ≤ len name)%Z as Hl by (destruct name; [done|unfold len; simpl; lia]).
  rewrite !len_app. change (len (String c "")) with 1%Z. change (len "-") with 1%Z.
  assert (0 ≤ len p)%Z as Hlp by (unfold len; lia).
  rewrite bool_decide_eq_true_2 by lia.
  rewrite slice_app by (rewrite ?len_app; change (len (String c "")) with 1%Z;
    change (len "-") with 1%Z; lia).
  pose proof (Z.mod_pos_bound (Z.of_nat i) 10 ltac:(lia)).
  rewrite strconv_facts.Atoi_single. subst c. by rewrite strconv_facts.digit_digit_char by lia.
Qed.

Section mapping_facts.
Context `{AM : !ApiMachinery}.
Context (ErrRequeueDelay : Z).
Implicit Types (items : list Test) (mapped : list (option nat)).

(** [mapped[k] = &items[k]] for every index [k] of the Tests of [sel]. *)
Definition map_all (sel items : list Test) mapped : list (option nat) :=
  imap (λ k m, if existsb (has_index k) sel then Some k else m) mapped.

Lemma map_all_cons t sel items mapped k :
  testIndex (GenerateName (test_ObjectMeta t)) = inr (Z.of_nat k) →
  map_all (t :: sel) items mapped = map_all sel items (<[k := Some k]> mapped).
Proof.
  intros Ht. unfold map_all. apply list_eq. intros j. rewrite !list_lookup_imap.
  assert (has_index j t = bool_decide (j = k)) as Hj.
  { unfold has_index. rewrite Ht. apply bool_decide_ext. lia. }
  simpl. rewrite Hj. case_bool_decide as Hjk.
  - subst j. destruct (mapped !! k) as [m|] eqn:Hm.
    + rewrite list_lookup_insert_eq by (by eapply lookup_lt_Some). simpl.
      by destruct (existsb _ sel).
    + rewrite list_insert_ge by (by apply lookup_ge_None). by rewrite Hm.
  - by rewrite list_lookup_insert_ne.
Qed.

Lemma mapTests_all idxs n items sel mapped :
  Forall (λ t, ∃ k, testIndex (GenerateName (test_ObjectMeta t)) = inr (Z.of_nat k) ∧
    k < n ∧ k < length items) sel →
  Forall2 (λ i t, items !! i = Some t) idxs sel →
  mapTests ErrRequeueDelay idxs (Z.of_nat n - 1) items mapped =
    next (items, map_all sel items mapped).
Proof.
  intros Hwf Hsel. revert mapped Hwf.
  induction Hsel as [|i t idxs sel Hi Hsel IH]; intros mapped Hwf.
  { cbn [mapTests]. unfold map_all. do 2 f_equal. symmetry.
    rewrite <-(list_fmap_id mapped) at 2. rewrite <-imap_const. by apply imap_ext. }
  apply Forall_cons in Hwf as [(k & Ht & Hkn & Hk) Hwf].
  cbn [mapTests]. unfold index. rewrite Hi. unfold bind_fn at 1, lift at 1. cbn [bind].
  rewrite Ht. rewrite bool_decide_eq_true_2 by lia. rewrite bool_decide_eq_true_2 by lia.
  rewrite Nat2Z.id. unfold bind_fn at 1, next at 1. cbn [bind].
  rewrite IH by done. by rewrite (map_all_cons t sel items mapped k).
Qed.

Lemma Forall2_seq_lookup items : Forall2 (λ i t, items !! i = Some t) (seq 0 (length items)) items.
Proof.
  apply Forall2_same_length_lookup_2; [by rewrite length_seq|].
  intros i j t Hj Ht. apply lookup_seq in Hj as [-> _]. done.
Qed.

Lemma mapTests_well_indexed n items :
  well_indexed n items →
  mapTests ErrRequeueDelay (seq 0 (length items)) (Z.of_nat n - 1) items (replicate n None) =
    next (items, mapping n items).
Proof.
  intros Hwf. rewrite (mapTests_all _ n items items) by (done || apply Forall2_seq_lookup).
  do 3 f_equal. unfold map_all, mapping. apply list_eq. intros k.
  rewrite list_lookup_imap, list_lookup_fmap. destruct (decide (k < n)).
  - rewrite lookup_replicate_2, lookup_seq_lt by done. done.
  - rewrite (proj2 (lookup_ge_None _ _)) by (rewrite length_replicate; lia).
    rewrite (proj2 (lookup_ge_None (seq 0 n) _)) by (rewrite length_seq; lia). done.
Qed.

(** A valid Test whose index is past the end of the listing panics the
    controller before it has exchanged anything. *)
Lemma mapTests_panics idxs n items sel mapped t k :
  Forall (λ t, ∃ k, testIndex (GenerateName (test_ObjectMeta t)) = inr (Z.of_nat k) ∧ k < n) sel →
  Forall2 (λ i t, items !! i = Some t) idxs sel →
  t ∈ sel → testIndex (GenerateName (test_ObjectMeta t)) = inr (Z.of_nat k) → length items ≤ k →
  mapTests ErrRequeueDelay idxs (Z.of_nat n - 1) items mapped = Panic IndexOutOfRange.
Proof.
  intros Hwf Hsel Hin Ht Hk. revert mapped Hwf Hin.
  induction Hsel as [|i u idxs sel Hi Hsel IH]; intros mapped Hwf Hin;
    [by apply elem_of_nil in Hin|].
  apply Forall_cons in Hwf as [(j & Hu & Hj) Hwf].
  cbn [mapTests]. unfold index. rewrite Hi. unfold bind_fn at 1, lift at 1. cbn [bind].
  rewrite Hu. rewrite bool_decide_eq_true_2 by lia.
  case_bool_decide as Hrange; [|done].
  unfold bind_fn at 1, next at 1. cbn [bind]. apply IH; [done|].
  apply elem_of_cons in Hin as [<-|Hin]; [|done].
  rewrite Ht in Hu. simplify_eq. lia.
Qed.

End mapping_facts.

(** * Evaluating the Tests *)

(** A template of the run, and the Test it is evaluated by, if it exists. *)
Abbreviation slot := (TestTemplate * option Test)%type.

Definition is_final (t : Test) : bool := TestPhase_IsFinal (test_Phase (test_Status t)).
Definition is_success (t : Test) : bool := TestPhase_IsSuccess (test_Phase (test_Status t)).

(** The result of a slot, once its Test is complete. *)
Definition slot_result (s : slot) : option TestResult :=
  match s.2 with
  | Some t =>
      if is_final t
      then Some (mkTestResult (Description s.1) (is_success t) (Name (test_ObjectMeta t)))
      else None
  | None => None
  end.

Definition results (slots : list slot) : list TestResult := omap slot_result slots.

(** The Tests that are created for slots without one; the first slot is that
    of template [i]. *)
Definition missing (run : TestRun) (i : nat) (slots : list slot) : list Test :=
  omap (λ x, x) (imap (λ j (s : slot),
    match s.2 with None => Some (testFor run (i + j) s.1) | Some _ => None end) slots).

#[global] Arguments results slots : simpl never.
#[global] Arguments missing run i slots : simpl never.

(** The phase of a run with these slots. *)
Definition verdict (slots : list slot) : TestRunPhase :=
  if bool_decide (length (results slots) = length slots) then
    if forallb tr_Passed (results slots) then TestRunPassed else TestRunFailed
  else TestRunRunning.

Definition slots_of (run : TestRun) (items : list Test) : list slot :=
  let templates := trs_Tests (run_Spec run) in
  zip templates (tests_of (length templates) items).

Lemma missing_cons run i s slots :
  missing run i (s :: slots) =
    match s.2 with None => [testFor run i s.1] | Some _ => [] end ++ missing run (S i) slots.
Proof.
  unfold missing. simpl. rewrite Nat.add_0_r.
  assert (imap ((λ j (s : slot), match s.2 with None => Some (testFor run (i + j) s.1)
      | Some _ => None end) ∘ S) slots =
    imap (λ j (s : slot), match s.2 with None => Some (testFor run (S i + j) s.1)
      | Some _ => None end) slots) as ->
    by (apply imap_ext; intros j x _; simpl; by rewrite Nat.add_succ_r).
  by destruct (s.2).
Qed.

Lemma testFor_Results run rs i tmpl : testFor (set_run_Results rs run) i tmpl = testFor run i tmpl.
Proof. done. Qed.

Lemma missing_Results run rs i slots : missing (set_run_Results rs run) i slots = missing run i slots.
Proof. done. Qed.

Lemma results_cons s slots :
  results (s :: slots) = option_list (slot_result s) ++ results slots.
Proof. unfold results. simpl. by destruct (slot_result s). Qed.

Lemma verdict_missing run i slots : missing run i slots ≠ [] → verdict slots = TestRunRunning.
Proof.
  intros Hm. unfold verdict. rewrite bool_decide_eq_false_2; [done|].
  revert i Hm. induction slots as [|s slots IH]; intros i; [done|].
  rewrite missing_cons, results_cons, length_app. unfold slot_result.
  assert (length (results slots) ≤ length slots) as Hle by apply omap_length_le.
  destruct (s.2) as [t|]; simpl; [|lia].
  intros Hm%IH. destruct (is_final t); simpl; lia.
Qed.

Section evaluation.
Context `{AM : !ApiMachinery} {env : world}.
Context (ErrRequeueDelay : Z).
Implicit Types (items : list Test) (run : TestRun) (slots : list slot).

(** What an evaluation counts, and whether it got to the end. *)
Definition tally_of (n : tally) (rs : list TestResult) : tally :=
  mkTally (completions n + Z.of_nat (length rs))
    (passes n + Z.of_nat (length (filter (λ r, tr_Passed r = true) rs)))
    (failures n + Z.of_nat (length (filter (λ r, tr_Passed r = false) rs))).

#[local] Arguments tally_of n rs : simpl never.

(** A trace that ends with the first creation that fails, whose error is
    returned. *)
Definition stopped run i slots (t : list event) (res : Result * option error) : Prop :=
  ∃ t' test e, t = t' ++ [Ev (CCreate KTest test) (inl e)] ∧ Forall succeeded t' ∧
    created KTest t `prefix_of` missing run i slots ∧ res = (requeue ErrRequeueDelay, Some e).

Lemma stopped_missing run i slots t res : stopped run i slots t res → missing run i slots ≠ [].
Proof.
  intros (t' & test & e & -> & _ & Hp & _) Hn. rewrite Hn in Hp. apply prefix_nil_inv in Hp.
  rewrite created_app in Hp. by apply app_nil in Hp as [_ Hp].
Qed.

Definition evaluated run i n slots (t : list event)
    (r : (Result * option error) + (TestRun * tally)) : Prop :=
  status_writes KTestRun t = [] ∧
  match r with
  | inl res => stopped run i slots t res
  | inr (run', n') => created KTest t = missing run i slots ∧ Forall succeeded t ∧
      run' = set_run_Results (run_Results (run_Status run) ++ results slots) run ∧
      n' = tally_of n (results slots)
  end.

Lemma tally_of_cons n r rs :
  tally_of n (r :: rs) = tally_of (if tr_Passed r
    then mkTally (completions n + 1) (passes n + 1) (failures n)
    else mkTally (completions n + 1) (passes n) (failures n + 1)) rs.
Proof.
  unfold tally_of. destruct (tr_Passed r) eqn:Hr; simpl;
    rewrite !filter_cons; repeat case_decide; simpl; try congruence; f_equal; lia.
Qed.

Lemma tally_of_nil n : tally_of n [] = n.
Proof. destruct n. unfold tally_of. simpl. f_equal; lia. Qed.

(** Template [i], of a run whose templates end with those of the slots. *)
Lemma template_at run pre s slots :
  trs_Tests (run_Spec run) = pre ++ (fst <$> s :: slots) →
  trs_Tests (run_Spec run) !! length pre = Some s.1.
Proof. intros ->. simpl. by apply list_lookup_middle. Qed.

Lemma evaluateTests_wp pre slots mapped items run n :
  trs_Tests (run_Spec run) = pre ++ (fst <$> slots) →
  Forall2 (λ m (s : slot), m ≫= (items !!.) = s.2 ∧ (m = None ↔ s.2 = None)) mapped slots →
  wp env (evaluateTests ErrRequeueDelay (length pre) mapped items run n)
    (returns (evaluated run (length pre) n slots)).
Proof.
  revert pre mapped run n. induction slots as [|s slots IH]; intros pre mapped run n Hpre Hm;
    inversion Hm as [|m ? mapped' ? [Hms Hnone] Hm']; subst; cbn [evaluateTests].
  { split; [done|]. split; [done|]. rewrite app_nil_r, tally_of_nil. by destruct run as [? ? ? []]. }
  assert (trs_Tests (run_Spec run) = (pre ++ [s.1]) ++ (fst <$> slots)) as Hpre'
    by (by rewrite <-app_assoc).
  assert (∀ run n, trs_Tests (run_Spec run) = (pre ++ [s.1]) ++ (fst <$> slots) →
    wp env (evaluateTests ErrRequeueDelay (S (length pre)) mapped' items run n)
      (returns (evaluated run (S (length pre)) n slots))) as IH'.
  { intros run' n' Hr. pose proof (IH _ _ _ n' Hr Hm') as H.
    rewrite length_app, Nat.add_1_r in H. exact H. }
  destruct m as [p|]; simpl in Hms.
  - destruct (s.2) as [t|] eqn:Hs; [|by destruct Hnone as [_ Hn]; specialize (Hn eq_refl)].
    apply wp_lift_bind_fn, (wp_index _ _ _ _ Hms). cbn beta iota zeta.
    change (TestPhase_IsFinal (test_Phase (test_Status t))) with (is_final t).
    change (TestPhase_IsSuccess (test_Phase (test_Status t))) with (is_success t).
    destruct (is_final t) eqn:Hf.
    + apply wp_lift_bind_fn, (wp_index _ _ _ _ (template_at _ _ _ _ Hpre)). cbn beta iota zeta.
      eapply wp_mono; [|by apply IH'].
      intros tr [r|?]; [|done]. unfold evaluated. simpl. intros [Hw Hr]. split; [done|].
      rewrite results_cons. unfold slot_result. rewrite Hs, Hf. simpl. rewrite missing_cons, Hs in *.
      destruct r as [res|[run' n']].
      { unfold stopped in *. by rewrite missing_cons, Hs. }
      destruct Hr as (Hc & Hok & -> & ->). split; [done|]. split; [done|].
      split; [|by rewrite tally_of_cons]. by rewrite <-app_assoc.
    + eapply wp_mono; [|by apply IH'].
      intros tr [r|?]; [|done]. unfold evaluated. simpl. intros [Hw Hr]. split; [done|].
      unfold stopped. rewrite missing_cons, Hs, results_cons. unfold slot_result. by rewrite Hs, Hf.
  - destruct (s.2) as [t|] eqn:Hs; [done|].
    apply wp_lift_bind_fn, (wp_index _ _ _ _ (template_at _ _ _ _ Hpre)). cbn beta iota zeta.
    intros r _. unfold evaluated, stopped. rewrite missing_cons, Hs. destruct r as [e|t]; simpl.
    + split; [done|]. eexists [], _, e. split; [done|]. split; [done|].
      split; [by apply prefix_cons, prefix_nil|done].
    + intros [] _. eapply wp_mono; [|by apply IH'].
      intros tr [r|?]; [|done]. unfold evaluated. simpl. intros [Hw Hr]. split; [done|].
      rewrite results_cons. unfold slot_result. rewrite Hs. simpl.
      destruct r as [res|[run' n']].
      * destruct Hr as (t' & test & e & -> & Hok & Hp & ->).
        eexists (_ :: _ :: t'), test, e. split; [done|]. split; [|split; [|done]].
        -- constructor; [by eexists|]. by constructor.
        -- by apply prefix_cons.
      * destruct Hr as (-> & Hok & -> & ->). split; [done|]. split; [|done].
        constructor; [by eexists|]. by constructor.
Qed.

End evaluation.

(** * The status of a run *)

Section status.
Context `{AM : !ApiMachinery} {env : world}.
Context (ErrRequeueDelay : Z).
Implicit Types (items : list Test) (run : TestRun) (slots : list slot).

Lemma tally_of_passes rs :
  failures (tally_of (mkTally 0 0 0) rs) = 0%Z ↔ forallb tr_Passed rs = true.
Proof.
  unfold tally_of. simpl. induction rs as [|r rs IH]; [done|].
  rewrite filter_cons. case_decide as Hr; simpl.
  - rewrite Hr. simpl. split; [lia|done].
  - destruct (tr_Passed r); done.
Qed.

(** What [updateRun] writes: the verdict on the slots, with the results it was
    given. *)
Lemma updateRun_wp orig run slots :
  let n := tally_of (mkTally 0 0 0) (results slots) in
  wp env (updateRun ErrRequeueDelay orig run (Z.of_nat (length slots)) n) (returns (λ t res,
    created KTest t = [] ∧ ∃ new ok, status_writes KTestRun t = [(orig, new, ok)] ∧
      run_Results (run_Status new) = run_Results (run_Status run) ∧
      run_Phase (run_Status new) = verdict slots ∧
      (verdict slots = TestRunPassed → run_Message (run_Status new) =
         "0 of " +:+ strconv.Itoa (Z.of_nat (length slots)) +:+ " tests passed") ∧
      new = set_run_Status (run_Status new) run ∧
      (ok = true → res = (noResult, None)))).
Proof.
  intros n. assert (completions n = Z.of_nat (length (results slots))) as Hc by done.
  pose proof (tally_of_passes (results slots)) as Hp. fold n in Hp. clearbody n.
  unfold updateRun, verdict.
  destruct (decide (length (results slots) = length slots)) as [Hl|Hl].
  - rewrite (bool_decide_eq_false_2 (_ ≠ _)) by (rewrite Hc; lia).
    rewrite (bool_decide_eq_true_2 (length _ = _)) by done. unfold completed.
    destruct (forallb tr_Passed (results slots)); case_bool_decide as Hn; cycle 1.
    + by destruct Hn; apply Hp.
    + by apply Hp in Hn.
    + intros [] _ r _. destruct r as [e|new]; simpl; [destruct (IgnoreNotFound _)|];
        (split; [done|]); eexists _, _; by split_and!.
    + intros [] _ r _. rewrite Hn, Hc, Hl.
      destruct r as [e|new]; simpl; [destruct (IgnoreNotFound _)|];
        (split; [done|]); eexists _, _; by split_and!.
  - rewrite (bool_decide_eq_true_2 (_ ≠ _)) by (rewrite Hc; lia).
    rewrite (bool_decide_eq_false_2 (length _ = _)) by done.
    intros r _; destruct r as [e|new]; (split; [done|]); eexists _, _; by split_and!.
Qed.

(** The whole of [isRunning], on a well-indexed listing. *)
Definition isRunning_out run items (t : list event) (res : Result * option error) : Prop :=
  let slots := slots_of run items in
  (stopped ErrRequeueDelay run 0 slots t res ∧ status_writes KTestRun t = []) ∨
  (created KTest t = missing run 0 slots ∧
   (∀ test e, Ev (CCreate KTest test) (inl e) ∉ t) ∧ ∃ new ok,
   status_writes KTestRun t = [(run, new, ok)] ∧
   run_Results (run_Status new) = results slots ∧
   run_Phase (run_Status new) = verdict slots ∧
   (verdict slots = TestRunPassed → run_Message (run_Status new) =
      "0 of " +:+ strconv.Itoa (Z.of_nat (length slots)) +:+ " tests passed") ∧
   (ok = true → res = (noResult, None))).

Lemma length_tests_of n items : length (tests_of n items) = n.
Proof. unfold tests_of. by rewrite length_fmap, length_seq. Qed.

Lemma slots_of_templates run items : trs_Tests (run_Spec run) = fst <$> slots_of run items.
Proof. unfold slots_of. rewrite fst_zip; [done|]. by rewrite length_tests_of. Qed.

Lemma slots_of_mapping run items :
  well_indexed (length (trs_Tests (run_Spec run))) items →
  Forall2 (λ m (s : slot), m ≫= (items !!.) = s.2 ∧ (m = None ↔ s.2 = None))
    (mapping (length (trs_Tests (run_Spec run))) items) (slots_of run items).
Proof.
  intros Hwf. unfold slots_of, mapping, tests_of.
  set (templates := trs_Tests (run_Spec run)).
  apply Forall2_same_length_lookup_2.
  { rewrite length_zip, !length_fmap, length_seq. lia. }
  intros k m [tmpl ot]. rewrite list_lookup_fmap, lookup_zip_with, !list_lookup_fmap.
  destruct (seq 0 (length templates) !! k) as [j|] eqn:Hj; [|done].
  apply lookup_seq in Hj as [-> Hk]. simpl.
  destruct (templates !! k) as [tmpl'|]; [|done]. simpl. intros [= <-] [= <- <-].
  destruct (existsb (has_index k) items) eqn:Hex; simpl; [|done].
  split; [done|]. split; [done|]. intros Hnone%lookup_ge_None.
  apply existsb_exists in Hex as (t & Hin%list_elem_of_In & Ht).
  apply (proj1 (Forall_forall _ _) Hwf) in Hin as (k' & Hk' & _ & Hlt).
  unfold has_index in Ht. rewrite Hk' in Ht. apply bool_decide_eq_true in Ht. lia.
Qed.

Lemma isRunning_wp run items :
  well_indexed (length (trs_Tests (run_Spec run))) items →
  wp env (isRunning ErrRequeueDelay run items) (returns (isRunning_out run items)).
Proof.
  intros Hwf. unfold isRunning. rewrite mapTests_well_indexed by done.
  apply wp_func_bind. simpl. apply wp_func_bind.
  pose proof (slots_of_mapping run items Hwf) as Hm.
  eapply wp_mono; [|apply (evaluateTests_wp ErrRequeueDelay [] (slots_of run items));
    [exact (slots_of_templates run items)|exact Hm]].
  intros t [[res|[run' n]]|?]; [..|done]; intros [Hw Hr].
  - by left.
  - destruct Hr as (Hc & Hs & -> & ->). apply wp_func_lift.
    rewrite (Forall2_length _ _ _ Hm).
    eapply wp_mono; [|apply updateRun_wp].
    intros t' [res|?]; [|done]. intros (Hc' & new & ok & Hw' & Hrs & Hph & Hmsg & _ & Hok).
    right. rewrite created_app, status_writes_app, Hc', Hc, Hw, Hw', app_nil_r.
    split; [done|]. split; [|by exists new, ok]. intros test e [Hin|Hin]%elem_of_app.
    + apply (proj1 (Forall_forall _ _) Hs) in Hin as [o Ho]. done.
    + assert (test ∈ created KTest t') as Hcr; [|rewrite Hc' in Hcr; by apply elem_of_nil in Hcr].
      apply list_elem_of_omap. by eexists.
Qed.

End status.

(** * Properties of the evaluation *)

(** The index every Test of a listing carries; the indexes of a complete
    listing are those of the [n] templates, in any order. *)
Definition complete_listing (n : nat) (items : list Test) : Prop :=
  (λ t, testIndex (GenerateName (test_ObjectMeta t))) <$> items ≡ₚ
    (λ k, inr (Z.of_nat k)) <$> seq 0 n.

Lemma complete_listing_length n items : complete_listing n items → length items = n.
Proof. intros H%Permutation_length. by rewrite !length_fmap, length_seq in H. Qed.

Lemma complete_listing_well_indexed n items : complete_listing n items → well_indexed n items.
Proof.
  intros H. apply Forall_forall. intros t Ht.
  rewrite (complete_listing_length n items) by done.
  assert (testIndex (GenerateName (test_ObjectMeta t)) ∈
    (λ k, inr (Z.of_nat k)) <$> seq 0 n) as Hin.
  { rewrite <-H. by apply (list_elem_of_fmap_2 (λ t, testIndex (GenerateName (test_ObjectMeta t)))). }
  apply list_elem_of_fmap in Hin as (k & -> & Hk%elem_of_seq). exists k. split; [done|lia].
Qed.

Lemma complete_listing_tests_of n items :
  complete_listing n items → tests_of n items = Some <$> items.
Proof.
  intros H. pose proof (complete_listing_length n items H) as Hlen.
  apply list_eq. intros k. unfold tests_of. rewrite !list_lookup_fmap.
  destruct (decide (k < n)) as [Hk|Hk].
  - rewrite lookup_seq_lt by done. simpl.
    assert (existsb (has_index k) items = true) as ->.
    { assert (inr (Z.of_nat k) ∈ (λ t, testIndex (GenerateName (test_ObjectMeta t))) <$> items) as Hin.
      { rewrite H. apply (list_elem_of_fmap_2 (λ k, inr (Z.of_nat k))), elem_of_seq. lia. }
      apply list_elem_of_fmap in Hin as (t & Ht & Hin).
      apply existsb_exists. exists t. split; [by apply list_elem_of_In|].
      unfold has_index. rewrite <-Ht. by apply bool_decide_eq_true. }
    by destruct (lookup_lt_is_Some_2 items k) as [t ->]; [lia|].
  - rewrite !(proj2 (lookup_ge_None _ _)) by (rewrite ?length_seq; lia). done.
Qed.

(** The slots of a complete listing: template [k] with the [k]-th Test. *)
Lemma slots_of_complete run items :
  complete_listing (length (trs_Tests (run_Spec run))) items →
  slots_of run items = zip (trs_Tests (run_Spec run)) (Some <$> items).
Proof. intros H. unfold slots_of. by rewrite complete_listing_tests_of. Qed.

Lemma missing_complete run i templates items :
  missing run i (zip templates (Some <$> items)) = [].
Proof.
  revert i items. induction templates as [|tmpl templates IH]; intros i [|t items]; [done..|].
  cbn [zip zip_with fmap list_fmap]. rewrite missing_cons. simpl. apply IH.
Qed.

(** The verdict on a complete listing, from its Tests. *)
Definition listing_verdict (items : list Test) : TestRunPhase :=
  if forallb is_final items then
    if forallb is_success items then TestRunPassed else TestRunFailed
  else TestRunRunning.

Lemma verdict_complete templates items :
  length templates = length items →
  verdict (zip templates (Some <$> items)) = listing_verdict items.
Proof.
  intros Hlen. unfold verdict, listing_verdict.
  assert (∀ (templates : list TestTemplate) items, length templates = length items →
    length (results (zip templates (Some <$> items))) ≤ length items ∧
    (length (results (zip templates (Some <$> items))) = length items ↔
       forallb is_final items = true) ∧
    (forallb is_final items = true →
      forallb tr_Passed (results (zip templates (Some <$> items))) = forallb is_success items)) as H.
  { clear. intros templates. induction templates as [|tmpl templates IH];
      intros [|t items] Hlen; try done.
    cbn [zip zip_with fmap list_fmap]. rewrite results_cons. unfold slot_result. simpl.
    destruct (IH items) as (IH1 & IH2 & IH3); [by injection Hlen|].
    unfold zip in *. destruct (is_final t); simpl; [|split; [lia|split; [split; [lia|done]|done]]].
    split; [lia|]. split; [rewrite <-IH2; lia|]. intros Hf. by rewrite IH3. }
  destruct (H templates items Hlen) as (_ & H1 & H2).
  rewrite length_zip, length_fmap, Hlen, Nat.min_id.
  destruct (forallb is_final items).
  - rewrite bool_decide_eq_true_2 by (by apply H1). by rewrite H2.
  - rewrite bool_decide_eq_false_2; [done|]. intros Heq. by apply H1 in Heq.
Qed.

Lemma results_complete_lookup templates items k tmpl t :
  Forall (λ t, is_final t = true) items → length templates = length items →
  templates !! k = Some tmpl → items !! k = Some t →
  results (zip templates (Some <$> items)) !! k =
    Some (mkTestResult (Description tmpl) (is_success t) (Name (test_ObjectMeta t))).
Proof.
  revert items k. induction templates as [|tm templates IH]; intros [|u items] k Hf Hlen Htm Ht; try done.
  apply Forall_cons in Hf as [Hu Hf]. cbn [zip zip_with fmap list_fmap].
  rewrite results_cons. unfold slot_result. simpl. rewrite Hu.
  destruct k as [|k]; simpl in *; [by simplify_eq|]. apply IH; auto.
Qed.

Section properties.
Context `{AM : !ApiMachinery} {env : world}.
Context (ErrRequeueDelay : Z).
Implicit Types (items : list Test) (run : TestRun).


(** C7: with all its Tests listed, in whatever order, a run creates none, and
    is Passed exactly when all Tests passed, Failed when all are complete and
    one failed, and Running otherwise. The message of a run that passed says
    "0 of n tests passed": it prints the number of failures. *)
Theorem isRunning_complete_listing run items :
  complete_listing (length (trs_Tests (run_Spec run))) items →
  wp env (isRunning ErrRequeueDelay run items) (returns (λ t _,
    created KTest t = [] ∧ ∃ new ok, status_writes KTestRun t = [(run, new, ok)] ∧
      run_Phase (run_Status new) = listing_verdict items ∧
      (run_Phase (run_Status new) = TestRunPassed → run_Message (run_Status new) =
         "0 of " +:+ strconv.Itoa (Z.of_nat (length items)) +:+ " tests passed"))).
Proof.
  intros Hc. pose proof (complete_listing_length _ _ Hc) as Hlen.
  eapply wp_mono; [|by apply isRunning_wp, complete_listing_well_indexed].
  intros t [res|?]; [|done]. unfold returns, isRunning_out.
  rewrite slots_of_complete, missing_complete, verdict_complete by done.
  intros [[Hs _]|(Hcr & _ & new & ok & Hw & _ & Hph & Hmsg & _)].
  - destruct (stopped_missing _ _ _ _ _ _ Hs). by apply missing_complete.
  - split; [done|]. exists new, ok. split_and!; [done..|].
    rewrite Hph. intros ->%Hmsg. by rewrite length_zip, length_fmap, <-Hlen, Nat.min_id.
Qed.

(** C33: the result recorded for template [k] is that of the Test listed at
    position [k], whichever template that Test was created from: the variable
    of the loop is shadowed by the index parsed from the name. *)
Theorem isRunning_misattributes run items k tmpl t0 :
  complete_listing (length (trs_Tests (run_Spec run))) items →
  Forall (λ t, is_final t = true) items →
  trs_Tests (run_Spec run) !! k = Some tmpl → items !! k = Some t0 →
  wp env (isRunning ErrRequeueDelay run items) (returns (λ t _, ∃ new ok,
    status_writes KTestRun t = [(run, new, ok)] ∧
    run_Results (run_Status new) !! k =
      Some (mkTestResult (Description tmpl) (is_success t0) (Name (test_ObjectMeta t0))))).
Proof.
  intros Hc Hf Htm Ht. pose proof (complete_listing_length _ _ Hc) as Hlen.
  eapply wp_mono; [|by apply isRunning_wp, complete_listing_well_indexed].
  intros t [res|?]; [|done]. unfold returns, isRunning_out.
  rewrite slots_of_complete, missing_complete by done.
  intros [[Hs _]|(_ & _ & new & ok & Hw & Hr & _)].
  - destruct (stopped_missing _ _ _ _ _ _ Hs). by apply missing_complete.
  - exists new, ok. split; [done|]. rewrite Hr. by apply results_complete_lookup.
Qed.

(** C32: a run whose listing lacks a Test may crash the controller: a Test whose
    index is not below the length of the listing, such as the second one when
    the first is gone, indexes the slice out of range. *)
Theorem isRunning_panics run items t k :
  Forall (λ t, ∃ k, testIndex (GenerateName (test_ObjectMeta t)) = inr (Z.of_nat k) ∧
    k < length (trs_Tests (run_Spec run))) items →
  t ∈ items → testIndex (GenerateName (test_ObjectMeta t)) = inr (Z.of_nat k) →
  length items ≤ k →
  isRunning ErrRequeueDelay run items = Panic IndexOutOfRange.
Proof.
  intros Hwf Hin Ht Hk. unfold isRunning.
  by rewrite (mapTests_panics _ _ _ _ items _ t k) by (done || apply Forall2_seq_lookup).
Qed.

End properties.

(** C35: the index of a template is read back from the name of its Test, modulo
    ten; so it is the index for the first ten templates, and only for them. *)
Theorem testIndex_roundtrip name i :
  name ≠ "" →
  testIndex (testGenerateName name i) = inr (Z.of_nat i `mod` 10)%Z ∧
  (testIndex (testGenerateName name i) = inr (Z.of_nat i) ↔ i < 10).
Proof.
  intros Hname. rewrite testIndex_GenerateName by done. split; [done|].
  split; [intros [= H]|intros Hi; by rewrite Z.mod_small by lia].
  pose proof (Z.mod_pos_bound (Z.of_nat i) 10 ltac:(lia)). lia.
Qed.

(** The Tests a run creates are found again: the indexer files them under
    the run's name, and a run with at most ten templates reads back the index
    it gave each of them. *)
Theorem testIndexer_testFor `{AM : !ApiMachinery} run i tmpl :
  run_TypeMeta run = mkTypeMeta GroupVersion_String "TestRun" →
  Name (run_ObjectMeta run) ≠ "" → i < 10 →
  testIndexer (testFor run i tmpl) = [Name (run_ObjectMeta run)] ∧
  testIndex (GenerateName (test_ObjectMeta (testFor run i tmpl))) = inr (Z.of_nat i) ∧
  TestController.TestControllerFinalizer ∈ Finalizers (test_ObjectMeta (testFor run i tmpl)).
Proof.
  intros Ht Hname Hi. split_and!.
  - unfold testIndexer. rewrite GetControllerOf_spec. simpl. by rewrite Ht.
  - simpl. rewrite testIndex_GenerateName by done. by rewrite Z.mod_small by lia.
  - simpl. by left.
Qed.

(** * Safety of the whole controller *)

(** The phase changes the controller may write: a run without a phase starts,
    and a run that is not final is evaluated. *)
Inductive run_step : TestRunPhase → TestRunPhase → Prop :=
| run_starting : run_step "" TestRunStarting
| run_running p : TestRunPhase_IsFinal p = false → run_step p TestRunRunning
| run_passed p : TestRunPhase_IsFinal p = false → run_step p TestRunPassed
| run_failed p : TestRunPhase_IsFinal p = false → run_step p TestRunFailed.

(** What the controller may exchange: it deletes and patches Tests, creates
    the Tests of a run, patches the metadata of runs, and moves the phase of a
    run along [run_step], changing nothing but the status. *)
Definition run_event (e : event) : Prop :=
  match ev_call e with
  | CGet k _ => k = KTestRun
  | CList k opts => k = KTest ∧ ∃ req : Request,
      opts = [InNamespace (nn_Namespace req); MatchingFields testIndexKey (nn_Name req)]
  | CCreate k o =>
      match k return obj k → Prop with
      | KTest => λ o, ∃ run i tmpl, o = testFor run i tmpl
      | _ => λ _, False
      end o
  | CDelete k _ => k = KTest
  | CPatch k _ _ => k = KTest ∨ k = KTestRun
  | CStatusPatch k orig new =>
      match k return obj k → obj k → Prop with
      | KTestRun => λ orig new, run_step (run_Phase (run_Status orig)) (run_Phase (run_Status new)) ∧
          new = set_run_Status (run_Status new) orig
      | _ => λ _ _, False
      end orig new
  | CEvent k _ _ _ _ => k = KTestRun
  | CMetric _ => False
  | CNow => False
  | CEnqueue _ => False
  end.

Section safety.
Context `{AM : !ApiMachinery} {env : world}.
Context (ErrRequeueDelay : Z).
Implicit Types (items : list Test) (run : TestRun).

Lemma is_cleanup_run_event e : is_cleanup KTest e → run_event e.
Proof. destruct e as [[] r]; unfold is_cleanup, run_event; simpl; try done. by left. Qed.

Lemma is_patch_run_event e : is_patch KTest e → run_event e.
Proof. destruct e as [[] r]; unfold is_patch, run_event; simpl; try done. by left. Qed.

(** [mapTests] in general: it cleans up the Tests with unusable names; an entry
    it adds is below ten, and points into the slice. *)
Definition mapTests_out items mapped (t : list event)
    (o : outcome ((Result * option error) + (list Test * list (option nat)))) : Prop :=
  Forall (is_cleanup KTest) t ∧
  match o with
  | Panicked p => p = IndexOutOfRange
  | Done (inl res) => res.1 = requeue ErrRequeueDelay ∧ res.2 ≠ None
  | Done (inr (items', mapped')) => length items' = length items ∧ length mapped' = length mapped ∧
      ∀ k p, mapped' !! k = Some (Some p) → mapped !! k = Some (Some p) ∨ k ≤ 9 ∧ p < length items
  end.

Lemma mapTests_wp idxs maxIndex items mapped :
  Forall (λ i, i < length items) idxs →
  wp env (mapTests ErrRequeueDelay idxs maxIndex items mapped) (mapTests_out items mapped).
Proof.
  revert items mapped. induction idxs as [|i idxs IH]; intros items mapped Hlt; cbn [mapTests].
  { split; [constructor|]. split_and!; [done|done|]. by left. }
  apply Forall_cons in Hlt as [Hi Hlt]. destruct (lookup_lt_is_Some_2 _ _ Hi) as [x Hx].
  apply wp_lift_bind_fn, (wp_index _ _ _ _ Hx).
  assert (∀ mapped', wp env (
      let! '((_, err), test) := lift (cleanUp (k:=KTest) TestRunControllerFinalizer x) in
      match err with
      | Some e => return_ (requeue ErrRequeueDelay, Some e)
      | None => mapTests ErrRequeueDelay idxs maxIndex (<[i := test]> items) mapped'
      end) (mapTests_out items mapped')) as Hclean.
  { intros mapped'. apply wp_lift_bind_fn.
    eapply wp_mono; [|apply (cleanUp_wp (k:=KTest))].
    intros t [[[m err] x']|?]; [|done]. intros Hout%cleanUp_out_cleanup.
    destruct err as [e'|]; [by split; [rewrite !app_nil_r|]|].
    eapply wp_mono; [|apply IH; by rewrite length_insert].
    intros t' o [Ht' Ho]. split; [by apply Forall_app_intro|].
    rewrite length_insert in Ho. exact Ho. }
  destruct (testIndex _) as [e|j] eqn:Hj; [apply Hclean|].
  case_bool_decide as Hmax; [|apply Hclean].
  case_bool_decide as Hrange; [simpl|by split; [constructor|]].
  eapply wp_mono; [|by apply IH]. intros t o [Ht Ho]. split; [done|].
  destruct o as [[res|[items' mapped']]|p]; [done| |done].
  destruct Ho as (H1 & H2 & H3). rewrite length_insert in H2. split_and!; [done..|].
  intros k p [Hk|?]%H3; [|by right].
  destruct (decide (k = Z.to_nat j)) as [->|Hne].
  - rewrite list_lookup_insert in Hk. case_decide; [|by left].
    simplify_eq. right. apply testIndex_bounds in Hj. lia.
  - rewrite list_lookup_insert_ne in Hk by done. by left.
Qed.

(** The slots of entries that point into the slice. *)
Lemma slots_of_mapped (templates : list TestTemplate) (mapped : list (option nat)) items :
  length mapped = length templates →
  (∀ k p, mapped !! k = Some (Some p) → p < length items) →
  Forall2 (λ m (s : slot), m ≫= (items !!.) = s.2 ∧ (m = None ↔ s.2 = None)) mapped
    (zip templates ((λ m, m ≫= (items !!.)) <$> mapped)).
Proof.
  intros Hlen Hp. apply Forall2_same_length_lookup_2.
  { rewrite length_zip, length_fmap. lia. }
  intros k m [tmpl ot] Hm. rewrite lookup_zip_with, list_lookup_fmap, Hm. simpl.
  destruct (templates !! k); [|done]. intros [= _ <-]. split; [done|].
  destruct m as [p|]; [|done]. apply Hp in Hm. simpl.
  by destruct (lookup_lt_is_Some_2 _ _ Hm) as [? ->].
Qed.

(** [isRunning] on any listing: after [mapTests], the evaluation and the
    status of some slots of the run's templates, of which the first ten at
    most have a Test. *)
Lemma isRunning_slots run items (Q : list event → outcome (Result * option error) → Prop) :
  (∀ t o, mapTests_out items (replicate (length (trs_Tests (run_Spec run))) None) t o →
    match o with
    | Panicked p => Q t (Panicked p)
    | Done (inl res) => Q t (Done res)
    | Done (inr _) => ∀ (slots : list slot) t' res,
        fst <$> slots = trs_Tests (run_Spec run) →
        (∀ k s, slots !! k = Some s → s.2 ≠ None → k ≤ 9) →
        (created KTest t' `prefix_of` missing run 0 slots ∧ status_writes KTestRun t' = [] ∧
           res.1 = requeue ErrRequeueDelay ∧ res.2 ≠ None ∨
         created KTest t' = missing run 0 slots ∧ ∃ new ok,
           status_writes KTestRun t' = [(run, new, ok)] ∧
           run_Phase (run_Status new) = verdict slots) →
        Q (t ++ t') (Done res)
    end) →
  wp env (isRunning ErrRequeueDelay run items) Q.
Proof.
  intros HQ. unfold isRunning. apply wp_func_bind.
  eapply wp_mono; [|apply mapTests_wp, (GetObjects_lt (k:=KTest))].
  intros t o Hout. specialize (HQ t o Hout). destruct o as [[res|[items' mapped]]|p]; [done| |done].
  destruct Hout as (_ & Hlen & Hlen' & Hm). rewrite length_replicate in Hlen'.
  assert (∀ k p, mapped !! k = Some (Some p) → k ≤ 9 ∧ p < length items) as Hm'.
  { intros k p [Hr|?]%Hm; [|done]. by apply lookup_replicate_1 in Hr as [? _]. }
  pose proof (slots_of_mapped _ mapped items' Hlen') as Hslots.
  specialize (Hslots ltac:(intros k p Hk; rewrite Hlen; by eapply Hm')).
  set (slots := zip _ _) in Hslots.
  assert (fst <$> slots = trs_Tests (run_Spec run)) as Hfst.
  { subst slots. apply fst_zip. by rewrite length_fmap, Hlen'. }
  specialize (HQ slots). apply wp_func_bind.
  eapply wp_mono; [|apply (evaluateTests_wp ErrRequeueDelay [] slots); [by rewrite Hfst|done]].
  assert (∀ k s, slots !! k = Some s → s.2 ≠ None → k ≤ 9) as H9.
  { intros k s Hk Hs. apply (Forall2_lookup_r _ _ _ _ _ Hslots) in Hk as ([p|] & Hp & Hms & Hn).
    - by eapply Hm'.
    - by destruct Hs; apply Hn. }
  intros t1 [[res|[run' n]]|?]; [..|done]; intros [Hw Hr].
  - apply HQ; [done..|]. left. destruct Hr as (? & ? & ? & _ & _ & ? & ->). done.
  - destruct Hr as (Hc & _ & -> & ->). apply wp_func_lift.
    rewrite (Forall2_length _ _ _ Hslots).
    eapply wp_mono; [|apply updateRun_wp].
    intros t2 [res|?]; [|done]. intros (Hc' & new & ok & Hw' & _ & Hph & _).
    apply HQ; [done..|]. right. rewrite created_app, status_writes_app, Hc', Hc, Hw, Hw', app_nil_r.
    split; [done|]. by exists new, ok.
Qed.

Lemma evaluateTests_guarded i mapped items run n :
  wp env (evaluateTests ErrRequeueDelay i mapped items run n) (λ t o,
    Forall run_event t ∧ match o with
    | Panicked p => p = IndexOutOfRange
    | Done (inl _) => True
    | Done (inr (run', _)) => ∃ s, run' = set_run_Status s run
    end).
Proof.
  revert i run n. induction mapped as [|[p|] mapped IH]; intros i run n; cbn [evaluateTests].
  - split; [constructor|]. exists (run_Status run). by destruct run.
  - apply wp_lift_bind_fn. unfold index. destruct (items !! p) as [t|]; [|by split; [constructor|]].
    simpl. destruct (TestPhase_IsFinal _); [|apply IH].
    destruct (trs_Tests _ !! i) as [tmpl|]; [|by split; [constructor|]]. simpl.
    eapply wp_mono; [|apply IH]. intros tr o [Ht Ho]. split; [done|].
    destruct o as [[|[run' n']]|]; [done| |done]. destruct Ho as [s ->]. by exists s.
  - apply wp_lift_bind_fn. unfold index.
    destruct (trs_Tests _ !! i) as [tmpl|]; [|by split; [constructor|]].
    intros [e|t] _; simpl.
    + split; [|done]. constructor; [|constructor]. by exists run, i, tmpl.
    + intros [] _. eapply wp_mono; [|apply IH]. intros tr o [Ht Ho]. split; [|done].
      constructor; [by exists run, i, tmpl|]. by constructor.
Qed.

Lemma updateRun_safe orig run s count n :
  TestRunPhase_IsFinal (run_Phase (run_Status orig)) = false → run = set_run_Status s orig →
  wp env (updateRun ErrRequeueDelay orig run count n) (safe run_event).
Proof.
  intros Hf ->. unfold updateRun, completed, inProgress.
  wp_safe; try case_bool_decide; (split; [first [apply run_running|apply run_passed|apply run_failed]; exact Hf|done]).
Qed.

Lemma isRunning_guarded run items :
  TestRunPhase_IsFinal (run_Phase (run_Status run)) = false →
  wp env (isRunning ErrRequeueDelay run items) (guarded IndexOutOfRange run_event).
Proof.
  intros Hf. unfold isRunning. apply (wp_comp_func (Q:=λ A, @guarded A IndexOutOfRange run_event)).
  apply (wp_comp_bind_fn (Q:=λ A, @guarded A IndexOutOfRange run_event)).
  { eapply wp_mono; [|apply mapTests_wp, (GetObjects_lt (k:=KTest))].
    intros t o [Ht Ho]. split; [|by destruct o].
    eapply Forall_impl; [exact Ht|apply is_cleanup_run_event]. }
  intros [items' mapped]. apply wp_bind_fn.
  eapply wp_mono; [|apply evaluateTests_guarded].
  intros t [[res|[run' n']]|p] [Ht Hr]; [by split|..|by split].
  destruct Hr as [s ->]. apply wp_bind. eapply wp_mono; [|by eapply (updateRun_safe _ _ s)].
  intros t' [res|?]; [|done]. intros Ht'. split; [|done]. rewrite app_nil_r.
  by apply Forall_app_intro.
Qed.

Lemma pruneTests_safe items : wp env (pruneTests ErrRequeueDelay items) (safe run_event).
Proof.
  pose proof (pruneDeleted_safe (k:=KTest) (env:=env) run_event TestRunControllerFinalizer items
    is_patch_run_event). unfold pruneTests. wp_safe.
Qed.

Lemma removeFinalizer_run_safe f run : wp env (removeFinalizer (k:=KTestRun) f run) (safe run_event).
Proof.
  eapply wp_mono; [|apply (removeFinalizer_wp (k:=KTestRun))].
  intros t [r|?]; [|done]. unfold safe, returns, removeFinalizer_out. case_decide.
  - intros (err & o' & _ & r' & _ & -> & _). constructor; [by right|constructor].
  - intros [-> _]. constructor.
Qed.

Lemma addFinalizer_run_safe f run : wp env (addFinalizer (k:=KTestRun) f run) (safe run_event).
Proof.
  eapply wp_mono; [|apply (addFinalizer_wp (k:=KTestRun))].
  intros t [r|?]; [|done]. unfold safe, returns, addFinalizer_out. case_decide.
  - intros [-> _]. constructor.
  - intros (err & o' & _ & r' & _ & -> & _). constructor; [by right|constructor].
Qed.

Lemma cleanUpAll_run_safe f items :
  wp env (cleanUpAll (k:=KTest) f (GetObjects (k:=KTest) items) items) (safe run_event).
Proof.
  apply cleanUpAll_safe; [apply is_cleanup_run_event|apply GetObjects_NoDup|apply GetObjects_lt].
Qed.

#[local] Hint Resolve removeFinalizer_run_safe addFinalizer_run_safe cleanUpAll_run_safe
  pruneTests_safe isRunning_guarded : konfirm.

Lemma run_ensurePhase_safe run : wp env (ensurePhase ErrRequeueDelay run) (safe run_event).
Proof.
  unfold ensurePhase. wp_safe. split; [|done]. apply eqb_true in Heqb as ->. constructor.
Qed.

Lemma run_ensureFinalizer_safe run : wp env (ensureFinalizer ErrRequeueDelay run) (safe run_event).
Proof. unfold ensureFinalizer. wp_safe. Qed.

Lemma run_finalize_safe run items : wp env (finalize ErrRequeueDelay run items) (safe run_event).
Proof. unfold finalize. wp_safe. Qed.

Lemma run_isComplete_safe run items : wp env (isComplete ErrRequeueDelay run items) (safe run_event).
Proof. unfold isComplete. wp_safe. Qed.

#[local] Hint Resolve run_ensurePhase_safe run_ensureFinalizer_safe run_finalize_safe run_isComplete_safe : konfirm.

Lemma run_Reconcile_events req :
  wp env (Reconcile ErrRequeueDelay req) (guarded IndexOutOfRange run_event).
Proof. unfold Reconcile. wp_safe. split; [done|]. by exists req. Qed.

(** C17: whatever the API server answers, reconciling a run writes only to its
    own kinds of objects, creates no Test but a run's own, and changes the
    phase of a run only along [run_step], from a phase that is not final. The
    only panic is an index out of range. *)
Theorem Reconcile_guarded req :
  wp env (Reconcile ErrRequeueDelay req) (guarded IndexOutOfRange run_event).
Proof. apply run_Reconcile_events. Qed.

End safety.

(** However often a run is reconciled, its phase never changes once it is
    Passed or Failed, and it is never empty again. *)
Theorem run_steps_final p q :
  rtc run_step p q → (TestRunPhase_IsFinal p = true → q = p) ∧ (p ≠ "" → q ≠ "").
Proof.
  induction 1 as [p|p r q Hstep _ [IH1 IH2]]; [done|].
  destruct Hstep as [|p Hp|p Hp|p Hp];
    (split; [intros Hf; first [congruence|by vm_compute in Hf]|intros _; by apply IH2]).
Qed.

Section behaviour.
Context `{AM : !ApiMachinery} {env : world}.
Context (ErrRequeueDelay : Z).
Implicit Types (items : list Test) (run : TestRun).

Lemma missing_length run i slots :
  length slots ≤ length (missing run i slots) + length (filter (λ s : slot, s.2 ≠ None) slots).
Proof.
  revert i. induction slots as [|s slots IH]; intros i; [simpl; lia|].
  rewrite missing_cons, length_app, filter_cons. specialize (IH (S i)).
  destruct (s.2) as [t|]; case_decide; simpl; try done; lia.
Qed.

(** Slots with a Test lie below ten, so there are ten at most. *)
Lemma missing_past_ten run slots :
  (∀ k (s : slot), slots !! k = Some s → s.2 ≠ None → k ≤ 9) →
  length slots ≤ length (missing run 0 slots) + 10.
Proof.
  intros H9. pose proof (missing_length run 0 slots).
  assert (filter (λ s : slot, s.2 ≠ None) slots = filter (λ s : slot, s.2 ≠ None) (take 10 slots)) as Heq.
  { rewrite <-(take_drop 10 slots) at 1. rewrite filter_app.
    rewrite <-(app_nil_r (filter _ (take 10 slots))) at 2. f_equal.
    apply filter_none, Forall_forall. intros s [k Hk]%list_elem_of_lookup Hs.
    rewrite lookup_drop in Hk. specialize (H9 _ _ Hk Hs). lia. }
  rewrite Heq in H. pose proof (length_filter (λ s : slot, s.2 ≠ None) (take 10 slots)).
  rewrite length_take in *. lia.
Qed.

(** C34: a run with more than ten templates never completes: whatever Tests are
    listed, every status it writes is Running, and every reconciliation that
    succeeds creates a Test for each template past the tenth. *)
Theorem isRunning_never_completes run items :
  10 < length (trs_Tests (run_Spec run)) →
  wp env (isRunning ErrRequeueDelay run items) (λ t o,
    Forall (λ w : TestRun * TestRun * bool, run_Phase (run_Status w.1.2) = TestRunRunning)
      (status_writes KTestRun t) ∧
    (o = Done (noResult, None) →
       length (trs_Tests (run_Spec run)) ≤ length (created KTest t) + 10)).
Proof.
  intros Hlen. apply isRunning_slots. intros t o [Ht Ho].
  assert (status_writes KTestRun t = [] ∧ created KTest t = []) as [Hw Hc].
  { split; [|by eapply created_cleanup].
    clear -Ht. induction Ht as [|[[] r] t He _ IH]; [done|..]; unfold is_cleanup in He; simpl in *; done. }
  destruct o as [[res|r]|p]; [..|by rewrite Hw].
  - rewrite Hw. split; [constructor|]. intros [= ->]. by destruct Ho as [_ []].
  - intros slots t' res Hfst H9 Hor.
    pose proof (missing_past_ten run slots H9) as Hm.
    rewrite <-Hfst, length_fmap in *.
    rewrite created_app, status_writes_app, Hw, Hc. simpl.
    destruct Hor as [(_ & -> & _ & Hne)|(-> & new & ok & -> & Hph)].
    + split; [constructor|]. intros [= ->]. by destruct Hne.
    + split; [|lia]. constructor; [|constructor]. simpl. rewrite Hph.
      apply (verdict_missing run 0). intros Hnil. rewrite Hnil in Hm. simpl in Hm. lia.
Qed.

(** C31: a run that is being deleted keeps its finalizer while any Test is
    listed: all Tests are cleaned up, in order, whatever errors occur, and the
    run itself is patched only when none is left. *)
Theorem run_finalize_order run items :
  wp env (finalize ErrRequeueDelay run items) (returns (λ t res,
    match items with
    | [] => ∃ r, removeFinalizer_out (k:=KTestRun) env TestRunControllerFinalizer run t r ∧
        (r.1.2 = None → res = (noResult, None)) ∧
        (r.1.2 ≠ None → res = (requeue ErrRequeueDelay, r.1.2))
    | _ => ∃ rounds,
        Forall2 (λ o rd, cleanUp_out (k:=KTest) env TestRunControllerFinalizer o rd.1 rd.2) items rounds ∧
        t = concat (fst <$> rounds) ∧
        (Forall (λ rd, rd.2.1.2 = None) rounds → res = (noResult, None)) ∧
        (¬ Forall (λ rd, rd.2.1.2 = None) rounds → res.1 = requeue ErrRequeueDelay ∧ res.2 ≠ None)
    end)).
Proof.
  unfold finalize. destruct items as [|x items].
  - simpl. eapply wp_use_returns; [apply (removeFinalizer_wp (k:=KTestRun))|].
    intros t [[pt err] o] Hout. destruct err as [e|]; simpl;
      [exists ((pt, Some e), o)|exists ((pt, None), o)]; rewrite app_nil_r; (split; [exact Hout|]); split; by intros.
  - rewrite bool_decide_eq_true_2 by (simpl; lia). set (items' := x :: items).
    eapply wp_use_returns; [apply cleanUpAll_wp; [apply GetObjects_NoDup|apply GetObjects_lt]|].
    intros t [[m err] o] (errs & Hout & Herr). simpl in Herr.
    destruct Hout as (Hlen & _ & rounds & Hr & -> & _ & Herrs). simpl in *.
    apply (cleanUp_rounds_items (k:=KTest)) in Hr as [Hr _]; [|done].
    pose proof (round_errors rounds) as Hnone. rewrite <-Herrs in Hnone.
    rewrite <-ErrorList_Error_None, <-Herr in Hnone.
    destruct err as [e|]; simpl; rewrite app_nil_r; exists rounds; (split_and!; [done|done|..]);
      rewrite <-Hnone; by intros.
Qed.

(** The events that delete the Test [o]. *)
Definition deletes_test (o : Test) (e : event) : Prop := ev_call e = CDelete KTest o.

(** The retention policy of a completed run: a policy that retains its
    Tests exchanges nothing, and one that does not deletes every Test that is
    not being deleted yet, whatever errors occur. *)
Theorem run_isComplete_retention run items :
  wp env (isComplete ErrRequeueDelay run items) (returns (λ t res,
    if dropsTests (trs_RetentionPolicy (run_Spec run)) (run_Phase (run_Status run))
    then Forall (λ o, is_deleted (k:=KTest) o = true ∨ Exists (deletes_test o) t) items ∧
      (res = (noResult, None) ∨ res.1 = requeue ErrRequeueDelay ∧ res.2 ≠ None)
    else t = [] ∧ res = (noResult, None))).
Proof.
  unfold isComplete. destruct (dropsTests _ _); [|done].
  eapply wp_use_returns; [apply cleanUpAll_wp; [apply GetObjects_NoDup|apply GetObjects_lt]|].
  intros t [[m err] o] (errs & (Hlen & _ & rounds & Hr & -> & _) & _). simpl in *.
  apply (cleanUp_rounds_items (k:=KTest)) in Hr as [Hr _]; [|done].
  assert (Forall (λ o, is_deleted (k:=KTest) o = true ∨ Exists (deletes_test o) (concat (fst <$> rounds))) items).
  { exact (cleanUp_rounds_delete (k:=KTest) (env:=env) TestRunControllerFinalizer items rounds Hr). }
  destruct err as [e|]; simpl; rewrite app_nil_r; (split; [done|]); [by right|by left].
Qed.

End behaviour.
