(* ===== verification/TestSuiteController.v ===== *)
(** [src/controllers/testsuite_controller.go]: the controller that starts the
    runs of a TestSuite: by hand, on a Helm release, or on a schedule.

    [Reconcile] puts the suite and its runs in order, and hands over to
    [notRunning], which decides whether to trigger a run, or to [isRunning],
    which creates the run and waits for it. Nearly every error is answered by
    a requeue without an error ([later]). *)

From S2P Require Import Prelude.
From S2P Require Import GoLib.
From S2P Require Import Api.
From S2P Require Import Effects.
From S2P Require Import Helpers.
From S2P Require Import PruneDeleted.
From S2P Require TestRunController.

(** * Constants *)

Definition testRunIndexKey : string := ".metadata.controller".
Definition TestSuiteControllerFinalizer : string := GroupName +:+ "/testsuite-controller".
Definition TestSuiteScheduleAnnotation : string := GroupName +:+ "/active-schedule".
Definition TestSuiteLastHelmReleaseAnnotation : string := GroupName +:+ "/last-helm-release".
Definition TestSuiteHelmTriggerLabel : string := GroupName +:+ "/helm-trigger".
Definition TestSuiteNeedsRunCondition : string := "NeedsRun".
Definition TestSuiteRunStartedCondition : string := "RunStarted".
Definition TestSuiteHasScheduleCondition : string := "HasSchedule".
Definition TestSuiteErrorCondition : string := "HasError".

(** * Updates of a TestSuite *)

Definition set_suite_Phase (p : TestSuitePhase) (s : TestSuite) : TestSuite :=
  set_suite_Status (mkTestSuiteStatus (suite_Conditions (suite_Status s)) p
    (CurrentTestRun (suite_Status s)) (NextRun (suite_Status s))) s.

Definition set_suite_CurrentTestRun (n : string) (s : TestSuite) : TestSuite :=
  set_suite_Status (mkTestSuiteStatus (suite_Conditions (suite_Status s))
    (suite_Phase (suite_Status s)) n (NextRun (suite_Status s))) s.

Definition set_suite_NextRun (n : option Z) (s : TestSuite) : TestSuite :=
  set_suite_Status (mkTestSuiteStatus (suite_Conditions (suite_Status s))
    (suite_Phase (suite_Status s)) (CurrentTestRun (suite_Status s)) n) s.

Definition set_suite_Annotations (an : gomap) (s : TestSuite) : TestSuite :=
  set_suite_ObjectMeta (set_Annotations an (suite_ObjectMeta s)) s.

Definition set_suite_Labels (ls : gomap) (s : TestSuite) : TestSuite :=
  set_suite_ObjectMeta (set_Labels ls (suite_ObjectMeta s)) s.

(** [if m == nil { m = make(map[string]string) }] *)
Definition make_if_nil (m : gomap) : gomap :=
  match m with None => Some ∅ | Some _ => m end.

(** [m[k] = v], in a program. *)
Definition assign {R} (m : gomap) (k v : string) : fn R gomap :=
  match map_set m k v with
  | Some m => next m
  | None => Panic NilMapWrite
  end.

(** [cron.Schedule]: the next activation after a time. *)
Definition Schedule_ := Z → Z.

(** [schedule.Next(t)]: [schedule] may be a nil interface. *)
Definition schedule_Next {R} (schedule : option Schedule_) (t : Z) : fn R Z :=
  match schedule with
  | Some s => next (s t)
  | None => Panic NilDereference
  end.

(** What triggered a run, and the suite its patch is computed from. *)
Record testSuiteTrigger := mkTrigger {
  Reason : string;
  Message : string;
  Patch : TestSuite }.

(** [testRuns.Items[i].CreationTimestamp.Before(&testRuns.Items[j].CreationTimestamp)] *)
Definition older (x y : TestRun) : bool :=
  bool_decide (CreationTimestamp (run_ObjectMeta x) < CreationTimestamp (run_ObjectMeta y))%Z.

Section controller.
Context `{AM : !ApiMachinery} `{SS : !SortSlice}.

(** The fields of [TestSuiteReconciler] that are not in [Effects], and the
    library functions behind [computeTestRunHash]. *)
Context (ErrRequeueDelay : Z).
Context (CronParser : string → error + Schedule_).
Context (spew_Fprintf : TestRunSpec → string) (rand_SafeEncodeString : string → string).

Definition set_suite_Condition (c : Condition) (s : TestSuite) : TestSuite :=
  set_suite_Status (mkTestSuiteStatus (SetStatusCondition (suite_Conditions (suite_Status s)) c)
    (suite_Phase (suite_Status s)) (CurrentTestRun (suite_Status s)) (NextRun (suite_Status s))) s.

(** [ctrl.Result{RequeueAfter: r.ErrRequeueDelay}, nil] *)
Definition later : Result * option error := (mkResult false ErrRequeueDelay, None).

Definition labels_of (s : TestSuite) : list string :=
  [Namespace (suite_ObjectMeta s); Name (suite_ObjectMeta s)].

(** A patch of the suite whose error is answered with [later]. *)
Definition patch_or_later (orig s : TestSuite) : fn (Result * option error) TestSuite :=
  let! '(err, s) := lift (client_Patch (k:=KTestSuite) s orig) in
  match err with
  | Some _ => return_ later
  | None => next s
  end.

Definition status_or_later (orig s : TestSuite) : fn (Result * option error) TestSuite :=
  let! '(err, s) := lift (Status_Patch (k:=KTestSuite) s orig) in
  match err with
  | Some _ => return_ later
  | None => next s
  end.

(** * Reconcile: the steps before the phases *)

(** The branch for a TestSuite that is being deleted. *)
Definition finalize (suite : TestSuite) (runs : list TestRun) : prog (Result * option error) :=
  if bool_decide (0 < length runs) then
    let* '((_, err), _) :=
      cleanUpAll (k:=KTestRun) TestSuiteControllerFinalizer (GetObjects (k:=KTestRun) runs) runs in
    match err with
    | Some _ => Ret later
    | None => Ret (noResult, None)
    end
  else
    let* '((_, err), _) := cleanUp (k:=KTestSuite) TestSuiteControllerFinalizer suite in
    match err with
    | Some _ => Ret later
    | None => Ret (noResult, None)
    end.

Definition ensureFinalizer (suite : TestSuite) : fn (Result * option error) TestSuite :=
  let! '((_, err), suite) :=
    lift (addFinalizer (k:=KTestSuite) TestSuiteControllerFinalizer suite) in
  match err with
  | Some _ => return_ later
  | None => next suite
  end.

(** "Handle changes to scheduling" *)
Definition handleSchedule (suite : TestSuite) : fn (Result * option error) TestSuite :=
  let sched := Schedule (When (suite_Spec suite)) in
  if sched != "" then
    if sched != map_get (Annotations (suite_ObjectMeta suite)) TestSuiteScheduleAnnotation then
      match NextRun (suite_Status suite) with
      | Some _ =>
          let orig := suite in
          let suite := set_suite_NextRun None suite in
          let! '(err, suite) := lift (Status_Patch (k:=KTestSuite) suite orig) in
          next suite
      | None => next suite
      end
    else next suite
  else
    let orig := suite in
    let '(_, ok) := map_get_ok (Annotations (suite_ObjectMeta suite)) TestSuiteScheduleAnnotation in
    let! suite :=
      if (ok : bool) then
        let suite := set_suite_Annotations
          (map_delete (Annotations (suite_ObjectMeta suite)) TestSuiteScheduleAnnotation) suite in
        patch_or_later orig suite
      else next suite in
    let suite := set_suite_NextRun None suite in
    let suite := set_suite_Condition (mkCondition TestSuiteHasScheduleCondition ConditionFalse
      (Generation (suite_ObjectMeta suite)) "ScheduleNotDefined" "schedule is not defined") suite in
    status_or_later orig suite.

(** "Handle changes to Helm triggers" *)
Definition helmLabel (suite : TestSuite) : string :=
  let release := HelmRelease (When (suite_Spec suite)) in
  if bool_decide (strings_Index release "." = -1)%Z
  then Namespace (suite_ObjectMeta suite) +:+ "." +:+ release else release.

Definition handleHelmTrigger (suite : TestSuite) : fn (Result * option error) TestSuite :=
  if HelmRelease (When (suite_Spec suite)) != "" then
    let release := helmLabel suite in
    if map_get (Labels (suite_ObjectMeta suite)) TestSuiteHelmTriggerLabel != release then
      let orig := suite in
      let! labels := assign (make_if_nil (Labels (suite_ObjectMeta suite)))
                       TestSuiteHelmTriggerLabel release in
      let suite := set_suite_Labels labels suite in
      let suite := set_suite_Annotations
        (map_delete (Annotations (suite_ObjectMeta suite)) "TestSuiteLastHelmReleaseAnnotation")
        suite in
      let! '(err, suite) := lift (client_Patch (k:=KTestSuite) suite orig) in
      next suite
    else next suite
  else next suite.

(** The block that handles deleted runs. *)
Definition pruneRuns (runs : list TestRun) : fn (Result * option error) (list TestRun) :=
  let! r := lift (pruneDeleted (k:=KTestRun) TestSuiteControllerFinalizer runs) in
  match r with
  | inl _ => return_ later
  | inr runs => next runs
  end.

(** The loop that makes the suite Running when some run is not complete. *)
Fixpoint followRuns (runs : list TestRun) (suite : TestSuite) :
    fn (Result * option error) TestSuite :=
  match runs with
  | [] => next suite
  | run :: runs =>
      if negb (TestRunPhase_IsFinal (run_Phase (run_Status run))) then
        let orig := suite in
        let suite := set_suite_Phase TestSuiteRunning suite in
        let suite := set_suite_CurrentTestRun (Name (run_ObjectMeta run)) suite in
        let! suite := status_or_later orig suite in
        followRuns runs suite
      else followRuns runs suite
  end.

(** "Ensure the correct phase" *)
Definition ensurePhase (suite : TestSuite) (runs : list TestRun) :
    fn (Result * option error) TestSuite :=
  if negb (TestSuitePhase_IsRunning (suite_Phase (suite_Status suite))) then
    let! suite := followRuns runs suite in
    if suite_Phase (suite_Status suite) == "" then
      let orig := suite in
      let suite := set_suite_Phase TestSuitePending suite in
      status_or_later orig suite
    else next suite
  else next suite.

(** * notRunning *)

Definition ensureReady (suite : TestSuite) : fn (Result * option error) TestSuite :=
  if suite_Phase (suite_Status suite) == TestSuitePending then
    let orig := suite in
    let suite := set_suite_Phase TestSuiteReady suite in
    status_or_later orig suite
  else next suite.

(** [int(testSuite.Spec.HistoryLimit)] *)
Definition historyLimit (suite : TestSuite) : nat := Byte.to_nat (HistoryLimit (suite_Spec suite)).

(** "Enforce historyLimit" *)
Definition enforceHistoryLimit (suite : TestSuite) (runs : list TestRun) :
    fn (Result * option error) (list TestRun) :=
  let l := length runs in
  let m := historyLimit suite in
  if bool_decide (m < l) then
    let offset := l - m in
    let! '((_, err), runs) := lift (cleanUpAll (k:=KTestRun) TestSuiteControllerFinalizer
      (take offset (GetObjects (k:=KTestRun) runs)) runs) in
    match err with
    | Some _ => return_ later
    | None => next (drop offset runs)
    end
  else next runs.

(** "Ensure active schedule is set" *)
Definition activateSchedule (suite : TestSuite) :
    fn (Result * option error) (TestSuite * option Schedule_) :=
  let when := Schedule (When (suite_Spec suite)) in
  if when != "" then
    let! suite :=
      if map_get (Annotations (suite_ObjectMeta suite)) TestSuiteScheduleAnnotation != when then
        let orig := suite in
        let! annotations := assign (make_if_nil (Annotations (suite_ObjectMeta suite)))
          TestSuiteScheduleAnnotation (Schedule (When (suite_Spec suite))) in
        let suite := set_suite_Annotations annotations suite in
        patch_or_later orig suite
      else next suite in
    let orig := suite in
    match CronParser when with
    | inr sched =>
        let schedule := Some sched in
        match NextRun (suite_Status suite) with
        | None =>
            let! now := lift Clock_Now in
            let! next_ := schedule_Next schedule now in
            let suite := set_suite_NextRun (Some next_) suite in
            let suite := set_suite_Condition (mkCondition TestSuiteHasScheduleCondition
              ConditionTrue (Generation (suite_ObjectMeta suite)) "ScheduleSet"
              "schedule is set") suite in
            let! suite := status_or_later orig suite in
            next (suite, schedule)
        | Some _ => next (suite, schedule)
        end
    | inl _ =>
        let suite := set_suite_NextRun None suite in
        let suite := set_suite_Condition (mkCondition TestSuiteHasScheduleCondition
          ConditionFalse (Generation (suite_ObjectMeta suite)) "InvalidSchedule"
          "schedule is not a valid cron value") suite in
        let! '(err, suite) := lift (Status_Patch (k:=KTestSuite) suite orig) in
        next (suite, None)
    end
  else next (suite, None).

(** [types.Separator] *)
Definition Separator : string := "/".

(** The release a suite names, and whether it is in another namespace. *)
Definition releaseOf (suite : TestSuite) : NamespacedName * bool :=
  let releaseName := HelmRelease (When (suite_Spec suite)) in
  let pos := strings_Index releaseName Separator in
  if bool_decide (pos ≠ -1)%Z && bool_decide (pos < len releaseName - 1)%Z then
    (mkNamespacedName (slice releaseName 0 pos) (slice releaseName (pos + 1) (len releaseName)), true)
  else (mkNamespacedName (Namespace (suite_ObjectMeta suite)) releaseName, false).

(** Whether a release of another namespace is exported to the suite's. *)
Definition exported (suite : TestSuite) (release : NamespacedName) :
    fn (Result * option error) bool :=
  let! r := lift (client_Get KHelmPolicy release) in
  match r with
  | inr policy =>
      next (slices_Contains (ExportTo (policy_Spec policy)) (Namespace (suite_ObjectMeta suite)))
  | inl e =>
      match IgnoreNotFound (Some e) with
      | Some _ => return_ later
      | None => next false
      end
  end.

(** The body of the loop over the releases: the one of the higher version. *)
Definition newer (current : option HelmReleaseMeta) (secret : Secret) : option HelmReleaseMeta :=
  match ParseHelmReleaseSecret (Some secret) with
  | (Some parsed, true) =>
      match current with
      | None => Some parsed
      | Some c => if bool_decide (hrm_Version c < hrm_Version parsed)%Z then Some parsed else current
      end
  | _ => current
  end.

Definition latestRelease (items : list Secret) : option HelmReleaseMeta :=
  fold_left newer items None.

(** "Determine the current Helm release" *)
Definition currentHelmRelease (suite : TestSuite) :
    fn (Result * option error) (option HelmReleaseMeta) :=
  if HelmRelease (When (suite_Spec suite)) != "" then
    let '(release, foreign) := releaseOf suite in
    let! ok := if (foreign : bool) then exported suite release else next true in
    if (ok : bool) then
      let! r := lift (client_List KSecret
        [InNamespace (nn_Namespace release);
         MatchingLabels [("owner", "Helm"); ("name", nn_Name release); ("status", "deployed")]]) in
      match r with
      | inl _ => return_ later
      | inr items => next (latestRelease items)
      end
    else next None
  else next None.

(** [case testSuite.Trigger.NeedsRun] *)
Definition manualTrigger (suite : TestSuite) :
    fn (Result * option error) (testSuiteTrigger * TestSuite) :=
  let trigger := mkTrigger "Manual" "Test suite was manually triggered" suite in
  let suite := set_suite_Trigger (mkTestSuiteTrigger false) suite in
  let! suite := patch_or_later (Patch trigger) suite in
  next (trigger, suite).

Definition isNewRelease (suite : TestSuite) (release : HelmReleaseMeta) : bool :=
  hrm_VersionString release !=
    map_get (Annotations (suite_ObjectMeta suite)) TestSuiteLastHelmReleaseAnnotation.

(** [case currentHelmRelase != nil && ...]: the annotation is set to what the
    annotations hold under the version, not to the version. *)
Definition helmTrigger (suite : TestSuite) (release : HelmReleaseMeta) :
    fn (Result * option error) (testSuiteTrigger * TestSuite) :=
  let trigger := mkTrigger "Helm" "Test suite was triggered by a Helm release" suite in
  let annotations := make_if_nil (Annotations (suite_ObjectMeta suite)) in
  let! annotations := assign annotations TestSuiteLastHelmReleaseAnnotation
    (map_get annotations (hrm_VersionString release)) in
  let suite := set_suite_Annotations annotations suite in
  let! suite := patch_or_later (Patch trigger) suite in
  next (trigger, suite).

(** [case testSuite.Status.NextRun != nil]: waits for the next run, skips one
    that was missed by more than ten seconds, or triggers it. *)
Definition scheduleTrigger (suite : TestSuite) (nextRun : Z) (schedule : option Schedule_) :
    fn (Result * option error) (testSuiteTrigger * TestSuite) :=
  let! now := lift Clock_Now in
  let until := time.Sub nextRun now in
  if bool_decide (0 < until)%Z then return_ (mkResult false until, None)
  else if bool_decide (until < -10 * time.Second)%Z then
    let orig := suite in
    let! now := lift Clock_Now in
    let! next_ := schedule_Next schedule now in
    let suite := set_suite_NextRun (Some next_) suite in
    let! suite := status_or_later orig suite in
    let! now := lift Clock_Now in
    return_ (mkResult false (time.Sub next_ now), None)
  else
    next (mkTrigger "Scheduled"
      ("test run triggered by schedule '" +:+ Schedule (When (suite_Spec suite)) +:+ "'") suite, suite).

(** [switch { ... }]: the first case that applies. *)
Definition determineTrigger (suite : TestSuite) (release : option HelmReleaseMeta)
    (schedule : option Schedule_) : fn (Result * option error) (testSuiteTrigger * TestSuite) :=
  if NeedsRun (suite_Trigger suite) then manualTrigger suite
  else
    match release with
    | Some release =>
        if isNewRelease suite release then helmTrigger suite release
        else
          match NextRun (suite_Status suite) with
          | Some nextRun => scheduleTrigger suite nextRun schedule
          | None => return_ (noResult, None)
          end
    | None =>
        match NextRun (suite_Status suite) with
        | Some nextRun => scheduleTrigger suite nextRun schedule
        | None => return_ (noResult, None)
        end
    end.

(** "Trigger the test run" *)
Definition triggeredStatus (trigger : testSuiteTrigger) (suite : TestSuite) : TestSuite :=
  let suite := set_suite_Phase TestSuiteRunning suite in
  let suite := set_suite_CurrentTestRun "" suite in
  set_suite_Condition (mkCondition TestSuiteNeedsRunCondition ConditionTrue
    (Generation (suite_ObjectMeta suite)) (Reason trigger) (Message trigger)) suite.

Definition startRun (trigger : testSuiteTrigger) (suite : TestSuite) :
    fn (Result * option error) (Result * option error) :=
  let suite := triggeredStatus trigger suite in
  let! suite := status_or_later (Patch trigger) suite in
  let! _ := lift (Recorder_Event (k:=KTestSuite) suite "Normal" "TestSuiteTriggered"
    (Message trigger)) in
  return_ (noResult, None).

(** The part of [notRunning] from the switch on. *)
Definition triggerRun (suite : TestSuite) (release : option HelmReleaseMeta)
    (schedule : option Schedule_) : prog (Result * option error) :=
  func (
    let! '(trigger, suite) := determineTrigger suite release schedule in
    startRun trigger suite).

Definition notRunning (suite : TestSuite) (runs : list TestRun) : prog (Result * option error) :=
  func (
    let! suite := ensureReady suite in
    let! runs := enforceHistoryLimit suite runs in
    let! '(suite, schedule) := activateSchedule suite in
    let! release := currentHelmRelease suite in
    lift (triggerRun suite release schedule)).

(** * isRunning *)

(** The loop that looks for the current run by its name. *)
Fixpoint findRun (name : string) (runs : list TestRun) : option TestRun :=
  match runs with
  | [] => None
  | run :: runs => if Name (run_ObjectMeta run) == name then Some run else findRun name runs
  end.

(** The run of a suite: its template, owned by the suite. *)
Definition runFor (suite : TestSuite) : TestRun :=
  let meta := suite_ObjectMeta suite in
  let template := suite_Template (suite_Spec suite) in
  mkTestRun (mkTypeMeta "" "")
    (mkObjectMeta "" (Name meta +:+ "-") (Namespace meta) "" 0 0 None None
      (Some {[ GroupName +:+ "/template" :=
         computeTestRunHash spew_Fprintf rand_SafeEncodeString template ]})
      [mkOwnerReference (APIVersion (suite_TypeMeta suite)) (Kind (suite_TypeMeta suite))
         (Name meta) (UID meta) (Some true) (Some true)]
      [TestSuiteControllerFinalizer])
    (mkTestRunSpec (trs_RetentionPolicy template) (trs_Tests template))
    (mkTestRunStatus [] "" "" []).

(** The status of a suite whose run was created. *)
Definition startedRun (suite : TestSuite) (run : TestRun) : TestSuite :=
  let name := Name (run_ObjectMeta run) in
  let suite := set_suite_CurrentTestRun name suite in
  let message := "created test run " +:+ name in
  let gen := Generation (suite_ObjectMeta suite) in
  let suite := set_suite_Condition (mkCondition TestSuiteNeedsRunCondition ConditionFalse gen
    "TestRunStarted" message) suite in
  set_suite_Condition (mkCondition TestSuiteRunStartedCondition ConditionTrue gen
    "TestRunStarted" message) suite.

Definition createRun (suite : TestSuite) : fn (Result * option error) (Result * option error) :=
  let! '(err, run) := lift (client_Create (k:=KTestRun) (runFor suite)) in
  match err with
  | Some _ => return_ later
  | None =>
      let! _ := lift (Recorder_Event (k:=KTestSuite) suite "Normal" "StartedTestRun"
        ("Created test run " +:+ Name (run_ObjectMeta run))) in
      let orig := suite in
      let suite := startedRun suite run in
      let! suite := status_or_later orig suite in
      return_ (noResult, None)
  end.

(** The status of a suite whose run is complete. *)
Definition finishedRun (suite : TestSuite) (run : TestRun) : TestSuite :=
  let suite := set_suite_Phase TestSuiteReady suite in
  let suite := set_suite_CurrentTestRun "" suite in
  set_suite_Condition (mkCondition TestSuiteRunStartedCondition ConditionFalse
    (Generation (suite_ObjectMeta suite)) "TestRunCompleted"
    ("test run " +:+ Name (run_ObjectMeta run) +:+ " completed")) suite.

(** "Handle finished test runs" *)
Definition finishRun (suite : TestSuite) (run : TestRun) :
    fn (Result * option error) (Result * option error) :=
  let phase := run_Phase (run_Status run) in
  if (phase == TestRunPassed) || (phase == TestRunFailed) then
    let orig := suite in
    let suite := finishedRun suite run in
    let! suite := status_or_later orig suite in
    let! _ := lift (Metric (Inc suiteRuns (labels_of suite))) in
    if phase == TestRunPassed then
      let! _ := lift (Metric (SetGauge suitePassing (labels_of suite) 1)) in
      let! _ := lift (Metric (SetGauge suiteFailing (labels_of suite) 0)) in
      let! _ := lift (Recorder_Event (k:=KTestSuite) suite "Normal" "TestRunPassed"
        ("test run " +:+ Name (run_ObjectMeta run) +:+ " passed")) in
      next (noResult, None)
    else
      let! _ := lift (Metric (SetGauge suiteFailing (labels_of suite) 1)) in
      let! _ := lift (Metric (SetGauge suitePassing (labels_of suite) 0)) in
      let! _ := lift (Recorder_Event (k:=KTestSuite) suite "Warning" "TestRunFailed"
        ("test run " +:+ Name (run_ObjectMeta run) +:+ " failed")) in
      next (noResult, None)
  else next (noResult, None).

Definition isRunning (suite : TestSuite) (runs : list TestRun) : prog (Result * option error) :=
  func (
    let name := CurrentTestRun (suite_Status suite) in
    if name != "" then
      match findRun name runs with
      | None => return_ (mkResult true 0, Some (errors_New "current test run is missing"))
      | Some currentRun => finishRun suite currentRun
      end
    else createRun suite).

(** * Reconcile *)

Definition initMetrics (suite : TestSuite) : prog unit :=
  let* _ := Metric (WithLabelValues suiteRuns (labels_of suite)) in
  let* _ := Metric (WithLabelValues suitePassing (labels_of suite)) in
  Metric (WithLabelValues suiteFailing (labels_of suite)).

Definition Reconcile (req : Request) : prog (Result * option error) :=
  func (
    let! r := lift (client_Get KTestSuite req) in
    match r with
    | inl e =>
        match IgnoreNotFound (Some e) with
        | None => return_ (noResult, None)
        | Some _ => return_ later
        end
    | inr suite =>
        let! _ := lift (initMetrics suite) in
        let! r := lift (client_List KTestRun
          [InNamespace (nn_Namespace req); MatchingFields TestRunController.testIndexKey (nn_Name req)]) in
        match r with
        | inl _ => return_ later
        | inr runs =>
            if is_deleted (k:=KTestSuite) suite then lift (finalize suite runs)
            else
              let! suite := ensureFinalizer suite in
              let! suite := handleSchedule suite in
              let! suite := handleHelmTrigger suite in
              let! runs := pruneRuns runs in
              let runs := sort_Slice older runs in
              let! suite := ensurePhase suite runs in
              if TestSuitePhase_IsRunning (suite_Phase (suite_Status suite))
              then lift (isRunning suite runs)
              else lift (notRunning suite runs)
        end
    end).

(** * SetupWithManager *)

(** The function that indexes runs by the TestSuite that controls them. *)
Definition testRunIndexer (run : TestRun) : list string :=
  match GetControllerOf (run_ObjectMeta run) with
  | None => []
  | Some owner =>
      if (or_APIVersion owner == GroupVersion_String) && (or_Kind owner == "TestSuite")
      then [or_Name owner] else []
  end.

(** The function that indexes Secrets by their type. *)
Definition secretTypeIndexer (secret : Secret) : list string :=
  if secret_Type secret != "" then [secret_Type secret] else [].

End controller.

(** * Safety of the whole controller *)

(** The phase changes the controller may write, besides leaving the phase. *)
Inductive suite_step : TestSuitePhase → TestSuitePhase → Prop :=
| suite_same p : suite_step p p
| suite_pending : suite_step "" TestSuitePending
| suite_ready : suite_step TestSuitePending TestSuiteReady
| suite_run p : suite_step p TestSuiteRunning
| suite_done : suite_step TestSuiteRunning TestSuiteReady.

(** What the controller may exchange: it deletes and patches runs, creates
    the run of a suite, patches suites, and moves the phase of a suite along
    [suite_step]. *)
Definition suite_event (spew : TestRunSpec → string) (enc : string → string) (e : event) : Prop :=
  match ev_call e with
  | CGet k _ => k = KTestSuite ∨ k = KHelmPolicy
  | CList k opts =>
      (k = KTestRun ∧ ∃ req : Request, opts =
         [InNamespace (nn_Namespace req); MatchingFields TestRunController.testIndexKey (nn_Name req)]) ∨
      (k = KSecret ∧ ∃ ns labels, opts = [InNamespace ns; MatchingLabels labels])
  | CCreate k o =>
      match k return obj k → Prop with
      | KTestRun => λ o, ∃ suite, o = runFor spew enc suite
      | _ => λ _, False
      end o
  | CDelete k _ => k = KTestRun ∨ k = KTestSuite
  | CPatch k _ _ => k = KTestRun ∨ k = KTestSuite
  | CStatusPatch k orig new =>
      match k return obj k → obj k → Prop with
      | KTestSuite => λ orig new,
          suite_step (suite_Phase (suite_Status orig)) (suite_Phase (suite_Status new))
      | _ => λ _ _, False
      end orig new
  | CEvent k _ _ _ _ => k = KTestSuite
  | CMetric _ => True
  | CNow => True
  | CEnqueue _ => False
  end.

(** A world whose server keeps to itself what a metadata patch does not touch:
    the suite it returns has the phase of the one it was sent. *)
Definition keeps_phase : world := λ c,
  match c return reply c → Prop with
  | CPatch k _ new =>
      match k return obj k → error + obj k → Prop with
      | KTestSuite => λ new r, ∀ o, r = inr o →
          suite_Phase (suite_Status o) = suite_Phase (suite_Status new)
      | _ => λ _ _, True
      end new
  | _ => λ _, True
  end.

Section safety.
Context `{AM : !ApiMachinery} `{SS : !SortSlice}.
Context (ErrRequeueDelay : Z) (CronParser : string → error + Schedule_).
Context (spew : TestRunSpec → string) (enc : string → string).
Implicit Types (suite : TestSuite) (runs : list TestRun).

Abbreviation ok := (guarded NilDereference (suite_event spew enc)).
Abbreviation okQ := (λ A, @guarded A NilDereference (suite_event spew enc)).

Lemma is_cleanup_suite_event k e :
  k = KTestRun ∨ k = KTestSuite → is_cleanup k e → suite_event spew enc e.
Proof.
  intros Hk. destruct e as [[] r]; unfold is_cleanup, suite_event; simpl; try done; by intros ->.
Qed.

Lemma cleanup_run_suite_event e : is_cleanup KTestRun e → suite_event spew enc e.
Proof. apply is_cleanup_suite_event. by left. Qed.

Lemma cleanup_suite_suite_event e : is_cleanup KTestSuite e → suite_event spew enc e.
Proof. apply is_cleanup_suite_event. by right. Qed.

Section any_world.
Context {env : world}.

Lemma cleanUp_suite_safe f suite : wp env (cleanUp (k:=KTestSuite) f suite) (safe (suite_event spew enc)).
Proof. apply cleanUp_safe, cleanup_suite_suite_event. Qed.

Lemma addFinalizer_suite_safe f suite :
  wp env (addFinalizer (k:=KTestSuite) f suite) (safe (suite_event spew enc)).
Proof. apply addFinalizer_safe, cleanup_suite_suite_event. Qed.

Lemma cleanUpAll_suite_safe f runs n :
  wp env (cleanUpAll (k:=KTestRun) f (take n (GetObjects (k:=KTestRun) runs)) runs)
    (safe (suite_event spew enc)).
Proof.
  apply cleanUpAll_safe;
    [apply cleanup_run_suite_event|apply take_GetObjects_NoDup|apply take_GetObjects_lt].
Qed.

Lemma cleanUpAll_suite_safe' f runs :
  wp env (cleanUpAll (k:=KTestRun) f (GetObjects (k:=KTestRun) runs) runs)
    (safe (suite_event spew enc)).
Proof.
  pose proof (cleanUpAll_suite_safe f runs (length runs)) as H.
  rewrite take_ge in H; [done|]. unfold GetObjects. by rewrite length_seq.
Qed.

Lemma pruneRuns_safe runs : wp env (pruneRuns ErrRequeueDelay runs) (safe (suite_event spew enc)).
Proof.
  assert (wp env (pruneDeleted (k:=KTestRun) TestSuiteControllerFinalizer runs)
    (safe (suite_event spew enc))).
  { apply pruneDeleted_safe. intros [[] r] He; try done. by left. }
  unfold pruneRuns. wp_safe.
Qed.

Lemma suite_finalize_safe suite runs :
  wp env (finalize ErrRequeueDelay suite runs) (safe (suite_event spew enc)).
Proof.
  pose proof cleanUp_suite_safe. pose proof cleanUpAll_suite_safe'.
  unfold finalize. wp_safe.
Qed.

Lemma initMetrics_safe suite : wp env (initMetrics suite) (safe (suite_event spew enc)).
Proof. unfold initMetrics. wp_safe. Qed.

Lemma suite_ensureFinalizer_safe suite :
  wp env (ensureFinalizer ErrRequeueDelay suite) (safe (suite_event spew enc)).
Proof. pose proof addFinalizer_suite_safe. unfold ensureFinalizer. wp_safe. Qed.

(** Assigning to a map that was just made never panics. *)
Lemma assign_make {R} m k v :
  assign (R:=R) (make_if_nil m) k v = next (Some (<[k:=v]> (default ∅ m))).
Proof. by destruct m. Qed.

Lemma status_or_later_safe orig suite :
  suite_step (suite_Phase (suite_Status orig)) (suite_Phase (suite_Status suite)) →
  wp env (status_or_later ErrRequeueDelay orig suite) (safe (suite_event spew enc)).
Proof. intros Hs. unfold status_or_later. wp_safe. Qed.

Lemma patch_or_later_safe orig suite :
  wp env (patch_or_later ErrRequeueDelay orig suite) (safe (suite_event spew enc)).
Proof. unfold patch_or_later. wp_safe. by right. Qed.

Lemma handleHelmTrigger_safe suite :
  wp env (handleHelmTrigger suite) (safe (suite_event spew enc)).
Proof.
  unfold handleHelmTrigger. rewrite assign_make. wp_safe. by right.
Qed.

Lemma followRuns_safe runs suite :
  wp env (followRuns ErrRequeueDelay runs suite) (safe (suite_event spew enc)).
Proof.
  revert suite. induction runs as [|run runs IH]; intros suite; cbn [followRuns]; [wp_safe|].
  assert (∀ suite s, wp env (status_or_later ErrRequeueDelay suite
    (set_suite_CurrentTestRun s (set_suite_Phase TestSuiteRunning suite)))
    (safe (suite_event spew enc))) as Hs
    by (intros; apply status_or_later_safe; constructor).
  wp_safe.
Qed.

Lemma suite_ensurePhase_safe suite runs :
  wp env (ensurePhase ErrRequeueDelay suite runs) (safe (suite_event spew enc)).
Proof.
  pose proof followRuns_safe. unfold ensurePhase. wp_safe.
  apply status_or_later_safe. apply eqb_true in Heqb0. simpl. rewrite Heqb0. constructor.
Qed.

Lemma suite_isRunning_safe suite runs :
  suite_Phase (suite_Status suite) = TestSuiteRunning →
  wp env (isRunning ErrRequeueDelay spew enc suite runs) (safe (suite_event spew enc)).
Proof.
  intros Hph. unfold isRunning.
  assert (∀ run, wp env (status_or_later ErrRequeueDelay suite (finishedRun suite run))
    (safe (suite_event spew enc)))
    by (intros; apply status_or_later_safe; simpl; rewrite Hph; constructor).
  assert (∀ run, wp env (status_or_later ErrRequeueDelay suite (startedRun suite run))
    (safe (suite_event spew enc)))
    by (intros; apply status_or_later_safe; simpl; constructor).
  unfold finishRun, createRun. wp_safe. by exists suite.
Qed.

Lemma ensureReady_safe suite : wp env (ensureReady ErrRequeueDelay suite) (safe (suite_event spew enc)).
Proof.
  unfold ensureReady. wp_safe. apply status_or_later_safe.
  apply eqb_true in Heqb. simpl. rewrite Heqb. constructor.
Qed.

Lemma enforceHistoryLimit_safe suite runs :
  wp env (enforceHistoryLimit ErrRequeueDelay suite runs) (safe (suite_event spew enc)).
Proof. pose proof cleanUpAll_suite_safe. unfold enforceHistoryLimit. wp_safe. Qed.

Lemma activateSchedule_safe suite :
  wp env (activateSchedule ErrRequeueDelay CronParser suite) (safe (suite_event spew enc)).
Proof.
  pose proof patch_or_later_safe.
  assert (∀ suite n c, wp env (status_or_later ErrRequeueDelay suite
    (set_suite_Condition c (set_suite_NextRun n suite))) (safe (suite_event spew enc)))
    by (intros; apply status_or_later_safe; constructor).
  unfold activateSchedule, schedule_Next. rewrite assign_make. wp_safe. constructor.
Qed.

Lemma currentHelmRelease_safe suite :
  wp env (currentHelmRelease ErrRequeueDelay suite) (safe (suite_event spew enc)).
Proof.
  unfold currentHelmRelease, exported. wp_safe; right; [done|split; [done|by eexists _, _]..].
Qed.

Lemma manualTrigger_safe suite :
  wp env (manualTrigger ErrRequeueDelay suite) (safe (suite_event spew enc)).
Proof. pose proof patch_or_later_safe. unfold manualTrigger. wp_safe. Qed.

Lemma helmTrigger_safe suite release :
  wp env (helmTrigger ErrRequeueDelay suite release) (safe (suite_event spew enc)).
Proof. pose proof patch_or_later_safe. unfold helmTrigger. rewrite assign_make. wp_safe. Qed.

(** Only a next run without a schedule panics. *)
Lemma scheduleTrigger_safe suite n sched :
  wp env (scheduleTrigger ErrRequeueDelay suite n (Some sched)) (safe (suite_event spew enc)).
Proof.
  assert (∀ suite n, wp env (status_or_later ErrRequeueDelay suite (set_suite_NextRun n suite))
    (safe (suite_event spew enc))) by (intros; apply status_or_later_safe; constructor).
  unfold scheduleTrigger, schedule_Next. wp_safe.
Qed.

Lemma scheduleTrigger_guarded suite n schedule :
  wp env (scheduleTrigger ErrRequeueDelay suite n schedule) ok.
Proof.
  destruct schedule as [sched|]; [apply guarded_safe, scheduleTrigger_safe|].
  unfold scheduleTrigger, schedule_Next. wp_safe.
  apply guarded_safe, status_or_later_safe. constructor.
Qed.

Lemma determineTrigger_safe suite release schedule :
  (NextRun (suite_Status suite) ≠ None → schedule ≠ None) →
  wp env (determineTrigger ErrRequeueDelay suite release schedule) (safe (suite_event spew enc)).
Proof.
  intros Hs. pose proof manualTrigger_safe. pose proof helmTrigger_safe.
  assert (∀ n, NextRun (suite_Status suite) = Some n → wp env
    (scheduleTrigger ErrRequeueDelay suite n schedule) (safe (suite_event spew enc))) as Hn.
  { intros n Hn. destruct schedule as [sched|]; [apply scheduleTrigger_safe|].
    by destruct Hs; rewrite ?Hn. }
  unfold determineTrigger. wp_safe; by apply Hn.
Qed.

Lemma determineTrigger_guarded suite release schedule :
  wp env (determineTrigger ErrRequeueDelay suite release schedule) ok.
Proof.
  pose proof manualTrigger_safe. pose proof helmTrigger_safe. pose proof scheduleTrigger_guarded.
  unfold determineTrigger. wp_safe.
Qed.

Lemma startRun_safe trigger suite :
  wp env (startRun ErrRequeueDelay trigger suite) (safe (suite_event spew enc)).
Proof.
  assert (wp env (status_or_later ErrRequeueDelay (Patch trigger) (triggeredStatus trigger suite))
    (safe (suite_event spew enc))) by (apply status_or_later_safe; constructor).
  unfold startRun. wp_safe.
Qed.

Lemma triggerRun_guarded suite release schedule :
  wp env (triggerRun ErrRequeueDelay suite release schedule) ok.
Proof.
  pose proof determineTrigger_guarded. pose proof startRun_safe. unfold triggerRun. wp_safe.
Qed.

Lemma triggerRun_safe suite release schedule :
  (NextRun (suite_Status suite) ≠ None → schedule ≠ None) →
  wp env (triggerRun ErrRequeueDelay suite release schedule) (safe (suite_event spew enc)).
Proof.
  intros Hs. pose proof (determineTrigger_safe suite release schedule Hs).
  pose proof startRun_safe. unfold triggerRun. wp_safe.
Qed.

Lemma notRunning_guarded suite runs :
  wp env (notRunning ErrRequeueDelay CronParser suite runs) ok.
Proof.
  pose proof ensureReady_safe. pose proof enforceHistoryLimit_safe.
  pose proof activateSchedule_safe. pose proof currentHelmRelease_safe.
  pose proof triggerRun_guarded. unfold notRunning. wp_safe.
Qed.

End any_world.

Lemma handleSchedule_safe suite :
  wp keeps_phase (handleSchedule ErrRequeueDelay suite) (safe (suite_event spew enc)).
Proof.
  unfold handleSchedule. destruct (_ != _); [wp_safe; constructor|].
  destruct (map_get_ok _ _) as [? []]; unfold bind_fn at 1.
  - unfold patch_or_later, client_Patch, bind_fn, lift. cbn [bind updating]. intros r Hr.
    destruct r as [e|suite']; cbn [bind updating wp return_ next].
    + constructor; [by right|constructor].
    + simpl in Hr. specialize (Hr suite' eq_refl).
      eapply wp_mono; [|apply status_or_later_safe; simpl; rewrite Hr; constructor].
      intros t [o|p]; [|done]. intros Ht. constructor; [by right|exact Ht].
  - cbn [bind next]. apply status_or_later_safe. constructor.
Qed.

Lemma suite_Reconcile_events req :
  wp keeps_phase (Reconcile ErrRequeueDelay CronParser spew enc req) ok.
Proof.
  pose proof (suite_finalize_safe (env:=keeps_phase)). pose proof (initMetrics_safe (env:=keeps_phase)).
  pose proof (suite_ensureFinalizer_safe (env:=keeps_phase)). pose proof handleSchedule_safe.
  pose proof (handleHelmTrigger_safe (env:=keeps_phase)).
  pose proof (pruneRuns_safe (env:=keeps_phase)). pose proof (suite_ensurePhase_safe (env:=keeps_phase)).
  pose proof (notRunning_guarded (env:=keeps_phase)).
  unfold Reconcile. wp_safe.
  - by left.
  - left. split; [done|]. by exists req.
  - apply guarded_safe, suite_isRunning_safe. by apply eqb_true.
Qed.

(** C15: whatever the API server answers, as long as it does not change the
    phase with the metadata, reconciling a TestSuite writes only to its own
    kinds of objects, creates no run but the suite's own, and moves the phase
    along [suite_step]. The only panic is a nil schedule. *)
Theorem suite_Reconcile_guarded req :
  wp keeps_phase (Reconcile ErrRequeueDelay CronParser spew enc req) ok.
Proof. apply suite_Reconcile_events. Qed.

End safety.

(** * The next run and its schedule *)

Abbreviation sched_of suite := (Schedule (When (suite_Spec suite))).
Abbreviation next_of suite := (NextRun (suite_Status suite)).

(** A world whose server does not make up a schedule or a next run: a suite it
    returns has the schedule it was sent, a status patch that clears the next
    run leaves it cleared, and a metadata patch of a suite with neither
    returns neither. *)
Definition keeps_schedule : world := λ c,
  match c return reply c → Prop with
  | CPatch k _ new =>
      match k return obj k → error + obj k → Prop with
      | KTestSuite => λ new r, ∀ o, r = inr o → sched_of o = sched_of new ∧
          (sched_of new = "" → next_of new = None → next_of o = None)
      | _ => λ _ _, True
      end new
  | CStatusPatch k _ new =>
      match k return obj k → error + obj k → Prop with
      | KTestSuite => λ new r, ∀ o, r = inr o → sched_of o = sched_of new ∧
          (next_of new = None → next_of o = None)
      | _ => λ _ _, True
      end new
  | _ => λ _, True
  end.

Section schedule.
Context `{AM : !ApiMachinery} `{SS : !SortSlice}.
Context (ErrRequeueDelay : Z) (CronParser : string → error + Schedule_).
Context (spew : TestRunSpec → string) (enc : string → string).
Implicit Types (suite : TestSuite) (runs : list TestRun).

(** A suite without a schedule has no next run. *)
Definition unscheduled suite : Prop := sched_of suite = "" → next_of suite = None.

(** [suite'] has the schedule of [suite], and no next run of its own. *)
Definition preserves suite suite' : Prop :=
  sched_of suite' = sched_of suite ∧ (sched_of suite = "" → next_of suite = None → next_of suite' = None).

Lemma preserves_unscheduled suite suite' :
  preserves suite suite' → unscheduled suite → unscheduled suite'.
Proof. intros [H1 H2] Hu He. rewrite H1 in He. auto. Qed.

Lemma preserves_trans s1 s2 s3 : preserves s1 s2 → preserves s2 s3 → preserves s1 s3.
Proof. intros [H1 H2] [H3 H4]. split; [congruence|]. intros He Hn. apply H4; [congruence|auto]. Qed.

Lemma preserves_refl suite : preserves suite suite.
Proof. by split. Qed.

Lemma status_or_later_keeps orig suite :
  wp keeps_schedule (status_or_later ErrRequeueDelay orig suite) (yields (λ suite',
    sched_of suite' = sched_of suite ∧ (next_of suite = None → next_of suite' = None))).
Proof. intros [e|o] Hr; [done|]. exact (Hr o eq_refl). Qed.

Lemma status_or_later_preserves orig suite :
  wp keeps_schedule (status_or_later ErrRequeueDelay orig suite) (yields (preserves suite)).
Proof.
  eapply wp_mono; [|apply status_or_later_keeps].
  intros t [[r|s]|p]; [done| |done]. intros [H1 H2]. by split; [|auto].
Qed.

Lemma patch_or_later_preserves orig suite :
  wp keeps_schedule (patch_or_later ErrRequeueDelay orig suite) (yields (preserves suite)).
Proof. intros [e|o] Hr; [done|]. exact (Hr o eq_refl). Qed.

(** A change of a suite that keeps its schedule and its next run. *)
Lemma yields_preserves (m : fn (Result * option error) TestSuite) suite suite0 :
  sched_of suite0 = sched_of suite → next_of suite0 = next_of suite →
  wp keeps_schedule m (yields (preserves suite0)) → wp keeps_schedule m (yields (preserves suite)).
Proof.
  intros H1 H2. apply wp_mono. intros t [[r|s]|p]; [done| |done].
  unfold yields, returns, preserves. by rewrite H1, H2.
Qed.

Lemma handleSchedule_unscheduled suite :
  wp keeps_schedule (handleSchedule ErrRequeueDelay suite) (yields unscheduled).
Proof.
  unfold handleSchedule. case_bool_decide as Hs; simpl.
  - destruct (map_get_ok _ _) as [v ok].
    eapply (wp_yields_bind (λ s, sched_of s = "")).
    + destruct ok; [|done]. intros [e|o] Hr; [done|]. destruct (Hr o eq_refl) as [H _].
      simpl. rewrite H. done.
    + intros s Hs'. eapply wp_mono; [|apply status_or_later_keeps].
      intros t [[r|s']|p]; [done| |done]. intros [_ Hn] _. by apply Hn.
  - destruct (_ != _); [|by intros ?].
    destruct (next_of suite); [|by intros ?].
    intros [e|o] Hr; [done|]. destruct (Hr o eq_refl) as [H1 H2]. intros He. by apply H2.
Qed.

Lemma handleHelmTrigger_preserves suite :
  wp keeps_schedule (handleHelmTrigger suite) (yields (preserves suite)).
Proof.
  unfold handleHelmTrigger. destruct (_ != _); [|apply preserves_refl].
  destruct (_ != _); [|apply preserves_refl].
  rewrite assign_make. intros [e|o] Hr; [by split|]. exact (Hr o eq_refl).
Qed.

Lemma followRuns_preserves runs suite :
  wp keeps_schedule (followRuns ErrRequeueDelay runs suite) (yields (preserves suite)).
Proof.
  revert suite. induction runs as [|run runs IH]; intros suite; cbn [followRuns];
    [apply preserves_refl|].
  destruct (negb _); [|apply IH].
  eapply wp_yields_bind; [apply status_or_later_preserves|]. intros s Hs.
  eapply wp_mono; [|apply IH]. intros t [[r|s']|p]; [done| |done].
  intros Hs'. eapply preserves_trans; [|exact Hs']. exact Hs.
Qed.

Lemma ensurePhase_preserves runs suite :
  wp keeps_schedule (ensurePhase ErrRequeueDelay suite runs) (yields (preserves suite)).
Proof.
  unfold ensurePhase. destruct (negb _); [|apply preserves_refl].
  eapply wp_yields_bind; [apply followRuns_preserves|]. intros s Hs.
  destruct (_ == _); [|exact Hs].
  eapply wp_mono; [|apply status_or_later_preserves]. intros t [[r|s']|p]; [done| |done].
  intros Hs'. eapply preserves_trans; [exact Hs|exact Hs'].
Qed.

Lemma ensureReady_preserves suite :
  wp keeps_schedule (ensureReady ErrRequeueDelay suite) (yields (preserves suite)).
Proof.
  unfold ensureReady. destruct (_ == _); [|apply preserves_refl].
  eapply (yields_preserves _ suite (set_suite_Phase TestSuiteReady suite)); [done..|].
  apply status_or_later_preserves.
Qed.

(** After [activateSchedule] a next run comes with its schedule. *)
Lemma activateSchedule_scheduled suite :
  unscheduled suite →
  wp keeps_schedule (activateSchedule ErrRequeueDelay CronParser suite) (yields (λ '(s, sched),
    next_of s ≠ None → sched ≠ None)).
Proof.
  intros Hu. unfold activateSchedule. case_bool_decide as Hw; simpl; [by rewrite Hu|].
  eapply (wp_yields_bind (λ _, True)).
  - destruct (negb _); [|done]. rewrite assign_make. intros [e|o] _; done.
  - intros s _. destruct (CronParser _) as [e|sched].
    + intros [e'|o] Hr; [by intros []|]. destruct (Hr o eq_refl) as [_ Hn].
      simpl. by rewrite Hn.
    + destruct (next_of s); [done|]. intros now _. intros [e|o] _; done.
Qed.

Lemma notRunning_returns suite runs :
  unscheduled suite →
  wp keeps_schedule (notRunning ErrRequeueDelay CronParser suite runs) (returns (λ _ _, True)).
Proof.
  intros Hu. apply wp_yields_func.
  eapply wp_yields_bind; [apply ensureReady_preserves|].
  intros s1 Hs1. eapply wp_yields_bind;
    [eapply wp_yields_true, (enforceHistoryLimit_safe ErrRequeueDelay spew enc)|].
  intros runs' _. eapply wp_yields_bind; [apply activateSchedule_scheduled|].
  { by eapply preserves_unscheduled. }
  intros [s2 sched] Hsched. eapply wp_yields_bind;
    [eapply wp_yields_true, (currentHelmRelease_safe ErrRequeueDelay spew enc)|].
  intros release _.
  eapply wp_yields_true, (wp_comp_lift (Q:=λ A, @safe A (suite_event spew enc))).
  by apply triggerRun_safe.
Qed.

(** C16: reconciling a TestSuite does not panic, as long as the server does not
    make up a schedule or a next run: [schedule] is not nil where the next run
    is computed. *)
Theorem suite_Reconcile_no_panic req :
  wp keeps_schedule (Reconcile ErrRequeueDelay CronParser spew enc req) (returns (λ _ _, True)).
Proof.
  apply wp_yields_func. apply (wp_yields_lift (λ _, True)); [done|]. intros [e|suite] _.
  { by destruct (IgnoreNotFound _). }
  apply (wp_yields_lift (λ _, True)); [done|]. intros _ _.
  apply (wp_yields_lift (λ _, True)); [done|]. intros [e|runs] _; [done|].
  destruct (is_deleted _).
  { eapply wp_yields_true, (wp_comp_lift (Q:=λ A, @safe A (suite_event spew enc))), suite_finalize_safe. }
  eapply wp_yields_bind; [eapply wp_yields_true, (suite_ensureFinalizer_safe ErrRequeueDelay spew enc)|].
  intros s1 _. eapply wp_yields_bind; [apply handleSchedule_unscheduled|].
  intros s2 Hs2. eapply wp_yields_bind; [apply handleHelmTrigger_preserves|].
  intros s3 Hs3. eapply wp_yields_bind; [eapply wp_yields_true, (pruneRuns_safe ErrRequeueDelay spew enc)|].
  intros runs' _. eapply wp_yields_bind; [apply ensurePhase_preserves|].
  intros s4 Hs4. destruct (TestSuitePhase_IsRunning _) eqn:Hph.
  - eapply wp_yields_true, (wp_comp_lift (Q:=λ A, @safe A (suite_event spew enc))), suite_isRunning_safe.
    by apply eqb_true.
  - apply wp_bind. eapply wp_mono; [|apply notRunning_returns].
    + by intros t [r|p].
    + by eapply preserves_unscheduled, preserves_unscheduled.
Qed.

End schedule.

(** * What triggers a run *)

(** The decision [notRunning] makes, on the time it reads from the clock. *)
Inductive TriggerDecision :=
| Triggered (reason : string)
| Missed
| Wait (until : Z)
| Idle.

Definition schedule_decision (next : option Z) (now : Z) : TriggerDecision :=
  match next with
  | None => Idle
  | Some next =>
      if bool_decide (now < next)%Z then Wait (Z.min maxInt64 (next - now))
      else if bool_decide (next + 10 * time.Second < now)%Z then Missed
      else Triggered "Scheduled"
  end.

Definition decision (suite : TestSuite) (release : option HelmReleaseMeta) (now : Z) : TriggerDecision :=
  if NeedsRun (suite_Trigger suite) then Triggered "Manual"
  else if (if release is Some r then isNewRelease suite r else false) then Triggered "Helm"
  else schedule_decision (NextRun (suite_Status suite)) now.

(** A status write that starts a run: the suite is Running with no current run
    yet, its manual trigger is reset, and the condition names the reason. *)
Definition starts_run (reason : string) (suite new : TestSuite) : Prop :=
  suite_Phase (suite_Status new) = TestSuiteRunning ∧
  CurrentTestRun (suite_Status new) = "" ∧
  NeedsRun (suite_Trigger new) = false ∧
  ∃ c, getCondition TestSuiteNeedsRunCondition (suite_Conditions (suite_Status new)) = (Some c, true) ∧
    cond_Status c = ConditionTrue ∧ cond_Reason c = reason ∧
    cond_ObservedGeneration c = Generation (suite_ObjectMeta suite).

(** What a decision looks like to the rest of the world. *)
Definition decided (suite : TestSuite) (sched : Schedule_) (t : list event)
    (res : Result * option error) (d : TriggerDecision) : Prop :=
  match d with
  | Triggered reason => res = (noResult, None) ∧
      ∃ new, status_writes KTestSuite t = [(suite, new, true)] ∧ starts_run reason suite new
  | Missed => ∃ now' now'', tl (times t) = [now'; now''] ∧
      status_writes KTestSuite t = [(suite, set_suite_NextRun (Some (sched now')) suite, true)] ∧
      res = (mkResult false (time.Sub (sched now') now''), None)
  | Wait d => status_writes KTestSuite t = [] ∧ res = (mkResult false d, None)
  | Idle => t = [] ∧ res = (noResult, None)
  end.

Section triggers.
Context `{AM : !ApiMachinery} `{SS : !SortSlice}.
Context (ErrRequeueDelay : Z) (CronParser : string → error + Schedule_).
Implicit Types (suite : TestSuite) (runs : list TestRun).

(** The classification of the time until the next run is exact, although
    [Sub] saturates. *)
Lemma time_Sub_pos t u : (0 < time.Sub t u)%Z ↔ (u < t)%Z.
Proof. unfold time.Sub, minInt64, maxInt64. lia. Qed.

Lemma time_Sub_missed t u : (time.Sub t u < -10 * time.Second)%Z ↔ (t + 10 * time.Second < u)%Z.
Proof. unfold time.Sub, minInt64, maxInt64, time.Second. lia. Qed.

Lemma starts_run_triggered reason msg orig suite new0 :
  NeedsRun (suite_Trigger new0) = false →
  Generation (suite_ObjectMeta new0) = Generation (suite_ObjectMeta suite) →
  starts_run reason suite (triggeredStatus (mkTrigger reason msg orig) new0).
Proof.
  intros Hn Hg. split_and!; [done..|].
  eexists. split; [|split; [|split]].
  - simpl. rewrite getCondition_SetStatusCondition. by rewrite decide_True.
  - done.
  - done.
  - done.
Qed.

Lemma scheduled_wp suite sched :
  NeedsRun (suite_Trigger suite) = false →
  wp reliable (func (let! '(trigger, suite) :=
      match NextRun (suite_Status suite) with
      | Some nextRun => scheduleTrigger ErrRequeueDelay suite nextRun (Some sched)
      | None => return_ (noResult, None)
      end in startRun ErrRequeueDelay trigger suite)) (returns (λ t res,
    decided suite sched t res (schedule_decision (NextRun (suite_Status suite)) (hd 0%Z (times t))))).
Proof.
  intros Hneeds. destruct (NextRun (suite_Status suite)) as [next|]; [|done].
  intros now _. simpl. destruct (decide (now < next)%Z) as [Hlt|Hge].
  - rewrite bool_decide_eq_true_2 by (by apply time_Sub_pos). simpl.
    rewrite bool_decide_eq_true_2 by done. split; [done|].
    unfold time.Sub, minInt64, maxInt64. do 2 f_equal. lia.
  - rewrite bool_decide_eq_false_2 by (by rewrite time_Sub_pos).
    destruct (decide (next + 10 * time.Second < now)%Z) as [Hmiss|Hnot].
    + rewrite bool_decide_eq_true_2 by (by apply time_Sub_missed).
      intros now' _ r ->%reliable_status now'' _. simpl.
      rewrite bool_decide_eq_false_2, bool_decide_eq_true_2 by done. by exists now', now''.
    + rewrite bool_decide_eq_false_2 by (by rewrite time_Sub_missed).
      intros r ->%reliable_status [] _. simpl. rewrite !bool_decide_eq_false_2 by done.
      split; [done|]. eexists. split; [done|]. by apply starts_run_triggered.
Qed.

(** C8: what a suite that is not running does, when its writes succeed, is the
    decision: a manual trigger wins over a new Helm release, and that over the
    schedule; a triggered run is started by one status write that names the
    reason; a next run missed by more than ten seconds is skipped and
    rescheduled; otherwise nothing is written, and a next run ahead is waited
    for. *)
Theorem triggerRun_decides suite release sched :
  wp reliable (triggerRun ErrRequeueDelay suite release (Some sched)) (returns (λ t res,
    decided suite sched t res (decision suite release (hd 0%Z (times t))))).
Proof.
  unfold triggerRun, determineTrigger, decision.
  destruct (NeedsRun (suite_Trigger suite)) eqn:Hneeds.
  { intros r ->%reliable_patch r' ->%reliable_status [] _. split; [done|].
    eexists. split; [done|]. by apply starts_run_triggered. }
  destruct release as [r|]; [destruct (isNewRelease suite r)|]; [|by apply scheduled_wp..].
  unfold helmTrigger. rewrite assign_make.
  intros r' ->%reliable_patch r'' ->%reliable_status [] _. split; [done|].
  eexists. split; [done|]. by apply starts_run_triggered.
Qed.

End triggers.

(** * Runs and their history *)

(** The status writes of a suite's run that is complete. *)
Definition finishes_run (suite new : TestSuite) : Prop :=
  suite_Phase (suite_Status new) = TestSuiteReady ∧ CurrentTestRun (suite_Status new) = "" ∧
  NextRun (suite_Status new) = NextRun (suite_Status suite) ∧
  new = set_suite_Status (suite_Status new) suite.

Section runs.
Context `{AM : !ApiMachinery} `{SS : !SortSlice} {env : world}.
Context (ErrRequeueDelay : Z) (CronParser : string → error + Schedule_).
Context (spew : TestRunSpec → string) (enc : string → string).
Implicit Types (suite : TestSuite) (runs : list TestRun).

Lemma findRun_list_find name runs :
  findRun name runs = snd <$> list_find (λ r, Name (run_ObjectMeta r) = name) runs.
Proof.
  induction runs as [|r runs IH]; [done|]. cbn [findRun list_find].
  case_bool_decide; case_decide; [done..|]. rewrite IH. by destruct (list_find _ runs) as [[]|].
Qed.

(** C26: a Running suite without a current run creates exactly one, its own,
    and records its name; until that is recorded, nothing else is written. *)
Theorem suite_isRunning_creates suite runs :
  CurrentTestRun (suite_Status suite) = "" →
  wp env (isRunning ErrRequeueDelay spew enc suite runs) (returns (λ t res,
    created KTestRun t = [runFor spew enc suite] ∧
    (status_writes KTestSuite t = [] ∧ res = later ErrRequeueDelay ∨
     ∃ run new ok, In (Ev (CCreate KTestRun (runFor spew enc suite)) (inr run)) t ∧
       status_writes KTestSuite t = [(suite, new, ok)] ∧
       CurrentTestRun (suite_Status new) = Name (run_ObjectMeta run) ∧
       suite_Phase (suite_Status new) = suite_Phase (suite_Status suite) ∧
       res = (if ok : bool then (noResult, None) else later ErrRequeueDelay)))).
Proof.
  intros Hcur. unfold isRunning. rewrite Hcur. simpl.
  intros [e|run] _; [by split; [|left]|]. intros [] _.
  intros [e|new] _; (split; [done|]); right; eexists run, _, _; (split; [by left|done]).
Qed.

(** C25: a Running suite waits for its current run: nothing is exchanged while
    the run is not complete, or is missing (an error, to retry at once). When
    it is complete the suite becomes Ready with one status write, and exactly
    when that succeeds the run is counted and the two gauges are set to the
    result. *)
Theorem suite_isRunning_finishes suite runs :
  CurrentTestRun (suite_Status suite) ≠ "" →
  wp env (isRunning ErrRequeueDelay spew enc suite runs) (returns (λ t res,
    match list_find (λ r, Name (run_ObjectMeta r) = CurrentTestRun (suite_Status suite)) runs with
    | None => t = [] ∧ res = (mkResult true 0, Some (errors_New "current test run is missing"))
    | Some (_, run) =>
        let phase := run_Phase (run_Status run) in
        if TestRunPhase_IsFinal phase then
          ∃ new ok, status_writes KTestSuite t = [(suite, new, ok)] ∧ finishes_run suite new ∧
            (ok = true → res = (noResult, None) ∧ counted t = [suiteRuns] ∧
               gauges t ≡ₚ if bool_decide (phase = TestRunPassed)
                           then [(suitePassing, 1%Z); (suiteFailing, 0%Z)]
                           else [(suitePassing, 0%Z); (suiteFailing, 1%Z)]) ∧
            (ok = false → res = later ErrRequeueDelay ∧ counted t = [] ∧ gauges t = [])
        else t = [] ∧ res = (noResult, None)
    end)).
Proof.
  intros Hcur. unfold isRunning. rewrite bool_decide_eq_false_2 by done. simpl.
  rewrite findRun_list_find. destruct (list_find _ runs) as [[i run]|]; simpl; [|done].
  unfold finishRun, TestRunPhase_IsFinal.
  destruct (bool_decide (run_Phase _ = TestRunPassed)) eqn:Hp; simpl.
  - intros [e|new] _; [simpl; eexists _, _; by split_and!|].
    intros [] _ [] _ [] _ [] _. simpl. eexists _, _. split_and!; try done.
  - destruct (bool_decide (run_Phase _ = TestRunFailed)); simpl; [|done].
    intros [e|new] _; [simpl; eexists _, _; by split_and!|].
    intros [] _ [] _ [] _ [] _. simpl. eexists _, _. split_and!; try done.
    intros _. split_and!; try done. apply Permutation_swap.
Qed.

Definition no_younger (x y : TestRun) : Prop :=
  (CreationTimestamp (run_ObjectMeta x) ≤ CreationTimestamp (run_ObjectMeta y))%Z.

(** The runs are in order of their creation after [sort.Slice]. *)
Lemma sort_older_sorted runs : StronglySorted no_younger (sort_Slice older runs).
Proof.
  apply Sorted_StronglySorted; [unfold no_younger; intros x y z; lia|].
  assert (Sorted (λ x y, older y x = false) (sort_Slice older runs)) as Hs.
  { apply sort_Slice_Sorted; unfold older.
    - intros x y z ?%bool_decide_eq_false ?%bool_decide_eq_false. apply bool_decide_eq_false. lia.
    - intros x y ?%bool_decide_eq_true. apply bool_decide_eq_false. lia. }
  induction Hs as [|x l Hl IH Hhd]; constructor; [done|].
  destruct Hhd as [|y l Hy]; constructor. unfold older in Hy. apply bool_decide_eq_false in Hy.
  unfold no_younger. lia.
Qed.

(** C24: the history limit: of the runs, sorted by age, at most [historyLimit]
    are kept, and those cleaned up, each once, are the oldest ones. *)
Theorem enforceHistoryLimit_oldest suite runs :
  wp env (enforceHistoryLimit ErrRequeueDelay suite (sort_Slice older runs)) (returns (λ t r,
    ∃ old kept rounds, old ++ kept ≡ₚ runs ∧
      length kept = length runs `min` historyLimit suite ∧
      (∀ x y, x ∈ old → y ∈ kept → no_younger x y) ∧
      Forall2 (λ o rd, cleanUp_out (k:=KTestRun) env TestSuiteControllerFinalizer o rd.1 rd.2) old rounds ∧
      t = concat (fst <$> rounds) ∧
      (r = inr kept ∨ r = inl (later ErrRequeueDelay) ∧ ¬ Forall (λ rd, rd.2.1.2 = None) rounds))).
Proof.
  pose proof (sort_Slice_Permutation older runs) as Hperm.
  pose proof (sort_older_sorted runs) as Hsorted.
  set (sorted := sort_Slice older runs) in *.
  pose proof (Permutation_length Hperm) as Hlen.
  unfold enforceHistoryLimit. case_bool_decide as Hm.
  - apply wp_lift_bind_fn. eapply wp_mono;
      [|apply cleanUpAll_wp; [apply take_GetObjects_NoDup|apply take_GetObjects_lt]].
    intros t [[[m err] items']|?]; [|done]. intros (errs & Hout & Herr). simpl in Herr.
    destruct Hout as (Hlen' & Hother & rounds & Hr & -> & _ & Herrs). simpl in *.
    set (n := length sorted - historyLimit suite) in *.
    apply (cleanUp_rounds_take (k:=KTestRun)) in Hr.
    assert (drop n items' = drop n sorted) as Hdrop.
    { apply list_eq. intros i. rewrite !lookup_drop. apply Hother.
      intros (j & Hj & Hjn)%elem_of_take. apply lookup_seq in Hj as [Hj _]. lia. }
    pose proof (round_errors rounds) as Hnone. rewrite <-Herrs in Hnone.
    rewrite <-ErrorList_Error_None, <-Herr in Hnone.
    assert (∀ r, r = inr (drop n sorted) ∨ r = inl (later ErrRequeueDelay) ∧
        ¬ Forall (λ rd, rd.2.1.2 = None) rounds →
      ∃ old kept rounds0, old ++ kept ≡ₚ runs ∧
      length kept = length runs `min` historyLimit suite ∧
      (∀ x y, x ∈ old → y ∈ kept → no_younger x y) ∧
      Forall2 (λ o rd, cleanUp_out (k:=KTestRun) env TestSuiteControllerFinalizer o rd.1 rd.2) old rounds0 ∧
      concat (fst <$> rounds) = concat (fst <$> rounds0) ∧
      (r = inr kept ∨ r = inl (later ErrRequeueDelay) ∧
         ¬ Forall (λ rd, rd.2.1.2 = None) rounds0)) as Hfinal.
    { intros r Hor. exists (take n sorted), (drop n sorted), rounds.
      split_and!; [by rewrite take_drop|rewrite length_drop; lia| |done|done|done].
      intros x y. rewrite <-(take_drop n sorted) in Hsorted.
      by apply StronglySorted_app_1_elem_of. }
    destruct err as [e|]; simpl; rewrite app_nil_r; apply Hfinal; rewrite <-Hnone;
      [by right|left]. by rewrite Hdrop.
  - exists [], sorted, []. split_and!; [done|lia|by intros ? ? ?%elem_of_nil|constructor|done|by left].
Qed.

End runs.

(** * Helm releases *)

Definition dot : Ascii.ascii := Ascii.Ascii false true true true false true false false.
Definition slash : Ascii.ascii := Ascii.Ascii true true true true false true false false.

(** The two ways to name a release. *)
Lemma releaseOf_slash suite ns name :
  HelmRelease (When (suite_Spec suite)) = ns +:+ String slash name → name ≠ "" →
  str_mem slash ns = false → releaseOf suite = (mkNamespacedName ns name, true).
Proof.
  intros Hr Hname Hns. unfold releaseOf. rewrite Hr. change Separator with (String slash "").
  rewrite strings_Index_app by done.
  assert (len (ns +:+ String slash name) = len ns + 1 + len name)%Z as Hlen.
  { change (String slash name) with (String slash "" +:+ name).
    rewrite !len_app. change (len (String slash "")) with 1%Z. lia. }
  assert (1 ≤ len name)%Z by (destruct name; [done|unfold len; simpl; lia]).
  assert (0 ≤ len ns)%Z by (unfold len; lia).
  rewrite Hlen, !bool_decide_eq_true_2 by lia. simpl. do 2 f_equal.
  - rewrite <-(str_app_nil_l (ns +:+ _)).
    apply (slice_app "" ns); [done|]. change (len "") with 0%Z. lia.
  - rewrite <-(str_app_nil_r (ns +:+ _)).
    change (String slash name) with (String slash "" +:+ name).
    replace ((ns +:+ String slash "" +:+ name) +:+ "")
      with ((ns +:+ String slash "") +:+ name +:+ "") by (by rewrite !str_app_assoc).
    apply slice_app; rewrite ?len_app;
      change (len (String slash "")) with 1%Z; lia.
Qed.

Section helm.
Context `{AM : !ApiMachinery} {env : world}.
Context (ErrRequeueDelay : Z).
Implicit Types (suite : TestSuite).

(** [q] is the latest of the releases [P]. *)
Definition latest (P : HelmReleaseMeta → Prop) (q : option HelmReleaseMeta) : Prop :=
  (∀ p, P p → ∃ q', q = Some q' ∧ (hrm_Version p ≤ hrm_Version q')%Z) ∧
  (∀ q', q = Some q' → P q').

Lemma newer_latest P current s :
  latest P current →
  latest (λ p, P p ∨ ParseHelmReleaseSecret (Some s) = (Some p, true)) (newer current s).
Proof.
  intros [H1 H2]. unfold newer.
  destruct (ParseHelmReleaseSecret (Some s)) as [[r|] []];
    try (split; [intros p [Hp|?]; [auto|congruence]|auto]).
  destruct current as [c|]; [case_bool_decide|]; split;
    try (intros p [Hp|?]; [destruct (H1 p Hp) as (q & ? & ?)|]; simplify_eq; eexists; (split; [done|lia]));
    intros q ?; simplify_eq; auto.
Qed.

Lemma latestRelease_fold items P current :
  latest P current →
  latest (λ p, P p ∨ ∃ s, s ∈ items ∧ ParseHelmReleaseSecret (Some s) = (Some p, true))
    (fold_left newer items current).
Proof.
  assert (∀ (P P' : HelmReleaseMeta → Prop) q, (∀ p, P p ↔ P' p) → latest P q → latest P' q) as Hext.
  { intros P0 P' q Hp [H1 H2]. split; [intros p ?%Hp; auto|]. intros q' ?%H2. by apply Hp. }
  revert P current. induction items as [|s items IH]; intros P current H; simpl.
  - eapply Hext; [|exact H]. intros p. split; [by left|]. by intros [?|(s & ?%elem_of_nil & _)].
  - eapply Hext; [|by apply IH, newer_latest]. intros p. simpl. split.
    + intros [[?|?]|(x & ? & ?)]; [by left|right; exists s; by split; [left|]|].
      right. exists x. by split; [right|].
    + intros [?|(x & [->|?]%elem_of_cons & ?)]; [by left; left|by left; right|right; eauto].
Qed.

(** The current release is one of the listed releases that parse, of a
    version no other one exceeds; there is none exactly when none parses. *)
Theorem latestRelease_max items :
  match latestRelease items with
  | Some q => (∃ s, s ∈ items ∧ ParseHelmReleaseSecret (Some s) = (Some q, true)) ∧
      ∀ s p, s ∈ items → ParseHelmReleaseSecret (Some s) = (Some p, true) →
        (hrm_Version p ≤ hrm_Version q)%Z
  | None => ∀ s p, s ∈ items → ParseHelmReleaseSecret (Some s) ≠ (Some p, true)
  end.
Proof.
  destruct (latestRelease_fold items (λ _, False) None) as [H1 H2]; [done|].
  fold (latestRelease items) in H1, H2. destruct (latestRelease items) as [q|].
  - split; [by destruct (H2 q eq_refl)|]. intros s p Hs Hp.
    destruct (H1 p) as (q' & [= ->] & ?); [right; eauto|done].
  - intros s p Hs Hp. destruct (H1 p) as (q' & ? & _); [right; eauto|done].
Qed.

(** A release of another namespace is only looked up when its HelmPolicy
    lists the suite's namespace literally; no entry stands for all namespaces. *)
Theorem exported_literally suite release :
  wp env (exported ErrRequeueDelay suite release) (returns (λ t r,
    ∃ reply, t = [Ev (CGet KHelmPolicy release) reply] ∧
    (r = inr true ↔ ∃ policy, reply = inr policy ∧
       Namespace (suite_ObjectMeta suite) ∈ ExportTo (policy_Spec policy)) ∧
    (r = inr true ∨ r = inr false ∨ r = inl (later ErrRequeueDelay)))).
Proof.
  intros [e|policy] _; simpl.
  - destruct (IgnoreNotFound _); simpl; eexists; (split; [done|]);
      (split; [split; [done|by intros (? & ? & _)]|]); auto.
  - pose proof (slices_Contains_spec (ExportTo (policy_Spec policy))
      (Namespace (suite_ObjectMeta suite))) as Hspec.
    destruct (slices_Contains _ _); eexists; (split; [done|]; split; [|by auto]).
    + split; [|done]. intros _. exists policy. split; [done|by apply Hspec].
    + split; [done|]. by intros (p & [= <-] & Hp%Hspec).
Qed.

(** C36: after a run triggered by a release, the release is still new, unless
    the annotations hold its version under that very version: the annotation
    is set to the entry of that key. So the next reconciliation that is not
    running triggers again. *)
Theorem helmTrigger_retriggers suite release :
  map_get (Annotations (suite_ObjectMeta suite)) (hrm_VersionString release) ≠ hrm_VersionString release →
  wp reliable (helmTrigger ErrRequeueDelay suite release) (returns (λ _ r,
    ∃ trigger suite', r = inr (trigger, suite') ∧ isNewRelease suite' release = true)).
Proof.
  intros Hv. unfold helmTrigger. rewrite assign_make. intros r ->%reliable_patch.
  eexists _, _. split; [done|]. unfold isNewRelease. simpl.
  rewrite map_get_insert. apply negb_true_iff, bool_decide_eq_false. intros Heq. apply Hv.
  rewrite Heq at 2. by destruct (Annotations _).
Qed.

Lemma releaseOf_cases suite :
  let '(found, _) := releaseOf suite in
  let R := HelmRelease (When (suite_Spec suite)) in
  (R = nn_Namespace found +:+ String slash (nn_Name found) ∧ str_mem slash (nn_Namespace found) = false) ∨
  (nn_Namespace found = Namespace (suite_ObjectMeta suite) ∧ nn_Name found = R).
Proof.
  set (R := HelmRelease (When (suite_Spec suite))).
  destruct (decide (strings_Index R Separator = -1)%Z) as [Hidx|Hidx].
  - unfold releaseOf. fold R. rewrite Hidx. simpl. by right.
  - apply strings_Index_some in Hidx as (s1 & s2 & HR & Hm).
    destruct (decide (s2 = "")) as [->|Hs2].
    + unfold releaseOf. fold R. rewrite HR. change Separator with (String slash "").
      rewrite strings_Index_app by done.
      assert (¬ (len s1 < len (s1 +:+ String slash "") - 1)%Z) as Hlen.
      { rewrite len_app. change (len (String slash "")) with 1%Z. lia. }
      rewrite (bool_decide_eq_false_2 _ Hlen), andb_false_r. by right.
    + rewrite (releaseOf_slash suite s1 s2) by done. by left.
Qed.

Lemma helmLabel_plain suite :
  str_mem dot (HelmRelease (When (suite_Spec suite))) = false →
  helmLabel suite = Namespace (suite_ObjectMeta suite) +:+
    String dot (HelmRelease (When (suite_Spec suite))).
Proof.
  intros Hd. unfold helmLabel. change "." with (String dot "").
  by rewrite strings_Index_none.
Qed.

(** A release never wakes the suite it should trigger: the suite's label
    reads "namespace.name", the label value of the release "name.namespace".
    Whatever a suite names, if the release it looks up carries a label equal to
    the suite's, then its name and its namespace are the same. *)
Theorem helmLabel_mismatch suite release :
  let '(found, _) := releaseOf suite in
  hrm_Namespace release = nn_Namespace found → hrm_Name release = nn_Name found →
  nn_Namespace found ≠ "" → str_mem dot (nn_Namespace found) = false → str_mem dot (nn_Name found) = false →
  str_mem slash (nn_Name found) = false →
  helmLabel suite = LabelValue (Some release) → nn_Namespace found = nn_Name found.
Proof.
  destruct (releaseOf suite) as [found foreign] eqn:Hf.
  intros Hns Hname Hne Hd1 Hd2 Hs2. unfold LabelValue.
  rewrite Hns, Hname. rewrite bool_decide_eq_false_2 by done. cbn [negb].
  change ("." +:+ nn_Namespace found) with (String dot (nn_Namespace found)).
  pose proof (releaseOf_cases suite) as Hcases. rewrite Hf in Hcases.
  destruct Hcases as [(HR & Hm)|(HN & HR)].
  - rewrite helmLabel_plain by (rewrite HR, str_mem_app; simpl; by rewrite Hd1, Hd2).
    intros Heq. apply (f_equal (str_mem slash)) in Heq. revert Heq.
    rewrite HR, !str_mem_app. simpl. rewrite !str_mem_app. simpl.
    by rewrite Hs2, Hm, !orb_true_r.
  - rewrite helmLabel_plain by (by rewrite <-HR). rewrite <-HN, <-HR.
    by intros [? _]%split_char_inj.
Qed.

End helm.

(** * The phase of a suite and its runs *)

Definition incomplete (r : TestRun) : Prop :=
  TestRunPhase_IsFinal (run_Phase (run_Status r)) = false.

#[export] Instance incomplete_dec r : Decision (incomplete r).
Proof. unfold incomplete. apply _. Defined.

Section phases.
Context `{AM : !ApiMachinery} `{SS : !SortSlice}.
Context (ErrRequeueDelay : Z) (CronParser : string → error + Schedule_).
Context (spew : TestRunSpec → string) (enc : string → string).
Implicit Types (suite : TestSuite) (runs : list TestRun).

(** What the loop over the runs leaves: the last write wins. *)
Definition followed (suite : TestSuite) (r : option TestRun) (suite' : TestSuite) : Prop :=
  match r with
  | Some r => suite_Phase (suite_Status suite') = TestSuiteRunning ∧
      CurrentTestRun (suite_Status suite') = Name (run_ObjectMeta r)
  | None => suite' = suite
  end.

Lemma followRuns_wp runs suite :
  wp reliable (followRuns ErrRequeueDelay runs suite) (returns (λ t r,
    length (status_writes KTestSuite t) = length (filter incomplete runs) ∧
    ∃ suite', r = inr suite' ∧ followed suite (last (filter incomplete runs)) suite')).
Proof.
  revert suite. induction runs as [|run runs IH]; intros suite; cbn [followRuns].
  { split; [done|]. by exists suite. }
  rewrite filter_cons. destruct (TestRunPhase_IsFinal (run_Phase (run_Status run))) eqn:Hf; simpl.
  { rewrite decide_False by (unfold incomplete; congruence). apply IH. }
  rewrite decide_True by done. intros r ->. simpl.
  eapply wp_mono; [|apply IH]. intros t [r|?]; [|done]. intros (Hlen & suite' & -> & Hs).
  split; [exact (f_equal S Hlen)|]. exists suite'. split; [done|].
  rewrite last_cons. destruct (last _); [done|]. simpl in Hs. by subst.
Qed.

(** When some run is not complete, a suite that is not Running becomes
    Running, with one status write per incomplete run, and it ends up focused
    on the youngest of them: the loop goes on after the first, oldest one. *)
Theorem ensurePhase_focuses_youngest suite runs run :
  TestSuitePhase_IsRunning (suite_Phase (suite_Status suite)) = false →
  run ∈ runs → incomplete run →
  wp reliable (ensurePhase ErrRequeueDelay suite (sort_Slice older runs)) (returns (λ t r,
    length (status_writes KTestSuite t) = length (filter incomplete runs) ∧
    ∃ suite' current, r = inr suite' ∧ suite_Phase (suite_Status suite') = TestSuiteRunning ∧
      CurrentTestRun (suite_Status suite') = Name (run_ObjectMeta current) ∧
      current ∈ runs ∧ incomplete current ∧ no_younger run current)).
Proof.
  intros Hph Hin Hinc. unfold ensurePhase. rewrite Hph. simpl.
  pose proof (sort_Slice_Permutation older runs) as Hperm.
  pose proof (sort_older_sorted runs) as Hsorted.
  apply wp_bind_fn. eapply wp_mono; [|apply followRuns_wp].
  intros t [r|?]; [|done]. intros (Hlen & suite' & -> & Hs).
  assert (run ∈ filter incomplete (sort_Slice older runs)) as Hrun.
  { apply list_elem_of_filter. split; [done|]. by rewrite Hperm. }
  destruct (last (filter incomplete (sort_Slice older runs))) as [current|] eqn:Hlast.
  2:{ apply last_None in Hlast. rewrite Hlast in Hrun. by apply elem_of_nil in Hrun. }
  destruct Hs as [Hrunning Hcur]. simpl. rewrite Hrunning. simpl. rewrite app_nil_r.
  assert (length (filter incomplete (sort_Slice older runs)) = length (filter incomplete runs))
    as Hfl by (by rewrite Hperm).
  split; [exact (eq_trans Hlen Hfl)|]. exists suite', current.
  assert (current ∈ filter incomplete (sort_Slice older runs)) as Hc.
  { rewrite last_lookup in Hlast. by eapply list_elem_of_lookup_2. }
  apply list_elem_of_filter in Hc as [Hci Hc]. rewrite Hperm in Hc. split_and!; try done.
  apply last_Some in Hlast as [l Hl].
  assert (StronglySorted no_younger (filter incomplete (sort_Slice older runs))) as Hsf
    by (by apply StronglySorted_filter).
  rewrite Hl in Hsf, Hrun. apply elem_of_app in Hrun as [Hrl| ->%list_elem_of_singleton].
  - eapply StronglySorted_app_1_elem_of in Hsf; [done|done|by left].
  - unfold no_younger. lia.
Qed.

(** The runs a suite creates are found again: the indexer files them under
    the suite's name, and they keep the suite's finalizer and template. *)
Theorem testRunIndexer_runFor suite :
  suite_TypeMeta suite = mkTypeMeta GroupVersion_String "TestSuite" →
  testRunIndexer (runFor spew enc suite) = [Name (suite_ObjectMeta suite)] ∧
  run_Spec (runFor spew enc suite) = suite_Template (suite_Spec suite) ∧
  TestSuiteControllerFinalizer ∈ Finalizers (run_ObjectMeta (runFor spew enc suite)).
Proof.
  intros Ht. split_and!.
  - unfold testRunIndexer. rewrite GetControllerOf_spec. simpl. by rewrite Ht.
  - simpl. by destruct (suite_Template _).
  - simpl. by left.
Qed.

(** A suite that is being deleted keeps its finalizer while any run is
    listed: all runs are cleaned up first, in order, and the suite itself only
    when none is left; errors are answered by a later retry. *)
Theorem suite_finalize_order {env : world} suite runs :
  wp env (finalize ErrRequeueDelay suite runs) (returns (λ t res,
    match runs with
    | [] => ∃ r, cleanUp_out (k:=KTestSuite) env TestSuiteControllerFinalizer suite t r ∧
        res = (if r.1.2 is Some _ then later ErrRequeueDelay else (noResult, None))
    | _ => ∃ rounds,
        Forall2 (λ o rd, cleanUp_out (k:=KTestRun) env TestSuiteControllerFinalizer o rd.1 rd.2) runs rounds ∧
        t = concat (fst <$> rounds) ∧
        (Forall (λ rd, rd.2.1.2 = None) rounds → res = (noResult, None)) ∧
        (¬ Forall (λ rd, rd.2.1.2 = None) rounds → res = later ErrRequeueDelay)
    end)).
Proof.
  unfold finalize. destruct runs as [|x runs].
  - simpl. eapply wp_use_returns; [apply (cleanUp_wp (k:=KTestSuite))|].
    intros t [[m err] o] Hout. destruct err as [e|]; simpl;
      [exists ((m, Some e), o)|exists ((m, None), o)]; rewrite app_nil_r; by split.
  - rewrite bool_decide_eq_true_2 by (simpl; lia). set (runs' := x :: runs).
    eapply wp_use_returns; [apply cleanUpAll_wp; [apply GetObjects_NoDup|apply GetObjects_lt]|].
    intros t [[m err] o] (errs & Hout & Herr). simpl in Herr.
    destruct Hout as (Hlen & _ & rounds & Hr & -> & _ & Herrs). simpl in *.
    apply (cleanUp_rounds_items (k:=KTestRun)) in Hr as [Hr _]; [|done].
    pose proof (round_errors rounds) as Hnone. rewrite <-Herrs in Hnone.
    rewrite <-ErrorList_Error_None, <-Herr in Hnone.
    destruct err as [e|]; simpl; rewrite app_nil_r; exists rounds; (split_and!; [done|done|..]);
      rewrite <-Hnone; by intros.
Qed.

End phases.
