(* ===== verification/HelmWatcher.v ===== *)
(** [src/controllers/helmrelease_watcher.go]: the event handler that enqueues
    the TestSuites a Helm release triggers.

    [handle] works through the suites of the release's namespace, and then
    through those of the namespaces a HelmPolicy exports it to. The second
    part runs in two goroutines that share an unbuffered channel: a producer
    that lists the suites, and the handler, which receives and enqueues them.
    They are a step relation on a [config]; [drain] is the sequential program
    they are shown to be equivalent to. *)

From S2P Require Import Prelude.
From S2P Require Import GoLib.
From S2P Require Import Api.
From S2P Require Import Effects.
From S2P Require Import Helpers.
From S2P Require TestSuiteController.

(** * IsHelmRelease *)

(** [rawObj.( *v1.Secret)] with its [ok] result. *)
Definition as_secret {k : kind} (rawObj : obj k) : option Secret := as_kind KSecret rawObj.

Definition isHelmRelease {k : kind} (rawObj : obj k) : bool :=
  match as_secret rawObj with
  | Some secret => secret_Type secret == HelmSecretType
  | None => false
  end.

(** The four kinds of events; an update carries the old object, too. *)
Inductive watch_event (k : kind) :=
| CreateEvent (o : obj k)
| UpdateEvent (objectOld objectNew : obj k)
| DeleteEvent (o : obj k)
| GenericEvent (o : obj k).
Arguments CreateEvent {k} o.
Arguments UpdateEvent {k} objectOld objectNew.
Arguments DeleteEvent {k} o.
Arguments GenericEvent {k} o.

(** [IsHelmRelease]'s [Create], [Update], [Delete] and [Generic]. *)
Definition IsHelmRelease {k : kind} (e : watch_event k) : bool :=
  match e with
  | CreateEvent o => isHelmRelease o
  | DeleteEvent o => isHelmRelease o
  | UpdateEvent _ o => isHelmRelease o
  | GenericEvent o => isHelmRelease o
  end.

(** * The goroutines of the second part *)

(** The goroutine that lists suites and sends their requests; [Close] is its
    end, where the deferred [close(reqs)] runs. *)
Inductive producer :=
| Close
| Listing (opts : list ListOption) (cont : error + list TestSuite → producer)
| Send (req : Request) (rest : producer).

(** [reqs <- req] for every listed suite. *)
Definition requestOf (ts : TestSuite) : Request :=
  mkNamespacedName (Namespace (suite_ObjectMeta ts)) (Name (suite_ObjectMeta ts)).

Fixpoint sendAll (items : list TestSuite) (rest : producer) : producer :=
  match items with
  | [] => rest
  | ts :: items => Send (requestOf ts) (sendAll items rest)
  end.

(** [releaseLabelMatcher] *)
Definition releaseLabelMatcher (release : HelmReleaseMeta) : ListOption :=
  MatchingLabels [(TestSuiteController.TestSuiteHelmTriggerLabel, LabelValue (Some release))].

(** The goroutine for a policy that exports to all namespaces. *)
Definition listOthers (release : HelmReleaseMeta) : producer :=
  Listing [MatchingFieldsSelector ("metadata.namespace!=" +:+ hrm_Namespace release);
           releaseLabelMatcher release]
    (λ r, match r with inl _ => Close | inr items => sendAll items Close end).

(** The goroutine for a policy that lists namespaces: it stops at the first
    one that cannot be listed. *)
Fixpoint listExtra (release : HelmReleaseMeta) (namespaces : list string) : producer :=
  match namespaces with
  | [] => Close
  | namespace :: namespaces =>
      Listing [InNamespace namespace; releaseLabelMatcher release]
        (λ r, match r with
          | inl _ => Close
          | inr items => sendAll items (listExtra release namespaces)
          end)
  end.

Definition exportAll (policy : HelmPolicy) : bool :=
  match ExportTo (policy_Spec policy) with
  | [ns] => ns == "*"
  | _ => false
  end.

Definition producerOf (release : HelmReleaseMeta) (policy : HelmPolicy) : producer :=
  if exportAll policy then listOthers release
  else listExtra release (ExportTo (policy_Spec policy)).

(** The handler's goroutine, [for r := range reqs { q.AddRateLimited(r) }]. *)
Inductive consumer :=
| Receiving
| Enqueuing (req : Request)
| Finished.

Abbreviation config := (producer * consumer)%type.

(** One step of one of the goroutines, and what it exchanges. The channel has
    no buffer: a request passes when both sides are at it. *)
Inductive step : config → list event → config → Prop :=
| step_list opts cont c r :
    step (Listing opts cont, c) [Ev (CList KTestSuite opts) r] (cont r, c)
| step_pass req p :
    step (Send req p, Receiving) [] (p, Enqueuing req)
| step_enqueue p req :
    step (p, Enqueuing req) [Ev (CEnqueue req) tt] (p, Receiving)
| step_closed :
    step (Close, Receiving) [] (Close, Finished).

Inductive steps : config → list event → config → Prop :=
| steps_refl x : steps x [] x
| steps_step x t y t' z : step x t y → steps y t' z → steps x (t ++ t') z.

(** The producer and the consumer as one sequential program. *)
Fixpoint drain (p : producer) : prog unit :=
  match p with
  | Close => Ret tt
  | Listing opts cont => Call (CList KTestSuite opts) (λ r, drain (cont r))
  | Send req p => Call (CEnqueue req) (λ _, drain p)
  end.

(** * handle *)

Section handler.
Context `{AM : !ApiMachinery}.

(** [for i := range testSuites.Items { q.AddRateLimited(req) }] *)
Fixpoint enqueueAll (items : list TestSuite) : prog unit :=
  match items with
  | [] => Ret tt
  | ts :: items =>
      let* _ := call_ (CEnqueue (requestOf ts)) in
      enqueueAll items
  end.

(** [handle] up to the goroutines: [None] when it returns before them. *)
Definition handleSecret (secret : Secret) : prog (option producer) :=
  match ParseHelmReleaseSecret (Some secret) with
  | (Some release, true) =>
      let* r := client_List KTestSuite
        [InNamespace (hrm_Namespace release); releaseLabelMatcher release] in
      match r with
      | inl _ => Ret None
      | inr items =>
          let* _ := enqueueAll items in
          let* r := client_Get KHelmPolicy
            (mkNamespacedName (hrm_Namespace release) (hrm_Name release)) in
          match r with
          | inl _ => Ret None
          | inr policy => Ret (Some (producerOf release policy))
          end
      end
  | _ => Ret None
  end.

(** [obj.( *v1.Secret)] panics on any other object. *)
Definition handle {k : kind} (o : obj k) : prog (option producer) :=
  match as_secret o with
  | Some secret => handleSecret secret
  | None => Panic TypeAssertion
  end.

(** [EnqueueForHelmTrigger]'s [Create], [Update], [Delete] and [Generic]. *)
Definition EnqueueForHelmTrigger {k : kind} (e : watch_event k) : prog (option producer) :=
  match e with
  | CreateEvent o => handle o
  | UpdateEvent _ _ => Ret None
  | DeleteEvent _ => Ret None
  | GenericEvent _ => Ret None
  end.

(** The handler with its goroutines run to the end one after the other. *)
Definition handled (m : prog (option producer)) : prog unit :=
  let* p := m in
  match p with
  | Some p => drain p
  | None => Ret tt
  end.

End handler.

(** * The goroutines *)

(** The requests a trace enqueues, and the suites it is told of, in order. *)
Definition enqueued (t : list event) : list Request :=
  omap (λ e, match ev_call e with CEnqueue r => Some r | _ => None end) t.

Definition listed (t : list event) : list (list ListOption * (error + list TestSuite)) :=
  omap (λ e, match e with
    | Ev c r =>
        match c return reply c → option (list ListOption * (error + list TestSuite)) with
        | CList k opts =>
            match k return error + list (obj k) → option (list ListOption * (error + list TestSuite)) with
            | KTestSuite => λ r, Some (opts, r)
            | _ => λ _, None
            end
        | _ => λ _, None
        end r
    end) t.

Lemma enqueued_app t t' : enqueued (t ++ t') = enqueued t ++ enqueued t'.
Proof. apply omap_app. Qed.

Lemma listed_app t t' : listed (t ++ t') = listed t ++ listed t'.
Proof. apply omap_app. Qed.

(** The request the consumer has received but not enqueued yet. *)
Definition pending (c : consumer) : list Request :=
  match c with Enqueuing r => [r] | _ => [] end.

(** C21: the goroutines do what the sequential program does: every execution
    that ends lists the same namespaces with the same answers and enqueues the
    same requests, each once and in the same order, as an execution of
    [drain], however the two were interleaved. *)
Theorem goroutines_refine_drain p t :
  steps (p, Receiving) t (Close, Finished) →
  ∃ t', exec (drain p) t' (Done tt) ∧ listed t = listed t' ∧ enqueued t = enqueued t'.
Proof.
  assert (∀ x y, steps x t y → y = (Close, Finished) →
    ∃ t', exec (drain x.1) t' (Done tt) ∧ listed t = listed t' ∧
      enqueued t = pending x.2 ++ enqueued t') as H.
  { induction 1 as [x|x t1 y t2 z Hstep _ IH]; [intros ->; exists []; split; [constructor|done]|].
    intros Hz. destruct (IH Hz) as (t' & He & Hl & Hq). rewrite listed_app, enqueued_app, Hl, Hq.
    destruct Hstep as [opts cont c r|req q|q req|]; simpl in *.
    - exists (Ev (CList KTestSuite opts) r :: t'). by split; [constructor|].
    - exists (Ev (CEnqueue req) tt :: t'). by split; [constructor|].
    - by exists t'.
    - by exists t'. }
  intros Hs. by apply (H _ _ Hs).
Qed.

(** A consumer that is done has seen the channel closed. *)
Definition consistent (x : config) : Prop := x.2 = Finished → x.1 = Close.

Lemma steps_consistent x t y : steps x t y → consistent x → consistent y.
Proof.
  induction 1 as [|x t1 y t2 z Hstep _ IH]; [done|]. intros Hx. apply IH.
  destruct Hstep; try done. intros Hf. by specialize (Hx Hf).
Qed.

(** C22: the goroutines neither deadlock nor run forever: from every state they
    can reach they are both done or one of them can go on, and every sequence
    of steps is finite, whatever the server answers. *)
Theorem goroutines_terminate p :
  Acc (λ y x, ∃ t, step x t y) (p, Receiving) ∧
  ∀ t y, steps (p, Receiving) t y → y = (Close, Finished) ∨ ∃ t' z, step y t' z.
Proof.
  split.
  - enough (∀ c, Acc (λ y x, ∃ t, step x t y) (p, c)) by done.
    assert (∀ q, (∀ y t, step (q, Receiving) t y → Acc (λ y x, ∃ t, step x t y) y) →
      (∀ opts cont r c, q = Listing opts cont → Acc (λ y x, ∃ t, step x t y) (cont r, c)) →
      ∀ c, Acc (λ y x, ∃ t, step x t y) (q, c)) as Hall.
    { intros q Hr Hl. assert (Acc (λ y x, ∃ t, step x t y) (q, Receiving)) as Hrec
        by (constructor; intros y [t Ht]; by eapply Hr).
      intros [|req|]; [exact Hrec|..]; constructor; intros y [t Ht]; inversion Ht; subst;
        first [exact Hrec|exact (Hl _ _ _ _ eq_refl)]. }
    induction p as [|opts cont IH|req p IH]; intros c.
    + apply Hall; [|discriminate]. intros y t Ht. inversion Ht; subst.
      constructor. intros y' [t' Ht']. inversion Ht'.
    + apply Hall; [|intros ? ? ? ? [= -> ->]; apply IH].
      intros y t Ht. inversion Ht; subst. apply IH.
    + apply Hall; [|discriminate]. intros y t Ht. inversion Ht; subst. apply IH.
  - intros t y Hs. apply steps_consistent in Hs; [|done]. destruct y as [[|opts cont|req q] c].
    + destruct c as [|req|]; [right; eexists _, _; constructor..|by left].
    + right. exists [Ev (CList KTestSuite opts) (inr [])]. eexists. constructor.
    + right. destruct c as [|req'|]; [eexists _, _; constructor..|]. by specialize (Hs eq_refl).
Qed.

(** * What is enqueued *)

Section enqueuing.
Context `{AM : !ApiMachinery} {env : world}.
Implicit Types (items : list TestSuite) (release : HelmReleaseMeta) (policy : HelmPolicy).

(** The exchanges that enqueue some suites. *)
Definition sends items : list event := (λ ts, Ev (CEnqueue (requestOf ts)) tt) <$> items.

Lemma drain_sendAll items rest (Q : list event → outcome unit → Prop) :
  wp env (drain rest) (λ t o, Q (sends items ++ t) o) → wp env (drain (sendAll items rest)) Q.
Proof.
  revert Q. induction items as [|ts items IH]; intros Q H; simpl; [done|].
  intros [] _. by apply IH.
Qed.

Lemma enqueueAll_drain items : enqueueAll items = drain (sendAll items Close).
Proof. induction items as [|ts items IH]; [done|]. simpl. by rewrite <-IH. Qed.

(** A trace that makes the listings [optss], one after the other, and enqueues
    every suite of each before it goes on to the next; it ends with the first
    that fails. *)
Fixpoint surveys (optss : list (list ListOption)) (t : list event) : Prop :=
  match optss with
  | [] => t = []
  | opts :: optss =>
      (∃ e, t = [Ev (CList KTestSuite opts) (inl e)]) ∨
      ∃ items t', t = Ev (CList KTestSuite opts) (inr items) :: sends items ++ t' ∧ surveys optss t'
  end.

Definition ownSuites release : list ListOption :=
  [InNamespace (hrm_Namespace release); releaseLabelMatcher release].

(** The listings a policy adds: of all other namespaces if it exports to "*",
    and else of those it names, in order. *)
Definition exports release policy : list (list ListOption) :=
  if exportAll policy
  then [[MatchingFieldsSelector ("metadata.namespace!=" +:+ hrm_Namespace release);
         releaseLabelMatcher release]]
  else (λ ns, [InNamespace ns; releaseLabelMatcher release]) <$> ExportTo (policy_Spec policy).

(** A listing of the producer, whose suites are enqueued before it goes on. *)
Lemma drain_Listing opts optss rest :
  wp env (drain rest) (returns (λ t _, surveys optss t)) →
  wp env (drain (Listing opts (λ r, match r with inl _ => Close | inr items => sendAll items rest end)))
    (returns (λ t _, surveys (opts :: optss) t)).
Proof.
  intros Hrest r _. destruct r as [e|items]; [left; by exists e|]. apply drain_sendAll. eapply wp_mono; [|exact Hrest].
  intros t [[]|?]; [|done]. intros Ht. right. by exists items, t.
Qed.

Lemma producerOf_wp release policy :
  wp env (drain (producerOf release policy)) (returns (λ t _, surveys (exports release policy) t)).
Proof.
  unfold producerOf, exports. destruct (exportAll policy).
  - by apply drain_Listing.
  - induction (ExportTo _) as [|ns nss IH]; [done|]. by apply drain_Listing.
Qed.

(** C23: a Helm release enqueues exactly the suites that carry its label, in
    the order they are listed: first those of its own namespace; then it reads
    its HelmPolicy, and goes through the namespaces the policy names, or all
    others if it exports to "*". A secret that is no valid release is ignored,
    and the first call that fails ends the handling, without a retry. *)
Theorem handle_enqueues secret :
  wp env (handled (handleSecret secret)) (returns (λ t _,
    match ParseHelmReleaseSecret (Some secret) with
    | (Some release, true) =>
        let own := CList KTestSuite (ownSuites release) in
        let get := CGet KHelmPolicy (mkNamespacedName (hrm_Namespace release) (hrm_Name release)) in
        (∃ e, t = [Ev own (inl e)]) ∨
        (∃ items e, t = Ev own (inr items) :: sends items ++ [Ev get (inl e)]) ∨
        (∃ items policy t', t = Ev own (inr items) :: sends items ++ Ev get (inr policy) :: t' ∧
           surveys (exports release policy) t')
    | _ => t = []
    end)).
Proof.
  unfold handled, handleSecret.
  destruct (ParseHelmReleaseSecret (Some secret)) as [[release|] []]; [|done..].
  intros r _. destruct r as [e|items]; [left; by exists e|]. simpl. rewrite enqueueAll_drain.
  do 2 apply (proj1 (wp_bind _ _ _)). apply drain_sendAll.
  intros r _. destruct r as [e|policy]; rewrite app_nil_r; cbn [bind wp returns].
  - right. left. exists items, e. by rewrite app_nil_r.
  - eapply wp_mono; [|apply producerOf_wp]. intros t [[]|?]; [|done]. intros Ht. right. right.
    exists items, policy, t. by rewrite <-app_assoc.
Qed.

End enqueuing.

(** * A client that reads from a cache *)

(** controller-runtime's cache answers a listing by field only for an exact
    match, and ["metadata.namespace!=..."] is none. *)
Definition exact_matches : world := λ c,
  match c return reply c → Prop with
  | CList _ opts => λ r,
      Exists (λ o, match o with MatchingFieldsSelector _ => True | _ => False end) opts →
      ∃ e, r = inl e
  | _ => λ _, True
  end.

(** With such a client a policy that exports to "*" reaches no suite outside
    of the release's own namespace. *)
Theorem exportAll_reaches_nothing release policy :
  exportAll policy = true →
  wp exact_matches (drain (producerOf release policy)) (returns (λ t _, enqueued t = [])).
Proof.
  intros Hall. unfold producerOf. rewrite Hall. intros r Hr.
  destruct (Hr ltac:(by left)) as [e ->]. done.
Qed.
