(* ===== verification/Crash.v ===== *)
(** Many reconciliations: what holds of an object however often it is
    reconciled, and wherever the controller crashes.

    A controller is restarted at any time, a write may be stored although its
    caller gets an error, and work is repeated until it succeeds. [store] is
    what the server keeps of one object across reconciliations: the phases it
    has had, and the counters that were incremented for it. [stores] is how an
    exchange changes it, and [current] the assumption that a read shows what is
    stored; together they are [serves]. [cwp] proves that an invariant of the store holds
    after every single exchange, so that it holds where a crash cuts an
    execution off, and [crash_invariant] extends it to all reconciliations. *)

From S2P Require Import Prelude.
From S2P Require Import GoLib.
From S2P Require Import Api.
From S2P Require Import Effects.
From S2P Require Import Helpers.
From S2P Require Import PruneDeleted.

(** * Executions that may be cut off *)

(** The exchanges [m] may have made at some time. *)
Inductive partial {A} : prog A → list event → Prop :=
| partial_stop m : partial m []
| partial_call c cont r t : partial (cont r) t → partial (Call c cont) (Ev c r :: t).

Section crash.
Context {S : Type} (serves : S → event → S → Prop).

(** The state after a sequence of exchanges. *)
Inductive served : S → list event → S → Prop :=
| served_nil s : served s [] s
| served_cons s e s' t s'' : serves s e s' → served s' t s'' → served s (e :: t) s''.

(** One reconciliation, complete or not. *)
Definition attempt {A} (m : prog A) (s s' : S) : Prop := ∃ t, partial m t ∧ served s t s'.

(** The states any number of reconciliations lead to. *)
Definition attempts {A} (m : prog A) : S → S → Prop := rtc (attempt m).

Context (I : S → Prop).

(** [I] holds at every point of [m] started in [s], and [Q] of its end. *)
Fixpoint cwp {A} (m : prog A) (s : S) (Q : S → outcome A → Prop) : Prop :=
  I s ∧
  match m with
  | Ret a => Q s (Done a)
  | Panic p => Q s (Panicked p)
  | Call c cont => ∀ r s', serves s (Ev c r) s' → cwp (cont r) s' Q
  end.

Lemma cwp_inv_now {A} (m : prog A) s Q : cwp m s Q → I s.
Proof. by destruct m; intros []. Qed.

Lemma cwp_mono {A} (m : prog A) s (Q Q' : S → outcome A → Prop) :
  (∀ s o, I s → Q s o → Q' s o) → cwp m s Q → cwp m s Q'.
Proof.
  intros H. revert s. induction m as [a|p|c k IH]; intros s; simpl;
    [intros [? ?]; auto..|intros [Hs Hm]].
  split; [done|]. intros r s' Hr. by apply IH, Hm.
Qed.

Lemma cwp_bind {A B} (m : prog A) (f : A → prog B) s Q :
  cwp m s (λ s' o, match o with
    | Done a => cwp (f a) s' Q
    | Panicked p => Q s' (Panicked p)
    end) → cwp (bind m f) s Q.
Proof.
  revert s. induction m as [a|p|c k IH]; intros s; simpl; [by intros []|done|].
  intros [Hs Hm]. split; [done|]. intros r s' Hr. by apply IH, Hm.
Qed.

Lemma cwp_bind_fn {R A B} (m : fn R A) (f : A → fn R B) s Q :
  cwp m s (λ s' o, match o with
    | Done (inl r) => Q s' (Done (inl r))
    | Done (inr a) => cwp (f a) s' Q
    | Panicked p => Q s' (Panicked p)
    end) → cwp (bind_fn m f) s Q.
Proof.
  intros H. apply cwp_bind. revert H. apply cwp_mono.
  intros s' [[r|a]|p] Hs; simpl; [done|by intros ?|done].
Qed.

Lemma cwp_next_bind_fn {R A B} (a : A) (f : A → fn R B) s Q :
  cwp (f a) s Q → cwp (bind_fn (next a) f) s Q.
Proof.
  intros H. apply cwp_bind_fn. split; [by eapply cwp_inv_now|done].
Qed.

Lemma cwp_lift {R A} (m : prog A) s (Q : S → outcome (R + A) → Prop) :
  cwp m s (λ s' o, Q s' match o with Done a => Done (inr a) | Panicked p => Panicked p end) →
  cwp (lift m) s Q.
Proof.
  intros H. apply cwp_bind. revert H. apply cwp_mono. by intros s' [a|p] Hs.
Qed.

(** A program that does not panic, whose result satisfies [Q]. *)
Definition completes {A} (Q : S → A → Prop) (s : S) (o : outcome A) : Prop :=
  match o with Done a => Q s a | Panicked _ => False end.

(** A function body that returns early with [F], or goes on with [Q]. *)
Definition handles {R A} (F : S → R → Prop) (Q : S → A → Prop) : S → outcome (R + A) → Prop :=
  completes (λ s x, match x with inl r => F s r | inr a => Q s a end).

Lemma cwp_handles_bind {R A B} F Q (Q' : S → B → Prop) (m : fn R A) (f : A → fn R B) s :
  cwp m s (handles F Q) → (∀ s a, I s → Q s a → cwp (f a) s (handles F Q')) →
  cwp (bind_fn m f) s (handles F Q').
Proof.
  intros Hm Hf. apply cwp_bind_fn. revert Hm. apply cwp_mono.
  intros s' [[r|a]|p] HI; [done|by apply Hf|done].
Qed.

Lemma cwp_handles_lift {R A B} F (Q : S → A → Prop) (Q' : S → B → Prop)
    (m : prog A) (f : A → fn R B) s :
  cwp m s (completes Q) → (∀ s a, I s → Q s a → cwp (f a) s (handles F Q')) →
  cwp (bind_fn (lift m) f) s (handles F Q').
Proof.
  intros Hm Hf. apply cwp_bind_fn, cwp_lift. revert Hm. apply cwp_mono.
  intros s' [a|p] HI; [by apply Hf|done].
Qed.

Lemma cwp_handles_end {R} (F : S → R → Prop) (m : prog R) s :
  cwp m s (completes F) → cwp (lift m) s (handles (A:=R) F F).
Proof. intros Hm. apply cwp_lift. revert Hm. apply cwp_mono. by intros s' [a|p]. Qed.

Lemma cwp_func {R} (F : S → R → Prop) (m : fn R R) s :
  cwp m s (handles F F) → cwp (func m) s (completes F).
Proof.
  intros Hm. apply cwp_bind. revert Hm. apply cwp_mono.
  intros s' [[r|r]|p] HI; done.
Qed.

(** A handler none of whose results matter any more. *)
Definition fine {A} (m : prog A) (s : S) : Prop := cwp m s (λ _ _, True).

Lemma fine_bind_fn {R A B} (m : fn R A) (f : A → fn R B) s :
  cwp m s (λ s' o, match o with Done (inr a) => fine (f a) s' | _ => True end) →
  fine (bind_fn m f) s.
Proof. intros H. apply cwp_bind_fn. revert H. apply cwp_mono. by intros s' [[r|a]|p]. Qed.

Lemma fine_lift_bind_fn {R A B} (m : prog A) (f : A → fn R B) s :
  cwp m s (λ s' o, match o with Done a => fine (f a) s' | Panicked _ => True end) →
  fine (bind_fn (lift m) f) s.
Proof. intros H. apply fine_bind_fn, cwp_lift. revert H. apply cwp_mono. by intros s' [a|p]. Qed.

Lemma fine_bind {A B} (m : prog A) (f : A → prog B) s :
  cwp m s (λ s' o, match o with Done a => fine (f a) s' | Panicked _ => True end) →
  fine (bind m f) s.
Proof. intros H. apply cwp_bind. revert H. apply cwp_mono. by intros s' [a|p]. Qed.

Lemma fine_func {R} (m : fn R R) s : fine m s → fine (func m) s.
Proof.
  intros H. apply cwp_bind. revert H. apply cwp_mono. by intros s' [[r|r]|p].
Qed.

Lemma fine_lift {R A} (m : prog A) s : fine m s → fine (lift (R:=R) m) s.
Proof. intros H. by apply cwp_lift. Qed.

Lemma fine_ret {A} (a : A) s : I s → fine (Ret a) s.
Proof. done. Qed.

Lemma cwp_crash {A} (m : prog A) s Q t s' :
  cwp m s Q → partial m t → served s t s' → I s'.
Proof.
  intros Hm Ht. revert s Hm. induction Ht as [m|c k r t Ht IH]; intros s Hm Hs;
    inversion Hs; subst; [by eapply cwp_inv_now|].
  eapply IH; [by eapply Hm|done].
Qed.

(** An invariant that each reconciliation keeps holds after any number of
    them, however many were cut off. *)
Lemma crash_invariant {A} (m : prog A) s s' :
  (∀ s, I s → fine m s) → attempts m s s' → I s → I s'.
Proof.
  intros Hm. induction 1 as [s|s s1 s2 (t & Ht & Hs) _ IH]; [done|].
  intros HI. apply IH. eapply cwp_crash; [by apply Hm|done..].
Qed.

(** Every program has an execution. *)
Lemma wp_nonempty {A} (m : prog A) Q : wp any m Q → ∃ t o, Q t o.
Proof.
  revert Q. induction m as [a|p|c k IH]; intros Q; simpl; [by eauto..|].
  intros H. assert (reply c) as r by (destruct c; simpl; try exact None;
    first [exact (inl (errors_New ""))|exact tt|exact 0%Z]).
  destruct (IH r _ (H r Logic.I)) as (t & o & HQ). by exists (Ev c r :: t), o.
Qed.

(** A program that only makes exchanges of a kind that keeps [J], a stronger
    invariant, and moves the state along [R]: what [wp] says of it may be
    used. *)
Lemma cwp_stable {A} (quiet : event → Prop) (J : S → Prop) (R : relation S) `{!PreOrder R}
    (m : prog A) s (Q : list event → outcome A → Prop) :
  (∀ s, J s → I s) → (∀ e s s', quiet e → J s → serves s e s' → R s s' ∧ J s') →
  J s → wp any m Q → (∀ t o, Q t o → Forall quiet t) →
  cwp m s (λ s' o, R s s' ∧ ∃ t, served s t s' ∧ Q t o).
Proof.
  intros HJ Hquiet. revert s Q. induction m as [a|p|c k IH]; intros s Q HI Hm Ht; simpl in *.
  1,2: split; [by apply HJ|]; split; [done|]; exists []; by split; [constructor|].
  split; [by apply HJ|]. intros r s' Hr. specialize (Hm r Logic.I).
  assert (quiet (Ev c r)) as Hq.
  { destruct (wp_nonempty _ _ Hm) as (t & o & HQ). by specialize (Ht _ _ HQ); inversion Ht. }
  destruct (Hquiet _ _ _ Hq HI Hr) as [HR HI'].
  eapply cwp_mono; [|apply (IH r s' _ HI' Hm); intros t o HQ; by specialize (Ht _ _ HQ); inversion Ht].
  intros s'' o _ (HR' & t & Hs & HQ). split; [by trans s'|].
  exists (Ev c r :: t). split; [by econstructor|done].
Qed.

(** Exchanges that leave the state alone. *)
Lemma cwp_silent {A} (quiet : event → Prop) (m : prog A) s (Q : list event → outcome A → Prop) :
  (∀ e s s', quiet e → serves s e s' → s' = s) →
  I s → wp any m Q → (∀ t o, Q t o → Forall quiet t) →
  cwp m s (λ s' o, s' = s ∧ ∃ t, served s t s ∧ Q t o).
Proof.
  intros Hquiet HI Hm Ht. eapply cwp_mono; [|apply (cwp_stable quiet (eq s) eq m s Q); [by intros ? <-| |done..]].
  - by intros s' o _ [<- H].
  - intros e s1 s2 Hq <- Hs. by rewrite (Hquiet _ _ _ Hq Hs).
Qed.

(** What [cwp] says of the end holds of complete executions. *)
Lemma cwp_exec {A} (m : prog A) s Q t o s' :
  cwp m s Q → exec m t o → served s t s' → Q s' o.
Proof.
  intros Hm He. revert s Hm. induction He as [a|p|c k r t o He IH]; intros s Hm Hs;
    inversion Hs; subst; [by destruct Hm..|].
  eapply IH; [by eapply Hm|done].
Qed.

End crash.

(** What holds against a server that may do more holds against one that does
    less. *)
Lemma cwp_serves_mono {S A} (R R' : S → event → S → Prop) I (m : prog A) s Q :
  (∀ s e s', R' s e s' → R s e s') → cwp R I m s Q → cwp R' I m s Q.
Proof.
  intros HR. revert s. induction m as [a|p|c k IH]; intros s; simpl; [done..|].
  intros [HI Hm]. split; [done|]. intros r s' Hs. by apply IH, Hm, HR.
Qed.

(** Exchanges that are known to satisfy [E]. *)
Lemma served_Forall {S} (R : S → event → S → Prop) (E : event → Prop) s t s' :
  served R s t s' → Forall E t → served (λ s e s', R s e s' ∧ E e) s t s'.
Proof.
  induction 1 as [s|s e s1 t s2 He _ IH]; [constructor|].
  intros [HE Ht]%Forall_cons. econstructor; [by split|by apply IH].
Qed.

Lemma served_Forall_1 {S} (R : S → event → S → Prop) (E : event → Prop) s t s' :
  served (λ s e s', R s e s' ∧ E e) s t s' → Forall E t.
Proof. induction 1 as [|s e s1 t s2 [_ He] _ IH]; by constructor. Qed.

(** * What the server keeps of an object *)

(** A kind of objects with a phase, which a change of the metadata keeps. *)
Class Phased (k : kind) `{!ClientObject k} := {
  phase_of : obj k → string;
  phase_of_SetFinalizers fs o : phase_of (SetFinalizers fs o) = phase_of o }.

(** The phases the object has had, the current one first, and the counters
    that were incremented for it. *)
Record store := mkStore {
  trail : list string;
  counts : list metric }.

Definition stored (s : store) : string := hd "" (trail s).

(** A stored phase, recorded when it is a change. *)
Definition write_phase (p : string) (l : list string) : list string :=
  if hd "" l == p then l else p :: l.

(** A patch from [orig] to [new] as the server merges it: what the two have in
    common is not part of the patch. *)
Definition merge_phase `{Phased k} (orig new : obj k) (l : list string) : list string :=
  if phase_of new == phase_of orig then l else write_phase (phase_of new) l.

(** An answer whose object, if it is of kind [k], has the phase [p]. *)
Definition shows `{Phased k} (p : string) {k' : kind} (r : error + obj k') : Prop :=
  ∀ o o', r = inr o → as_kind k o = Some o' → phase_of o' = p.

(** How an exchange changes the stored object of kind [k]: a status patch is
    merged and shown, or fails, and then it may have been stored all the same;
    a patch of the metadata shows the phase. *)
Definition stores (k : kind) `{Phased k} (s : store) (e : event) (s' : store) : Prop :=
  counts s' = counts s ++ counted [e] ∧
  match e with
  | Ev c r =>
      match c return reply c → Prop with
      | CPatch k' _ _ => λ r, trail s' = trail s ∧ shows (k:=k) (stored s) r
      | CStatusPatch k' orig new => λ r,
          match as_kind k orig, as_kind k new with
          | Some orig, Some new =>
              match r with
              | inl _ => trail s' = trail s ∨ trail s' = merge_phase orig new (trail s)
              | inr _ => trail s' = merge_phase orig new (trail s) ∧ shows (k:=k) (stored s') r
              end
          | _, _ => trail s' = trail s
          end
      | _ => λ _, trail s' = trail s
      end r
  end.

(** A read shows the stored phase. That is an assumption: the program reads
    through the manager's client, a cache that may lag behind the server. *)
Definition current (k : kind) `{Phased k} (s : store) (e : event) : Prop :=
  match e with
  | Ev c r =>
      match c return reply c → Prop with
      | CGet _ _ => λ r, shows (k:=k) (stored s) r
      | _ => λ _, True
      end r
  end.

(** The exchanges of the life cycles: nobody but the controller writes the
    phase, and it reads what is stored. *)
Definition serves (k : kind) `{Phased k} (s : store) (e : event) (s' : store) : Prop :=
  stores k s e s' ∧ current k s e.

(** The trails of an object that starts without a phase and then moves along
    [step]. *)
Inductive history (step : string → string → Prop) : list string → Prop :=
| history_new : history step [""]
| history_step p q l : history step (p :: l) → step p q → history step (q :: p :: l).

Lemma history_write step q l :
  history step l → step (hd "" l) q → history step (write_phase q l).
Proof.
  intros Hl Hq. unfold write_phase. case_bool_decide; [done|].
  destruct l as [|p l]; [inversion Hl|]. by constructor.
Qed.

Lemma hd_write_phase q l : hd "" (write_phase q l) = q.
Proof. unfold write_phase. by case_bool_decide. Qed.

(** Exchanges that leave the stored object alone. *)
Definition quiet (e : event) : Prop :=
  match ev_call e with
  | CStatusPatch _ _ _ => False
  | CMetric (Inc _ _) => False
  | _ => True
  end.

Section store.
Context {k : kind} `{Phased k}.
Implicit Types o : obj k.

Lemma as_kind_refl o : as_kind k o = Some o.
Proof. by destruct k. Qed.

Lemma serves_quiet e (s s' : store) : quiet e → serves k s e s' → s' = s.
Proof.
  destruct e as [c r], s as [tr cn], s' as [tr' cn']. unfold serves, stores, quiet.
  cbn [ev_call counts trail]. intros Hq [[-> Ht] _].
  assert (counted [Ev c r] = []) as -> by (destruct c as [| | | | | | |[]| |]; done).
  rewrite app_nil_r. destruct c; cbn in Ht; try destruct Ht; by subst.
Qed.

Context (I : store → Prop).

Abbreviation cwp := (cwp (serves k) I).
Abbreviation fine := (fine (serves k) I).

(** A program without status patches and increments. *)
Lemma cwp_quiet {A} (m : prog A) s p :
  I s → wp any m (guarded p quiet) → cwp m s (λ s' _, s' = s).
Proof.
  intros HI Hm. eapply cwp_mono; [|apply (cwp_silent (serves k) I quiet m s); [|done|exact Hm|]].
  - by intros s' o _ [-> _].
  - intros. by eapply serves_quiet.
  - by intros t o [].
Qed.

Lemma cwp_quiet_safe {A} (m : prog A) s :
  I s → wp any m (safe quiet) → cwp m s (λ s' _, s' = s).
Proof. intros HI Hm. apply (cwp_quiet m s NilDereference); [done|]. by apply guarded_safe. Qed.

Lemma fine_quiet {A} (m : prog A) s p : I s → wp any m (guarded p quiet) → fine m s.
Proof. intros HI Hm. eapply cwp_mono; [|by eapply cwp_quiet]. done. Qed.

Lemma fine_quiet_safe {A} (m : prog A) s : I s → wp any m (safe quiet) → fine m s.
Proof. intros HI Hm. eapply cwp_mono; [|by eapply cwp_quiet_safe]. done. Qed.

(** A quiet step of a handler, whose result does not matter. *)
Lemma fine_quiet_bind {A R B} (m : prog A) (f : A → fn R B) s :
  I s → wp any m (safe quiet) → (∀ a, fine (f a) s) → fine (bind_fn (lift m) f) s.
Proof.
  intros HI Hm Hf. apply fine_lift_bind_fn. eapply cwp_mono; [|by apply cwp_quiet_safe].
  intros s' [a|p] _ ->; [apply Hf|done].
Qed.

(** Reads of the object show its stored phase. *)
Lemma fine_get {R B} key (f : error + obj k → fn R B) s :
  I s → (∀ e, fine (f (inl e)) s) → (∀ o, phase_of o = stored s → fine (f (inr o)) s) →
  fine (bind_fn (lift (client_Get k key)) f) s.
Proof.
  intros HI He Ho. split; [done|]. intros r s' Hs. destruct (Hs) as [_ Hr].
  assert (s' = s) as -> by (by eapply serves_quiet; [|exact Hs]).
  destruct r as [e|o]; [apply He|]. apply Ho. eapply Hr; [done|apply as_kind_refl].
Qed.

(** A metadata patch keeps the phase, whether it succeeds or not. *)
Lemma cwp_patch orig o s :
  I s → phase_of o = stored s →
  cwp (client_Patch o orig) s (λ s' r, s' = s ∧ ∃ err o', r = Done (err, o') ∧ phase_of o' = stored s).
Proof.
  intros HI Ho. split; [done|]. intros r s' Hs. destruct (Hs) as [(_ & _ & Hr) _].
  assert (s' = s) as -> by (by eapply serves_quiet; [|exact Hs]).
  destruct r as [e|o']; (split; [done|]); (split; [done|]); eexists _, _; (split; [done|]); [done|].
  eapply Hr; [done|apply as_kind_refl].
Qed.

Lemma cwp_addFinalizer f o s :
  I s → phase_of o = stored s →
  cwp (addFinalizer f o) s (λ s' r, s' = s ∧ ∃ b err o', r = Done ((b, err), o') ∧ phase_of o' = stored s).
Proof.
  intros HI Ho. unfold addFinalizer. destruct (fold_left _ _ _).
  - apply cwp_bind. eapply cwp_mono; [|apply cwp_patch; [done|by rewrite phase_of_SetFinalizers]].
    intros s' r _ (-> & err & o' & -> & Ho'). split; [done|]. split; [done|]. by exists true, err, o'.
  - split; [done|]. split; [done|]. by exists false, None, o.
Qed.

(** A status patch, after which [Q] must hold: of the old store, when it did
    not arrive, and of the new one, with or without an error. *)
Lemma cwp_status orig o s (Q : store → outcome (option error * obj k) → Prop) :
  I s →
  (∀ tr, tr = trail s ∨ tr = merge_phase orig o (trail s) →
     let s' := mkStore tr (counts s) in
     I s' ∧ (∀ e, Q s' (Done (Some e, o))) ∧
     (tr = merge_phase orig o (trail s) → ∀ o', phase_of o' = stored s' → Q s' (Done (None, o')))) →
  cwp (Status_Patch o orig) s Q.
Proof.
  intros HI HQ. split; [done|]. intros r s' [[Hc Hs] _]. rewrite !as_kind_refl in Hs.
  unfold counted in Hc. simpl in Hc. rewrite app_nil_r in Hc.
  destruct s' as [tr cn]. simpl in *. subst cn. destruct r as [e|o'].
  - destruct (HQ tr Hs) as (HI' & He & _). split; [done|apply He].
  - destruct Hs as [Htr Hsh]. destruct (HQ tr) as (HI' & _ & Hok); [by right|].
    split; [done|]. apply Hok; [done|]. eapply Hsh; [done|apply as_kind_refl].
Qed.

(** An increment of a counter. *)
Lemma cwp_inc m labels s (Q : store → outcome unit → Prop) :
  I s → I (mkStore (trail s) (counts s ++ [m])) →
  Q (mkStore (trail s) (counts s ++ [m])) (Done tt) →
  cwp (Metric (Inc m labels)) s Q.
Proof.
  intros HI HI' HQ. split; [done|]. intros [] s' [[Hc Hs] _].
  assert (s' = mkStore (trail s) (counts s ++ [m])) as -> by (destruct s'; simpl in *; by subst).
  by split.
Qed.

End store.
