(* ===== verification/Server.v ===== *)
(** Concrete API servers for one object, with the phases it has had, against
    which controllers can be run: one that meets the assumption [Crash.serves]
    of the life cycles, and one whose reads lag behind, so that it is not
    [Crash.current]. *)

From S2P Require Import Prelude.
From S2P Require Import GoLib.
From S2P Require Import Api.
From S2P Require Import Effects.
From S2P Require Import Crash.

Lemma as_kind_Some {k1 k2 : kind} (o1 : obj k1) (o2 : obj k2) :
  as_kind k2 o1 = Some o2 → as_kind k1 o2 = Some o1.
Proof. destruct k1, k2; simpl; intros [=]; by subst. Qed.

Lemma run_partial {A W} (srv : ∀ c, W → reply c * W) (m : prog A) w :
  partial m (run srv m w).1.1.
Proof.
  revert w. induction m as [a|p|c cont IH]; intros w; simpl; [constructor..|].
  destruct (srv c w) as [r w']. specialize (IH r w').
  destruct (run srv (cont r) w') as [[t o] w'']. by constructor.
Qed.

Section server.
Context {k : kind} `{Phased k}.

Record server := mkServer {
  object : obj k;
  log : store }.

(** What the server says to calls that are not about the object. *)
Context (answers : ∀ c, reply c).

Definition conflict : error := ErrAPI "Conflict" "the object has been modified".

(** Writes that would be based on another phase are refused. *)
Definition serve (c : call) (w : server) : reply c * server :=
  match c return reply c * server with
  | CGet k' key =>
      (match as_kind k' (object w) with Some o => inr o | None => answers (CGet k' key) end, w)
  | CPatch k' _ new =>
      match as_kind k new with
      | Some n =>
          if phase_of n == phase_of (object w) then (inr new, mkServer n (log w)) else (inl conflict, w)
      | None => (inr new, w)
      end
  | CStatusPatch k' orig new =>
      match as_kind k orig, as_kind k new with
      | Some o, Some n =>
          if phase_of o == phase_of (object w)
          then (inr new, mkServer n (mkStore (write_phase (phase_of n) (trail (log w))) (counts (log w))))
          else (inl conflict, w)
      | _, _ => (inr new, w)
      end
  | CMetric op =>
      (tt, mkServer (object w) (mkStore (trail (log w)) (counts (log w) ++ counted [Ev (CMetric op) tt])))
  | c => (answers c, w)
  end.

(** The log ends with the phase of the object. *)
Definition consistent (w : server) : Prop := phase_of (object w) = stored (log w).

Lemma serves_same c r (s : store) :
  match c with CGet _ _ | CPatch _ _ _ | CStatusPatch _ _ _ | CMetric _ => False | _ => True end →
  serves k s (Ev c r) s.
Proof. destruct c; try done; intros _; (split; [|done]); (split; [by rewrite app_nil_r|done]). Qed.

Lemma serve_serves c w :
  consistent w →
  serves k (log w) (Ev c (serve c w).1) (log (serve c w).2) ∧ consistent (serve c w).2.
Proof.
  intros Hw. destruct w as [ob [tr cn]]. unfold consistent in *. cbn [object log] in *.
  destruct c as [k' key|k' opts|k' o|k' o|k' orig new|k' orig new|k' o ty re ms|op| |req];
    cbn [serve fst snd object log]; try (split; [by apply serves_same|done]).
  - split; [|done]. split; [split; [by rewrite app_nil_r|done]|]. intros o o' Ho Hk.
    destruct (as_kind k' ob) as [o1|] eqn:Hob.
    + simplify_eq. apply as_kind_Some in Hob. simpl in Hob. congruence.
    + apply as_kind_Some in Hk. destruct k', k; simpl in *; congruence.
  - destruct (as_kind k new) as [n|] eqn:Hn; [case_bool_decide as Hp|]; cbn [fst snd object log].
    + split; [|congruence]. split; [|done]. split; [by rewrite app_nil_r|]. split; [done|].
      intros o o' Ho Hk. simplify_eq. congruence.
    + split; [|done]. split; [|done]. split; [by rewrite app_nil_r|]. by split.
    + split; [|done]. split; [|done]. split; [by rewrite app_nil_r|]. split; [done|].
      intros o o' Ho Hk. by simplify_eq.
  - destruct (as_kind k orig) as [o|] eqn:Ho; [destruct (as_kind k new) as [n|] eqn:Hn|];
      [case_bool_decide as Hp|..]; cbn [fst snd object log].
    + split; [|unfold stored; cbn [trail]; by rewrite hd_write_phase]. split; [|done].
      split; [by rewrite app_nil_r|]. cbn [trail]. rewrite Ho, Hn.
      assert (merge_phase o n tr = write_phase (phase_of n) tr) as Hm.
      { unfold merge_phase. case_bool_decide as He; [|done]. unfold write_phase.
        rewrite bool_decide_eq_true_2; [done|]. unfold stored in Hw. simpl in Hw. congruence. }
      split; [done|]. intros x x' Hx Hk. simplify_eq. unfold stored. cbn [trail].
      rewrite hd_write_phase. congruence.
    + split; [|done]. split; [|done]. split; [by rewrite app_nil_r|]. rewrite Ho, Hn. by left.
    + split; [|done]. split; [|done]. split; [by rewrite app_nil_r|]. by rewrite Ho, Hn.
    + split; [|done]. split; [|done]. split; [by rewrite app_nil_r|]. by rewrite Ho.
  - split; [|done]. by split.
Qed.

Lemma run_served {A} (m : prog A) w :
  consistent w →
  served (serves k) (log w) (run serve m w).1.1 (log (run serve m w).2) ∧
  consistent (run serve m w).2.
Proof.
  revert w. induction m as [a|p|c cont IH]; intros w Hw; [by split; [constructor|]..|].
  cbn [run]. pose proof (serve_serves c w Hw) as [Hs Hw'].
  destruct (serve c w) as [r w']. specialize (IH r w' Hw').
  destruct (run serve (cont r) w') as [[t o] w'']. destruct IH as [Ht Hw''].
  split; [|done]. by econstructor.
Qed.

(** [n] complete reconciliations in a row. *)
Fixpoint runs {A} (n : nat) (m : prog A) (w : server) : server :=
  match n with
  | 0 => w
  | S n => runs n m (run serve m w).2
  end.

(** They are among the attempts the life cycles speak of. *)
Lemma runs_attempts {A} n (m : prog A) w :
  consistent w → attempts (serves k) m (log w) (log (runs n m w)).
Proof.
  revert w. induction n as [|n IH]; intros w Hw; simpl; [done|].
  destruct (run_served m w Hw) as [Hs Hw']. eapply rtc_l; [|by apply IH].
  eexists. split; [apply (run_partial serve)|exact Hs].
Qed.

End server.

(** * A server whose reads lag behind *)

Section lagging.
Context {k : kind} `{Phased k}.
Context (answers : ∀ c, reply c) (old : obj k).

(** Reads show the object as it was, [old]; a status patch is stored. *)
Definition serve_lagging (c : call) (s : store) : reply c * store :=
  match c return reply c * store with
  | CGet k' _ => (match as_kind k' old with Some o => inr o | None => inl conflict end, s)
  | CPatch k' _ new => (match as_kind k new with Some _ => inl conflict | None => inr new end, s)
  | CStatusPatch k' orig new =>
      match as_kind k orig, as_kind k new with
      | Some o, Some n =>
          if phase_of n == phase_of o then (inl conflict, s)
          else (inr new, mkStore (write_phase (phase_of n) (trail s)) (counts s))
      | _, _ => (inr new, s)
      end
  | CMetric op => (tt, mkStore (trail s) (counts s ++ counted [Ev (CMetric op) tt]))
  | c => (answers c, s)
  end.

Lemma lagging_stores c s : stores k s (Ev c (serve_lagging c s).1) (serve_lagging c s).2.
Proof.
  destruct s as [tr cn].
  destruct c as [k' key|k' opts|k' o|k' o|k' orig new|k' orig new|k' o ty re ms|op| |req];
    cbn [serve_lagging fst snd]; try (split; [by rewrite app_nil_r|done]).
  - split; [by rewrite app_nil_r|]. cbn. destruct (as_kind k new) eqn:Hn; (split; [done|]); [done|].
    intros o o' [= <-]. by rewrite Hn.
  - destruct (as_kind k orig) as [o|] eqn:Ho; [destruct (as_kind k new) as [n|] eqn:Hn|].
    + case_bool_decide as He; (split; [by rewrite app_nil_r|]); cbn; rewrite Ho, Hn; [by left|].
      unfold merge_phase. rewrite bool_decide_eq_false_2 by done. split; [done|].
      intros x x' [= <-] Hx. rewrite Hn in Hx. injection Hx as <-. unfold stored. cbn.
      by rewrite hd_write_phase.
    + split; [by rewrite app_nil_r|]. cbn. by rewrite Ho, Hn.
    + split; [by rewrite app_nil_r|]. cbn. by rewrite Ho.
  - by split.
Qed.

Lemma lagging_served {A} (m : prog A) s :
  served (stores k) s (run serve_lagging m s).1.1 (run serve_lagging m s).2.
Proof.
  revert s. induction m as [a|p|c cont IH]; intros s; [constructor..|].
  cbn [run]. pose proof (lagging_stores c s) as Hs.
  destruct (serve_lagging c s) as [r s']. specialize (IH r s').
  destruct (run serve_lagging (cont r) s') as [[t o] s'']. by econstructor.
Qed.

Lemma lagging_attempt {A} (m : prog A) s : attempt (stores k) m s (run serve_lagging m s).2.
Proof. eexists. split; [apply (run_partial serve_lagging)|apply lagging_served]. Qed.

End lagging.
