(* ===== verification/Lifecycle.v ===== *)
(** The life of the program's objects over any number of reconciliations, cut
    off anywhere: the phases each of them goes through, and how often its
    results are counted. The theorems speak of executions whose reads are
    [Crash.current]; what a single reconciliation may write, whatever it has
    read, is in the files of the controllers. *)

From S2P Require Import Prelude.
From S2P Require Import GoLib.
From S2P Require Import Api.
From S2P Require Import Effects.
From S2P Require Import Helpers.
From S2P Require Import PruneDeleted.
From S2P Require Import Crash.
From S2P Require TestController.
From S2P Require TestRunController.
From S2P Require TestSuiteController.

(** * The phases *)

#[export] Instance Test_Phased : Phased KTest := {|
  phase_of := (λ t, test_Phase (test_Status t)) : obj KTest → string;
  phase_of_SetFinalizers _ _ := eq_refl |}.

#[export] Instance TestRun_Phased : Phased KTestRun := {|
  phase_of := (λ r, run_Phase (run_Status r)) : obj KTestRun → string;
  phase_of_SetFinalizers _ _ := eq_refl |}.

#[export] Instance TestSuite_Phased : Phased KTestSuite := {|
  phase_of := (λ s, suite_Phase (suite_Status s)) : obj KTestSuite → string;
  phase_of_SetFinalizers _ _ := eq_refl |}.

(** An object the server has just created. *)
Definition created_store : store := mkStore [""] [].

Lemma cleanup_quiet k e : is_cleanup k e → quiet e.
Proof. destruct e as [[] r]; done. Qed.

Lemma patch_quiet k e : is_patch k e → quiet e.
Proof. destruct e as [[] r]; done. Qed.

Section cleanup_quiet.
Context `{AM : !ApiMachinery} {k : kind} `{!ClientObject k}.

Lemma removeFinalizer_quiet f (o : obj k) : wp any (removeFinalizer f o) (safe quiet).
Proof. apply removeFinalizer_safe, cleanup_quiet. Qed.

Lemma cleanUp_quiet f (o : obj k) : wp any (cleanUp f o) (safe quiet).
Proof. apply cleanUp_safe, cleanup_quiet. Qed.

Lemma cleanUpAll_quiet f (items : list (obj k)) :
  wp any (cleanUpAll f (GetObjects items) items) (safe quiet).
Proof. apply cleanUpAll_safe; [apply cleanup_quiet|apply GetObjects_NoDup|apply GetObjects_lt]. Qed.

Lemma pruneDeleted_quiet f (items : list (obj k)) : wp any (pruneDeleted f items) (safe quiet).
Proof. apply pruneDeleted_safe, patch_quiet. Qed.

End cleanup_quiet.

#[local] Hint Resolve removeFinalizer_quiet cleanUp_quiet cleanUpAll_quiet pruneDeleted_quiet : konfirm.

(** * Tests *)

Module TestLife.
Import TestController.

Section life.
Context `{AM : !ApiMachinery}.
Context (ErrRequeueDelay : Z).
Implicit Types (test : Test) (pods : list Pod) (s : store).

(** The Test moved along [phase_step], and its result was counted once at
    most, when it was stored. *)
Definition Inv (s : store) : Prop :=
  history phase_step (trail s) ∧
  (counts s = [] ∨
   TestPhase_IsFinal (stored s) = true ∧ counts s = option_list (counter_of (stored s))).

Abbreviation fine := (fine (serves KTest) Inv).
Abbreviation cwp := (cwp (serves KTest) Inv).

(** A status patch of a Test that is not final. *)
Lemma Inv_merge orig new s :
  Inv s → phase_of (k:=KTest) orig = stored s →
  phase_step (stored s) (phase_of (k:=KTest) new) → TestPhase_IsFinal (stored s) = false →
  let s' := mkStore (merge_phase (k:=KTest) orig new (trail s)) (counts s) in
  Inv s' ∧ counts s = [] ∧ stored s' = phase_of (k:=KTest) new.
Proof.
  intros [Hh Hc] Ho Hstep Hf.
  assert (counts s = []) as Hn by (destruct Hc as [|[? _]]; congruence).
  assert (stored (mkStore (merge_phase (k:=KTest) orig new (trail s)) (counts s)) =
    phase_of (k:=KTest) new) as Hst.
  { unfold stored, merge_phase. simpl. case_bool_decide as Heq; [|apply hd_write_phase].
    simpl in *. unfold stored in Ho. congruence. }
  split_and!; [|done|done]. split; [|by left].
  unfold merge_phase. simpl. case_bool_decide; [done|]. by apply history_write.
Qed.

Lemma test_cwp_status_step orig new s (Q : store → outcome (option error * Test) → Prop) :
  Inv s → phase_of (k:=KTest) orig = stored s →
  phase_step (stored s) (phase_of (k:=KTest) new) → TestPhase_IsFinal (stored s) = false →
  (∀ s' e o, Inv s' → Q s' (Done (Some e, o))) →
  (∀ s' o, Inv s' → counts s' = [] → stored s' = phase_of (k:=KTest) new →
     phase_of (k:=KTest) o = stored s' → Q s' (Done (None, o))) →
  cwp (Status_Patch (k:=KTest) new orig) s Q.
Proof.
  intros HI Ho Hstep Hf He Hok. apply cwp_status; [done|].
  destruct (Inv_merge orig new s HI Ho Hstep Hf) as (HI' & Hn & Hst).
  intros tr [->| ->]; cbn zeta.
  - destruct s as [tr cn]. split_and!; [done|auto|].
    intros Heq o' Ho'. apply Hok; [done|done| |done].
    cbn [trail] in Heq. rewrite <-Hst. unfold stored. cbn [trail]. by rewrite <-Heq.
  - split_and!; [done|auto|]. intros _ o' Ho'. by apply Hok.
Qed.

(** Counting the result that was just stored. *)
Lemma fine_count {A} m labels (f : unit → prog A) s :
  Inv s → counts s = [] → TestPhase_IsFinal (stored s) = true → counter_of (stored s) = Some m →
  (∀ s', Inv s' → fine (f tt) s') →
  fine (bind (Metric (Inc m labels)) f) s.
Proof.
  intros HI Hn Hf Hm HQ. apply fine_bind.
  assert (Inv (mkStore (trail s) (counts s ++ [m]))) as HI'.
  { destruct HI as [Hh _]. split; [done|]. right. split; [done|].
    change (counts s ++ [m] = option_list (counter_of (stored s))). by rewrite Hn, Hm. }
  apply cwp_inc; [done..|]. auto.
Qed.

Lemma test_fine_event {A} (k : kind) (o : obj k) ty re ms (a : A) s :
  Inv s → fine (bind (Recorder_Event o ty re ms) (λ _, Ret a)) s.
Proof.
  intros HI. apply fine_quiet_safe; [done|]. wp_safe.
Qed.

Lemma fine_followPod test pod s :
  Inv s → phase_of (k:=KTest) test = stored s → TestPhase_IsFinal (stored s) = false →
  fine (followPod ErrRequeueDelay test pod) s.
Proof.
  intros HI Ho Hf. unfold followPod.
  repeat (case_bool_decide; cbn [negb]); try done.
  all: apply fine_bind, test_cwp_status_step; [done|done| |done|..].
  - rewrite <-Ho. by apply step_starting; [rewrite Ho|].
  - intros s' e o HI'. by apply test_fine_event.
  - intros s' o HI' _ _ _. by apply test_fine_event.
  - rewrite <-Ho. by apply step_running; [rewrite Ho|].
  - done.
  - done.
  - by apply step_passed.
  - done.
  - intros s' o HI' Hn Hst _. apply fine_count; [done|done|by rewrite Hst|by rewrite Hst|].
    intros s'' HI''. by apply test_fine_event.
  - by apply step_failed.
  - done.
  - intros s' o HI' Hn Hst _. apply fine_count; [done|done|by rewrite Hst|by rewrite Hst|].
    intros s'' HI''. by apply test_fine_event.
Qed.

Lemma selectPod_quiet pods : wp any (selectPod ErrRequeueDelay pods) (safe quiet).
Proof. eapply safe_mono; [apply cleanup_quiet|apply selectPod_tidy]. Qed.

Lemma ensurePod_quiet test pod : wp any (ensurePod ErrRequeueDelay test pod) (safe quiet).
Proof. unfold ensurePod. wp_safe. Qed.

Lemma test_fine_isRunning test pods s :
  Inv s → phase_of (k:=KTest) test = stored s → TestPhase_IsFinal (stored s) = false →
  fine (isRunning ErrRequeueDelay test pods) s.
Proof.
  intros HI Ho Hf. unfold isRunning. apply fine_func, fine_bind_fn.
  eapply cwp_mono; [|apply cwp_quiet_safe; [done|apply selectPod_quiet]].
  intros s' [[r|pod]|?] _ ->; [done| |done]. apply fine_bind_fn.
  eapply cwp_mono; [|apply cwp_quiet_safe; [done|apply ensurePod_quiet]].
  intros s' [[r|p]|?] _ ->; [done| |done]. by apply fine_lift, fine_followPod.
Qed.

Lemma cleanUpPods_quiet pods errs : wp any (cleanUpPods (seq 0 (length pods)) pods errs) (safe quiet).
Proof. eapply safe_mono; [apply cleanup_quiet|apply cleanUpPods_tidy]. Qed.

Lemma releaseDeletedPods_quiet pods errs :
  wp any (releaseDeletedPods (seq 0 (length pods)) pods errs) (safe quiet).
Proof. eapply safe_mono; [apply cleanup_quiet|apply releaseDeletedPods_tidy]. Qed.

#[local] Hint Resolve cleanUpPods_quiet releaseDeletedPods_quiet : konfirm.

Lemma test_isComplete_quiet test pods : wp any (isComplete ErrRequeueDelay test pods) (safe quiet).
Proof. unfold isComplete. wp_safe. Qed.

Lemma test_finalize_quiet test pods : wp any (finalize ErrRequeueDelay test pods) (safe quiet).
Proof. unfold finalize. wp_safe. Qed.

(** The phase of the Test after [ensurePhase] is the stored one. *)
Lemma test_cwp_ensurePhase test s :
  Inv s → phase_of (k:=KTest) test = stored s →
  cwp (ensurePhase ErrRequeueDelay test) s (λ s' r,
    match r with Done (inr test') => phase_of (k:=KTest) test' = stored s' | _ => True end).
Proof.
  intros HI Ho. unfold ensurePhase. case_bool_decide as Hp; [|done].
  assert (stored s = "") as Hs by (by rewrite <-Ho).
  apply cwp_bind_fn, cwp_lift, test_cwp_status_step; [done|done|rewrite Hs; constructor|by rewrite Hs|..].
  - done.
  - intros s' o HI' _ _ Ho'. done.
Qed.

Lemma test_fine_Reconcile req s : Inv s → fine (Reconcile ErrRequeueDelay req) s.
Proof.
  intros HI. unfold Reconcile. apply fine_func, (fine_get (k:=KTest)); [done|..].
  { intros e. by destruct (IgnoreNotFound _). }
  intros test Ho. do 2 (apply fine_quiet_bind; [done|by wp_safe|intros _]).
  apply fine_quiet_bind; [done|by wp_safe|]. intros [e|pods]; [done|].
  destruct (is_deleted _); [by apply fine_lift, fine_quiet_safe, test_finalize_quiet|].
  apply fine_lift_bind_fn. eapply cwp_mono; [|apply cwp_addFinalizer; [exact HI|exact Ho]].
  intros s' r _ (-> & b & err & test' & -> & Ho').
  destruct err as [e|]; [by destruct (IgnoreNotFound _)|].
  apply fine_bind_fn. eapply cwp_mono; [|apply test_cwp_ensurePhase; [exact HI|exact Ho']].
  intros s' [[r|t]|?] HI' Ht; [done| |done]. simpl in Ht.
  destruct (TestPhase_IsFinal _) eqn:Hf.
  - by apply fine_lift, fine_quiet_safe, test_isComplete_quiet.
  - apply fine_lift, test_fine_isRunning; [done|done|by rewrite <-Ht].
Qed.

End life.

Lemma test_history_final p l :
  history phase_step l → p ∈ tail l → TestPhase_IsFinal p = false.
Proof.
  induction 1 as [|p' q l Hl IH Hstep]; simpl; [by intros ?%elem_of_nil|].
  intros [->|Hin]%elem_of_cons; [|by apply IH]. by destruct Hstep.
Qed.

(** C18: however often a Test is reconciled, and wherever the controller crashes,
    with writes that fail or are stored and reported as failed, as long as
    every read is [current] and nobody else writes the phase: the Test moves
    along [phase_step] from the empty phase, a final phase is never left, and
    its result is counted at most once, by the counter of its final phase. The
    manager's cached client does not guarantee current reads; without them the
    result is counted again ([stale_reads_count_twice] of [Witnesses]). *)
Theorem test_lifecycle `{AM : !ApiMachinery} ErrRequeueDelay req s :
  attempts (serves KTest) (Reconcile ErrRequeueDelay req) created_store s →
  history phase_step (trail s) ∧
  (∀ p, p ∈ tail (trail s) → TestPhase_IsFinal p = false) ∧
  (counts s = [] ∨ ∃ m, counts s = [m] ∧ counter_of (stored s) = Some m).
Proof.
  intros Hs. assert (Inv s) as [Hh Hc].
  { eapply crash_invariant; [|exact Hs|split; [constructor|by left]].
    intros. by apply test_fine_Reconcile. }
  split_and!; [done|intros p; by apply test_history_final|].
  destruct Hc as [Hc|[_ Hc]]; [by left|].
  destruct (counter_of (stored s)) as [m|]; [right; by exists m|by left].
Qed.

End TestLife.

(** * Runs *)

Module RunLife.
Import TestRunController.

Section life.
Context `{AM : !ApiMachinery}.
Context (ErrRequeueDelay : Z).
Implicit Types (run : TestRun) (items : list Test) (s : store).

Definition Inv (s : store) : Prop := history run_step (trail s).

Abbreviation fine := (fine (serves KTestRun) Inv).
Abbreviation cwp := (cwp (serves KTestRun) Inv).

(** A status patch along [run_step], after which the run shows what is stored. *)
Lemma run_cwp_status_step orig new s (Q : store → outcome (option error * TestRun) → Prop) :
  Inv s → phase_of (k:=KTestRun) orig = stored s →
  run_step (stored s) (phase_of (k:=KTestRun) new) →
  (∀ s' e o, Inv s' → Q s' (Done (Some e, o))) →
  (∀ s' o, Inv s' → phase_of (k:=KTestRun) o = stored s' → Q s' (Done (None, o))) →
  cwp (Status_Patch (k:=KTestRun) new orig) s Q.
Proof.
  intros HI Ho Hstep He Hok. apply cwp_status; [done|].
  assert (Inv (mkStore (merge_phase (k:=KTestRun) orig new (trail s)) (counts s))) as HI'.
  { unfold Inv, merge_phase. cbn [trail]. case_bool_decide; [done|]. by apply history_write. }
  intros tr [->| ->]; cbn zeta.
  - destruct s as [tr cn]. split_and!; [done|auto|]. auto.
  - split_and!; [done|auto|]. auto.
Qed.

Lemma run_fine_event {A} (k : kind) (o : obj k) ty re ms (a : A) s :
  Inv s → fine (bind (Recorder_Event o ty re ms) (λ _, Ret a)) s.
Proof. intros HI. apply fine_quiet_safe; [done|]. wp_safe. Qed.

Lemma evaluateTests_quiet i mapped items run n :
  wp any (evaluateTests ErrRequeueDelay i mapped items run n) (guarded IndexOutOfRange quiet).
Proof.
  revert i run n. induction mapped as [|[p|] mapped IH]; intros i run n; cbn [evaluateTests];
    wp_safe.
Qed.

Lemma mapTests_quiet items maxIndex mapped :
  wp any (mapTests ErrRequeueDelay (seq 0 (length items)) maxIndex items mapped)
    (guarded IndexOutOfRange quiet).
Proof.
  eapply wp_mono; [|apply mapTests_wp, (GetObjects_lt (k:=KTest))].
  intros t o [Ht Ho]. split; [|by destruct o]. eapply Forall_impl; [exact Ht|apply cleanup_quiet].
Qed.

Lemma inProgress_phase run count n :
  phase_of (k:=KTestRun) (inProgress run count n) = TestRunRunning.
Proof. done. Qed.

Lemma completed_phase run n :
  phase_of (k:=KTestRun) (completed run n) =
    if decide (failures n = 0%Z) then TestRunPassed else TestRunFailed.
Proof. unfold completed. case_bool_decide; by case_decide. Qed.

Lemma fine_updateRun orig run count n s :
  Inv s → phase_of (k:=KTestRun) orig = stored s →
  TestRunPhase_IsFinal (stored s) = false →
  fine (updateRun ErrRequeueDelay orig run count n) s.
Proof.
  intros HI Ho Hf. unfold updateRun. case_bool_decide.
  - apply fine_bind, run_cwp_status_step; [done|done|rewrite inProgress_phase; by constructor|done|done].
  - apply fine_bind. eapply cwp_mono; [|apply cwp_quiet_safe; [done|]].
    2:{ case_bool_decide; by wp_safe. }
    intros s' [[]|?] _ ->; [|done].
    apply fine_bind, run_cwp_status_step; [done|done| |..].
    + rewrite completed_phase. by case_decide; constructor.
    + intros s' e o HI'. by destruct (IgnoreNotFound _).
    + done.
Qed.

Lemma run_fine_isRunning run items s :
  Inv s → phase_of (k:=KTestRun) run = stored s → TestRunPhase_IsFinal (stored s) = false →
  fine (isRunning ErrRequeueDelay run items) s.
Proof.
  intros HI Ho Hf. unfold isRunning. apply fine_func, fine_bind_fn.
  eapply cwp_mono; [|eapply cwp_quiet; [done|apply mapTests_quiet]].
  intros s' [[r|[items' mapped]]|?] _ ->; [done| |done]. apply fine_bind_fn.
  eapply cwp_mono; [|eapply cwp_quiet; [done|apply evaluateTests_quiet]].
  intros s' [[r|[run' n]]|?] _ ->; [done| |done]. by apply fine_lift, fine_updateRun.
Qed.

Lemma pruneTests_quiet items : wp any (pruneTests ErrRequeueDelay items) (safe quiet).
Proof. unfold pruneTests. wp_safe. Qed.

Lemma run_isComplete_quiet run items : wp any (isComplete ErrRequeueDelay run items) (safe quiet).
Proof. unfold isComplete. wp_safe. Qed.

Lemma run_finalize_quiet run items : wp any (finalize ErrRequeueDelay run items) (safe quiet).
Proof. unfold finalize. wp_safe. Qed.

Lemma run_cwp_ensureFinalizer run s :
  Inv s → phase_of (k:=KTestRun) run = stored s →
  cwp (ensureFinalizer ErrRequeueDelay run) s (λ s' r,
    match r with Done (inr run') => phase_of (k:=KTestRun) run' = stored s' | _ => True end).
Proof.
  intros HI Ho. unfold ensureFinalizer. destruct (_ && _); [|done].
  apply cwp_bind_fn, cwp_lift. eapply cwp_mono; [|apply cwp_addFinalizer; [exact HI|exact Ho]].
  intros s' r _ (-> & b & err & run' & -> & Ho').
  destruct err as [e|]; [by destruct (IgnoreNotFound _)|done].
Qed.

Lemma run_cwp_ensurePhase run s :
  Inv s → phase_of (k:=KTestRun) run = stored s →
  cwp (ensurePhase ErrRequeueDelay run) s (λ s' r,
    match r with Done (inr run') => phase_of (k:=KTestRun) run' = stored s' | _ => True end).
Proof.
  intros HI Ho. unfold ensurePhase. case_bool_decide as Hp; [|done].
  assert (stored s = "") as Hs by (by rewrite <-Ho).
  apply cwp_bind_fn, cwp_lift, run_cwp_status_step; [done|done|rewrite Hs; constructor|..].
  - intros s' e o HI'. by destruct (IgnoreNotFound _).
  - intros s' o HI' Ho'. apply cwp_bind_fn, cwp_lift.
    eapply cwp_mono; [|apply cwp_quiet_safe; [done|by wp_safe]]. by intros s'' [[]|?] _ ->.
Qed.

Lemma run_fine_Reconcile req s : Inv s → fine (Reconcile ErrRequeueDelay req) s.
Proof.
  intros HI. unfold Reconcile. apply fine_func, (fine_get (k:=KTestRun)); [done|..].
  { intros e. by destruct (IgnoreNotFound _). }
  intros run Ho. apply fine_quiet_bind; [done|by wp_safe|]. intros [e|items]; [done|].
  apply fine_bind_fn. eapply cwp_mono; [|apply run_cwp_ensureFinalizer; [exact HI|exact Ho]].
  intros s1 [[r|run1]|?] HI1 Ho1; [done| |done].
  apply fine_bind_fn. eapply cwp_mono; [|apply run_cwp_ensurePhase; [exact HI1|exact Ho1]].
  intros s2 [[r|run2]|?] HI2 Ho2; [done| |done].
  destruct (is_deleted _); [by apply fine_lift, fine_quiet_safe, run_finalize_quiet|].
  apply fine_bind_fn. eapply cwp_mono; [|apply cwp_quiet_safe; [done|apply pruneTests_quiet]].
  intros s3 [[r|items3]|?] _ ->; [done| |done].
  destruct (TestRunPhase_IsFinal _) eqn:Hf.
  - by apply fine_lift, fine_quiet_safe, run_isComplete_quiet.
  - apply fine_lift, run_fine_isRunning; [done|done|by rewrite <-Ho2].
Qed.

End life.

Lemma run_history_final p l :
  history run_step l → p ∈ tail l → TestRunPhase_IsFinal p = false.
Proof.
  induction 1 as [|p' q l Hl IH Hstep]; simpl; [by intros ?%elem_of_nil|].
  intros [->|Hin]%elem_of_cons; [|by apply IH]. by destruct Hstep.
Qed.

(** C19: however often a run is reconciled, and wherever the controller crashes or
    panics, as long as every read is [current], which the manager's cached
    client does not guarantee, and nobody else writes the phase: the run moves
    along [run_step] from the empty phase, and its verdict, once stored, never
    changes. *)
Theorem run_lifecycle `{AM : !ApiMachinery} ErrRequeueDelay req s :
  attempts (serves KTestRun) (Reconcile ErrRequeueDelay req) created_store s →
  history run_step (trail s) ∧
  (∀ p, p ∈ tail (trail s) → TestRunPhase_IsFinal p = false).
Proof.
  intros Hs. assert (Inv s) as Hh.
  { eapply crash_invariant; [|exact Hs|constructor]. intros. by apply run_fine_Reconcile. }
  split; [done|]. intros p. by apply run_history_final.
Qed.

End RunLife.

(** * Suites *)

(** How often a trail went from Running to Ready. *)
Fixpoint completions (l : list string) : nat :=
  match l with
  | q :: l =>
      (if (q == TestSuiteReady) && (hd "" l == TestSuiteRunning) then 1 else 0) + completions l
  | [] => 0
  end.

Lemma completions_write q l : completions l ≤ completions (write_phase q l).
Proof. unfold write_phase. case_bool_decide; simpl; lia. Qed.

Module SuiteLife.
Import TestSuiteController.

Section life.
Context `{AM : !ApiMachinery} `{SS : !SortSlice}.
Context (ErrRequeueDelay : Z) (CronParser : string → error + Schedule_).
Context (spew : TestRunSpec → string) (enc : string → string).
Implicit Types (suite : TestSuite) (runs : list TestRun) (s : store).

(** The suite moved along [suite_step], and counted no more runs than it
    completed. *)
Definition Inv (s : store) : Prop :=
  history suite_step (trail s) ∧ length (counts s) ≤ completions (trail s).

Abbreviation fine := (fine (serves KTestSuite) Inv).
Abbreviation cwp := (cwp (serves KTestSuite) Inv).
Abbreviation phase := (phase_of (k:=KTestSuite)).

(** The suite a step hands on shows what is stored. *)
Definition tracks s (r : outcome ((Result * option error) + TestSuite)) : Prop :=
  match r with Done (inr suite) => phase suite = stored s | _ => True end.

Lemma suite_cwp_status_step orig new s (Q : store → outcome (option error * TestSuite) → Prop) :
  Inv s → phase orig = stored s → suite_step (stored s) (phase new) →
  (∀ s' e, Inv s' → stored s' = stored s ∨ stored s' = phase new → Q s' (Done (Some e, new))) →
  (∀ s' o, Inv s' → trail s' = merge_phase (k:=KTestSuite) orig new (trail s) →
     counts s' = counts s → stored s' = phase new → phase o = stored s' → Q s' (Done (None, o))) →
  cwp (Status_Patch (k:=KTestSuite) new orig) s Q.
Proof.
  intros HI Ho Hstep He Hok. apply cwp_status; [done|].
  assert (Inv (mkStore (merge_phase (k:=KTestSuite) orig new (trail s)) (counts s)) ∧
    stored (mkStore (merge_phase (k:=KTestSuite) orig new (trail s)) (counts s)) = phase new)
    as [HI' Hst].
  { destruct HI as [Hh Hc]. unfold Inv, merge_phase, stored. cbn [trail counts].
    case_bool_decide as Heq.
    - split; [done|]. unfold stored in Ho. congruence.
    - split; [split; [by apply history_write|]|apply hd_write_phase].
      pose proof (completions_write (phase new) (trail s)). lia. }
  intros tr [->| ->]; cbn zeta.
  - destruct s as [tr cn]. split_and!; [done|auto|].
    intros Heq o' Ho'. apply Hok; [done|done|done| |done].
    cbn [trail] in Heq. rewrite <-Hst. unfold stored. cbn [trail]. by rewrite <-Heq.
  - split_and!; [done|auto|]. auto.
Qed.

Lemma cwp_status_or_later orig new s :
  Inv s → phase orig = stored s → suite_step (stored s) (phase new) →
  cwp (status_or_later ErrRequeueDelay orig new) s (λ s' r,
    tracks s' r ∧ match r with
    | Done (inr o) => stored s' = phase new ∧ counts s' = counts s ∧
        trail s' = merge_phase (k:=KTestSuite) orig new (trail s)
    | _ => True
    end).
Proof.
  intros HI Ho Hstep. unfold status_or_later. apply cwp_bind_fn, cwp_lift.
  by apply suite_cwp_status_step.
Qed.

(** The same when only [tracks] is needed. *)
Lemma cwp_status_tracks orig new s :
  Inv s → phase orig = stored s → suite_step (stored s) (phase new) →
  cwp (status_or_later ErrRequeueDelay orig new) s tracks.
Proof.
  intros HI Ho Hstep. eapply cwp_mono; [|by apply cwp_status_or_later]. by intros s' r _ [? _].
Qed.

Lemma cwp_patch_or_later orig suite s :
  Inv s → phase suite = stored s →
  cwp (patch_or_later ErrRequeueDelay orig suite) s (λ s' r, s' = s ∧ tracks s r).
Proof.
  intros HI Ho. unfold patch_or_later. apply cwp_bind_fn, cwp_lift.
  eapply cwp_mono; [|apply cwp_patch; [exact HI|exact Ho]].
  intros s' r _ (-> & err & o & -> & Ho'). by destruct err.
Qed.

Lemma cwp_patch_tracks orig suite s :
  Inv s → phase suite = stored s → cwp (patch_or_later ErrRequeueDelay orig suite) s tracks.
Proof.
  intros HI Ho. eapply cwp_mono; [|by apply cwp_patch_or_later]. by intros s' r _ [-> ?].
Qed.

Lemma cwp_tracks_ret suite s : Inv s → phase suite = stored s → cwp (next suite) s tracks.
Proof. done. Qed.

(** Sequencing of steps that hand on the suite. *)
Lemma cwp_tracks_bind (m : fn (Result * option error) TestSuite) f s :
  cwp m s tracks →
  (∀ suite s, Inv s → phase suite = stored s → cwp (f suite) s tracks) →
  cwp (bind_fn m f) s tracks.
Proof.
  intros Hm Hf. apply cwp_bind_fn. eapply cwp_mono; [|exact Hm].
  intros s' [[r|suite]|?] HI Ht; [done| |done]. by apply Hf.
Qed.

Lemma fine_tracks_bind {B} (m : fn (Result * option error) TestSuite)
    (f : TestSuite → fn (Result * option error) B) s :
  cwp m s tracks →
  (∀ suite s, Inv s → phase suite = stored s → fine (f suite) s) →
  fine (bind_fn m f) s.
Proof.
  intros Hm Hf. apply fine_bind_fn. eapply cwp_mono; [|exact Hm].
  intros s' [[r|suite]|?] HI Ht; [done| |done]. by apply Hf.
Qed.

Lemma step_same s suite : phase suite = stored s → suite_step (stored s) (phase suite).
Proof. intros ->. constructor. Qed.

Lemma suite_cwp_ensureFinalizer suite s :
  Inv s → phase suite = stored s → cwp (ensureFinalizer ErrRequeueDelay suite) s tracks.
Proof.
  intros HI Ho. unfold ensureFinalizer. apply cwp_bind_fn, cwp_lift.
  eapply cwp_mono; [|apply cwp_addFinalizer; [exact HI|exact Ho]].
  intros s' r _ (-> & b & err & suite' & -> & Ho'). by destruct err.
Qed.

Lemma cwp_handleSchedule suite s :
  Inv s → phase suite = stored s → cwp (handleSchedule ErrRequeueDelay suite) s tracks.
Proof.
  intros HI Ho. unfold handleSchedule. destruct (_ != _).
  - destruct (_ != _); [|by apply cwp_tracks_ret].
    destruct (NextRun _); [|by apply cwp_tracks_ret].
    apply cwp_bind_fn, cwp_lift, suite_cwp_status_step; [done|done|by apply step_same|..].
    + intros s' e HI' Hst. split; [done|]. simpl. destruct Hst as [->| ->]; done.
    + done.
  - destruct (map_get_ok _ _) as [? []]; apply cwp_bind_fn.
    + eapply cwp_mono; [|by apply cwp_patch_or_later].
      intros s' [[r|suite']|?] _ [-> Ho']; [done| |done].
      by apply cwp_status_tracks; [..|apply step_same].
    + split; [done|]. by apply cwp_status_tracks; [..|apply step_same].
Qed.

Lemma cwp_handleHelmTrigger suite s :
  Inv s → phase suite = stored s → cwp (handleHelmTrigger suite) s tracks.
Proof.
  intros HI Ho. unfold handleHelmTrigger. rewrite assign_make.
  destruct (_ != _); [|by apply cwp_tracks_ret].
  destruct (_ != _); [|by apply cwp_tracks_ret].
  apply cwp_next_bind_fn, cwp_bind_fn, cwp_lift. eapply cwp_mono; [|apply cwp_patch; [exact HI|exact Ho]].
  intros s' r _ (-> & err & o & -> & Ho'). by apply cwp_tracks_ret.
Qed.

Lemma cwp_followRuns runs suite s :
  Inv s → phase suite = stored s → cwp (followRuns ErrRequeueDelay runs suite) s tracks.
Proof.
  revert suite s. induction runs as [|run runs IH]; intros suite s HI Ho; cbn [followRuns]; [done|].
  destruct (negb _); [|by apply IH].
  apply cwp_tracks_bind; [apply cwp_status_tracks; [done|done|constructor]|]. apply IH.
Qed.

Lemma suite_cwp_ensurePhase suite runs s :
  Inv s → phase suite = stored s → cwp (ensurePhase ErrRequeueDelay suite runs) s tracks.
Proof.
  intros HI Ho. unfold ensurePhase. destruct (negb _); [|by apply cwp_tracks_ret].
  apply cwp_tracks_bind; [by apply cwp_followRuns|]. intros suite' s' HI' Ho'.
  case_bool_decide as Hp; [|by apply cwp_tracks_ret].
  apply cwp_status_tracks; [done|done|]. rewrite <-Ho'. simpl. rewrite Hp. constructor.
Qed.

Lemma cwp_ensureReady suite s :
  Inv s → phase suite = stored s → cwp (ensureReady ErrRequeueDelay suite) s tracks.
Proof.
  intros HI Ho. unfold ensureReady. case_bool_decide as Hp; [|by apply cwp_tracks_ret].
  apply cwp_status_tracks; [done|done|]. rewrite <-Ho. simpl. rewrite Hp. constructor.
Qed.

Lemma cwp_activateSchedule suite s :
  Inv s → phase suite = stored s →
  cwp (activateSchedule ErrRequeueDelay CronParser suite) s (λ s' r,
    match r with Done (inr (suite', _)) => phase suite' = stored s' | _ => True end).
Proof.
  intros HI Ho. unfold activateSchedule. destruct (_ != _); [|done].
  apply cwp_bind_fn. apply cwp_mono with (Q := tracks).
  2:{ destruct (_ != _); [|by apply cwp_tracks_ret]. rewrite assign_make. by apply cwp_next_bind_fn, cwp_patch_tracks. }
  intros s1 [[r|suite1]|?] HI1 Ho1; [done| |done].
  destruct (CronParser _) as [e|sched].
  - apply cwp_bind_fn, cwp_lift, suite_cwp_status_step; [done|exact Ho1|by apply step_same|..].
    + intros s' e' HI' Hst. split; [done|]. simpl. destruct Hst as [->| ->]; done.
    + done.
  - destruct (NextRun _); [done|].
    apply cwp_bind_fn, cwp_lift. eapply cwp_mono; [|apply cwp_quiet_safe; [done|by wp_safe]].
    intros s' [now|?] _ ->; [|done]. apply cwp_next_bind_fn, cwp_bind_fn.
    eapply cwp_mono; [|apply cwp_status_tracks; [done|exact Ho1|by apply step_same]].
    by intros s' [[r|suite']|?] HI' Ho'.
Qed.

Lemma currentHelmRelease_quiet suite :
  wp any (currentHelmRelease ErrRequeueDelay suite) (safe quiet).
Proof. unfold currentHelmRelease, exported. wp_safe. Qed.

(** The trigger remembers the suite before its patch, which has the same phase. *)
Definition triggers s (r : outcome ((Result * option error) + (testSuiteTrigger * TestSuite))) : Prop :=
  match r with
  | Done (inr (trigger, suite)) => phase (Patch trigger) = stored s ∧ phase suite = stored s
  | _ => True
  end.

Lemma cwp_patch_triggers trigger suite s :
  Inv s → phase suite = stored s → phase (Patch trigger) = stored s →
  cwp (let! suite := patch_or_later ErrRequeueDelay (Patch trigger) suite in
       next (trigger, suite)) s triggers.
Proof.
  intros HI Ho Ht. apply cwp_bind_fn. eapply cwp_mono; [|by apply cwp_patch_or_later].
  by intros s' [[r|suite']|?] _ [-> Ho'].
Qed.

Lemma cwp_scheduleTrigger suite n schedule s :
  Inv s → phase suite = stored s →
  cwp (scheduleTrigger ErrRequeueDelay suite n schedule) s triggers.
Proof.
  intros HI Ho. unfold scheduleTrigger.
  apply cwp_bind_fn, cwp_lift. eapply cwp_mono; [|apply cwp_quiet_safe; [done|by wp_safe]].
  intros s' [now|?] _ ->; [|done]. case_bool_decide; [done|]. case_bool_decide; [|done].
  apply cwp_bind_fn, cwp_lift. eapply cwp_mono; [|apply cwp_quiet_safe; [done|by wp_safe]].
  intros s' [now'|?] _ ->; [|done].
  destruct schedule as [sched|]; [|done]. apply cwp_next_bind_fn, cwp_bind_fn.
  eapply cwp_mono; [|apply cwp_status_tracks; [done|exact Ho|by apply step_same]].
  intros s' [[r|suite']|?] HI' _; [done| |done].
  apply cwp_bind_fn, cwp_lift. eapply cwp_mono; [|apply cwp_quiet_safe; [done|by wp_safe]].
  by intros s'' [now''|?] _ ->.
Qed.

Lemma cwp_determineTrigger suite release schedule s :
  Inv s → phase suite = stored s →
  cwp (determineTrigger ErrRequeueDelay suite release schedule) s triggers.
Proof.
  intros HI Ho. unfold determineTrigger. destruct (NeedsRun _); [by apply cwp_patch_triggers|].
  assert (∀ n, cwp (scheduleTrigger ErrRequeueDelay suite n schedule) s triggers)
    by (intros; by apply cwp_scheduleTrigger).
  destruct release as [release|].
  - destruct (isNewRelease _ _); [|by destruct (NextRun _)].
    unfold helmTrigger. rewrite assign_make. by apply cwp_next_bind_fn, cwp_patch_triggers.
  - by destruct (NextRun _).
Qed.

Lemma fine_startRun trigger suite s :
  Inv s → phase (Patch trigger) = stored s → fine (startRun ErrRequeueDelay trigger suite) s.
Proof.
  intros HI Ht. unfold startRun.
  apply fine_tracks_bind; [apply cwp_status_tracks; [done|exact Ht|constructor]|].
  intros suite' s' HI' _. apply fine_quiet_bind; [done|by wp_safe|done].
Qed.

Lemma enforceHistoryLimit_quiet suite runs :
  wp any (enforceHistoryLimit ErrRequeueDelay suite runs) (safe quiet).
Proof.
  assert (∀ n, wp any (cleanUpAll (k:=KTestRun) TestSuiteControllerFinalizer
    (take n (GetObjects (k:=KTestRun) runs)) runs) (safe quiet)).
  { intros n. apply cleanUpAll_safe;
      [apply cleanup_quiet|apply take_GetObjects_NoDup|apply take_GetObjects_lt]. }
  unfold enforceHistoryLimit. wp_safe.
Qed.

Lemma fine_notRunning suite runs s :
  Inv s → phase suite = stored s →
  fine (notRunning ErrRequeueDelay CronParser suite runs) s.
Proof.
  intros HI Ho. unfold notRunning. apply fine_func, fine_tracks_bind; [by apply cwp_ensureReady|].
  clear suite s HI Ho. intros suite s HI Ho. apply fine_bind_fn.
  eapply cwp_mono; [|apply cwp_quiet_safe; [done|apply enforceHistoryLimit_quiet]].
  intros s' [[r|runs']|?] _ ->; [done| |done]. apply fine_bind_fn.
  eapply cwp_mono; [|by apply cwp_activateSchedule].
  clear suite s HI Ho. intros s [[r|[suite schedule]]|?] HI Ho; [done| |done]. apply fine_bind_fn.
  eapply cwp_mono; [|apply cwp_quiet_safe; [done|apply currentHelmRelease_quiet]].
  intros s' [[r|release]|?] _ ->; [done| |done]. apply fine_lift, fine_func, fine_bind_fn.
  eapply cwp_mono; [|by apply cwp_determineTrigger].
  intros s' [[r|[trigger suite']]|?] HI' Ht; [done| |done]. by apply fine_startRun; [|apply Ht].
Qed.

(** A finished run: the suite is Ready before the run is counted. *)
Lemma fine_finishRun suite run s :
  Inv s → phase suite = stored s → stored s = TestSuiteRunning →
  fine (finishRun ErrRequeueDelay suite run) s.
Proof.
  intros HI Ho Hrun. unfold finishRun. destruct (_ || _); [|done]. apply fine_bind_fn.
  eapply cwp_mono; [|apply cwp_status_or_later; [done|exact Ho|rewrite Hrun; constructor]].
  intros s' [[r|suite']|?] HI' (_ & Hs'); [done| |done]. destruct Hs' as (_ & Hc & Ht).
  assert (trail s' = TestSuiteReady :: trail s) as Htr.
  { rewrite Ht. unfold merge_phase, write_phase. unfold stored in Hrun, Ho. simpl in Ho |- *.
    rewrite Ho, Hrun. done. }
  assert (completions (trail s') = S (completions (trail s))) as Hcomp.
  { rewrite Htr. simpl. unfold stored in Hrun. by rewrite Hrun. }
  apply fine_lift_bind_fn, cwp_inc; [done|..].
  - split; [apply HI'|]. cbn [counts trail]. rewrite length_app, Hc, Hcomp.
    destruct HI as [_ HI]. simpl. lia.
  - apply fine_quiet_safe; [|wp_safe]. split; [apply HI'|]. cbn [counts trail].
    rewrite length_app, Hc, Hcomp. destruct HI as [_ HI]. simpl. lia.
Qed.

Lemma suite_fine_isRunning suite runs s :
  Inv s → phase suite = stored s → stored s = TestSuiteRunning →
  fine (isRunning ErrRequeueDelay spew enc suite runs) s.
Proof.
  intros HI Ho Hrun. unfold isRunning. apply fine_func. destruct (_ != _).
  - destruct (findRun _ _); [by apply fine_finishRun|done].
  - unfold createRun. apply fine_lift_bind_fn.
    eapply cwp_mono; [|apply cwp_quiet_safe; [done|by wp_safe]].
    intros s' [[[e|] run]|?] _ ->; [done| |done]. apply fine_quiet_bind; [done|by wp_safe|intros _].
    apply fine_tracks_bind; [by apply cwp_status_tracks; [..|apply step_same]|done].
Qed.

Lemma suite_fine_Reconcile req s :
  Inv s → fine (Reconcile ErrRequeueDelay CronParser spew enc req) s.
Proof.
  intros HI. unfold Reconcile. apply fine_func, (fine_get (k:=KTestSuite)); [done|..].
  { intros e. by destruct (IgnoreNotFound _). }
  intros suite Ho. apply fine_quiet_bind; [done|unfold initMetrics; by wp_safe|intros _].
  apply fine_quiet_bind; [done|by wp_safe|]. intros [e|runs]; [done|].
  destruct (is_deleted _).
  { apply fine_lift, fine_quiet_safe; [done|]. unfold finalize. wp_safe. }
  apply fine_tracks_bind; [by apply suite_cwp_ensureFinalizer|]. clear suite s HI Ho. intros suite s HI Ho.
  apply fine_tracks_bind; [by apply cwp_handleSchedule|]. clear suite s HI Ho. intros suite s HI Ho.
  apply fine_tracks_bind; [by apply cwp_handleHelmTrigger|]. clear suite s HI Ho. intros suite s HI Ho.
  apply fine_bind_fn. eapply cwp_mono; [|apply cwp_quiet_safe; [done|unfold pruneRuns; by wp_safe]].
  intros s' [[r|runs']|?] _ ->; [done| |done].
  apply fine_tracks_bind; [by apply suite_cwp_ensurePhase|]. clear suite s HI Ho. intros suite s HI Ho.
  destruct (TestSuitePhase_IsRunning _) eqn:Hph; apply fine_lift.
  - apply suite_fine_isRunning; [done|done|]. rewrite <-Ho. by apply eqb_true.
  - by apply fine_notRunning.
Qed.

End life.

(** C20: however often a suite is reconciled, and wherever the controller crashes
    or panics, as long as every read is [current], which the manager's cached
    client does not guarantee, and nobody else writes the phase: the suite moves
    along [suite_step] from the empty phase, and the number of runs counted is
    at most the number of times it went from Running to Ready. *)
Theorem suite_lifecycle `{AM : !ApiMachinery} `{SS : !SortSlice}
    ErrRequeueDelay CronParser spew enc req s :
  attempts (serves KTestSuite) (Reconcile ErrRequeueDelay CronParser spew enc req) created_store s →
  history suite_step (trail s) ∧ length (counts s) ≤ completions (trail s).
Proof.
  intros Hs. eapply (crash_invariant (serves KTestSuite) Inv); [|exact Hs|].
  - intros. by apply suite_fine_Reconcile.
  - split; [constructor|]. simpl. lia.
Qed.

End SuiteLife.
