(* ===== verification/Cluster.v ===== *)
(** An object and the children its controller creates for it: a run and its
    Tests, a Test and its pods.

    [Crash] says what the server keeps of one object. Here it keeps the
    object, the parent, and all of its children, which others move on while
    the controller works. [settles] is how an exchange of the controller
    changes that. A write that fails may have been stored, and a child may move
    between any two exchanges; others may delete children if the family says
    so.

    Three things are assumed, which neither the API server nor the manager's
    client guarantees: [current], that a read of the parent shows what is
    stored and a listing knows every child that is not being deleted (the
    client is a cache, and may lag behind); that as long as the parent has no
    verdict nobody else writes or deletes it; and that nobody else creates
    children for it. The theorems of [Verdicts] and [System] speak of
    executions in which that is so. *)

From S2P Require Import Prelude.
From S2P Require Import GoLib.
From S2P Require Import Api.
From S2P Require Import Effects.
From S2P Require Import Helpers.
From S2P Require Import PruneDeleted.
From S2P Require Import Crash.

(** A kind of parents and the kind of their children: what a status patch
    keeps of the parent, which phases of it are verdicts, how the phase of a
    child moves, and whether others may delete a child. *)
Class Family (P K : kind) `{Phased P} `{Phased K} := {
  Spec : Type;
  spec_of : obj P → Spec;
  decisive : string → bool;
  child_step : string → string → Prop;
  deletable : bool }.

Section cluster.
Context `{AM : !ApiMachinery} {P K : kind} `{Family P K}.

(** The stored parent, all children that were ever created for it, and the
    verdict with those children at the time it was stored. A child that has been removed
    from the server stays here, as one that is deleted. *)
Record cluster := mkCluster {
  parent : obj P;
  children : list (obj K);
  decided : option (string * list (obj K)) }.

Implicit Types (c : cluster) (o : obj K) (p : obj P).

Abbreviation phaseP := (phase_of (k:=P)).
Abbreviation phaseK := (phase_of (k:=K)).

(** A child that was moved on by others. Deletion is for good. *)
Definition moved o o' : Prop :=
  (GetName o' = GetName o ∧ GenerateName (GetObjectMeta o') = GenerateName (GetObjectMeta o)) ∧
  (is_deleted o' = is_deleted o ∨ deletable = true ∧ is_deleted o' = true) ∧
  rtc child_step (phaseK o) (phaseK o').

(** [o] is what some child was like at some time. *)
Definition shown o (ts : list (obj K)) : Prop := ∃ o', o' ∈ ts ∧ moved o o'.

Definition gone o : Prop := is_deleted o = true.

(** A listing of the children [ts]: each item is what one of them was like at
    some time, and every child is listed that is not being deleted. *)
Definition listing (items ts : list (obj K)) : Prop :=
  ∃ l current dead, items ≡ₚ l ∧ ts ≡ₚ current ++ dead ∧ Forall gone dead ∧ Forall2 moved l current.

(** What others are assumed to do at any time: move the children on, and anything to
    the children and the metadata of the parent once there is a verdict. *)
Definition others c c' : Prop :=
  decided c' = decided c ∧
  match decided c with
  | None => parent c' = parent c ∧ Forall2 moved (children c) (children c')
  | Some _ => phaseP (parent c') = phaseP (parent c)
  end.

(** The child the server makes of the one it was sent. *)
Definition born o o' : Prop :=
  GenerateName (GetObjectMeta o') = GenerateName (GetObjectMeta o) ∧
  is_deleted o' = false ∧ rtc child_step "" (phaseK o').

Definition add_child o c : cluster := mkCluster (parent c) (o :: children c) (decided c).

(** A patch of the parent's metadata. *)
Definition write_meta c c' : Prop :=
  spec_of (parent c') = spec_of (parent c) ∧ phaseP (parent c') = phaseP (parent c) ∧
  GetName (parent c') = GetName (parent c) ∧
  is_deleted (parent c') = is_deleted (parent c) ∧
  children c' = children c ∧ decided c' = decided c.

(** A patch of its status, from [orig] to [new]: what the two have in common
    is not part of the patch. *)
Definition write_status (orig new : obj P) c c' : Prop :=
  spec_of (parent c') = spec_of (parent c) ∧
  GetObjectMeta (parent c') = GetObjectMeta (parent c) ∧
  phaseP (parent c') = (if phaseP new == phaseP orig then phaseP (parent c) else phaseP new) ∧
  children c' = children c ∧
  decided c' =
    match decided c with
    | Some v => Some v
    | None => if decisive (phaseP (parent c')) then Some (phaseP (parent c'), children c) else None
    end.

(** The answer to a write [w] of the parent: the parent as it is stored, or
    an error, and then the write may have been stored all the same. As long
    as there is no verdict the parent exists. *)
Definition answered {k : kind} (w : cluster → cluster → Prop) c c' (r : error + obj k) : Prop :=
  match r with
  | inl e => (c' = c ∨ w c c') ∧ (decided c = None → IsNotFound e = false)
  | inr p => w c c' ∧ as_kind P p = Some (parent c')
  end.

(** A call to delete or patch a child: children that may be deleted only move,
    others may be changed in any way. *)
Definition touched c c' : Prop :=
  parent c' = parent c ∧ decided c' = decided c ∧
  (deletable = true → decided c = None → Forall2 moved (children c) (children c')).

(** How an exchange of the controller changes the cluster. *)
Definition written c (e : event) c' : Prop :=
  match e with
  | Ev call r =>
      match call return reply call → Prop with
      | CCreate k o => λ r,
          match as_kind K o with
          | None => c' = c
          | Some o =>
              match r with
              | inl _ => c' = c ∨ ∃ o', born o o' ∧ c' = add_child o' c
              | inr o1 => ∃ o', as_kind K o1 = Some o' ∧ born o o' ∧ c' = add_child o' c
              end
          end
      | CDelete k o => λ _, touched c c'
      | CPatch k _ new => λ r,
          match as_kind P new with
          | Some _ => answered write_meta c c' r
          | None => touched c c' ∧ (deletable = true → decided c = None →
              ∀ (x : obj k) o, r = inr x → as_kind K x = Some o → shown o (children c'))
          end
      | CStatusPatch k orig new => λ r,
          match as_kind P orig, as_kind P new with
          | Some orig, Some new => answered (write_status orig new) c c' r
          | _, _ => c' = c
          end
      | _ => λ _, c' = c
      end r
  end.

(** Reads are current: a read of the parent shows what is stored, and a listing
    knows every child that is not being deleted. That is an assumption: the
    program reads through the manager's client, a cache that may lag behind. *)
Definition current c (e : event) : Prop :=
  match e with
  | Ev call r =>
      match call return reply call → Prop with
      | CGet k _ => λ r,
          match r with
          | inl e => decided c = None → IsNotFound e = false
          | inr p => ∀ p', as_kind P p = Some p' → p' = parent c
          end
      | CList k _ => λ r,
          k = K → ∀ items, r = inr items → listing (omap (as_kind K) items) (children c)
      | _ => λ _, True
      end r
  end.

Definition exchanged c (e : event) c' : Prop := written c e c' ∧ current c e.

(** An exchange of the controller, after what others did meanwhile. *)
Definition settles c (e : event) c' : Prop := ∃ c1, others c c1 ∧ exchanged c1 e c'.

(** The same, for exchanges that are known to satisfy [E]. *)
Definition settling (E : event → Prop) c (e : event) c' : Prop := settles c e c' ∧ E e.

(** A parent that was just created, without children. *)
Definition newborn (p : obj P) : cluster := mkCluster p [] None.

(** ** The children over time *)

#[export] Instance moved_preorder : PreOrder moved.
Proof.
  split; [by intros o; split; [|split; [left|]]|].
  intros o1 o2 o3 ([] & Hd1 & Hs1) ([] & Hd2 & Hs2).
  split; [split; congruence|]. split; [|by etrans].
  destruct Hd2 as [Hd2|[]]; [|by right]. rewrite Hd2. by destruct Hd1; [left|right].
Qed.

Lemma moved_gone o o' : moved o o' → gone o → gone o'.
Proof. unfold gone. by intros (_ & [->|[_ Hd]] & _) Ho. Qed.

(** Children that others may not delete stay. *)
Lemma moved_deleted o o' : deletable = false → moved o o' → is_deleted o' = is_deleted o.
Proof. intros Hf (_ & [Hd|[Ht _]] & _); congruence. Qed.

Lemma moved_live o o' : moved o o' → live o' → live o.
Proof. unfold live. intros (_ & [<-|[_ Hd]] & _) Ho; [done|congruence]. Qed.

Lemma listing_refl ts : listing ts ts.
Proof.
  exists ts, ts, []. rewrite app_nil_r. split_and!; [done|done|constructor|].
  reflexivity.
Qed.

Lemma listing_moved items ts ts' : listing items ts → Forall2 moved ts ts' → listing items ts'.
Proof.
  intros (l & cur & dead & Hi & Hp & Hd & Hm) Hts.
  destruct (Permutation_Forall2 Hp Hts) as (k & Hk & Hmk).
  apply Forall2_app_inv_l in Hmk as (cur' & dead' & Hc & Hd' & ->).
  exists l, cur', dead'. split_and!; [done|done| |by etrans].
  clear -Hd Hd'. induction Hd'; [done|]. apply Forall_cons in Hd as [Hx Hd].
  constructor; [by eapply moved_gone|by apply IHHd'].
Qed.

Lemma listing_cons o items ts : listing items ts → listing (o :: items) (o :: ts).
Proof.
  intros (l & cur & dead & Hi & Hp & Hd & Hm). exists (o :: l), (o :: cur), dead.
  split_and!; [by rewrite Hi|by rewrite Hp|done|]. by constructor.
Qed.

Lemma listing_shown o items ts : o ∈ items → listing items ts → shown o ts.
Proof.
  intros Ho (l & cur & dead & Hi & Hp & _ & Hm). rewrite Hi in Ho.
  apply list_elem_of_lookup in Ho as [i Hl].
  destruct (Forall2_lookup_l _ _ _ _ _ Hm Hl) as (o' & Hcur & Ho'). exists o'. split; [|done].
  rewrite Hp. apply elem_of_app. left. by eapply list_elem_of_lookup_2.
Qed.

(** A child that is not deleted is listed. *)
Lemma listing_live o' items ts :
  listing items ts → o' ∈ ts → live o' → ∃ o, o ∈ items ∧ moved o o'.
Proof.
  intros (l & cur & dead & Hi & Hp & Hd & Hm) Ho Hv. rewrite Hp in Ho.
  apply elem_of_app in Ho as [Ho|Ho].
  - apply list_elem_of_lookup in Ho as [i Hcur].
    destruct (Forall2_lookup_r _ _ _ _ _ Hm Hcur) as (o & Hl & Ho'). exists o. split; [|done].
    rewrite Hi. by eapply list_elem_of_lookup_2.
  - apply (proj1 (Forall_forall _ _) Hd) in Ho. unfold live, gone in *. congruence.
Qed.

Lemma shown_moved o ts ts' : shown o ts → Forall2 moved ts ts' → shown o ts'.
Proof.
  intros (o1 & Ho1 & Hm) Hts. apply list_elem_of_lookup in Ho1 as [i Hi].
  destruct (Forall2_lookup_l _ _ _ _ _ Hts Hi) as (o2 & Ho2 & Hm2). exists o2.
  split; [by eapply list_elem_of_lookup_2|by etrans].
Qed.

(** [items] is a listing of children that have moved on since to [ts]. *)
Definition behind (items ts : list (obj K)) : Prop :=
  ∃ l, items ≡ₚ l ∧ Forall2 moved l ts.

(** Without deleted children a listing knows them all. *)
Lemma listing_behind items ts : Forall live ts → listing items ts → behind items ts.
Proof.
  intros Hv (l & cur & dead & Hi & Hp & Hd & Hm). rewrite Hp in Hv.
  apply Forall_app in Hv as [_ Hv]. destruct dead as [|x dead].
  - rewrite app_nil_r in Hp. apply Forall2_flip in Hm.
    destruct (Permutation_Forall2 (Permutation_sym Hp) Hm) as (k & Hk & Hmk).
    exists k. split; [by rewrite Hi|by apply Forall2_flip].
  - apply Forall_cons in Hv as [Hv _]. apply Forall_cons in Hd as [Hd _].
    unfold live, gone in *. congruence.
Qed.

Lemma behind_cons o items ts : behind items ts → behind (o :: items) (o :: ts).
Proof. intros (l & Hi & Hl). exists (o :: l). split; [by rewrite Hi|by constructor]. Qed.

(** What the moves preserve holds of the children when it held of the listing. *)
Lemma behind_Forall (Q : obj K → Prop) items ts :
  (∀ o o', moved o o' → Q o → Q o') → behind items ts → Forall Q items → Forall Q ts.
Proof.
  intros HQ (l & Hp & Hl) Hi. rewrite Hp in Hi. clear Hp. induction Hl; [done|].
  apply Forall_cons in Hi as [Hx Hi]. constructor; [by eapply HQ|by apply IHHl].
Qed.

Lemma behind_Exists (Q : obj K → Prop) items ts :
  (∀ o o', moved o o' → Q o → Q o') → behind items ts → Exists Q items → Exists Q ts.
Proof.
  intros HQ (l & Hp & Hl) Hi. rewrite Hp in Hi. clear Hp. induction Hl; [done|].
  apply Exists_cons in Hi as [Hx|Hi]; [left; by eapply HQ|right; by apply IHHl].
Qed.

Lemma behind_fmap {A} (f : obj K → A) items ts :
  (∀ o o', moved o o' → f o' = f o) → behind items ts → f <$> items ≡ₚ f <$> ts.
Proof.
  intros Hf (l & Hp & Hl). rewrite Hp. clear Hp.
  induction Hl as [|x y l k Hxy _ IH]; [done|]. rewrite !fmap_cons, IH. by rewrite (Hf x y).
Qed.

Lemma behind_length items ts : behind items ts → length items = length ts.
Proof. intros (l & Hp & Hl). rewrite Hp. by eapply Forall2_length. Qed.

(** Phases that a child does not leave. *)
Definition lasting (Q : string → Prop) : Prop := ∀ a b, child_step a b → Q a → Q b.

Lemma moved_lasting Q o o' : lasting Q → moved o o' → Q (phaseK o) → Q (phaseK o').
Proof. intros HQ (_ & _ & Hs). induction Hs as [a|a b d Hs _ IH]; [done|]. intros Ha. by apply IH, (HQ a). Qed.

(** ** Programs in the cluster *)

(** An invariant, by cases on the verdict. The former part is kept by others
    because the children only move; the latter speaks of the verdict, which is
    the phase of the parent for good, and of the children at its time. *)
Context (Und : obj P → list (obj K) → Prop) (Dec : string → list (obj K) → Prop).

Definition Inv c : Prop :=
  match decided c with
  | None => Und (parent c) (children c)
  | Some (q, ts) => phaseP (parent c) = q ∧ Dec q ts
  end.

(** The cluster has its verdict. *)
Definition closed (v : string * list (obj K)) c : Prop :=
  decided c = Some v ∧ phaseP (parent c) = v.1 ∧ Dec v.1 v.2.

Lemma closed_Inv v c : closed v c → Inv c.
Proof. intros (Hd & Hv). unfold Inv. rewrite Hd. by destruct v. Qed.

Lemma Inv_closed v c : decided c = Some v → Inv c → closed v c.
Proof. intros Hd. unfold Inv, closed. rewrite Hd. by destruct v. Qed.

Class Stable := {
  Und_moved p ts ts' : Forall2 moved ts ts' → Und p ts → Und p ts';
  Und_meta p p' ts :
    spec_of p' = spec_of p → phaseP p' = phaseP p → GetName p' = GetName p →
    is_deleted p' = is_deleted p → Und p ts → Und p' ts }.

Context `{!Stable} (E : event → Prop).

Abbreviation cwp := (cwp (settling E) Inv).

(** Some exchange may have failed. *)
Definition faulty : Prop := ∃ e, E e ∧ ¬ succeeded e.

(** Knowledge of the children that their moves keep. *)
Definition lasts (L : list (obj K) → Prop) : Prop := ∀ ts ts', Forall2 moved ts ts' → L ts → L ts'.

Lemma listing_lasts items : lasts (listing items).
Proof. intros ts ts' Hm Hl. by eapply listing_moved. Qed.

Lemma shown_lasts o : lasts (shown o).
Proof. intros ts ts' Hm Hl. by eapply shown_moved. Qed.

Lemma behind_lasts items : lasts (behind items).
Proof. intros ts ts' Hm (l & Hi & Hl). exists l. split; [done|by etrans]. Qed.

(** The cluster in the hands of a controller that knows of no verdict: the
    parent is [p], and of the children [L] is known. *)
Definition open (p : obj P) (L : list (obj K) → Prop) c : Prop :=
  decided c = None ∧ parent c = p ∧ lasts L ∧ L (children c) ∧ Und p (children c).

Lemma open_Inv p L c : open p L c → Inv c.
Proof. intros (Hd & <- & _ & _ & HU). unfold Inv. by rewrite Hd. Qed.

Lemma open_others p L c c' : open p L c → others c c' → open p L c'.
Proof.
  intros (Hd & Hp & HL & Hb & HU) (Hd' & Ho). rewrite Hd in Ho, Hd'. destruct Ho as [Hp' Hm].
  split_and!; [done|congruence|done|by eapply HL|by eapply Und_moved].
Qed.

Lemma open_learn p L L' c :
  lasts L' → (Und p (children c) → L (children c) → L' (children c)) → open p L c → open p L' c.
Proof. intros HL' Himp (Hd & Hp & _ & HL & HU). split_and!; auto. Qed.

Lemma Inv_others c c' : others c c' → Inv c → Inv c'.
Proof.
  intros [Hd Ho]. unfold Inv. rewrite Hd. destruct (decided c) as [[q ts]|]; [by rewrite Ho|].
  destruct Ho as [-> Hm]. by apply Und_moved.
Qed.

(** An event, when nothing is known of the cluster but the invariant. *)
Lemma cwp_event_Inv {A k} (x : obj k) ty re ms (f : unit → prog A) c Q :
  Inv c → (∀ c', Inv c' → cwp (f tt) c' Q) → cwp (bind (Recorder_Event x ty re ms) f) c Q.
Proof.
  intros HI Hf. split; [done|]. intros [] c' [(c1 & Hc1 & -> & _) _]. eapply Hf, Inv_others; done.
Qed.

Lemma cwp_event_Inv_fn {R A k} (x : obj k) ty re ms (f : unit → fn R A) c Q :
  Inv c → (∀ c', Inv c' → cwp (f tt) c' Q) → cwp (bind_fn (lift (Recorder_Event x ty re ms)) f) c Q.
Proof. exact (cwp_event_Inv x ty re ms f c Q). Qed.

(** An exchange that leaves the cluster alone. *)
Lemma cwp_idle {A} call (f : reply call → prog A) p L c (Q : cluster → outcome A → Prop) :
  match call with CEvent _ _ _ _ _ | CMetric _ | CNow | CEnqueue _ => True | _ => False end →
  open p L c → (∀ r c', open p L c' → cwp (f r) c' Q) → cwp (Call call f) c Q.
Proof.
  intros Hc Ho Hf. split; [by eapply open_Inv|]. intros r c' [(c1 & Hc1 & Hc2 & _) _].
  apply Hf. apply (open_others _ _ _ _ Ho) in Hc1. destruct call; try done; simpl in Hc2; by subst.
Qed.

Lemma cwp_event {A k} (x : obj k) ty re ms (f : unit → prog A) p L c Q :
  open p L c → (∀ c', open p L c' → cwp (f tt) c' Q) →
  cwp (bind (Recorder_Event x ty re ms) f) c Q.
Proof. intros Ho Hf. eapply cwp_idle; [done|done|]. intros [] c' Ho'. by apply Hf. Qed.

Lemma cwp_metric {A} op (f : unit → prog A) p L c Q :
  open p L c → (∀ c', open p L c' → cwp (f tt) c' Q) →
  cwp (bind (Metric op) f) c Q.
Proof. intros Ho Hf. eapply cwp_idle; [done|done|]. intros [] c' Ho'. by apply Hf. Qed.

Lemma omap_as_kind (l : list (obj K)) : omap (as_kind K) l = l.
Proof. induction l as [|x l IH]; [done|]. simpl. rewrite as_kind_refl. f_equal. exact IH. Qed.

(** A listing of the children. *)
Lemma cwp_list {A} os (f : error + list (obj K) → prog A) p L c Q :
  open p L c →
  (∀ e c', faulty → open p L c' → cwp (f (inl e)) c' Q) →
  (∀ l c', E (Ev (CList K os) (inr l)) → open p (listing l) c' → cwp (f (inr l)) c' Q) →
  cwp (bind (client_List K os) f) c Q.
Proof.
  intros Ho He Hl. split; [by eapply open_Inv|]. intros r c' [(c1 & Hc1 & -> & Hitems) HE].
  apply (open_others _ _ _ _ Ho) in Hc1. destruct r as [e|l].
  { apply He; [|done]. exists (Ev (CList K os) (inl e)). split; [done|by intros [l [=]]]. }
  specialize (Hitems eq_refl l eq_refl). rewrite omap_as_kind in Hitems.
  destruct Hc1 as (Hd & Hpa & _ & _ & HU). apply Hl; [done|].
  split_and!; [done|done|apply listing_lasts|done|done].
Qed.

(** Reading the parent: it is as stored, with or without a verdict. *)
Lemma cwp_get {A} key (f : error + obj P → prog A) c Q :
  Inv c →
  (∀ e c', faulty → Inv c' → (decided c' = None → IsNotFound e = false) → cwp (f (inl e)) c' Q) →
  (∀ p c', open p (λ _, True) c' → cwp (f (inr p)) c' Q) →
  (∀ p v c', decided c = Some v → closed v c' → phaseP p = v.1 → cwp (f (inr p)) c' Q) →
  cwp (bind (client_Get P key) f) c Q.
Proof.
  intros HI He Hu Hd. split; [done|]. intros r c' [(c1 & Hc1 & -> & Hr) HE].
  pose proof (Inv_others _ _ Hc1 HI) as HI1.
  destruct r as [e|p].
  { apply He; [|done|exact Hr]. exists (Ev (CGet P key) (inl e)). split; [done|by intros [p [=]]]. }
  specialize (Hr p (as_kind_refl p)) as ->. destruct (decided c1) as [v|] eqn:Hd1.
  - pose proof (Inv_closed _ _ Hd1 HI1) as Hv.
    eapply Hd; [by rewrite <-(proj1 Hc1)|exact Hv|]. apply Hv.
  - apply Hu. unfold Inv in HI1. rewrite Hd1 in HI1. by split_and!.
Qed.

(** The same in a function body. *)
Lemma cwp_get_fn {R A} key (f : error + obj P → fn R A) c Q :
  Inv c →
  (∀ e c', faulty → Inv c' → (decided c' = None → IsNotFound e = false) → cwp (f (inl e)) c' Q) →
  (∀ p c', open p (λ _, True) c' → cwp (f (inr p)) c' Q) →
  (∀ p v c', decided c = Some v → closed v c' → phaseP p = v.1 → cwp (f (inr p)) c' Q) →
  cwp (bind_fn (lift (client_Get P key)) f) c Q.
Proof. exact (cwp_get key f c Q). Qed.

Lemma cwp_list_fn {R A} os (f : error + list (obj K) → fn R A) p L c Q :
  open p L c →
  (∀ e c', faulty → open p L c' → cwp (f (inl e)) c' Q) →
  (∀ l c', E (Ev (CList K os) (inr l)) → open p (listing l) c' → cwp (f (inr l)) c' Q) →
  cwp (bind_fn (lift (client_List K os)) f) c Q.
Proof. exact (cwp_list os f p L c Q). Qed.

Lemma cwp_event_fn {R A k} (x : obj k) ty re ms (f : unit → fn R A) p L c Q :
  open p L c → (∀ c', open p L c' → cwp (f tt) c' Q) →
  cwp (bind_fn (lift (Recorder_Event x ty re ms)) f) c Q.
Proof. exact (cwp_event x ty re ms f p L c Q). Qed.

Lemma cwp_metric_fn {R A} op (f : unit → fn R A) p L c Q :
  open p L c → (∀ c', open p L c' → cwp (f tt) c' Q) →
  cwp (bind_fn (lift (Metric op)) f) c Q.
Proof. exact (cwp_metric op f p L c Q). Qed.

(** Creating a child. *)
Lemma cwp_create o p L L' c (Q : cluster → outcome (option error * obj K) → Prop) :
  open p L c →
  (∀ o', lasts (L' o')) →
  (∀ o' ts, born o o' → L ts → Und p ts → Und p (o' :: ts) ∧ L' o' (o' :: ts)) →
  (∀ e c', faulty → Inv c' → Q c' (Done (Some e, o))) →
  (∀ o' c', born o o' → open p (L' o') c' → Q c' (Done (None, o'))) →
  cwp (client_Create o) c Q.
Proof.
  intros Ho HL' HU He Hok. split; [by eapply open_Inv|]. intros r c' [(c1 & Hc1 & Hr & _) HE].
  apply (open_others _ _ _ _ Ho) in Hc1. simpl in Hr. rewrite as_kind_refl in Hr.
  assert (∀ o', born o o' → open p (L' o') (add_child o' c1)) as Hadd.
  { intros o' Hb. destruct Hc1 as (Hd & Hp & _ & Hl & HU1).
    destruct (HU o' _ Hb Hl HU1). by split_and!. }
  destruct r as [e|o1].
  - assert (Inv c') as HI'.
    { destruct Hr as [->|(o' & Hb & ->)]; eapply open_Inv; [exact Hc1|by apply Hadd]. }
    split; [done|]. apply He; [|done].
    exists (Ev (CCreate K o) (inl e)). split; [done|by intros [x [=]]].
  - destruct Hr as (o' & Heq & Hb & ->). rewrite as_kind_refl in Heq. injection Heq as ->.
    split; [by eapply open_Inv, Hadd|]. by apply Hok, Hadd.
Qed.

(** Cleaning up children that may be deleted: a patch answers with one. *)
Definition exposes (e : event) (ts : list (obj K)) : Prop :=
  match e with
  | Ev c r =>
      match c return reply c → Prop with
      | CPatch k _ _ => λ r, ∀ (x : obj k) o, r = inr x → as_kind K x = Some o → shown o ts
      | _ => λ _, True
      end r
  end.

Lemma exposes_moved e ts ts' : exposes e ts → Forall2 moved ts ts' → exposes e ts'.
Proof.
  destruct e as [[] r]; try done. intros He Hm x o Hr Ho. eapply shown_moved; [|exact Hm]. by eapply He.
Qed.

Lemma exchanged_cleanup e p L c c' :
  deletable = true → (∀ o, as_kind P o = None) → is_cleanup K e → open p L c → settling E c e c' →
  Forall2 moved (children c) (children c') ∧ open p L c' ∧ exposes e (children c').
Proof.
  intros Hdel HPK He Ho [(c1 & Hc1 & Hx & _) _]. pose proof (open_others _ _ _ _ Ho Hc1) as Ho1.
  assert (Forall2 moved (children c) (children c1)) as Hm.
  { destruct Hc1 as [_ Hc1]. destruct Ho as (Hd & _). rewrite Hd in Hc1. by destruct Hc1. }
  assert (touched c1 c' → Forall2 moved (children c) (children c') ∧ open p L c') as Ht.
  { intros (Hp & Hd & Hm'). destruct (Ho1) as (Hd1 & Hp1 & HL & Hl & HU). specialize (Hm' Hdel Hd1).
    split; [by etrans|]. split_and!; [congruence|congruence|done|by eapply HL|].
    by eapply Und_moved. }
  unfold is_cleanup in He.
  destruct e as [[k key|k os|k o|k o|k orig new|k orig new| | | |] re]; simpl in He; try done; subst k.
  - destruct (Ht Hx) as [Hmv Hop]. by split_and!.
  - simpl in Hx. rewrite HPK in Hx. destruct Hx as [Htouch Hs]. destruct (Ht Htouch) as [Hmv Hop].
    split_and!; [done|done|]. exact (Hs Hdel (proj1 Ho1)).
Qed.

Lemma served_cleanup p L c t c' :
  deletable = true → (∀ o, as_kind P o = None) → served (settling E) c t c' →
  Forall (is_cleanup K) t → open p L c →
  Forall2 moved (children c) (children c') ∧ Forall (λ e, exposes e (children c')) t.
Proof.
  intros Hdel HPK. induction 1 as [c|c e c1 t c2 He Hs IH]; intros Ht Ho.
  - split; [reflexivity|constructor].
  - apply Forall_cons in Ht as [Hce Ht].
    destruct (exchanged_cleanup _ _ _ _ _ Hdel HPK Hce Ho He) as (Hm1 & Ho1 & Hs1).
    destruct (IH Ht Ho1) as [Hm2 Hs2]. split; [by etrans|].
    constructor; [by eapply exposes_moved|done].
Qed.

Lemma cwp_cleanup {A} (m : prog A) p L c (Q : list event → outcome A → Prop) :
  deletable = true → (∀ o, as_kind P o = None) → open p L c →
  wp any m Q → (∀ t r, Q t r → Forall (is_cleanup K) t) →
  cwp m c (λ c' r, open p L c' ∧ ∃ t, Q t r ∧ Forall E t ∧
    Forall (λ e, exposes e (children c')) t).
Proof.
  intros Hdel HPK Ho Hm Ht.
  set (R := λ c c' : cluster, open p L c → open p L c').
  assert (PreOrder R) by (split; [by intros c0 Hc|intros c1 c2 c3 H12 H23 Hc; by apply H23, H12]).
  eapply cwp_mono; [|apply (cwp_stable (settling E) Inv (is_cleanup K) (open p L) R m c Q); [..|done|exact Hm|exact Ht]].
  - intros c' r _ (HR & t & Hs & HQ). split; [by apply HR|]. exists t. split_and!; [done| |].
    + by eapply served_Forall_1.
    + by apply (served_cleanup p L c t c' Hdel HPK Hs (Ht _ _ HQ) Ho).
  - by apply open_Inv.
  - intros e c1 c2 Hce Ho1 Hs. destruct (exchanged_cleanup _ _ _ _ _ Hdel HPK Hce Ho1 Hs) as (_ & Ho2 & _).
    by split; [intros _|].
Qed.

(** Patching the metadata of the parent. *)
Lemma cwp_meta f p L c (Q : cluster → outcome ((bool * option error) * obj P) → Prop) :
  open p L c →
  (∀ b e (x : obj P) c', IsNotFound e = false → faulty → Inv c' → Q c' (Done ((b, Some e), x))) →
  (∀ b p' c', spec_of p' = spec_of p → phaseP p' = phaseP p → GetName p' = GetName p →
     is_deleted p' = is_deleted p → open p' L c' → Q c' (Done ((b, None), p'))) →
  cwp (addFinalizer f p) c Q.
Proof.
  intros Ho He Hok. unfold addFinalizer. destruct (fold_left _ _ _).
  2:{ split; [by eapply open_Inv|]. by apply Hok. }
  split; [by eapply open_Inv|]. intros r c' [(c1 & Hc1 & Hr & _) HE].
  apply (open_others _ _ _ _ Ho) in Hc1. simpl in Hr. rewrite as_kind_refl in Hr.
  assert (write_meta c1 c' → open (parent c') L c' ∧ spec_of (parent c') = spec_of p ∧
    phaseP (parent c') = phaseP p ∧ GetName (parent c') = GetName p ∧
    is_deleted (parent c') = is_deleted p) as Hw.
  { intros (Hs & Hph & Hn & Hdel & Hch & Hd). destruct Hc1 as (Hd1 & <- & HL & Hb & HU).
    split_and!; [|done..]. split_and!; [congruence|done|done|by rewrite Hch|].
    rewrite Hch. by eapply Und_meta. }
  destruct r as [e|p'].
  - destruct Hr as [Hor Hnf]. specialize (Hnf (proj1 Hc1)).
    assert (Inv c') by (destruct Hor as [->|Hor]; [by eapply open_Inv|eapply open_Inv, Hw, Hor]).
    split; [done|]. apply He; [done| |done].
    eexists. split; [exact HE|by intros [x [=]]].
  - destruct Hr as [Hwm Heq]. rewrite as_kind_refl in Heq. injection Heq as ->.
    destruct (Hw Hwm) as (Ho' & ? & ? & ? & ?). split; [by eapply open_Inv|]. by apply Hok.
Qed.

(** Patching its status: it stays open, or there is a verdict. *)
Definition outcome_of (p' : obj P) L c' : Prop :=
  if decisive (phaseP p')
  then ∃ ts, closed (phaseP p', ts) c'
  else open p' L c'.

Lemma cwp_parent_status orig new p L c (Q : cluster → outcome (option error * obj P) → Prop) :
  open p L c → phaseP orig = phaseP p →
  (∀ p' ts, spec_of p' = spec_of p → GetObjectMeta p' = GetObjectMeta p →
     phaseP p' = phaseP new → Und p ts → L ts →
     if decisive (phaseP new) then Dec (phaseP new) ts else Und p' ts) →
  (∀ e c', IsNotFound e = false → faulty → Inv c' → Q c' (Done (Some e, new))) →
  (∀ p' c', spec_of p' = spec_of p → GetObjectMeta p' = GetObjectMeta p →
     phaseP p' = phaseP new → outcome_of p' L c' → Q c' (Done (None, p'))) →
  cwp (Status_Patch new orig) c Q.
Proof.
  intros Ho Horig Hnew He Hok. split; [by eapply open_Inv|]. intros r c' [(c1 & Hc1 & Hr & _) HE].
  apply (open_others _ _ _ _ Ho) in Hc1. simpl in Hr. rewrite !as_kind_refl in Hr.
  assert (write_status orig new c1 c' → outcome_of (parent c') L c' ∧
    spec_of (parent c') = spec_of p ∧ GetObjectMeta (parent c') = GetObjectMeta p ∧
    phaseP (parent c') = phaseP new) as Hw.
  { intros (Hs & Hm & Hph & Hch & Hd). destruct Hc1 as (Hd1 & Hp & HL & Hb & HU).
    rewrite Hp in Hs, Hm, Hph. rewrite Hd1 in Hd.
    assert (phaseP (parent c') = phaseP new) as Hq by (rewrite Hph; case_bool_decide as He1; congruence).
    specialize (Hnew (parent c') (children c1) Hs Hm Hq HU Hb). split_and!; [|done..].
    unfold outcome_of. rewrite Hq in Hd |- *. destruct (decisive (phaseP new)).
    - exists (children c1). by split_and!.
    - split_and!; [done|done|done|by rewrite Hch|by rewrite Hch]. }
  assert (∀ p', outcome_of p' L c' → phaseP (parent c') = phaseP p' → Inv c') as HInv.
  { intros p'. unfold outcome_of. destruct (decisive (phaseP p')); [|intros Ho' _; exact (open_Inv _ _ _ Ho')].
    intros (ts & Hv) _. by eapply closed_Inv. }
  destruct r as [e|p'].
  - destruct Hr as [Hor Hnf]. specialize (Hnf (proj1 Hc1)).
    assert (Inv c').
    { destruct Hor as [->|Hor]; [by eapply open_Inv|]. by eapply HInv; [apply Hw|]. }
    split; [done|]. apply He; [done| |done]. eexists. split; [exact HE|by intros [x [=]]].
  - destruct Hr as [Hwm Heq]. rewrite as_kind_refl in Heq. injection Heq as ->.
    destruct (Hw Hwm) as (Ho' & ? & ? & ?). split; [by eapply HInv|]. by apply Hok.
Qed.

(** Once there is a verdict, a program that patches no status leaves it. *)
Definition no_status (e : event) : Prop :=
  match ev_call e with CStatusPatch _ _ _ => False | _ => True end.

Lemma exchanged_decided c e c' v :
  no_status e → decided c = Some v → settles c e c' →
  decided c' = Some v ∧ phaseP (parent c') = phaseP (parent c).
Proof.
  intros He Hd (c1 & [Hd1 Ho] & Hx & _). rewrite Hd in Ho, Hd1.
  cut (decided c' = decided c1 ∧ phaseP (parent c') = phaseP (parent c1)).
  { intros [Hk1 Hk2]. split; congruence. }
  destruct e as [[k key|k os|k o|k o|k orig new|k orig new| | | |] r]; simpl in *; try done;
    try (by subst); try (by destruct Hx as [-> _]).
  - destruct (as_kind K o); [|by subst]. destruct r as [e|o1].
    + by destruct Hx as [->|(o' & _ & ->)].
    + by destruct Hx as (o' & _ & _ & ->).
  - destruct Hx as (Hp & Hx & _). split; [done|by rewrite Hp].
  - destruct (as_kind P new).
    + assert (c' = c1 ∨ write_meta c1 c') as [->|(_ & Hph & _ & _ & _ & Hd')]; [|done|by split].
      destruct r; [by apply Hx|right; by apply Hx].
    + destruct Hx as ((Hp & Hx & _) & _). split; [done|by rewrite Hp].
Qed.

Lemma settles_closed c e c' v : no_status e → closed v c → settles c e c' → closed v c'.
Proof.
  intros He (Hd & Hp & HD) Hs. destruct (exchanged_decided _ _ _ _ He Hd Hs) as [Hd' Hp'].
  split_and!; [done|congruence|done].
Qed.

(** A verdict is for good. *)
Lemma settles_decided c e c' v : decided c = Some v → settles c e c' → decided c' = Some v.
Proof.
  intros Hd Hs. assert (no_status e → decided c' = Some v) as Hno.
  { intros He. by apply (exchanged_decided _ _ _ _ He Hd Hs). }
  destruct e as [[] r]; try (by apply Hno). clear Hno. destruct Hs as (c1 & [Hd1 _] & Hx & _).
  rewrite Hd in Hd1. simpl in Hx.
  destruct (as_kind P orig) as [o|], (as_kind P new) as [n|]; try (by subst).
  assert (c' = c1 ∨ write_status o n c1 c') as [->|(_ & _ & _ & _ & Hd')]; [|done|by rewrite Hd', Hd1].
  destruct r; [by apply Hx|right; by apply Hx].
Qed.

Lemma cwp_call_decided {A} call (f : reply call → prog A) c v Q :
  match call with CStatusPatch _ _ _ => False | _ => True end →
  closed v c → (∀ r c', closed v c' → cwp (f r) c' Q) → cwp (Call call f) c Q.
Proof.
  intros Hc Hv Hf. split; [by eapply closed_Inv|]. intros r c' [Hs _].
  apply Hf. by eapply (settles_closed _ (Ev call r)).
Qed.

(** A patch of the metadata keeps the verdict, and shows it. *)
Lemma cwp_meta_decided f p c v (Q : cluster → outcome ((bool * option error) * obj P) → Prop) :
  closed v c → phaseP p = v.1 →
  (∀ b err p' c', closed v c' → phaseP p' = v.1 → Q c' (Done ((b, err), p'))) →
  cwp (addFinalizer f p) c Q.
Proof.
  intros Hv Hp HQ. unfold addFinalizer. destruct (fold_left _ _ _).
  2:{ split; [by eapply closed_Inv|]. by apply HQ. }
  split; [by eapply closed_Inv|]. intros r c' [Hs _].
  pose proof (settles_closed _ (Ev (CPatch P p _) r) _ _ I Hv Hs) as Hv'.
  destruct Hs as (c1 & _ & Hr & _). simpl in Hr. rewrite as_kind_refl in Hr.
  destruct r as [e|p']; (split; [by eapply closed_Inv|apply HQ; try done]).
  - by rewrite phase_of_SetFinalizers.
  - destruct Hr as [_ Heq]. rewrite as_kind_refl in Heq. injection Heq as ->. apply Hv'.
Qed.

Lemma cwp_decided {A} (m : prog A) c v :
  closed v c → wp any m (safe no_status) → cwp m c (λ c' r, closed v c' ∧ ∃ a, r = Done a).
Proof.
  intros Hv Hm. set (R := λ c c' : cluster, closed v c → closed v c').
  assert (PreOrder R) by (split; [by intros c0 Hc|intros c1 c2 c3 H12 H23 Hc; by apply H23, H12]).
  eapply cwp_mono; [|apply (cwp_stable (settling E) Inv no_status (closed v) R m c); [..|exact Hm|]].
  - intros c' [a|p] _ (Hk & t & _ & Hq); [|done]. split; [by apply Hk|by exists a].
  - intros c' Hv'. by eapply closed_Inv.
  - intros e c1 c2 He Hv1 [Hs _]. split; [intros _|]; by eapply settles_closed.
  - done.
  - by intros t [a|p].
Qed.

(** ** Others *)

Lemma others_refl c : others c c.
Proof.
  split; [done|]. destruct (decided c); [done|]. split; [done|].
  reflexivity.
Qed.

Lemma touched_refl c : touched c c.
Proof. split; [done|]. split; [done|]. intros _ _. reflexivity. Qed.

Lemma others_trans c1 c2 c3 : others c1 c2 → others c2 c3 → others c1 c3.
Proof.
  intros [Hd1 Hc1] [Hd2 Hc2]. split; [congruence|]. rewrite Hd1 in Hc2.
  destruct (decided c1); [congruence|]. destruct Hc1 as [Hp1 Hm1], Hc2 as [Hp2 Hm2].
  split; [congruence|by etrans].
Qed.

(** What others do does not disturb a controller at work. *)
Lemma fine_others {A} (m : prog A) c c' :
  others c c' → fine settles Inv m c → fine settles Inv m c'.
Proof.
  intros Ho. destruct m as [a|p|call k]; intros [HI Hm]; (split; [by eapply Inv_others|]); [done..|].
  intros r c2 (c1 & Hc1 & Hx). apply Hm. exists c1. split; [by eapply others_trans|done].
Qed.

End cluster.
