(* ===== verification/Verdicts.v ===== *)
(** What a verdict means: a Test passes only when a pod of it succeeded, and a
    run only when all of its Tests passed, however often their controllers
    crash and whatever moves on meanwhile.

    Each of the modules [TestVerdict] and [RunVerdict] instantiates [Cluster]:
    [Und] is the invariant of a parent without a verdict, and [Dec] what a
    verdict says of the children at the time it was stored. Pods may be evicted
    at any time; that nobody deletes the Tests of a run before its verdict is an
    assumption, like those of [Cluster.settles]. Without it,
    [isRunning_panics] and [isRunning_misattributes] of [TestRunController] say
    what may happen. The two levels are put together in [System]. *)

From S2P Require Import Prelude.
From S2P Require Import GoLib.
From S2P Require Import Api.
From S2P Require Import Effects.
From S2P Require Import Helpers.
From S2P Require Import PruneDeleted.
From S2P Require Import Crash.
From S2P Require Import Lifecycle.
From S2P Require Import Cluster.
From S2P Require TestController.
From S2P Require TestRunController.

(** * The families *)

#[export] Instance Pod_Phased : Phased KPod := {|
  phase_of := (λ p, pod_Phase (pod_Status p)) : obj KPod → string;
  phase_of_SetFinalizers _ _ := eq_refl |}.

(** A pod that has ended. *)
Definition ended (phase : string) : bool := (phase == PodSucceeded) || (phase == PodFailed).

(** A pod that has ended keeps its phase. Others may delete pods. *)
#[export] Instance Test_Family : Family KTest KPod := {|
  Spec := TestSpec;
  spec_of := test_Spec : obj KTest → _;
  decisive := TestPhase_IsFinal;
  child_step a b := ended a = false;
  deletable := true |}.

(** A Test that has a verdict keeps it. Nobody deletes the Tests of a run that
    has no verdict. *)
#[export] Instance Run_Family : Family KTestRun KTest := {|
  Spec := TestRunSpec;
  spec_of := run_Spec : obj KTestRun → _;
  decisive := TestRunPhase_IsFinal;
  child_step a b := TestPhase_IsFinal a = false;
  deletable := false |}.

(** * Tests *)

Module TestVerdict.
Import TestController.

Abbreviation test_cluster := (cluster (P:=KTest) (K:=KPod)).

Section verdict.
Context `{AM : !ApiMachinery}.
Context (ErrRequeueDelay : Z) (E : event → Prop) (undecided : Prop).
Implicit Types (test : Test) (pod : Pod) (items : list Pod) (c : test_cluster).

Abbreviation moved := (moved (P:=KTest) (K:=KPod)).
Abbreviation listing := (listing (P:=KTest) (K:=KPod)).
Abbreviation shown := (shown (P:=KTest) (K:=KPod)).
Abbreviation phase_of_pod pod := (pod_Phase (pod_Status pod)).

(** At most one pod is not being deleted. *)
Definition Und (test : obj KTest) (ps : list (obj KPod)) : Prop :=
  is_deleted (k:=KTest) test = false ∧ TestPhase_IsFinal (test_Phase (test_Status test)) = false ∧
  length (filter (live (k:=KPod)) ps) ≤ 1.

(** The phase of the Test is that of a pod of it that has ended. *)
Definition Dec (phase : string) (ps : list (obj KPod)) : Prop :=
  TestPhase_IsFinal phase = true ∧ length (filter (live (k:=KPod)) ps) ≤ 1 ∧ ∃ pod : Pod, pod ∈ ps ∧
    ended (phase_of_pod pod) = true ∧ phase = TestPhase_FromPodPhase (phase_of_pod pod).

Lemma moved_ended (pod pod' : Pod) :
  moved pod pod' → ended (phase_of_pod pod) = true → phase_of_pod pod' = phase_of_pod pod.
Proof.
  intros Hm He. refine (moved_lasting (P:=KTest) (K:=KPod) (λ p, p = phase_of_pod pod) _ _ _ Hm eq_refl).
  intros a b Hs ->. simpl in Hs. congruence.
Qed.

Lemma filter_live_moved (ps ps' : list (obj KPod)) :
  Forall2 moved ps ps' → length (filter (live (k:=KPod)) ps') ≤ length (filter (live (k:=KPod)) ps).
Proof.
  induction 1 as [|o o' ps ps' Hm _ IH]; [done|]. rewrite !filter_cons.
  pose proof (moved_live (P:=KTest) (K:=KPod) _ _ Hm).
  case_decide as H1; case_decide as H2; [exact (le_n_S _ _ IH)|tauto|exact (le_S _ _ IH)|exact IH].
Qed.

#[export] Instance Und_Stable : Stable (P:=KTest) (K:=KPod) Und.
Proof.
  split.
  - intros test ps ps' Hm%filter_live_moved (Hd & Hf & Hl). split_and!; [done..|lia].
  - intros test test' ps _ Hp _ Hd (? & Hf & ?). simpl in Hp.
    split; [congruence|]. by rewrite Hp.
Qed.

Abbreviation cwp := (cwp (settling (P:=KTest) (K:=KPod) E) (Inv Und Dec)).
Abbreviation open := (open (P:=KTest) (K:=KPod) Und).
Abbreviation closed := (closed (P:=KTest) (K:=KPod) Dec).
Abbreviation faulty := (faulty E).

(** The listings show one pod, which has ended. *)
Definition ready : Prop := ∀ os items, E (Ev (CList KPod os) (inr items)) →
  ∃ pod : Pod, items = [pod] ∧ live (k:=KPod) pod ∧ ended (phase_of_pod pod) = true.

(** What a reconciliation of a Test that has no verdict, [undecided], leaves
    when its calls succeed: no error, and a pod; and a verdict when the listing
    shows that its pod has ended. *)
Definition settled (c : test_cluster) (res : Result * option error) : Prop :=
  undecided → (res.2 = None ∨ faulty) ∧ (decided c = None → faulty ∨ children c ≠ [] ∧ ¬ ready).

Lemma test_settled_faulty c res : faulty → settled c res.
Proof. intros Hf _. split; [by right|by left]. Qed.

Lemma settled_closed v c r : closed v c → settled c (r, None).
Proof. intros [Hd _] _. split; [by left|congruence]. Qed.

Lemma shown_children pod ps : shown pod ps → ps ≠ [].
Proof. by intros (o & Ho & _) ->; apply elem_of_nil in Ho. Qed.

(** A status patch that moves the Test on, but not to a verdict. *)
Lemma cwp_progress test new L c (Q : test_cluster → outcome (option error * Test) → Prop) :
  open test L c → TestPhase_IsFinal (test_Phase (test_Status new)) = false →
  (∀ e c' o, faulty → Inv Und Dec c' → Q c' (Done (Some e, o))) →
  (∀ test' c', open test' L c' → Q c' (Done (None, test'))) →
  cwp (Status_Patch (k:=KTest) new test) c Q.
Proof.
  intros Ho Hf He Hok. eapply cwp_parent_status; [apply _|exact Ho|done|..|auto|].
  - intros p' ps _ H2 H3 (Hd & _ & H) _. simpl in *. rewrite Hf.
    unfold Und, is_deleted, GetDeletionTimestamp in *. simpl in *. by rewrite H2, H3.
  - intros p' c' _ _ Hph. unfold outcome_of. rewrite Hph. simpl. rewrite Hf. apply Hok.
Qed.

(** A status patch with the verdict of a pod. *)
Lemma cwp_verdict test new pod c (Q : test_cluster → outcome (option error * Test) → Prop) :
  open test (shown pod) c → ended (phase_of_pod pod) = true →
  test_Phase (test_Status new) = TestPhase_FromPodPhase (phase_of_pod pod) →
  (∀ e c' o, faulty → Inv Und Dec c' → Q c' (Done (Some e, o))) →
  (∀ test' c' v, closed v c' → Q c' (Done (None, test'))) →
  cwp (Status_Patch (k:=KTest) new test) c Q.
Proof.
  intros Ho He Hph Herr Hok.
  assert (TestPhase_IsFinal (test_Phase (test_Status new)) = true) as Hf.
  { rewrite Hph. unfold ended in He. apply orb_true_iff in He as [->%eqb_true| ->%eqb_true]; done. }
  eapply cwp_parent_status; [apply _|exact Ho|done|..|auto|].
  - intros p' ps _ _ _ (_ & _ & Hl) (pod' & Hin & Hm). simpl. rewrite Hf. split; [done|].
    split; [exact Hl|]. exists pod'. split; [exact Hin|]. pose proof (moved_ended _ _ Hm He) as Hp.
    rewrite Hp. by split.
  - intros p' c' _ _ Hp. unfold outcome_of. rewrite Hp. simpl. rewrite Hf.
    intros (ps & Hv). by eapply Hok.
Qed.

(** A Test that had its verdict before keeps it. *)
Lemma cwp_old_verdict (m : prog (Result * option error)) c v :
  ¬ undecided → closed v c → wp any m (safe no_status) → cwp m c (completes settled).
Proof.
  intros Hu Hv Hm. eapply cwp_mono; [|by eapply (cwp_decided Und Dec)].
  by intros c' r _ (_ & a & ->).
Qed.

(** A verdict is counted and announced. *)
Lemma cwp_announce op (x : Test) ty re ms c v :
  closed v c →
  cwp (let* _ := Metric op in let* _ := Recorder_Event (k:=KTest) x ty re ms in Ret (noResult, None)) c
    (completes settled).
Proof.
  intros Hv. eapply cwp_call_decided; [done|exact Hv|]. intros [] c1 Hv1.
  eapply cwp_call_decided; [done|exact Hv1|]. intros [] c2 Hv2.
  split; [exact (closed_Inv Und Dec _ _ Hv2)|by eapply settled_closed].
Qed.

Lemma cwp_followPod test pod c :
  open test (shown pod) c → (ready → ended (phase_of_pod pod) = true) →
  cwp (followPod ErrRequeueDelay test pod) c (completes settled).
Proof.
  intros Ho Hr. unfold followPod.
  assert (∀ test' c' r, open test' (shown pod) c' → ended (phase_of_pod pod) = false →
    cwp (Ret (r, None)) c' (completes settled)) as Hend.
  { intros test' c' r Ho' He. split; [exact (open_Inv Und Dec _ _ _ Ho')|].
    intros _. split; [by left|]. intros _. right. split; [|intros Hready%Hr; congruence].
    by eapply shown_children, Ho'. }
  case_bool_decide as H1; [rewrite H1 in *|case_bool_decide as H2; [rewrite H2 in *|
    case_bool_decide as H3; [rewrite H3 in *|case_bool_decide as H4; [rewrite H4 in *|]]]].
  - destruct (_ != _); [|by eapply Hend]. apply cwp_bind.
    eapply cwp_progress; [exact Ho|done|..].
    + intros e c' o Hf HI'. eapply cwp_event_Inv; [apply _|exact HI'|].
      split; [done|by apply test_settled_faulty].
    + intros test' c' Ho'. eapply cwp_event; [apply _|exact Ho'|]. intros. by eapply Hend.
  - destruct (_ != _); [|by eapply Hend]. apply cwp_bind.
    eapply cwp_progress; [exact Ho|done|split; [done|by apply test_settled_faulty]|]. intros. by eapply Hend.
  - apply cwp_bind. eapply cwp_verdict; [exact Ho|by rewrite H3|by rewrite H3|
      split; [done|by apply test_settled_faulty]|].
    intros test' c' v Hv. by eapply cwp_announce.
  - apply cwp_bind. eapply cwp_verdict; [exact Ho|by rewrite H4|by rewrite H4|
      split; [done|by apply test_settled_faulty]|].
    intros test' c' v Hv. by eapply cwp_announce.
  - eapply Hend; [done|]. unfold ended. by rewrite !bool_decide_eq_false_2.
Qed.

(** What [selectPod] obtains is what a pod of the Test was like. *)
Lemma obtained_shown items ps (p p' : Pod) t :
  listing items ps → p ∈ items → Forall (λ e, exposes (P:=KTest) (K:=KPod) e ps) t →
  obtained p t p' → shown p' ps.
Proof.
  intros Hl Hp Ht Ho. pose proof (listing_shown (P:=KTest) (K:=KPod) _ _ _ Hp Hl) as Hs.
  destruct Ho as [->|[_ [[fs ->]|(orig & new & Hin)]]]; [done| |].
  - destruct Hs as (o & Hin & Hm). exists o. split; [done|]. exact Hm.
  - apply (proj1 (Forall_forall _ _) Ht) in Hin. eapply Hin; [done|].
    exact (as_kind_refl (k:=KPod) p').
Qed.

(** Without a live pod in the listing there is none. *)
Lemma listing_gone items ps :
  (¬ ∃ i, live_at items i) → listing items ps → Forall (gone (K:=KPod)) ps.
Proof.
  intros Hn Hl. apply Forall_forall. intros o Ho. unfold gone.
  destruct (is_deleted (k:=KPod) o) eqn:Hd; [done|]. destruct Hn.
  destruct (listing_live (P:=KTest) (K:=KPod) _ _ _ Hl Ho Hd) as (o1 & Ho1 & Hm).
  apply list_elem_of_lookup in Ho1 as [i Hi]. exists i, o1. split; [done|].
  exact (moved_live (P:=KTest) (K:=KPod) _ _ Hm Hd).
Qed.

Lemma gone_lasts : lasts (P:=KTest) (K:=KPod) (Forall (gone (K:=KPod))).
Proof.
  intros ps ps' Hm Hg. induction Hm as [|o o' ps ps' Ho _ IH]; [done|].
  apply Forall_cons in Hg as [? ?]. constructor; [|by apply IH].
  by eapply (moved_gone (P:=KTest) (K:=KPod)).
Qed.

Lemma filter_gone ps : Forall (gone (K:=KPod)) ps → filter (live (k:=KPod)) ps = [].
Proof.
  induction 1 as [|o ps Ho _ IH]; [done|]. rewrite filter_cons_False; [done|].
  unfold live, gone in *. congruence.
Qed.

Lemma cwp_test_ensurePod test c :
  open test (Forall (gone (K:=KPod))) c →
  cwp (ensurePod ErrRequeueDelay test None) c (handles settled (λ c' pod, open test (shown pod) c')).
Proof.
  intros Ho. unfold ensurePod.
  eapply (cwp_handles_lift _ _ _ (λ c' r, match r.1 with
    | Some _ => faulty | None => open test (shown r.2) c' end)).
  - eapply (cwp_create Und Dec E _ _ _ (λ o', shown o')); [exact Ho|..|done|done].
    + intros o'. apply shown_lasts.
    + intros o' ps (_ & Hd & _) Hg (H1 & H2 & _). split.
      * split_and!; [done..|]. rewrite filter_cons_True by done. by rewrite filter_gone.
      * exists o'. split; [by left|reflexivity].
  - intros c' [[e|] pod] HI Hpod; simpl in Hpod.
    + eapply cwp_event_Inv_fn; [apply _|exact HI|]. split; [done|by apply test_settled_faulty].
    + by split; [exact (open_Inv Und Dec _ _ _ Hpod)|].
Qed.

(** The pod that decides was listed, unless it has to be created. *)
Lemma cwp_selectPod test items c :
  open test (listing items) c →
  cwp (selectPod ErrRequeueDelay items) c (handles settled (λ c' o, match o with
    | Some pod => open test (shown pod) c'
    | None => open test (Forall (gone (K:=KPod))) c'
    end)).
Proof.
  intros Ho. eapply cwp_mono; [|eapply (cwp_cleanup (P:=KTest) (K:=KPod) Und Dec E);
    [done|done|exact Ho|exact (selectPod_wp ErrRequeueDelay items)|by intros t [r|p] []]].
  intros c' [r|p] _ (Ho' & t & HQ & HE & Hx); [|done]. destruct HQ as [_ HQ]. destruct r as [res|[pod|]]; simpl.
  - destruct HQ as [_ (e & Hin & He)%Exists_exists]. apply test_settled_faulty. exists e. split; [|done].
    by apply (proj1 (Forall_forall _ _) HE).
  - destruct HQ as (p & Hp & Hob). eapply open_learn; [apply shown_lasts| |exact Ho'].
    intros _ Hl. by eapply obtained_shown.
  - eapply open_learn; [apply gone_lasts| |exact Ho']. intros _. by apply listing_gone.
Qed.

Lemma cwp_test_isRunning test items c :
  open test (listing items) c →
  (ready → ∃ pod : Pod, items = [pod] ∧ live (k:=KPod) pod ∧ ended (phase_of_pod pod) = true) →
  cwp (isRunning ErrRequeueDelay test items) c (completes settled).
Proof.
  intros Ho Hr. unfold isRunning. apply cwp_func.
  assert ((∃ pod, items = [pod] ∧ live (k:=KPod) pod) ∨ ¬ ∃ pod, items = [pod] ∧ live (k:=KPod) pod)
    as [(pod & -> & Hv)|Hn].
  { destruct items as [|pod [|]]; [naive_solver| |naive_solver].
    destruct (decide (live (k:=KPod) pod)); naive_solver. }
  - rewrite selectPod_single by done. apply cwp_next_bind_fn. cbn [ensurePod].
    apply cwp_next_bind_fn, cwp_handles_end, cwp_followPod.
    + eapply open_learn; [apply shown_lasts| |exact Ho]. intros _ Hl.
      eapply (listing_shown (P:=KTest) (K:=KPod)); [|exact Hl]. by left.
    + by intros (? & [= <-] & _ & He)%Hr.
  - assert (¬ ready) as Hready by (intros (pod & -> & Hv & _)%Hr; apply Hn; by exists pod).
    eapply cwp_handles_bind; [by apply cwp_selectPod|]. intros c1 o _ Ho1.
    eapply (cwp_handles_bind _ _ _ (λ c' pod, open test (shown pod) c')).
    + destruct o as [pod|]; [|by apply cwp_test_ensurePod].
      by split; [exact (open_Inv Und Dec _ _ _ Ho1)|].
    + intros c2 pod _ Ho2. by apply cwp_handles_end, cwp_followPod.
Qed.

Lemma cwp_test_ensurePhase test L c :
  open test L c →
  cwp (ensurePhase ErrRequeueDelay test) c (handles settled (λ c' test', open test' L c')).
Proof.
  intros Ho. unfold ensurePhase. case_bool_decide; [|split; [exact (open_Inv Und Dec _ _ _ Ho)|done]].
  eapply (cwp_handles_lift _ _ _ (λ c' r, match r.1 with Some _ => faulty | None => open r.2 L c' end)).
  - by eapply cwp_progress; [exact Ho|done|..].
  - intros c' [[e|] test'] HI Hr; (split; [done|]); [by apply test_settled_faulty|done].
Qed.

(** A reconciliation of a Test that had its verdict before. *)
Lemma cwp_test_decided test pods c v :
  ¬ undecided → closed v c → phase_of (k:=KTest) test = v.1 →
  cwp (if is_deleted (k:=KTest) test then lift (finalize ErrRequeueDelay test pods)
    else
      let! '((patched, e), test) :=
        lift (addFinalizer (k:=KTest) TestControllerFinalizer test) in
      match e with
      | Some _ =>
          match IgnoreNotFound e with
          | Some err => return_ (requeue ErrRequeueDelay, Some err)
          | None => return_ (noResult, None)
          end
      | None =>
          let! test := ensurePhase ErrRequeueDelay test in
          if TestPhase_IsFinal (test_Phase (test_Status test))
          then lift (isComplete ErrRequeueDelay test pods)
          else lift (isRunning ErrRequeueDelay test pods)
      end) c (handles settled settled).
Proof.
  intros Hu Hv Hph. assert (∀ c' res, settled c' res) as Hs by done.
  assert (∀ (m : prog (Result * option error)) c', closed v c' → wp any m (safe quiet) →
    cwp (lift m) c' (handles settled settled)) as Hq.
  { intros m c' Hv' Hm. eapply cwp_handles_end, cwp_old_verdict; [done|exact Hv'|].
    eapply safe_mono; [|exact Hm]. by intros [[] ?]. }
  destruct (is_deleted (k:=KTest) test); [by apply Hq; [|apply TestLife.test_finalize_quiet]|].
  eapply (cwp_handles_lift _ _ _ (λ c' r, closed v c' ∧ phase_of (k:=KTest) r.2 = v.1)).
  - by eapply cwp_meta_decided; [exact Hv|exact Hph|].
  - intros c' [[b [e|]] test'] HI (Hv' & Hp'); cbn [fst snd] in Hp'.
    { by destruct (IgnoreNotFound _). }
    assert (TestPhase_IsFinal (test_Phase (test_Status test')) = true) as Hf.
    { simpl in Hp'. rewrite Hp'. apply Hv'. }
    assert (ensurePhase ErrRequeueDelay test' = next test') as ->.
    { unfold ensurePhase. case_bool_decide as Hp; [|done]. by rewrite Hp in Hf. }
    unfold bind_fn at 1, next at 1. cbn [bind]. rewrite Hf.
    by apply Hq; [|apply TestLife.test_isComplete_quiet].
Qed.

Lemma cwp_test_Reconcile req c :
  Inv Und Dec c → (undecided → decided c = None) →
  cwp (Reconcile ErrRequeueDelay req) c (completes settled).
Proof.
  intros HI Hu. unfold Reconcile. apply cwp_func. eapply cwp_get_fn; [apply _|exact HI|..].
  - intros e c' Hf HI' _. destruct (IgnoreNotFound _); (split; [done|by apply test_settled_faulty]).
  - intros test c1 Ho1. eapply cwp_metric_fn; [apply _|exact Ho1|].
    intros ca Hoa. eapply cwp_metric_fn; [apply _|exact Hoa|]. intros cb Hob.
    eapply cwp_list_fn; [apply _|exact Hob|..].
    { intros e c' Hf Ho. split; [exact (open_Inv Und Dec _ _ _ Ho)|by apply test_settled_faulty]. }
    intros pods c2 HE Ho2.
    assert (is_deleted (k:=KTest) test = false) as -> by (destruct Ho2 as (_ & _ & _ & _ & H & _); exact H).
    eapply (cwp_handles_lift _ _ _ (λ c' r, match r.1.2 with
      | Some e => faulty | None => open r.2 (listing pods) c' end)).
    { eapply cwp_meta; [apply _|exact Ho2|done|]. by intros b p' c' _ _ _ _. }
    intros c3 [[b [e|]] test3] HI3 Ho3; simpl in Ho3.
    { destruct (IgnoreNotFound _); (split; [done|by apply test_settled_faulty]). }
    eapply cwp_handles_bind; [exact (cwp_test_ensurePhase _ _ _ Ho3)|]. intros c4 test4 _ Ho4.
    assert (TestPhase_IsFinal (test_Phase (test_Status test4)) = false) as ->
      by (destruct Ho4 as (_ & _ & _ & _ & _ & H & _); exact H).
    apply cwp_handles_end, cwp_test_isRunning; [done|]. intros Hr. by eapply Hr.
  - intros test v c1 Hd0 Hv Hph. assert (¬ undecided) as Hn by (intros H%Hu; congruence).
    assert (∀ c' res, settled c' res) as Hs by done.
    eapply cwp_call_decided; [done|exact Hv|]. intros [] c2 Hv2.
    eapply cwp_call_decided; [done|exact Hv2|]. intros [] c3 Hv3.
    eapply cwp_call_decided; [done|exact Hv3|]. intros [e|pods] c4 Hv4.
    { split; [exact (closed_Inv Und Dec _ _ Hv4)|apply Hs]. }
    by eapply cwp_test_decided.
Qed.

End verdict.

(** A Test that was just created. *)
Definition fresh_test (test : Test) : Prop :=
  test_Phase (test_Status test) = "" ∧ DeletionTimestamp (test_ObjectMeta test) = None.

Lemma test_newborn test :
  fresh_test test → Inv (P:=KTest) (K:=KPod) Und Dec (newborn (P:=KTest) (K:=KPod) test).
Proof.
  intros (Hph & Hd). unfold Inv, Und, is_deleted, GetDeletionTimestamp. simpl.
  rewrite Hd, Hph. split_and!; [done..|]. exact (le_0_n 1).
Qed.

Lemma test_Reconcile_fine `{AM : !ApiMachinery} ErrRequeueDelay req (c : test_cluster) :
  Inv (P:=KTest) (K:=KPod) Und Dec c →
  fine (settles (P:=KTest) (K:=KPod)) (Inv Und Dec) (Reconcile ErrRequeueDelay req) c.
Proof.
  intros HI. apply (cwp_serves_mono (settling (λ _, True))); [by split|].
  eapply cwp_mono; [|apply (cwp_test_Reconcile _ _ False); [exact HI|done]]. done.
Qed.

Lemma test_reachable `{AM : !ApiMachinery} ErrRequeueDelay req test (c : test_cluster) :
  fresh_test test →
  attempts (settles (P:=KTest) (K:=KPod)) (Reconcile ErrRequeueDelay req)
    (newborn (P:=KTest) (K:=KPod) test) c →
  Inv (P:=KTest) (K:=KPod) Und Dec c.
Proof.
  intros Hf Hc. eapply crash_invariant; [|exact Hc|by apply test_newborn].
  intros c' HI. by apply test_Reconcile_fine.
Qed.

Lemma FromPodPhase_passed phase : TestPhase_FromPodPhase phase = TestPassed → phase = PodSucceeded.
Proof. unfold TestPhase_FromPodPhase. by repeat case_bool_decide. Qed.

Lemma FromPodPhase_failed phase : TestPhase_FromPodPhase phase = TestFailed → phase = PodFailed.
Proof. unfold TestPhase_FromPodPhase. by repeat case_bool_decide. Qed.

(** What [Dec] says of the two verdicts. *)
Lemma test_Dec_verdict phase (ps : list (obj KPod)) :
  Dec phase ps → ∃ pod : Pod, pod ∈ ps ∧
    (phase = TestPassed ∧ pod_Phase (pod_Status pod) = PodSucceeded ∨
     phase = TestFailed ∧ pod_Phase (pod_Status pod) = PodFailed).
Proof.
  intros (Hf & _ & pod & Hin & _ & Hph). exists pod. split; [done|].
  unfold TestPhase_IsFinal in Hf. apply orb_true_iff in Hf as [Hf%eqb_true|Hf%eqb_true].
  - left. split; [done|]. apply FromPodPhase_passed. congruence.
  - right. split; [done|]. apply FromPodPhase_failed. congruence.
Qed.

(** C4: however often a fresh Test is reconciled, wherever the controller
    crashes, while its pods move on, end, and are evicted at any time: a
    verdict is only stored when one of its pods has ended, Passed for one that
    succeeded and Failed for one that failed; until then all of its pods but
    one at most are being deleted. This is of a cluster that [settles]: reads
    are current, a listing knows every pod that is not being deleted, and
    until the verdict nobody else writes or deletes the Test. *)
Theorem test_verdict_sound `{AM : !ApiMachinery} ErrRequeueDelay req test (c : test_cluster) :
  fresh_test test →
  attempts (settles (P:=KTest) (K:=KPod)) (Reconcile ErrRequeueDelay req)
    (newborn (P:=KTest) (K:=KPod) test) c →
  let phase := test_Phase (test_Status (parent c)) in
  match decided c with
  | None => length (filter (live (k:=KPod)) (children c)) ≤ 1 ∧
      phase ≠ TestPassed ∧ phase ≠ TestFailed
  | Some (verdict, pods) => length (filter (live (k:=KPod)) pods) ≤ 1 ∧ phase = verdict ∧
      ∃ pod : Pod, pod ∈ pods ∧
        (verdict = TestPassed ∧ pod_Phase (pod_Status pod) = PodSucceeded ∨
         verdict = TestFailed ∧ pod_Phase (pod_Status pod) = PodFailed)
  end.
Proof.
  intros Hf Hc phase. apply test_reachable in Hc; [|done]. revert Hc. unfold Inv.
  destruct (decided c) as [[q ps]|]; simpl.
  - intros [Hq HD]. split; [apply HD|]. split; [exact Hq|]. by apply test_Dec_verdict.
  - intros (_ & Hp & Hl). split_and!; [done|..]; intros Heq; subst phase; by rewrite Heq in Hp.
Qed.


End TestVerdict.

(** * Runs *)

Module RunVerdict.
Import TestRunController.

Abbreviation run_cluster := (cluster (P:=KTestRun) (K:=KTest)).

(** ** The Tests of a run *)

Definition index_of (t : Test) : error + Z := testIndex (GenerateName (test_ObjectMeta t)).

(** The Tests of the first templates, one for each. *)
Definition indexed (ts : list Test) : Prop :=
  index_of <$> ts ≡ₚ (inr ∘ Z.of_nat) <$> seq 0 (length ts).

Lemma indexed_perm ts ts' : index_of <$> ts ≡ₚ index_of <$> ts' → indexed ts → indexed ts'.
Proof.
  intros Hp Hi. unfold indexed. rewrite <-Hp.
  apply Permutation_length in Hp. rewrite !length_fmap in Hp. by rewrite <-Hp.
Qed.

Lemma indexed_cons t ts :
  index_of t = inr (Z.of_nat (length ts)) → indexed ts → indexed (t :: ts).
Proof.
  intros Ht Hi. unfold indexed in *. rewrite fmap_cons, Hi, Ht. cbn [length].
  rewrite seq_S, fmap_app. simpl. by rewrite Permutation_cons_append.
Qed.

Lemma has_index_of k t : has_index k t = true ↔ index_of t = inr (Z.of_nat k).
Proof.
  unfold has_index, index_of. destruct (testIndex _) as [e|i]; [done|].
  rewrite bool_decide_eq_true. naive_solver.
Qed.

Lemma indexed_has_index ts k :
  indexed ts → existsb (has_index k) ts = bool_decide (k < length ts).
Proof.
  intros Hi. apply Bool.eq_iff_eq_true. rewrite bool_decide_eq_true, existsb_exists.
  setoid_rewrite <-list_elem_of_In. setoid_rewrite has_index_of.
  assert (inr (Z.of_nat k) ∈ index_of <$> ts ↔ k < length ts) as <-.
  { unfold indexed in Hi. rewrite Hi, list_elem_of_fmap. simpl. split.
    - intros (j & Hj & Hin%elem_of_seq). simplify_eq. lia.
    - intros Hk. exists k. split; [done|]. apply elem_of_seq. lia. }
  rewrite list_elem_of_fmap. naive_solver.
Qed.

Lemma indexed_well_indexed n ts : indexed ts → length ts ≤ n → well_indexed n ts.
Proof.
  intros Hi Hn. apply Forall_forall. intros t Ht.
  assert (index_of t ∈ index_of <$> ts) as Hin by (apply list_elem_of_fmap; by exists t).
  unfold indexed in Hi. rewrite Hi in Hin. apply list_elem_of_fmap in Hin as (k & Hk & Hlt%elem_of_seq).
  exists k. split; [exact Hk|lia].
Qed.

(** The first [length ts] templates have a Test, the others have none. *)
Lemma indexed_mapping n ts :
  indexed ts → length ts ≤ n →
  mapping n ts = (Some <$> seq 0 (length ts)) ++ replicate (n - length ts) None.
Proof.
  intros Hi Hn. unfold mapping.
  assert (n = length ts + (n - length ts)) as Heq by lia. rewrite Heq at 1.
  rewrite seq_app, fmap_app. f_equal.
  - apply list_fmap_ext. intros k x Hk. apply lookup_seq in Hk as [-> Hk].
    rewrite (indexed_has_index ts _ Hi), bool_decide_eq_true_2 by lia. done.
  - apply list_eq. intros k. rewrite list_lookup_fmap. destruct (decide (k < n - length ts)) as [Hk|Hk].
    + rewrite lookup_seq_lt, lookup_replicate_2 by done. simpl.
      by rewrite (indexed_has_index ts _ Hi), bool_decide_eq_false_2 by lia.
    + rewrite (proj2 (lookup_ge_None (seq _ _) _)) by (rewrite length_seq; lia).
      by rewrite (proj2 (lookup_ge_None (replicate _ _) _)) by (rewrite length_replicate; lia).
Qed.

Definition final (t : Test) : Prop := is_final t = true.
Definition passed_ (t : Test) : Prop := test_Phase (test_Status t) = TestPassed.
Definition failed_ (t : Test) : Prop := test_Phase (test_Status t) = TestFailed.

Section run.
Context `{AM : !ApiMachinery}.
Context (ErrRequeueDelay : Z).
Implicit Types (run : TestRun) (items ts : list Test).

(** The results of the Tests in [ts], for the templates from [i] on. *)
Definition reports (rs : list TestResult) ts : Prop :=
  tr_Passed <$> rs = is_success <$> filter final ts.

(** The Tests that exist are evaluated without an exchange. *)
Lemma evaluateTests_found i j rest items run n :
  i + j ≤ length items → i + j ≤ length (trs_Tests (run_Spec run)) →
  ∃ rs, reports rs (take j (drop i items)) ∧
    evaluateTests ErrRequeueDelay i ((Some <$> seq i j) ++ rest) items run n =
    evaluateTests ErrRequeueDelay (i + j) rest items
      (set_run_Results (run_Results (run_Status run) ++ rs) run) (tally_of n rs).
Proof.
  revert i run n. induction j as [|j IH]; intros i run n Hi Hn.
  { exists []. rewrite tally_of_nil, app_nil_r, Nat.add_0_r. split; [done|].
    by destruct run as [? ? ? []]. }
  destruct (lookup_lt_is_Some_2 items i ltac:(lia)) as [t Ht].
  destruct (lookup_lt_is_Some_2 (trs_Tests (run_Spec run)) i ltac:(lia)) as [tmpl Htm].
  rewrite (drop_S _ _ _ Ht). cbn [seq fmap list_fmap app take evaluateTests]. unfold index.
  rewrite Ht. unfold bind_fn at 1, lift at 1. cbn [bind].
  change (TestPhase_IsFinal (test_Phase (test_Status t))) with (is_final t).
  destruct (is_final t) eqn:Hf.
  - rewrite Htm. unfold bind_fn at 1, lift at 1. cbn [bind].
    set (r := mkTestResult _ _ _). set (n1 := if TestPhase_IsSuccess _ then _ else _).
    destruct (IH (S i) (set_run_Results (run_Results (run_Status run) ++ [r]) run) n1) as (rs & Hrs & Heq);
      [lia|simpl; lia|].
    exists (r :: rs). split.
    + unfold reports in *. rewrite filter_cons_True by done. rewrite !fmap_cons. by rewrite Hrs.
    + rewrite tally_of_cons, <-(Nat.add_succ_comm i j). subst n1.
      etransitivity; [exact Heq|]. simpl. by rewrite <-app_assoc.
  - destruct (IH (S i) run n) as (rs & Hrs & Heq); [lia..|].
    exists rs. split.
    + unfold reports in *. rewrite filter_cons_False by (unfold final; congruence). done.
    + rewrite <-(Nat.add_succ_comm i j). exact Heq.
Qed.

(** What the tally says of them. *)
Lemma reports_tally rs ts :
  reports rs ts →
  (completions (tally_of (mkTally 0 0 0) rs) = Z.of_nat (length ts) ↔ Forall final ts) ∧
  (failures (tally_of (mkTally 0 0 0) rs) = 0%Z ↔ Forall (λ t, final t → passed_ t) ts).
Proof.
  intros Hr. assert (length rs = length (filter final ts)) as Hl.
  { apply (f_equal length) in Hr. by rewrite !length_fmap in Hr. }
  split.
  - simpl. rewrite Hl. clear Hr Hl. induction ts as [|t ts IH]; [by rewrite Forall_nil|].
    rewrite Forall_cons, filter_cons. pose proof (length_filter final ts).
    case_decide; simpl; [rewrite <-IH; split; [intros|intros [? ?]]; split || idtac; try done; lia|].
    split; [lia|by intros []].
  - rewrite tally_of_passes. assert (forallb tr_Passed rs = forallb id (tr_Passed <$> rs)) as ->.
    { clear. induction rs as [|r rs IH]; [done|]. simpl. by rewrite IH. }
    rewrite Hr. clear Hr Hl. induction ts as [|t ts IH]; [by rewrite Forall_nil|].
    rewrite Forall_cons, filter_cons. unfold passed_ at 1.
    assert (is_success t = true ↔ test_Phase (test_Status t) = TestPassed) as Hs.
    { unfold is_success, TestPhase_IsSuccess. by rewrite bool_decide_eq_true. }
    case_decide; simpl; [rewrite andb_true_iff, IH, Hs|rewrite IH]; naive_solver.
Qed.

End run.

(** ** The invariant *)

Section verdict.
Context `{AM : !ApiMachinery}.
Context (ErrRequeueDelay : Z) (sp : TestRunSpec) (nm : string) (E : event → Prop) (undecided : Prop).
Implicit Types (run : TestRun) (items ghost ts : list Test) (c : run_cluster).

Abbreviation n := (length (trs_Tests sp)).

Definition Und (run : obj KTestRun) (ts : list (obj KTest)) : Prop :=
  run_Spec run = sp ∧ GetName (k:=KTestRun) run = nm ∧ is_deleted (k:=KTestRun) run = false ∧
  TestRunPhase_IsFinal (run_Phase (run_Status run)) = false ∧
  indexed ts ∧ length ts ≤ n ∧ Forall (live (k:=KTest)) ts.

Definition Dec (phase : string) (ts : list (obj KTest)) : Prop :=
  TestRunPhase_IsFinal phase = true ∧ length ts = n ∧ indexed ts ∧ Forall final ts ∧
  if decide (phase = TestRunPassed) then Forall passed_ ts else Exists failed_ ts.

Lemma final_phase (t : Test) : final t ↔ passed_ t ∨ failed_ t.
Proof.
  unfold final, is_final, TestPhase_IsFinal. by rewrite orb_true_iff, !bool_decide_eq_true.
Qed.

Lemma moved_index t t' : moved (P:=KTestRun) (K:=KTest) t t' → index_of t' = index_of t.
Proof. intros ((_ & Hg) & _). simpl in Hg. unfold index_of. by rewrite Hg. Qed.

(** The Tests of a run without a verdict are not deleted. *)
Lemma moved_stays t t' :
  moved (P:=KTestRun) (K:=KTest) t t' → is_deleted (k:=KTest) t' = is_deleted (k:=KTest) t.
Proof. exact (moved_deleted (P:=KTestRun) (K:=KTest) t t' eq_refl). Qed.

(** Tests do not leave their verdicts. *)
Lemma final_lasting q :
  TestPhase_IsFinal q = true → lasting (P:=KTestRun) (K:=KTest) (λ p, p = q).
Proof. intros Hq a b Hs ->. simpl in Hs. congruence. Qed.

Lemma moved_passed t t' : moved (P:=KTestRun) (K:=KTest) t t' → passed_ t → passed_ t'.
Proof. intros Hm. by apply (moved_lasting (P:=KTestRun) (K:=KTest) _ _ _ (final_lasting TestPassed eq_refl)). Qed.

Lemma moved_failed t t' : moved (P:=KTestRun) (K:=KTest) t t' → failed_ t → failed_ t'.
Proof. intros Hm. by apply (moved_lasting (P:=KTestRun) (K:=KTest) _ _ _ (final_lasting TestFailed eq_refl)). Qed.

Lemma moved_final t t' : moved (P:=KTestRun) (K:=KTest) t t' → final t → final t'.
Proof. rewrite !final_phase. intros Hm [H|H]; [left; by eapply moved_passed|right; by eapply moved_failed]. Qed.

#[export] Instance Und_Stable : Stable (P:=KTestRun) (K:=KTest) Und.
Proof.
  split.
  - intros run ts ts' Hm (H1 & H2 & H3 & H4 & Hi & Hl & Hv).
    assert (behind (P:=KTestRun) (K:=KTest) ts ts') as Hb by (by exists ts).
    split_and!; [done..| | |].
    + eapply indexed_perm; [|exact Hi]. exact (behind_fmap (P:=KTestRun) (K:=KTest) index_of ts ts' moved_index Hb).
    + by rewrite <-(behind_length _ _ Hb).
    + eapply behind_Forall; [|exact Hb|exact Hv]. intros o o' Ho%moved_stays. unfold live. by rewrite Ho.
  - intros run run' ts H1 H2 H3 H4 (? & ? & ? & Hf & ?). simpl in H1, H2.
    split; [congruence|]. split; [congruence|]. split; [congruence|]. split; [by rewrite H2|done].
Qed.

Abbreviation cwp := (cwp (settling (P:=KTestRun) (K:=KTest) E) (Inv Und Dec)).
Abbreviation open := (open (P:=KTestRun) (K:=KTest) Und).
Abbreviation closed := (closed (P:=KTestRun) (K:=KTest) Dec).
Abbreviation behind := (behind (P:=KTestRun) (K:=KTest)).
Abbreviation faulty := (faulty E).

(** The listings show a Test for every template, which have all ended. *)
Definition ready : Prop := ∀ os items, E (Ev (CList KTest os) (inr items)) →
  length items = n ∧ Forall final items.

(** What a reconciliation of a run that has no verdict, [undecided], leaves
    when its calls succeed: no error, and a Test for every template; and a
    verdict when the listing shows that they have all ended. *)
Definition settled (c : run_cluster) (res : Result * option error) : Prop :=
  undecided → (res.2 = None ∨ faulty) ∧
    (decided c = None → faulty ∨ length (children c) = n ∧ ¬ ready).

Lemma run_settled_faulty c res : faulty → settled c res.
Proof. intros Hf _. split; [by right|by left]. Qed.

(** The Tests that are missing are created one by one. *)
Lemma cwp_creates m i items run tl ghost c :
  nm ≠ "" → n ≤ 10 → open run (behind ghost) c → length ghost = i → i + m = n →
  ∀ run', run_Spec run' = sp → run_ObjectMeta run' = run_ObjectMeta run →
  cwp (evaluateTests ErrRequeueDelay i (replicate m None) items run' tl) c
    (handles settled (λ c' r, r = (run', tl) ∧ ∃ new, open run (behind (new ++ ghost)) c' ∧ length new = m)).
Proof.
  intros Hnm Hn10. revert i ghost c. induction m as [|m IH]; intros i ghost c Ho Hg Hi run' Hsp Hmeta;
    cbn [replicate evaluateTests].
  { split; [by eapply open_Inv|]. simpl. split; [done|]. by exists []. }
  destruct (lookup_lt_is_Some_2 (trs_Tests (run_Spec run')) i) as [tmpl Htm]; [rewrite Hsp; lia|].
  unfold index. rewrite Htm. unfold bind_fn at 1, lift at 1. cbn [bind].
  eapply (cwp_handles_lift _ _ _ (λ c' r, match r.1 with
    | Some e => faulty
    | None => ∃ t, open run (behind (t :: ghost)) c' end)).
  - eapply (cwp_create Und Dec E _ _ _ (λ t, behind (t :: ghost))); [exact Ho|..];
      [intros t; apply behind_lasts| |done|by intros t c' _ Ho'; exists t].
    intros t ts (Hgen & Hdel & _) Hb (H1 & H2 & H3 & H4 & Hix & Hl & Hv).
    split; [|by apply behind_cons]. apply behind_length in Hb. simpl in *.
    split_and!; [done..| |simpl; lia|by constructor].
    apply indexed_cons; [|done]. unfold index_of. simpl in Hgen. rewrite Hgen, Hmeta.
    change (GetName (k:=KTestRun) run) with (Name (run_ObjectMeta run)) in H2. rewrite H2.
    rewrite testIndex_GenerateName by done. rewrite Z.mod_small by lia. do 2 f_equal. lia.
  - intros c' [[e|] t] HI Hr; [by split; [|apply run_settled_faulty]|]. destruct Hr as [t' Ho'].
    eapply cwp_event_fn; [apply _|exact Ho'|]. intros c2 Ho2.
    eapply cwp_mono; [|apply (IH (S i) (t' :: ghost)); [done|simpl; lia|lia|done|done]].
    intros c3 [[r|r]|?] _; [done| |done]. intros (-> & new & Ho3 & Hm).
    split; [done|]. exists (new ++ [t']). rewrite <-app_assoc, length_app. split; [done|simpl; lia].
Qed.

(** The status that ends [isRunning]. *)
Lemma cwp_updateRun run run' tl ghost c :
  open run (behind ghost) c → length ghost = n →
  run_Spec run' = sp → run_ObjectMeta run' = run_ObjectMeta run →
  (Z.of_nat n = completions tl → Forall final ghost ∧
     if decide (failures tl = 0%Z) then Forall passed_ ghost else Exists failed_ ghost) →
  (Z.of_nat n ≠ completions tl → ¬ ready) →
  cwp (updateRun ErrRequeueDelay run run' (Z.of_nat n) tl) c (completes settled).
Proof.
  intros Ho Hg Hsp Hmeta Hall Hready. unfold updateRun. case_bool_decide as Hc.
  - apply cwp_bind. eapply cwp_parent_status; [apply _|exact Ho|done|..].
    + intros p' ts H1 H2 H3 (? & ? & ? & ? & ?) Hb. simpl in H1, H2, H3 |- *.
      unfold Und, GetName, is_deleted, GetDeletionTimestamp in *. simpl in *.
      split; [congruence|]. rewrite H2. split; [done|]. split; [done|]. by rewrite H3.
    + intros e c' _ Hf HI'. by split; [|apply run_settled_faulty].
    + intros p' c' _ _ Hph. unfold outcome_of. rewrite Hph. simpl. intros Ho'.
      split; [by eapply open_Inv|]. intros _. split; [by left|]. intros _. right. split; [|by apply Hready].
      destruct Ho' as (_ & _ & _ & Hb & _). by rewrite <-(behind_length _ _ Hb).
  - assert (Z.of_nat n = completions tl) as Heq by lia.
    destruct (Hall Heq) as [Hfin Hv]. clear Hall Hready.
    apply cwp_bind. eapply (cwp_mono _ _ _ _ (completes (λ c' _, open run (behind ghost) c'))).
    2:{ case_bool_decide; (eapply (cwp_event Und Dec E _ _ _ _ Ret); [exact Ho|];
          intros c2 Ho2; by split; [eapply open_Inv|]). }
    intros c1 [[]|?] HI1; [|done]. intros Ho1. apply cwp_bind.
    eapply cwp_parent_status; [apply _|exact Ho1|done|..].
    + intros p' ts _ _ _ (_ & _ & _ & _ & Hix & _) Hb.
      rewrite (RunLife.completed_phase run' tl). cbn [decisive Run_Family].
      apply behind_length in Hb as Hlen.
      assert (Forall final ts) by exact (behind_Forall final _ _ moved_final Hb Hfin).
      repeat case_decide; try done; (split_and!; [done|exact (eq_trans (eq_sym Hlen) Hg)|done|done|]); simpl.
      * exact (behind_Forall passed_ _ _ moved_passed Hb Hv).
      * exact (behind_Exists failed_ _ _ moved_failed Hb Hv).
    + intros e c' _ Hf HI'. destruct (IgnoreNotFound _); (split; [done|by apply run_settled_faulty]).
    + intros p' c' _ _ Hph. unfold outcome_of. rewrite Hph, (RunLife.completed_phase run' tl).
      destruct (decide _); simpl; intros (ts & Hcl); (split; [exact (closed_Inv Und Dec _ _ Hcl)|]);
        intros _; (split; [by left|]); destruct Hcl as [Hd _]; intros Hd'; simpl in Hd'; congruence.
Qed.

Lemma open_indexed run items c :
  open run (behind items) c → indexed items ∧ length items ≤ n ∧ Forall (live (k:=KTest)) items.
Proof.
  intros (_ & _ & _ & Hb & (_ & _ & _ & _ & Hi & Hl & Hv)).
  apply behind_length in Hb as Hlen. simpl in *. split_and!; [|lia|].
  - eapply indexed_perm; [|exact Hi].
    by rewrite (behind_fmap (P:=KTestRun) (K:=KTest) index_of _ _ moved_index Hb).
  - assert (Forall (λ b, b = false) (is_deleted (k:=KTest) <$> items)) as H; [|by apply Forall_fmap in H].
    rewrite (behind_fmap (P:=KTestRun) (K:=KTest) (is_deleted (k:=KTest)) items (children c)
      moved_stays Hb). by apply Forall_fmap.
Qed.

Lemma all_passed_or_failed ts :
  Forall final ts → ¬ Forall (λ t, final t → passed_ t) ts → Exists failed_ ts.
Proof.
  intros Hf Hn. destruct (decide (Forall (λ t, ¬ failed_ t) ts)) as [Hs|Hs].
  - destruct Hn. apply Forall_forall. intros t Ht Hft.
    apply final_phase in Hft as [?|Hx]; [done|]. by destruct (proj1 (Forall_forall _ _) Hs t Ht).
  - apply not_Forall_Exists in Hs; [|apply _]. eapply Exists_impl; [exact Hs|].
    intros t Ht. by apply dec_stable.
Qed.

Lemma cwp_isRunning run items c :
  nm ≠ "" → n ≤ 10 → open run (behind items) c → (ready → length items = n ∧ Forall final items) →
  cwp (isRunning ErrRequeueDelay run items) c (completes settled).
Proof.
  intros Hnm Hn10 Ho Hready. destruct (open_indexed _ _ _ Ho) as (Hix & Hl & _).
  assert (run_Spec run = sp) as Hsp by apply Ho.
  unfold isRunning. rewrite Hsp. apply cwp_func.
  rewrite mapTests_well_indexed by (by apply indexed_well_indexed).
  apply cwp_next_bind_fn. rewrite indexed_mapping by done.
  destruct (evaluateTests_found ErrRequeueDelay 0 (length items) (replicate (n - length items) None)
    items (set_run_Results [] run) (mkTally 0 0 0)) as (rs & Hrs & Heq); [lia|simpl; rewrite Hsp; lia|].
  rewrite Heq. rewrite drop_0, take_ge in Hrs by lia. clear Heq.
  destruct (reports_tally _ _ Hrs) as [Hfin Hpass].
  assert (completions (tally_of (mkTally 0 0 0) rs) ≤ Z.of_nat (length items))%Z as Hle.
  { simpl. apply (f_equal length) in Hrs. rewrite !length_fmap in Hrs. rewrite Hrs.
    pose proof (length_filter final items). lia. }
  eapply cwp_handles_bind; [apply (cwp_creates (n - length items) (0 + length items) items run _ items c);
    [done|done|done|lia|lia|done|done]|].
  intros c' r _ (-> & new & Ho' & Hnew).
  apply cwp_handles_end. rewrite length_app, length_fmap, length_seq, length_replicate.
  replace (length items + (n - length items)) with n by lia.
  eapply cwp_updateRun; [exact Ho'|rewrite length_app; lia|done|done|..].
  - intros Hn. assert (length items = n) as Hlen by lia.
    assert (new = []) as -> by (apply nil_length_inv; lia). cbn [app].
    assert (Forall final items) as Hf by (apply Hfin; lia). split; [done|].
    case_decide as Hz.
    + apply Hpass in Hz. rewrite Forall_forall in *. auto.
    + apply all_passed_or_failed; [done|]. by rewrite <-Hpass.
  - intros Hn [Hlen Hf]%Hready. apply Hfin in Hf. lia.
Qed.

Lemma cwp_run_ensureFinalizer run L c :
  open run L c →
  cwp (ensureFinalizer ErrRequeueDelay run) c (handles settled (λ c' run', open run' L c')).
Proof.
  intros Ho. unfold ensureFinalizer. destruct (_ && _); [|by split; [eapply open_Inv|]].
  eapply (cwp_handles_lift _ _ _ (λ c' r, match r.1.2 with
    | Some e => faulty | None => open r.2 L c' end)).
  - eapply cwp_meta; [apply _|exact Ho|done|]. by intros b p' c' _ _ _ _.
  - intros c' [[b [e|]] run'] HI Hr; [|by split].
    destruct (IgnoreNotFound _); (split; [done|by apply run_settled_faulty]).
Qed.

Lemma cwp_run_ensurePhase run L c :
  open run L c →
  cwp (ensurePhase ErrRequeueDelay run) c (handles settled (λ c' run', open run' L c')).
Proof.
  intros Ho. unfold ensurePhase. case_bool_decide; [|by split; [eapply open_Inv|]].
  eapply (cwp_handles_lift _ _ _ (λ c' r, match r.1 with
    | Some e => faulty | None => open r.2 L c' end)).
  - eapply cwp_parent_status; [apply _|exact Ho|done|..|done|].
    + intros p' ts H1 H2 H3 (? & Hn & ? & ? & ?) Hb. simpl in H1, H2, H3 |- *.
      unfold Und, GetName, is_deleted, GetDeletionTimestamp in *. simpl in *.
      split; [congruence|]. rewrite H2. split; [done|]. split; [done|]. by rewrite H3.
    + intros p' c' _ _ Hph. unfold outcome_of. by rewrite Hph.
  - intros c' [[e|] run'] HI Hr; simpl in Hr.
    { destruct (IgnoreNotFound _); (split; [done|by apply run_settled_faulty]). }
    eapply cwp_event_fn; [apply _|exact Hr|]. intros c2 Ho2. by split; [eapply open_Inv|].
Qed.

(** A reconciliation of a run that had its verdict before. *)
Lemma cwp_run_decided run items c v :
  ¬ undecided → closed v c →
  TestRunPhase_IsFinal (run_Phase (run_Status run)) = true →
  cwp (let! testRun := ensureFinalizer ErrRequeueDelay run in
    let! testRun := ensurePhase ErrRequeueDelay testRun in
    if is_deleted (k:=KTestRun) testRun then lift (finalize ErrRequeueDelay testRun items)
    else
      let! items := pruneTests ErrRequeueDelay items in
      if TestRunPhase_IsFinal (run_Phase (run_Status testRun))
      then lift (isComplete ErrRequeueDelay testRun items)
      else lift (isRunning ErrRequeueDelay testRun items)) c (handles settled settled).
Proof.
  intros Hu Hv Hf.
  assert (ensureFinalizer ErrRequeueDelay run = next run) as -> by (unfold ensureFinalizer; by rewrite Hf).
  assert (ensurePhase ErrRequeueDelay run = next run) as Hp.
  { unfold ensurePhase. case_bool_decide as Hp; [|done]. by rewrite Hp in Hf. }
  unfold bind_fn at 1, next at 1. cbn [bind]. rewrite Hp. unfold bind_fn at 1, next at 1. cbn [bind].
  rewrite Hf. eapply cwp_mono; [|eapply (cwp_decided Und Dec); [exact Hv|]].
  - intros c' r _ (_ & a & ->). assert (∀ res, settled c' res) as Hs by done. destruct a; apply Hs.
  - eapply safe_mono; [|instantiate (1 := quiet)]; [by intros [[] ?]|].
    pose proof (RunLife.run_finalize_quiet ErrRequeueDelay run items).
    pose proof (RunLife.pruneTests_quiet ErrRequeueDelay items).
    pose proof (RunLife.run_isComplete_quiet ErrRequeueDelay run).
    wp_safe.
Qed.

Lemma cwp_run_Reconcile req c :
  nm ≠ "" → n ≤ 10 → Inv Und Dec c → (undecided → decided c = None) →
  cwp (Reconcile ErrRequeueDelay req) c (completes settled).
Proof.
  intros Hnm Hn10 HI Hu. unfold Reconcile. apply cwp_func.
  eapply cwp_get_fn; [apply _|exact HI|..].
  - intros e c' Hf HI' _. destruct (IgnoreNotFound _); (split; [done|by apply run_settled_faulty]).
  - intros run c1 Ho1. eapply cwp_list_fn; [apply _|exact Ho1|..].
    { intros e c' Hf Ho. split; [exact (open_Inv Und Dec _ _ _ Ho)|by apply run_settled_faulty]. }
    intros items c2 HE Ho2. eapply (open_learn Und _ _ (behind items)) in Ho2;
      [|apply behind_lasts|intros HU; apply listing_behind, HU].
    eapply cwp_handles_bind; [by apply cwp_run_ensureFinalizer|]. intros c3 run3 _ Ho3.
    eapply cwp_handles_bind; [exact (cwp_run_ensurePhase _ _ _ Ho3)|]. intros c4 run4 _ Ho4.
    destruct (open_indexed _ _ _ Ho4) as (_ & _ & Hlive).
    destruct (Ho4) as (_ & _ & _ & _ & (_ & _ & Hdel & Hf & _)). rewrite Hdel.
    unfold pruneTests. rewrite pruneDeleted_nop by done.
    unfold bind_fn at 1 2, lift at 1, next at 1. cbn [bind].
    rewrite Hf. apply cwp_handles_end, cwp_isRunning; [done|done|done|]. intros Hr. by eapply Hr.
  - intros run v c1 Hd0 Hv Hph. assert (¬ undecided) as Hn by (intros H%Hu; congruence).
    assert (TestRunPhase_IsFinal (run_Phase (run_Status run)) = true) as Hf.
    { simpl in Hph. rewrite Hph. apply Hv. }
    eapply cwp_call_decided; [done|exact Hv|].
    intros [e|items] c2 Hv2; [|by eapply cwp_run_decided].
    split; [exact (closed_Inv Und Dec _ _ Hv2)|]. by intros ?.
Qed.

End verdict.

(** A run that was just created, with at most ten Tests. *)
Definition fresh_run (run : TestRun) : Prop :=
  run_Phase (run_Status run) = "" ∧ DeletionTimestamp (run_ObjectMeta run) = None ∧
  Name (run_ObjectMeta run) ≠ "" ∧ length (trs_Tests (run_Spec run)) ≤ 10.

Lemma run_newborn run :
  fresh_run run → Inv (P:=KTestRun) (K:=KTest) (Und (run_Spec run) (Name (run_ObjectMeta run)))
    (Dec (run_Spec run)) (newborn (P:=KTestRun) (K:=KTest) run).
Proof.
  intros (Hph & Hd & Hn & Hl). unfold Inv, Und. simpl.
  unfold is_deleted, GetDeletionTimestamp. simpl. rewrite Hd, Hph.
  split_and!; [done..|constructor|lia|constructor].
Qed.

Lemma run_Reconcile_fine `{AM : !ApiMachinery} ErrRequeueDelay sp nm req (c : run_cluster) :
  nm ≠ "" → length (trs_Tests sp) ≤ 10 →
  Inv (P:=KTestRun) (K:=KTest) (Und sp nm) (Dec sp) c →
  fine (settles (P:=KTestRun) (K:=KTest)) (Inv (Und sp nm) (Dec sp)) (Reconcile ErrRequeueDelay req) c.
Proof.
  intros Hn Hl HI. apply (cwp_serves_mono (settling (λ _, True))); [by split|].
  eapply cwp_mono; [|apply (cwp_run_Reconcile _ _ _ _ False); [done|done|exact HI|done]]. done.
Qed.

Lemma run_reachable `{AM : !ApiMachinery} ErrRequeueDelay req run (c : run_cluster) :
  fresh_run run →
  attempts (settles (P:=KTestRun) (K:=KTest)) (Reconcile ErrRequeueDelay req)
    (newborn (P:=KTestRun) (K:=KTest) run) c →
  Inv (P:=KTestRun) (K:=KTest) (Und (run_Spec run) (Name (run_ObjectMeta run)))
    (Dec (run_Spec run)) c.
Proof.
  intros Hf Hc. eapply crash_invariant; [|exact Hc|by apply run_newborn].
  destruct Hf as (_ & _ & Hn & Hl). intros c' HI. by apply run_Reconcile_fine.
Qed.

(** What [Dec] says of the two verdicts. *)
Lemma run_Dec_verdict sp phase (ts : list (obj KTest)) :
  Dec sp phase ts →
  index_of <$> (ts : list Test) ≡ₚ (inr ∘ Z.of_nat) <$> seq 0 (length (trs_Tests sp)) ∧ Forall final ts ∧
  (phase = TestRunPassed ∧ Forall passed_ ts ∨ phase = TestRunFailed ∧ Exists failed_ ts).
Proof.
  intros (Hp & Hl & Hi & Hfin & Hv). rewrite <-Hl. split; [exact Hi|]. split; [done|].
  unfold TestRunPhase_IsFinal in Hp.
  apply orb_true_iff in Hp as [Hp%eqb_true|Hp%eqb_true]; [left|right]; (split; [done|]); by rewrite Hp in Hv.
Qed.

(** C3: however often a fresh run of at most ten templates is reconciled,
    wherever the controller crashes, and while its Tests move on: its Tests
    are those of its first templates, one for each. A verdict is only stored
    when there is a Test for every template, and all of them have ended; it
    is Passed when all of them passed, and Failed when one of them failed.
    This is of a cluster that [settles]: reads are current, a listing knows
    every Test, and until the verdict nobody else writes the run, or deletes it
    or a Test of it; [isRunning_panics] and [isRunning_misattributes] of
    [TestRunController] are what happens otherwise. *)
Theorem run_verdict_sound `{AM : !ApiMachinery} ErrRequeueDelay req run (c : run_cluster) :
  fresh_run run →
  attempts (settles (P:=KTestRun) (K:=KTest)) (Reconcile ErrRequeueDelay req)
    (newborn (P:=KTestRun) (K:=KTest) run) c →
  let n := length (trs_Tests (run_Spec run)) in
  let phase := run_Phase (run_Status (parent c)) in
  match decided c with
  | None => length (children c) ≤ n ∧
      index_of <$> children c ≡ₚ (inr ∘ Z.of_nat) <$> seq 0 (length (children c)) ∧
      phase ≠ TestRunPassed ∧ phase ≠ TestRunFailed
  | Some (verdict, ts) => phase = verdict ∧
      index_of <$> ts ≡ₚ (inr ∘ Z.of_nat) <$> seq 0 n ∧ Forall final ts ∧
      (verdict = TestRunPassed ∧ Forall passed_ ts ∨ verdict = TestRunFailed ∧ Exists failed_ ts)
  end.
Proof.
  intros Hf Hc n phase. apply run_reachable in Hc; [|done]. revert Hc. unfold Inv.
  destruct (decided c) as [[q ts]|].
  - intros (Hq & HD). split; [exact Hq|]. by apply run_Dec_verdict.
  - intros (_ & _ & _ & Hp & Hi & Hl & _). split_and!; [done|exact Hi|..];
      intros Heq; subst phase; by rewrite Heq in Hp.
Qed.

(** C9: at any such time a complete reconciliation does not panic. When the
    run has no verdict and no call of it fails, it returns no error, and leaves
    a verdict or a Test for every template; and a verdict, when it listed a
    Test for every template, all of which have ended. *)
Theorem run_converges `{AM : !ApiMachinery} ErrRequeueDelay req run (c c' : run_cluster) t o :
  fresh_run run →
  attempts (settles (P:=KTestRun) (K:=KTest)) (Reconcile ErrRequeueDelay req)
    (newborn (P:=KTestRun) (K:=KTest) run) c →
  exec (Reconcile ErrRequeueDelay req) t o → served (settles (P:=KTestRun) (K:=KTest)) c t c' →
  let n := length (trs_Tests (run_Spec run)) in
  ∃ res err, o = Done (res, err) ∧
    (decided c = None → Forall succeeded t → err = None ∧
      (decided c' = None → length (children c') = n ∧
        ¬ ∀ os items, Ev (CList KTest os) (inr items) ∈ t → length items = n ∧ Forall final items)).
Proof.
  intros Hf Hc He Hs n. apply run_reachable in Hc; [|done]. destruct Hf as (_ & _ & Hn & Hl).
  assert (completes (settled (run_Spec run) (λ e, e ∈ t) (decided c = None)) c' o) as Hq.
  { eapply cwp_exec; [|exact He|exact (served_Forall _ (λ e, e ∈ t) _ _ _ Hs (proj2 (Forall_forall _ _) (λ _ H, H)))].
    by apply (cwp_run_Reconcile _ _ (Name (run_ObjectMeta run))). }
  destruct o as [[res err]|?]; [|done]. exists res, err. split; [done|]. intros Hd Ht.
  assert (¬ faulty (λ e, e ∈ t)) as Hnf.
  { intros (e & Hin & Hne). by apply Hne, (proj1 (Forall_forall _ _) Ht). }
  destruct (Hq Hd) as [[?|?] Hv]; [|done]. split; [done|]. intros Hd'.
  destruct (Hv Hd') as [?|?]; done.
Qed.

End RunVerdict.
