(* ===== verification/ClusterServer.v ===== *)
(** A concrete API server for a parent and its children: it meets the
    assumption [Cluster.settles] of the verdicts, and controllers can be run
    against it. *)

From S2P Require Import Prelude.
From S2P Require Import GoLib.
From S2P Require Import Api.
From S2P Require Import Effects.
From S2P Require Import Instances.
From S2P Require Import Crash.
From S2P Require Import Server.
From S2P Require Import Lifecycle.
From S2P Require Import Cluster.
From S2P Require Import Verdicts.

(** A status patch as the server stores it, of which the rest is dropped. *)
Class StatusPut (P K : kind) `{Family P K} := {
  put_status : obj P → obj P → obj P;
  put_status_spec new p : spec_of (put_status new p) = spec_of p;
  put_status_meta new p : GetObjectMeta (put_status new p) = GetObjectMeta p;
  put_status_phase new p : phase_of (put_status new p) = phase_of new;
  SetFinalizers_spec fs p : spec_of (SetFinalizers fs p) = spec_of p }.

Section server.
Context {P K : kind} `{StatusPut P K}.

Abbreviation cluster := (cluster (P:=P) (K:=K)).

(** What others do before a call is answered, and the child that is stored
    for the one that was sent. *)
Context (nudge : cluster → cluster) (give : obj K → obj K).

(** The object as a reply of kind [k]. *)
Definition reply_with {k k'} (o : obj k') : error + obj k :=
  match as_kind k o with Some o => inr o | None => inl conflict end.

Definition store_parent (p : obj P) (w : cluster) : cluster :=
  mkCluster p (children w)
    (match decided w with
     | Some v => Some v
     | None => if decisive (phase_of p) then Some (phase_of p, children w) else None
     end).

Definition answer (c : call) (w : cluster) : reply c * cluster :=
  match c return reply c * cluster with
  | CGet k _ => (reply_with (parent w), w)
  | CList k _ => (inr (omap (as_kind k) (children w)), w)
  | CCreate k o =>
      match as_kind K o with
      | Some o => (reply_with (give o), add_child (give o) w)
      | None => (inr o, w)
      end
  | CDelete _ _ => (None, w)
  | CPatch k _ new =>
      match as_kind P new with
      | Some new =>
          let p := SetFinalizers (GetFinalizers new) (parent w) in
          (reply_with p, mkCluster p (children w) (decided w))
      | None => (inl conflict, w)
      end
  | CStatusPatch k orig new =>
      match as_kind P orig, as_kind P new with
      | Some orig, Some new =>
          if phase_of orig == phase_of (parent w)
          then let p := put_status new (parent w) in (reply_with p, store_parent p w)
          else (inl conflict, w)
      | _, _ => (inr new, w)
      end
  | CEvent _ _ _ _ _ => (tt, w)
  | CMetric _ => (tt, w)
  | CNow => (0%Z, w)
  | CEnqueue _ => (tt, w)
  end.

Definition serve_cluster (c : call) (w : cluster) : reply c * cluster := answer c (nudge w).

Lemma reply_with_refl {k k'} (o : obj k) (x : obj k') :
  reply_with (k:=k) x = inr o → as_kind k x = Some o.
Proof. unfold reply_with. destruct (as_kind k x); [congruence|done]. Qed.

Context (nudge_others : ∀ w, others w (nudge w)).
Context (give_born : ∀ o, born o (give o)).

Lemma write_meta_finalizers fs (w : cluster) :
  write_meta w (mkCluster (SetFinalizers fs (parent w)) (children w) (decided w)).
Proof.
  unfold write_meta. simpl. rewrite SetFinalizers_spec, phase_of_SetFinalizers, GetName_SetFinalizers.
  unfold is_deleted. rewrite GetDeletionTimestamp_SetFinalizers. by split_and!.
Qed.

Lemma write_status_put orig new (w : cluster) :
  phase_of orig = phase_of (parent w) →
  write_status orig new w (store_parent (put_status new (parent w)) w).
Proof.
  intros Ho. unfold write_status, store_parent. simpl.
  rewrite put_status_spec, put_status_meta, put_status_phase.
  case_bool_decide; by split_and!; try congruence.
Qed.

Lemma answered_write {k} (w w' : cluster) (R : cluster → cluster → Prop) :
  R w w' → answered R w w' (reply_with (k:=k) (parent w')).
Proof.
  intros HR. unfold answered. destruct (reply_with (parent w')) as [e|p] eqn:Hp.
  - split; [by right|]. unfold reply_with in Hp. destruct (as_kind k (parent w')); [done|].
    by simplify_eq.
  - split; [done|]. apply reply_with_refl in Hp. by apply as_kind_Some in Hp.
Qed.

Lemma answer_current c (w : cluster) : current w (Ev c (answer c w).1).
Proof.
  destruct c as [k key|k os| | | | | | | |]; try done; simpl.
  - destruct (reply_with (parent w)) as [e|p] eqn:Hp.
    + intros _. unfold reply_with in Hp. destruct (as_kind k (parent w)); [done|]. by simplify_eq.
    + intros p' Hp'. apply reply_with_refl, as_kind_Some in Hp. congruence.
  - intros -> items [= <-]. rewrite !omap_as_kind. apply listing_refl.
Qed.

Lemma answer_written c (w : cluster) : written w (Ev c (answer c w).1) (answer c w).2.
Proof.
  unfold written.
  destruct c as [k key|k os|k o|k o|k orig new|k orig new|k o ty re ms|op| |req]; cbn [answer]; try done.
  - destruct (as_kind K o) as [o'|]; [|done]. cbn [fst snd].
    destruct (reply_with (give o')) as [e|o1] eqn:Ho.
    + right. by exists (give o').
    + exists (give o'). apply reply_with_refl, as_kind_Some in Ho. done.
  - destruct (as_kind P new) as [p|]; [|by split; [apply touched_refl|]]. apply answered_write, write_meta_finalizers.
  - destruct (as_kind P orig) as [o|]; [|done]. destruct (as_kind P new) as [p|]; [|done].
    case_bool_decide as He; cbn [fst snd].
    + by apply (answered_write _ (store_parent _ w)), write_status_put.
    + split; [by left|done].
Qed.

Lemma answer_exchanged c (w : cluster) : exchanged w (Ev c (answer c w).1) (answer c w).2.
Proof. split; [apply answer_written|apply answer_current]. Qed.

Lemma serve_settles c (w : cluster) :
  settles w (Ev c (serve_cluster c w).1) (serve_cluster c w).2.
Proof. exists (nudge w). split; [apply nudge_others|apply answer_exchanged]. Qed.

Lemma run_settles {A} (m : prog A) (w : cluster) :
  served settles w (run serve_cluster m w).1.1 (run serve_cluster m w).2.
Proof.
  revert w. induction m as [a|p|c cont IH]; intros w; simpl; [constructor..|].
  pose proof (serve_settles c w) as Hs. destruct (serve_cluster c w) as [r w']. specialize (IH r w').
  destruct (run serve_cluster (cont r) w') as [[t o] w'']. by econstructor.
Qed.

Fixpoint rounds {A} (n : nat) (m : prog A) (w : cluster) : cluster :=
  match n with
  | 0 => w
  | S n => rounds n m (run serve_cluster m w).2
  end.

Lemma rounds_attempts {A} n (m : prog A) (w : cluster) : attempts settles m w (rounds n m w).
Proof.
  revert w. induction n as [|n IH]; intros w; simpl; [done|].
  eapply rtc_l; [|apply IH]. eexists. split; [apply (run_partial serve_cluster)|apply run_settles].
Qed.

Lemma run_exec {A W} (srv : ∀ c, W → reply c * W) (m : prog A) w :
  exec m (run srv m w).1.1 (run srv m w).1.2.
Proof.
  revert w. induction m as [a|p|c cont IH]; intros w; simpl; [constructor..|].
  destruct (srv c w) as [r w']. specialize (IH r w').
  destruct (run srv (cont r) w') as [[t o] w'']. by constructor.
Qed.

End server.

#[export] Instance Test_StatusPut : StatusPut KTest KPod.
Proof.
  refine {| put_status (new p : obj KTest) := set_test_Status (test_Status new) p |}; by intros.
Defined.

#[export] Instance Run_StatusPut : StatusPut KTestRun KTest.
Proof.
  refine {| put_status (new p : obj KTestRun) := set_run_Status (run_Status new) p |}; by intros.
Defined.
