(* ===== verification/System.v ===== *)
(** A run, its Tests and their pods as one system.

    [Verdicts] takes the two levels one at a time: there the Tests of a run
    are moved on by others. Here each of them is in the hands of its own Test
    controller, with its own pods, so that the verdict of a run can be traced
    to the pods that were created for it. A [system] is the run with its
    controller, and an [entry] for every Test that was created for it; [step]
    interleaves single exchanges of the controllers, which may be started and
    cut off at any time, with what others do. *)

From S2P Require Import Prelude.
From S2P Require Import GoLib.
From S2P Require Import Api.
From S2P Require Import Effects.
From S2P Require Import Helpers.
From S2P Require Import PruneDeleted.
From S2P Require Import Crash.
From S2P Require Import Lifecycle.
From S2P Require Import Cluster.
From S2P Require Import Verdicts.
From S2P Require TestController.
From S2P Require TestRunController.

Abbreviation handler := (prog (Result * option error)).
Abbreviation test_cluster := TestVerdict.test_cluster.
Abbreviation run_cluster := RunVerdict.run_cluster.

(** A Test of the run: the Test and its pods, and the reconciliation that is
    at work on it, if there is one. *)
Record entry := mkEntry {
  cl : test_cluster;
  proc : option handler }.

(** The run and the reconciliation at work on it; its Tests; and the verdict
    of the run, with its Tests and their pods at the time it was stored. *)
Record system := mkSystem {
  sys_run : TestRun;
  run_proc : option handler;
  entries : list entry;
  verdict : option (string * list test_cluster) }.

Definition test_of (c : test_cluster) : obj KTest := parent c.

(** What the run's controller sees of the system. *)
Definition seen (v : string * list test_cluster) : string * list (obj KTest) :=
  (v.1, test_of <$> v.2).

Definition cluster_of (s : system) : run_cluster :=
  mkCluster (P:=KTestRun) (K:=KTest) (sys_run s) ((λ e, test_of (cl e)) <$> entries s)
    (seen <$> verdict s).

Definition with_entry (i : nat) (e : entry) (s : system) : system :=
  mkSystem (sys_run s) (run_proc s) (<[i := e]> (entries s)) (verdict s).

Definition with_proc (m : option handler) (s : system) : system :=
  mkSystem (sys_run s) m (entries s) (verdict s).

(** As long as the run has no verdict nobody renames its Tests or deletes
    them. *)
Definition kept (s : system) (c c' : test_cluster) : Prop :=
  verdict s = None →
  Name (test_ObjectMeta (parent c')) = Name (test_ObjectMeta (parent c)) ∧
  GenerateName (test_ObjectMeta (parent c')) = GenerateName (test_ObjectMeta (parent c)) ∧
  is_deleted (k:=KTest) (parent c') = is_deleted (k:=KTest) (parent c).

(** The calls of a run's controller that may change the Tests there are. *)
Definition touches (c : call) : Prop :=
  match c with
  | CDelete _ _ => True
  | CPatch _ _ new => as_kind KTestRun new = None
  | _ => False
  end.

(** How a call of the run's controller changes the Tests, and the verdict. A
    new Test has no phase and no pods. *)
Definition records (c : call) (s s' : system) : Prop :=
  (entries s' = entries s ∨
   (∃ t, TestVerdict.fresh_test t ∧
      entries s' = mkEntry (newborn (P:=KTest) (K:=KPod) t) None :: entries s) ∨
   touches c) ∧
  (verdict s' = verdict s ∨ verdict s = None ∧ ∃ q, verdict s' = Some (q, cl <$> entries s')).

#[local] Existing Instances TestVerdict.Und_Stable RunVerdict.Und_Stable.

Section system.
Context `{AM : !ApiMachinery}.
Context (ErrRequeueDelay : Z).
Implicit Types (s : system) (e : entry) (run : TestRun).

Inductive step s : system → Prop :=
| step_others i e c' :
    entries s !! i = Some e → others (cl e) c' → kept s (cl e) c' →
    step s (with_entry i (mkEntry c' (proc e)) s)
| step_test_start i e req :
    entries s !! i = Some e →
    step s (with_entry i (mkEntry (cl e) (Some (TestController.Reconcile ErrRequeueDelay req))) s)
| step_test_stop i e :
    entries s !! i = Some e → step s (with_entry i (mkEntry (cl e) None) s)
| step_test_exchange i e call cont r c' :
    entries s !! i = Some e → proc e = Some (Call call cont) →
    settles (cl e) (Ev call r) c' → kept s (cl e) c' →
    step s (with_entry i (mkEntry c' (Some (cont r))) s)
| step_run_start req :
    step s (with_proc (Some (TestRunController.Reconcile ErrRequeueDelay req)) s)
| step_run_stop : step s (with_proc None s)
| step_run_exchange call cont r s' :
    run_proc s = Some (Call call cont) → run_proc s' = Some (cont r) →
    exchanged (cluster_of s) (Ev call r) (cluster_of s') → records call s s' → step s s'
| step_decided v s' :
    verdict s = Some v → verdict s' = Some v → run_proc s' = run_proc s →
    run_Phase (run_Status (sys_run s')) = run_Phase (run_Status (sys_run s)) → step s s'.

(** The systems that [run] may have become part of since it was created. *)
Definition reachable run s : Prop :=
  RunVerdict.fresh_run run ∧ rtc step (mkSystem run None [] None) s.

(** ** The invariant *)

Abbreviation Test_Inv := (Inv TestVerdict.Und TestVerdict.Dec).

Definition entry_ok e : Prop :=
  Test_Inv (cl e) ∧ ∀ m, proc e = Some m → fine settles Test_Inv m (cl e).

Section invariant.
Context (sp : TestRunSpec) (nm : string) (Hnm : nm ≠ "") (Hsp : length (trs_Tests sp) ≤ 10).

Abbreviation Run_Inv := (Inv (RunVerdict.Und sp nm) (RunVerdict.Dec sp)).

Definition ok s : Prop :=
  Run_Inv (cluster_of s) ∧
  (∀ m, run_proc s = Some m → fine settles Run_Inv m (cluster_of s)) ∧
  (verdict s = None → Forall entry_ok (entries s)) ∧
  (∀ q v, verdict s = Some (q, v) → Forall Test_Inv v).

(** A Test that is reconciled, or whose pods move on, is moved on in the eyes
    of the run's controller. *)
Lemma reconciled_moved s (c c' : test_cluster) :
  verdict s = None → kept s c c' → Test_Inv c → Test_Inv c' →
  (∀ v, Cluster.decided c = Some v → Cluster.decided c' = Some v) →
  moved (P:=KTestRun) (K:=KTest) (parent c) (parent c').
Proof.
  intros Hv Hk HI HI' Hd. destruct (Hk Hv) as (Hn & Hg & Hdel).
  split; [done|]. split; [by left|]. destruct (Cluster.decided c) as [v|] eqn:Hdc.
  - specialize (Hd v eq_refl). destruct (Inv_closed _ _ _ _ Hdc HI) as (_ & Hp & _).
    destruct (Inv_closed _ _ _ _ Hd HI') as (_ & Hp' & _). rewrite Hp, Hp'. done.
  - apply rtc_once. unfold Inv in HI. rewrite Hdc in HI. apply HI.
Qed.

(** The step of a single Test. *)
Lemma ok_entry i e e' s :
  entries s !! i = Some e → ok s → kept s (cl e) (cl e') →
  (∀ v, Cluster.decided (cl e) = Some v → Cluster.decided (cl e') = Some v) →
  (entry_ok e → entry_ok e') → ok (with_entry i e' s).
Proof.
  intros Hi (HR & Hrun & Hes & Hvs) Hk Hd He.
  assert (others (cluster_of s) (cluster_of (with_entry i e' s))) as Ho.
  { split; [done|]. simpl. destruct (verdict s) as [v|] eqn:Hv; [done|]. simpl. split; [done|].
    specialize (Hes eq_refl). pose proof (Forall_lookup_1 _ _ _ _ Hes Hi) as Heok.
    rewrite list_fmap_insert. rewrite <-(list_insert_id ((λ e, test_of (cl e)) <$> entries s) i (test_of (cl e))) at 1
      by (by rewrite list_lookup_fmap, Hi).
    apply Forall2_insert; [apply Forall_Forall2_diag, Forall_true; intros; reflexivity|]. by apply (reconciled_moved s); [..|apply Heok|apply He|]. }
  split_and!; simpl.
  - exact (Inv_others (RunVerdict.Und sp nm) (RunVerdict.Dec sp) _ _ Ho HR).
  - intros m Hm. exact (fine_others (RunVerdict.Und sp nm) (RunVerdict.Dec sp) m _ _ Ho (Hrun m Hm)).
  - intros Hv. specialize (Hes Hv). apply Forall_insert; [done|].
    apply He. by eapply Forall_lookup_1.
  - done.
Qed.

(** More Tests than there are templates. *)
Definition surplus : list (obj KTest) :=
  replicate (S (length (trs_Tests sp)))
    (mkTest (mkTypeMeta "" "") (mkObjectMeta "" "" "" "" 0 0 None None None [] [])
      (mkTestSpec RetainNever (mkPodTemplateSpec (mkObjectMeta "" "" "" "" 0 0 None None None [] [])
        (mkPodSpec "" ""))) (mkTestStatus [] "" None)).

(** Before the verdict the run's controller does not touch a Test. *)
Lemma run_touches_none s call cont :
  ok s → verdict s = None → run_proc s = Some (Call call cont) → touches call → False.
Proof.
  intros (_ & Hrun & _) Hv Hm Ht.
  set (c' := mkCluster (P:=KTestRun) (K:=KTest) (sys_run s) surplus None).
  assert (touched (cluster_of s) c') as Htouch.
  { split; [done|]. split; [simpl; by rewrite Hv|done]. }
  destruct (Hrun _ Hm) as [_ Hcall].
  assert (∀ r, exchanged (cluster_of s) (Ev call r) c' → Run_Inv c') as HI.
  { intros r Hr. eapply cwp_inv_now, Hcall. exists (cluster_of s). split; [apply others_refl|exact Hr]. }
  assert (Run_Inv c') as (_ & _ & _ & _ & _ & Hl & _).
  { clear Hcall. destruct call as [| | |k o| k orig new| | | | |]; try done.
    - by apply (HI None).
    - apply (HI (inl (errors_New ""))). split; [|done]. simpl in Ht |- *. rewrite Ht. by split. }
  simpl in Hl. unfold surplus in Hl.
  rewrite length_replicate in Hl. lia.
Qed.

(** An exchange of the run's controller. *)
Lemma ok_run_exchange call cont r s s' :
  run_proc s = Some (Call call cont) → run_proc s' = Some (cont r) →
  exchanged (cluster_of s) (Ev call r) (cluster_of s') → records call s s' → ok s → ok s'.
Proof.
  intros Hm Hm' Hx [Hes' Hv'] Hok. pose proof Hok as (HR & Hrun & Hes & Hvs).
  assert (fine settles Run_Inv (cont r) (cluster_of s')) as Hf.
  { apply (Hrun _ Hm). exists (cluster_of s). split; [apply others_refl|exact Hx]. }
  assert (verdict s = None → Forall entry_ok (entries s')) as He.
  { intros Hv. destruct Hes' as [->|[(t & Ht & ->)|Ht]]; [by apply Hes| |].
    - constructor; [|by apply Hes]. split; [by apply TestVerdict.test_newborn|done].
    - by destruct (run_touches_none _ _ _ Hok Hv Hm Ht). }
  split_and!.
  - by eapply cwp_inv_now.
  - intros m Hm2. rewrite Hm' in Hm2. by injection Hm2 as <-.
  - intros Hv. destruct Hv' as [Heq|(_ & q & Heq)]; [|congruence]. apply He. congruence.
  - intros q v Hv. destruct Hv' as [Heq|(Hn & q' & Heq)]; [apply (Hvs q); congruence|].
    rewrite Heq in Hv. injection Hv as <- <-. apply Forall_fmap.
    eapply Forall_impl; [by apply He|]. by intros e [].
Qed.

Lemma ok_step s s' : step s s' → ok s → ok s'.
Proof.
  intros Hs Hok. destruct Hs as [i e c' Hi Ho Hk|i e req Hi|i e Hi|i e call cont r c' Hi Hm Hx Hk|req| |
    call cont r s' Hm Hm' Hx Hst|v s' Hv Hv' Hp Hph].
  - apply (ok_entry i e); simpl; [done..| |].
    + intros v Hv. by rewrite (proj1 Ho).
    + intros [HI Hf]. split; simpl.
      * exact (Inv_others TestVerdict.Und TestVerdict.Dec _ _ Ho HI).
      * intros m Hm. exact (fine_others TestVerdict.Und TestVerdict.Dec m _ _ Ho (Hf m Hm)).
  - apply (ok_entry i e); simpl; [done|done|by intros ?|done|].
    intros [HI _]. split; [done|]. intros m [= <-]. by apply TestVerdict.test_Reconcile_fine.
  - apply (ok_entry i e); simpl; [done|done|by intros ?|done|].
    intros [HI _]. by split.
  - apply (ok_entry i e); simpl; [done..| |].
    + intros v Hv. exact (settles_decided (P:=KTest) (K:=KPod) _ _ _ _ Hv Hx).
    + intros [HI Hf]. destruct (Hf _ Hm) as [_ Hc]. specialize (Hc r c' Hx). split; simpl.
      * by eapply cwp_inv_now.
      * by intros m [= <-].
  - destruct Hok as (HR & Hrun & Hes & Hvs). split_and!; [done| |done|done].
    intros m [= <-]. by apply RunVerdict.run_Reconcile_fine.
  - destruct Hok as (HR & Hrun & Hes & Hvs). by split_and!.
  - by eapply ok_run_exchange.
  - destruct Hok as (HR & Hrun & Hes & Hvs).
    assert (others (cluster_of s) (cluster_of s')) as Ho.
    { split; simpl; [by rewrite Hv, Hv'|]. by rewrite Hv. }
    split_and!; [|..|congruence|].
    + exact (Inv_others (RunVerdict.Und sp nm) (RunVerdict.Dec sp) _ _ Ho HR).
    + intros m Hm. rewrite Hp in Hm.
      exact (fine_others (RunVerdict.Und sp nm) (RunVerdict.Dec sp) m _ _ Ho (Hrun m Hm)).
    + intros q v' Hv2. apply (Hvs q). congruence.
Qed.

End invariant.

Lemma reachable_ok run s :
  reachable run s → ok (run_Spec run) (Name (run_ObjectMeta run)) s.
Proof.
  intros [Hf Hs]. assert (ok (run_Spec run) (Name (run_ObjectMeta run)) (mkSystem run None [] None)) as H0.
  { split_and!; [by apply RunVerdict.run_newborn|done|by constructor|done]. }
  destruct Hf as (_ & _ & Hn & Hl). revert H0. induction Hs as [s|s s1 s2 H1 _ IH]; [done|].
  intros H0. by eapply IH, ok_step.
Qed.

(** ** Verdicts *)

(** The cluster of a Test that has the verdict [q] because of a pod of its own
    that ended in [phase]. *)
Definition by_pod (q : TestPhase) (phase : string) (c : test_cluster) : Prop :=
  ∃ pods (pod : Pod), Cluster.decided c = Some (q, pods) ∧ pod ∈ pods ∧
    pod_Phase (pod_Status pod) = phase.

(** What the verdict of a run of [n] templates says of its Tests and their
    pods. *)
Definition earned (n : nat) (q : string) (v : list test_cluster) : Prop :=
  q = TestRunPassed ∧ (∀ k, k < n → ∃ c, c ∈ v ∧
    RunVerdict.index_of (test_of c) = inr (Z.of_nat k) ∧ by_pod TestPassed PodSucceeded c) ∨
  q = TestRunFailed ∧ ∃ c, c ∈ v ∧ by_pod TestFailed PodFailed c.

(** A Test with a verdict has it because of a pod. *)
Lemma final_by_pod c q :
  Test_Inv c → test_Phase (test_Status (test_of c)) = q → TestPhase_IsFinal q = true →
  q = TestPassed ∧ by_pod TestPassed PodSucceeded c ∨ q = TestFailed ∧ by_pod TestFailed PodFailed c.
Proof.
  intros HI Hq Hf. unfold Inv in HI. destruct (Cluster.decided c) as [[q' pods]|] eqn:Hd.
  - destruct HI as [Hp HD]. assert (q' = q) as -> by (symmetry; exact (eq_trans (eq_sym Hq) Hp)).
    apply TestVerdict.test_Dec_verdict in HD as (pod & Hin & [[-> Hph]|[-> Hph]]); [left|right];
      (split; [done|]); by exists pods, pod.
  - destruct HI as (_ & Hn & _). unfold test_of in Hq. simpl in *. congruence.
Qed.

Lemma reachable_verdict run s :
  reachable run s →
  match verdict s with
  | None => TestRunPhase_IsFinal (run_Phase (run_Status (sys_run s))) = false
  | Some (q, v) => run_Phase (run_Status (sys_run s)) = q ∧ earned (length (trs_Tests (run_Spec run))) q v
  end.
Proof.
  intros Hr. destruct (reachable_ok _ _ Hr) as (HR & _ & _ & Hvs). unfold Inv in HR. simpl in HR.
  destruct (verdict s) as [[q v]|]; simpl in HR; [|apply HR]. destruct HR as [Hq HD].
  split; [exact Hq|]. specialize (Hvs q v eq_refl).
  apply RunVerdict.run_Dec_verdict in HD as (Hi & Hfin & HD).
  assert (∀ c, c ∈ v → TestRunController.is_final (test_of c) = true) as Hf.
  { intros c Hc. apply (proj1 (Forall_forall _ _) Hfin). by apply list_elem_of_fmap_2. }
  destruct HD as [[-> Hp]|[-> Hx]]; [left|right]; (split; [done|]).
  - intros k Hk. assert (inr (Z.of_nat k) ∈ RunVerdict.index_of <$> (test_of <$> v)) as Hin.
    { rewrite Hi, list_elem_of_fmap. exists k. split; [done|]. apply elem_of_seq. lia. }
    apply list_elem_of_fmap in Hin as (t & Ht & Hin). apply list_elem_of_fmap in Hin as (c & -> & Hc).
    exists c. split_and!; [done|done|].
    pose proof (proj1 (Forall_forall _ _) Hp _ (list_elem_of_fmap_2 _ _ _ Hc)) as Hpass.
    destruct (final_by_pod c _ (proj1 (Forall_forall _ _) Hvs c Hc) Hpass eq_refl) as [[_ ?]|[? _]]; done.
  - apply Exists_exists in Hx as (t & Hin & Ht). apply list_elem_of_fmap in Hin as (c & -> & Hc).
    exists c. split; [done|].
    destruct (final_by_pod c _ (proj1 (Forall_forall _ _) Hvs c Hc) Ht eq_refl) as [[? _]|[_ ?]]; done.
Qed.

(** C2: the verdict of a run is that of its pods. From the creation of the run
    on, with its own controller and those of its Tests interleaved in any way
    and cut off anywhere, while pods end and are evicted: a run without a
    verdict has no final phase; one that passed has, for every template, a
    Test that was created for it, one of whose own pods succeeded; and one that
    failed has such a Test one of whose own pods failed. Each of the clusters
    [settles]: reads are current, listings know all live children, and until a
    verdict nobody else writes the run or a Test, or deletes one. *)
Theorem verdict_end_to_end run s :
  reachable run s →
  let n := length (trs_Tests (run_Spec run)) in
  let phase := run_Phase (run_Status (sys_run s)) in
  match verdict s with
  | None => phase ≠ TestRunPassed ∧ phase ≠ TestRunFailed
  | Some (q, v) => phase = q ∧
      (q = TestRunPassed ∧ (∀ k, k < n → ∃ c pods (pod : Pod), c ∈ v ∧
         RunVerdict.index_of (test_of c) = inr (Z.of_nat k) ∧
         Cluster.decided c = Some (TestPassed, pods) ∧ pod ∈ pods ∧
         pod_Phase (pod_Status pod) = PodSucceeded) ∨
       q = TestRunFailed ∧ ∃ c pods (pod : Pod), c ∈ v ∧
         Cluster.decided c = Some (TestFailed, pods) ∧ pod ∈ pods ∧
         pod_Phase (pod_Status pod) = PodFailed)
  end.
Proof.
  intros Hr n phase. pose proof (reachable_verdict _ _ Hr) as H. subst n phase.
  destruct (verdict s) as [[q v]|].
  - destruct H as [Hq [[-> H]|[-> H]]]; (split; [exact Hq|]); [left|right]; (split; [done|]).
    + intros k Hk. destruct (H k Hk) as (c & Hc & Hi & pods & pod & Hd & Hin & Hph).
      by exists c, pods, pod.
    + destruct H as (c & Hc & pods & pod & Hd & Hin & Hph). by exists c, pods, pod.
  - split; intros Heq; by rewrite Heq in H.
Qed.

End system.
