(* ===== verification/SystemServer.v ===== *)
(** A concrete system: the steps of [System] computed with the server of
    [ClusterServer], one reconciliation after the other. *)

From S2P Require Import Prelude.
From S2P Require Import GoLib.
From S2P Require Import Api.
From S2P Require Import Effects.
From S2P Require Import Instances.
From S2P Require Import Crash.
From S2P Require Import Lifecycle.
From S2P Require Import Cluster.
From S2P Require Import Verdicts.
From S2P Require Import ClusterServer.
From S2P Require Import System.
From S2P Require TestController.
From S2P Require TestRunController.

Section server.
Context (ErrRequeueDelay : Z).

(** What others do to a Test before a call is answered, and the objects that
    are stored for those that were sent. *)
Context (nudge : test_cluster → test_cluster) (give_pod : obj KPod → obj KPod).
Context (give_test : obj KTest → obj KTest).
Context (nudge_others : ∀ c, others c (nudge c)) (nudge_parent : ∀ c, parent (nudge c) = parent c).
Context (give_pod_born : ∀ o, born (P:=KTest) (K:=KPod) o (give_pod o)).
Context (give_test_born : ∀ o, born (P:=KTestRun) (K:=KTest) o (give_test o)).
Context (give_test_fresh : ∀ o, TestVerdict.fresh_test (give_test o)).
Implicit Types (s : system) (c : test_cluster).

Abbreviation step := (step ErrRequeueDelay).

(** ** The run *)

Abbreviation answer_run := (answer (P:=KTestRun) (K:=KTest) give_test).

(** The system after a call of the run's controller, which goes on with [m]. *)
Definition absorb (call : call) (m : handler) s : system :=
  let w := (answer_run call (cluster_of s)).2 in
  let es := match call with
    | CCreate k o =>
        match as_kind KTest o with
        | Some o => mkEntry (newborn (P:=KTest) (K:=KPod) (give_test o)) None :: entries s
        | None => entries s
        end
    | _ => entries s
    end in
  mkSystem (parent w) (Some m) es
    match verdict s with
    | Some v => Some v
    | None => (λ v, (v.1, cl <$> es)) <$> Cluster.decided w
    end.

Lemma absorb_cluster call m s : cluster_of (absorb call m s) = (answer_run call (cluster_of s)).2.
Proof.
  unfold absorb, cluster_of. destruct s as [run proc es v].
  destruct call as [k key|k os|k o|k o|k orig new|k orig new| | | |]; simpl;
    try by destruct v.
  - destruct (as_kind KTest o) as [o'|]; simpl; by destruct v.
  - destruct (as_kind KTestRun new); simpl; by destruct v.
  - destruct (as_kind KTestRun orig) as [o1|], (as_kind KTestRun new) as [n1|]; simpl; try by destruct v.
    case_bool_decide; simpl; [|by destruct v]. unfold store_parent. destruct v as [v|]; [done|]. simpl.
    destruct (TestRunPhase_IsFinal _); [|done]. simpl. unfold seen. simpl.
    by rewrite <-list_fmap_compose.
Qed.

Lemma absorb_records call m s : records call s (absorb call m s).
Proof.
  unfold absorb, records. split; simpl.
  - destruct call as [| |k o| | | | | | |]; try by left. destruct (as_kind KTest o) as [o'|]; [|by left].
    right. left. by exists (give_test o').
  - destruct (verdict s) as [v|]; [by left|].
    destruct (Cluster.decided _) as [[q v]|]; [right|by left]. split; [done|]. by exists q.
Qed.

Fixpoint drive_run (m : handler) s : system :=
  match m with
  | Call call cont =>
      let r := (answer_run call (cluster_of s)).1 in drive_run (cont r) (absorb call (cont r) s)
  | _ => with_proc None s
  end.

Lemma drive_run_steps m s : run_proc s = Some m → rtc step s (drive_run m s).
Proof using give_test_born give_test_fresh.
  revert s. induction m as [a|p|call cont IH]; intros s Hm; simpl.
  1,2: apply rtc_once, step_run_stop.
  eapply rtc_l; [|by apply IH]. eapply step_run_exchange; [exact Hm|done| |apply absorb_records].
  rewrite absorb_cluster. by apply answer_exchanged.
Qed.

Definition reconcile_run req s : system :=
  let m := TestRunController.Reconcile ErrRequeueDelay req in drive_run m (with_proc (Some m) s).

Lemma reconcile_run_steps req s : rtc step s (reconcile_run req s).
Proof using give_test_born give_test_fresh.
  eapply rtc_l; [apply (step_run_start _ s req)|]. by apply drive_run_steps.
Qed.

(** ** The Tests *)

Abbreviation serve_test := (serve_cluster (P:=KTest) (K:=KPod) nudge give_pod).

Lemma serve_kept s call c : kept s c (serve_test call c).2.
Proof using nudge_parent.
  intros _. unfold serve_cluster. rewrite <-(nudge_parent c). generalize (nudge c). clear c.
  intros c. destruct call as [k key|k os|k o|k o|k orig new|k orig new| | | |]; try done; simpl.
  - by destruct (as_kind KPod o).
  - by destruct (as_kind KTest new).
  - destruct (as_kind KTest orig), (as_kind KTest new); try done. by case_bool_decide.
Qed.

Fixpoint drive_test (i : nat) (m : handler) c s : system :=
  match m with
  | Call call cont =>
      let '(r, c') := serve_test call c in
      drive_test i (cont r) c' (with_entry i (mkEntry c' (Some (cont r))) s)
  | _ => with_entry i (mkEntry c None) s
  end.

Lemma drive_test_steps i m c s :
  entries s !! i = Some (mkEntry c (Some m)) → rtc step s (drive_test i m c s).
Proof using nudge_others nudge_parent give_pod_born.
  revert c s. induction m as [a|p|call cont IH]; intros c s Hi; cbn [drive_test].
  1,2: apply rtc_once; exact (step_test_stop _ s i _ Hi).
  pose proof (serve_settles nudge give_pod nudge_others give_pod_born call c) as Hs.
  pose proof (serve_kept s call c) as Hk. destruct (serve_test call c) as [r c'].
  eapply rtc_l; [exact (step_test_exchange _ s i _ call cont r c' Hi eq_refl Hs Hk)|].
  apply IH. simpl. apply list_lookup_insert_eq. by eapply lookup_lt_Some.
Qed.

Definition reconcile_test req i s : system :=
  let m := TestController.Reconcile ErrRequeueDelay req in
  match entries s !! i with
  | Some e => drive_test i m (cl e) (with_entry i (mkEntry (cl e) (Some m)) s)
  | None => s
  end.

Lemma reconcile_test_steps req i s : rtc step s (reconcile_test req i s).
Proof using nudge_others nudge_parent give_pod_born.
  unfold reconcile_test. destruct (entries s !! i) as [e|] eqn:Hi; [|done].
  eapply rtc_l; [exact (step_test_start _ s i e req Hi)|]. apply drive_test_steps.
  simpl. apply list_lookup_insert_eq. by eapply lookup_lt_Some.
Qed.

End server.
