(* ===== verification/Ownership.v ===== *)
(** What the controllers create: every child belongs to the object that is
    reconciled, and the controller's own listing finds it again.

    [identified] is the type of the object a controller holds: the kind, the
    name and the namespace it was asked for. Every step keeps it, in a world
    where answers show the object that was asked for ([faithful]); [child_of]
    is the type of what is created. *)

From S2P Require Import Prelude.
From S2P Require Import GoLib.
From S2P Require Import Api.
From S2P Require Import Effects.
From S2P Require Import Helpers.
From S2P Require Import PruneDeleted.
From S2P Require TestController.
From S2P Require TestRunController.
From S2P Require TestSuiteController.

(** * Objects with a type *)

Class Typed (k : kind) `{ClientObject k} := {
  type_of : obj k → TypeMeta;
  kind_name : string;
  type_of_SetFinalizers fs o : type_of (SetFinalizers fs o) = type_of o }.

#[export] Instance Test_Typed : Typed KTest := {|
  type_of := test_TypeMeta : obj KTest → _; kind_name := "Test";
  type_of_SetFinalizers _ _ := eq_refl |}.

#[export] Instance TestRun_Typed : Typed KTestRun := {|
  type_of := run_TypeMeta : obj KTestRun → _; kind_name := "TestRun";
  type_of_SetFinalizers _ _ := eq_refl |}.

#[export] Instance TestSuite_Typed : Typed KTestSuite := {|
  type_of := suite_TypeMeta : obj KTestSuite → _; kind_name := "TestSuite";
  type_of_SetFinalizers _ _ := eq_refl |}.

(** * The types *)

Section types.
Context {P : kind} `{Typed P}.
Implicit Types (p : obj P).

(** The object that was asked for. *)
Definition identified (req : Request) p : Prop :=
  type_of p = mkTypeMeta GroupVersion_String kind_name ∧
  GetName p = nn_Name req ∧ GetNamespace p = nn_Namespace req.

(** A world whose answers show the object they are about: reads the one that
    was asked for, writes the one that was written. *)
Definition faithful : world := λ c,
  match c return reply c → Prop with
  | CGet k key => λ r, ∀ o p, r = inr o → as_kind P o = Some p → identified key p
  | CPatch k _ new => λ r, ∀ o n p, r = inr o → as_kind P new = Some n → as_kind P o = Some p →
      type_of p = type_of n ∧ GetName p = GetName n ∧ GetNamespace p = GetNamespace n
  | CStatusPatch k _ new => λ r, ∀ o n p, r = inr o → as_kind P new = Some n → as_kind P o = Some p →
      type_of p = type_of n ∧ GetName p = GetName n ∧ GetNamespace p = GetNamespace n
  | _ => λ _, True
  end.

Context {K : kind} `{ClientObject K}.

(** The listing of [opts] finds [o], which is indexed by [index]. *)
Definition selected (index : obj K → list string) (opts : list ListOption) (o : obj K) : Prop :=
  Forall (λ opt, match opt with
    | InNamespace ns => GetNamespace o = ns
    | MatchingFields _ value => value ∈ index o
    | MatchingLabels labels => ∀ key value, (key, value) ∈ labels → map_get (Labels (GetObjectMeta o)) key = value
    | MatchingFieldsSelector _ => False
    end) opts.

(** What is created for the request: a child of the object that was asked
    for, held by the finalizer of its own controller or its parent's, and
    found by the listing of that object's children. *)
Definition child_of (index : obj K → list string) (key finalizer : string) (req : Request) (o : obj K) : Prop :=
  GetFinalizers o = [finalizer] ∧
  (∃ owner, OwnerReferences (GetObjectMeta o) = [owner] ∧
     or_APIVersion owner = GroupVersion_String ∧ or_Kind owner = kind_name ∧
     or_Name owner = nn_Name req ∧ or_Controller owner = Some true) ∧
  GenerateName (GetObjectMeta o) ≠ "" ∧
  selected index [InNamespace (nn_Namespace req); MatchingFields key (nn_Name req)] o.

(** Every object the exchange creates is such a child. *)
Definition creates_children (C : obj K → Prop) (e : event) : Prop :=
  match ev_call e with CCreate k o => ∃ o', as_kind K o = Some o' ∧ C o' | _ => True end.

(** The exchange creates nothing. *)
Definition no_create (e : event) : Prop :=
  match ev_call e with CCreate _ _ => False | _ => True end.

Lemma no_create_children C e : no_create e → creates_children C e.
Proof. unfold no_create, creates_children. by destruct (ev_call e). Qed.

End types.

Lemma cleanup_no_create k e : is_cleanup k e → no_create e.
Proof. destruct e as [[] r]; done. Qed.

Lemma patch_no_create k e : is_patch k e → no_create e.
Proof. destruct e as [[] r]; done. Qed.

Abbreviation idle := (safe no_create).

Section cleanup_idle.
Context `{AM : !ApiMachinery} {k : kind} `{!ClientObject k} {env : world}.

Lemma removeFinalizer_idle f (o : obj k) : wp env (removeFinalizer f o) idle.
Proof. apply removeFinalizer_safe, cleanup_no_create. Qed.

Lemma cleanUp_idle f (o : obj k) : wp env (cleanUp f o) idle.
Proof. apply cleanUp_safe, cleanup_no_create. Qed.

Lemma cleanUpAll_idle f n (items : list (obj k)) :
  wp env (cleanUpAll f (take n (GetObjects items)) items) idle.
Proof.
  apply cleanUpAll_safe; [apply cleanup_no_create|apply take_GetObjects_NoDup|apply take_GetObjects_lt].
Qed.

Lemma cleanUpAll_every_idle f (items : list (obj k)) :
  wp env (cleanUpAll f (GetObjects items) items) idle.
Proof. apply cleanUpAll_safe; [apply cleanup_no_create|apply GetObjects_NoDup|apply GetObjects_lt]. Qed.

Lemma pruneDeleted_idle f (items : list (obj k)) : wp env (pruneDeleted f items) idle.
Proof. apply pruneDeleted_safe, patch_no_create. Qed.

End cleanup_idle.

#[local] Hint Resolve removeFinalizer_idle cleanUp_idle cleanUpAll_idle cleanUpAll_every_idle
  pruneDeleted_idle : konfirm.

Section steps.
Context `{AM : !ApiMachinery} {P K : kind} `{Typed P} `{ClientObject K}.
Context (C : obj K → Prop) (req : Request).
Implicit Types (p : obj P).

Abbreviation EP := (creates_children C).
Abbreviation keepsP p := (identified (P:=P) req p).

Lemma as_kind_self {k} (o : obj k) : as_kind k o = Some o.
Proof. by destruct k. Qed.

(** The steps of a controller that update its object. *)
Lemma status_identified orig p :
  keepsP p → wp (faithful (P:=P)) (Status_Patch p orig)
    (λ t o, Forall EP t ∧ match o with Done r => keepsP r.2 | _ => True end).
Proof.
  intros (Ht0 & Hn0 & Hs0) r Hr. split; [by repeat constructor|]. destruct r as [e|p'].
  - by split_and!.
  - destruct (Hr p' p p' eq_refl (as_kind_self _) (as_kind_self _)) as (Ht & Hn & Hns).
    unfold identified. simpl. by rewrite Ht, Hn, Hns.
Qed.

Lemma patch_identified orig p :
  keepsP p → wp (faithful (P:=P)) (client_Patch p orig)
    (λ t o, Forall EP t ∧ match o with Done r => keepsP r.2 | _ => True end).
Proof.
  intros (Ht0 & Hn0 & Hs0) r Hr. split; [by repeat constructor|]. destruct r as [e|p'].
  - by split_and!.
  - destruct (Hr p' p p' eq_refl (as_kind_self _) (as_kind_self _)) as (Ht & Hn & Hns).
    unfold identified. simpl. by rewrite Ht, Hn, Hns.
Qed.

Lemma addFinalizer_identified f p :
  keepsP p → wp (faithful (P:=P)) (addFinalizer f p)
    (λ t o, Forall EP t ∧ match o with Done r => keepsP r.2 | _ => True end).
Proof.
  intros (Ht0 & Hn0 & Hs0). unfold addFinalizer. destruct (fold_left _ _ _); [|by split_and!].
  apply wp_bind. eapply wp_mono; [|apply patch_identified].
  - intros t [[err p']|?] [Ht Hp]; [|done]. cbn [wp]. rewrite app_nil_r. by split.
  - split_and!; [by rewrite type_of_SetFinalizers|by rewrite GetName_SetFinalizers|].
    unfold GetNamespace, SetFinalizers. by rewrite Get_SetObjectMeta.
Qed.

Lemma get_identified {R A} (f : error + obj P → fn R A) J :
  (∀ e, wp (faithful (P:=P)) (f (inl e)) (hands EP J)) →
  (∀ p, keepsP p → wp (faithful (P:=P)) (f (inr p)) (hands EP J)) →
  wp (faithful (P:=P)) (bind_fn (lift (client_Get P req)) f) (hands EP J).
Proof.
  intros He Hf r Hr. destruct r as [e|p].
  - eapply wp_mono; [|apply He]. intros t o [Ht Ho]. by split; [constructor|].
  - eapply wp_mono; [|apply Hf, (Hr p); [done|apply as_kind_self]].
    intros t o [Ht Ho]. by split; [constructor|].
Qed.

(** An exchange that creates nothing, whatever it answers. *)
Lemma skip_call {env : world} {R A} c (f : reply c → fn R A) (J : A → Prop) :
  match c with CCreate _ _ => False | _ => True end →
  (∀ r, wp env (f r) (hands EP J)) → wp env (Call c f) (hands EP J).
Proof.
  intros Hc Hf r _. eapply wp_mono; [|apply Hf]. intros t o [Ht Ho].
  split; [constructor; [|done]|done]. by destruct c.
Qed.

End steps.

(** An idle end of a handler. *)
Lemma idle_end {env : world} {K} `{!ClientObject K} (C : obj K → Prop) {R} (m : prog R) :
  wp env m idle → wp env (lift (R:=R) m) (hands (A:=R) (creates_children (K:=K) C) (λ _, True)).
Proof.
  intros Hm. apply hands_end. revert Hm. apply wp_mono. intros t [a|?]; [|done].
  intros Ht. eapply Forall_impl; [exact Ht|]. intros e. apply no_create_children.
Qed.

(** * Tests and their pods *)

Section test.
Context `{AM : !ApiMachinery}.
Context (ErrRequeueDelay : Z) (req : Request).
Implicit Types (test : Test) (pods : list Pod).
Import TestController.

Definition pod_of_request : obj KPod → Prop :=
  child_of (P:=KTest) (K:=KPod) podIndexer podIndexKey TestControllerFinalizer req.

Abbreviation E := (creates_children pod_of_request).

Lemma cleanUpPods_idle {env : world} pods errs :
  wp env (cleanUpPods (seq 0 (length pods)) pods errs) idle.
Proof. eapply safe_mono; [apply cleanup_no_create|apply cleanUpPods_tidy]. Qed.

Lemma releaseDeletedPods_idle {env : world} pods errs :
  wp env (releaseDeletedPods (seq 0 (length pods)) pods errs) idle.
Proof. eapply safe_mono; [apply cleanup_no_create|apply releaseDeletedPods_tidy]. Qed.

#[local] Hint Resolve cleanUpPods_idle releaseDeletedPods_idle : konfirm.

Lemma test_finalize_idle {env : world} test pods : wp env (finalize ErrRequeueDelay test pods) idle.
Proof. unfold finalize. wp_safe. Qed.

Lemma test_isComplete_idle {env : world} test pods : wp env (isComplete ErrRequeueDelay test pods) idle.
Proof. unfold isComplete. wp_safe. Qed.

Lemma followPod_idle {env : world} test pod : wp env (followPod ErrRequeueDelay test pod) idle.
Proof. unfold followPod. wp_safe. Qed.

Lemma podFor_child test : identified (P:=KTest) req test → pod_of_request (podFor test).
Proof.
  intros (Ht & Hn & Hns). simpl in Ht, Hn, Hns. unfold GetName, GetNamespace in Hn, Hns. simpl in Hn, Hns.
  split_and!; [done| |..].
  - eexists. split; [done|]. simpl. by rewrite Ht.
  - simpl. by destruct (Name (test_ObjectMeta test)).
  - constructor; [done|]. constructor; [|done]. unfold podIndexer.
    rewrite GetControllerOf_spec. simpl. rewrite Ht, Hn. simpl. by left.
Qed.

Lemma test_isRunning_children {env : world} test pods :
  identified (P:=KTest) req test → wp env (isRunning ErrRequeueDelay test pods) (only E).
Proof.
  intros Hid. unfold isRunning. apply hands_func. eapply (hands_bind _ (λ _, True)).
  - eapply hands_guarded; [|apply (guarded_safe IndexOutOfRange), selectPod_tidy].
    intros e He. by eapply no_create_children, cleanup_no_create.
  - intros pod _. eapply (hands_bind _ (λ _, True)).
    + destruct pod as [pod|]; simpl; [by split; [constructor|]|].
      intros [e|p] _; simpl; [|split; [|done]]; [intros [] _; split; [|done]|];
        (constructor; [eexists; split; [done|by apply podFor_child]|by repeat constructor]).
    + intros p _. apply idle_end, followPod_idle.
Qed.

Lemma test_children : wp (faithful (P:=KTest)) (Reconcile ErrRequeueDelay req) (only E).
Proof.
  unfold Reconcile. apply hands_func, get_identified.
  { intros e. destruct (IgnoreNotFound _); by split; [constructor|]. }
  intros test Hid. apply skip_call; [done|]. intros []. apply skip_call; [done|]. intros [].
  apply skip_call; [done|]. intros [e|pods]; [by split; [constructor|]|].
  destruct (is_deleted _); [apply idle_end, test_finalize_idle|].
  eapply hands_lift; [by apply addFinalizer_identified|]. intros [[b [e|]] test1] Hid1.
  { destruct (IgnoreNotFound _); by split; [constructor|]. }
  eapply (hands_bind _ (identified (P:=KTest) req)).
  - unfold ensurePhase. case_bool_decide; [|by split; [constructor|]].
    eapply hands_lift; [by apply status_identified|]. by intros [[e|] test2] Hid2; split.
  - intros test2 Hid2. destruct (TestPhase_IsFinal _); [apply idle_end, test_isComplete_idle|].
    by apply hands_end, test_isRunning_children.
Qed.

End test.

(** * Runs and their Tests *)

Section run.
Context `{AM : !ApiMachinery}.
Context (ErrRequeueDelay : Z) (req : Request).
Implicit Types (run : TestRun) (items : list Test).
Import TestRunController.

Definition test_of_request : obj KTest → Prop :=
  child_of (P:=KTestRun) (K:=KTest) testIndexer testIndexKey
    TestController.TestControllerFinalizer req.

Abbreviation E := (creates_children test_of_request).
Abbreviation keeps := (hands E (identified (P:=KTestRun) req)).

Lemma mapTests_idle {env : world} items maxIndex mapped :
  wp env (mapTests ErrRequeueDelay (seq 0 (length items)) maxIndex items mapped) (only no_create).
Proof.
  eapply wp_mono; [|apply mapTests_wp, (GetObjects_lt (k:=KTest))].
  intros t o [Ht _]. eapply Forall_impl; [exact Ht|apply cleanup_no_create].
Qed.

Lemma testFor_child run i template :
  identified (P:=KTestRun) req run → test_of_request (testFor run i template).
Proof.
  intros (Ht & Hn & Hns). simpl in Ht, Hn, Hns. unfold GetName, GetNamespace in Hn, Hns. simpl in Hn, Hns.
  split_and!; [done| |..].
  - eexists. split; [done|]. simpl. by rewrite Ht.
  - simpl. unfold testGenerateName. by destruct (Name (run_ObjectMeta run)).
  - constructor; [done|]. constructor; [|done]. unfold testIndexer.
    rewrite GetControllerOf_spec. simpl. rewrite Ht, Hn. simpl. by left.
Qed.

Lemma evaluateTests_children {env : world} i mapped items run n :
  identified (P:=KTestRun) req run →
  wp env (evaluateTests ErrRequeueDelay i mapped items run n) (hands E (λ _, True)).
Proof.
  intros Hid. apply (hands_guarded E E IndexOutOfRange); [done|]. revert i run n Hid.
  induction mapped as [|[p|] mapped IH]; intros i run n Hid; cbn [evaluateTests].
  - wp_safe.
  - assert (∀ rs i n, wp env (evaluateTests ErrRequeueDelay i mapped items (set_run_Results rs run) n)
      (guarded IndexOutOfRange E)) by (intros; by apply IH).
    assert (∀ i n, wp env (evaluateTests ErrRequeueDelay i mapped items run n)
      (guarded IndexOutOfRange E)) by (intros; by apply IH). wp_safe.
  - assert (∀ i n, wp env (evaluateTests ErrRequeueDelay i mapped items run n)
      (guarded IndexOutOfRange E)) by (intros; by apply IH). wp_safe.
    eexists. split; [done|by apply testFor_child].
Qed.

Lemma updateRun_idle {env : world} orig run count n :
  wp env (updateRun ErrRequeueDelay orig run count n) idle.
Proof. unfold updateRun. wp_safe. Qed.

Lemma run_isRunning_children {env : world} run items :
  identified (P:=KTestRun) req run → wp env (isRunning ErrRequeueDelay run items) (only E).
Proof.
  intros Hid. unfold isRunning. apply hands_func. eapply (hands_bind _ (λ _, True)).
  - eapply hands_only, wp_mono; [|apply mapTests_idle].
    intros t o Ht. eapply Forall_impl; [exact Ht|]. intros e. apply no_create_children.
  - intros [items' mapped] _. eapply (hands_bind _ (λ _, True)).
    + by apply evaluateTests_children.
    + intros [run' n] _. apply idle_end, updateRun_idle.
Qed.

Lemma run_finalize_idle {env : world} run items : wp env (finalize ErrRequeueDelay run items) idle.
Proof. unfold finalize. wp_safe. Qed.

Lemma run_isComplete_idle {env : world} run items : wp env (isComplete ErrRequeueDelay run items) idle.
Proof. unfold isComplete. wp_safe. Qed.

Lemma run_ensureFinalizer_keeps run :
  identified (P:=KTestRun) req run →
  wp (faithful (P:=KTestRun)) (ensureFinalizer ErrRequeueDelay run) keeps.
Proof.
  intros Hid. unfold ensureFinalizer. case_match; [|by split; [constructor|]].
  eapply hands_lift; [by apply addFinalizer_identified|]. intros [[b [e|]] run1] Hid1.
  - destruct (IgnoreNotFound _); by split; [constructor|].
  - by split; [constructor|].
Qed.

Lemma run_ensurePhase_keeps run :
  identified (P:=KTestRun) req run →
  wp (faithful (P:=KTestRun)) (ensurePhase ErrRequeueDelay run) keeps.
Proof.
  intros Hid. unfold ensurePhase. case_bool_decide; [|by split; [constructor|]].
  eapply hands_lift; [by apply status_identified|]. intros [[e|] run1] Hid1.
  - destruct (IgnoreNotFound _); by split; [constructor|].
  - apply skip_call; [done|]. intros []. by split; [constructor|].
Qed.

Lemma run_children : wp (faithful (P:=KTestRun)) (Reconcile ErrRequeueDelay req) (only E).
Proof.
  unfold Reconcile. apply hands_func, get_identified.
  { intros e. destruct (IgnoreNotFound _); by split; [constructor|]. }
  intros run Hid. apply skip_call; [done|]. intros [e|items]; [by split; [constructor|]|].
  eapply hands_bind; [by apply run_ensureFinalizer_keeps|]. intros run1 Hid1.
  eapply hands_bind; [by apply run_ensurePhase_keeps|]. intros run2 Hid2.
  destruct (is_deleted _); [apply idle_end, run_finalize_idle|].
  eapply (hands_bind _ (λ _, True)).
  - apply (hands_guarded _ no_create IndexOutOfRange); [apply no_create_children|].
    unfold pruneTests. wp_safe.
  - intros items' _. destruct (TestRunPhase_IsFinal _); [apply idle_end, run_isComplete_idle|].
    by apply hands_end, run_isRunning_children.
Qed.

End run.

(** * Suites and their runs *)

Section suite.
Context `{AM : !ApiMachinery} `{SS : !SortSlice}.
Context (ErrRequeueDelay : Z) (CronParser : string → error + TestSuiteController.Schedule_).
Context (spew : TestRunSpec → string) (enc : string → string) (req : Request).
Implicit Types (suite : TestSuite) (runs : list TestRun).
Import TestSuiteController.

Definition run_of_request : obj KTestRun → Prop :=
  child_of (P:=KTestSuite) (K:=KTestRun) testRunIndexer TestRunController.testIndexKey
    TestSuiteControllerFinalizer req.

Abbreviation E := (creates_children run_of_request).
Abbreviation keeps := (hands E (identified (P:=KTestSuite) req)).
Abbreviation faithfully := (wp (faithful (P:=KTestSuite))).
Abbreviation ours := (identified (P:=KTestSuite) req).

Lemma runFor_child suite : ours suite → run_of_request (runFor spew enc suite).
Proof.
  intros (Ht & Hn & Hns). simpl in Ht, Hn, Hns. unfold GetName, GetNamespace in Hn, Hns. simpl in Hn, Hns.
  split_and!; [done| |..].
  - eexists. split; [done|]. simpl. by rewrite Ht.
  - simpl. by destruct (Name (suite_ObjectMeta suite)).
  - constructor; [done|]. constructor; [|done]. unfold testRunIndexer.
    rewrite GetControllerOf_spec. simpl. rewrite Ht, Hn. simpl. by left.
Qed.

Lemma suite_finalize_idle {env : world} suite runs : wp env (finalize ErrRequeueDelay suite runs) idle.
Proof. unfold finalize. wp_safe. Qed.

Lemma suite_status_keeps orig suite :
  ours suite → faithfully (status_or_later ErrRequeueDelay orig suite) keeps.
Proof.
  intros Hid. eapply hands_lift; [by apply status_identified|].
  intros [[e|] suite'] Hid'; by split; [constructor|].
Qed.

Lemma suite_patch_keeps orig suite :
  ours suite → faithfully (patch_or_later ErrRequeueDelay orig suite) keeps.
Proof.
  intros Hid. eapply hands_lift; [by apply patch_identified|].
  intros [[e|] suite'] Hid'; by split; [constructor|].
Qed.

Lemma suite_ensureFinalizer_keeps suite :
  ours suite → faithfully (ensureFinalizer ErrRequeueDelay suite) keeps.
Proof.
  intros Hid. eapply hands_lift; [by apply addFinalizer_identified|].
  intros [[b [e|]] suite'] Hid'; by split; [constructor|].
Qed.

Lemma handleSchedule_keeps suite :
  ours suite → faithfully (handleSchedule ErrRequeueDelay suite) keeps.
Proof.
  intros Hid. unfold handleSchedule. case_match.
  - case_match; [|by split; [constructor|]]. case_match; [|by split; [constructor|]].
    eapply hands_lift; [by apply status_identified|]. by intros [e suite'] Hid'; split; [constructor|].
  - destruct (map_get_ok _ _) as [v ok]. eapply hands_bind.
    + destruct ok; [by apply suite_patch_keeps|by split; [constructor|]].
    + intros suite' Hid'. by apply suite_status_keeps.
Qed.

Lemma handleHelmTrigger_keeps suite : ours suite → faithfully (handleHelmTrigger suite) keeps.
Proof.
  intros Hid. unfold handleHelmTrigger. rewrite assign_make.
  case_match; [|by split; [constructor|]]. case_match; [|by split; [constructor|]].
  eapply hands_lift; [by apply patch_identified|]. by intros [e suite'] Hid'; split; [constructor|].
Qed.

Lemma followRuns_keeps runs suite :
  ours suite → faithfully (followRuns ErrRequeueDelay runs suite) keeps.
Proof.
  revert suite. induction runs as [|run runs IH]; intros suite Hid; [by split; [constructor|]|].
  cbn [followRuns]. case_match; [|by apply IH].
  eapply hands_bind; [by apply suite_status_keeps|]. by intros suite' Hid'; apply IH.
Qed.

Lemma suite_ensurePhase_keeps suite runs :
  ours suite → faithfully (ensurePhase ErrRequeueDelay suite runs) keeps.
Proof.
  intros Hid. unfold ensurePhase. case_match; [|by split; [constructor|]].
  eapply hands_bind; [by apply followRuns_keeps|]. intros suite' Hid'.
  case_match; [by apply suite_status_keeps|by split; [constructor|]].
Qed.

(** A suite that is not running creates nothing. *)
Lemma activateSchedule_idle {env : world} suite :
  wp env (activateSchedule ErrRequeueDelay CronParser suite) idle.
Proof.
  unfold activateSchedule, patch_or_later, status_or_later, schedule_Next. rewrite assign_make. wp_safe.
Qed.

Lemma helmTrigger_idle {env : world} suite release :
  wp env (helmTrigger ErrRequeueDelay suite release) idle.
Proof. unfold helmTrigger, patch_or_later. rewrite assign_make. wp_safe. Qed.

Lemma enforceHistoryLimit_idle {env : world} suite runs :
  wp env (enforceHistoryLimit ErrRequeueDelay suite runs) idle.
Proof. unfold enforceHistoryLimit. wp_safe. Qed.

Lemma notRunning_idle {env : world} suite runs :
  wp env (notRunning ErrRequeueDelay CronParser suite runs) (guarded NilDereference no_create).
Proof.
  pose proof (activateSchedule_idle (env:=env)). pose proof (helmTrigger_idle (env:=env)).
  pose proof (enforceHistoryLimit_idle (env:=env)).
  unfold notRunning, ensureReady, currentHelmRelease, exported, triggerRun, determineTrigger,
    manualTrigger, scheduleTrigger, schedule_Next, startRun, status_or_later, patch_or_later. wp_safe.
Qed.

Lemma finishRun_idle {env : world} suite run : wp env (finishRun ErrRequeueDelay suite run) idle.
Proof. unfold finishRun, status_or_later. wp_safe. Qed.

Lemma suite_isRunning_children {env : world} suite runs :
  ours suite → wp env (isRunning ErrRequeueDelay spew enc suite runs) (only E).
Proof.
  intros Hid. unfold isRunning. apply hands_func. case_match; [case_match|].
  - apply (hands_guarded _ no_create IndexOutOfRange); [apply no_create_children|].
    apply guarded_safe, finishRun_idle.
  - by split; [constructor|].
  - apply (hands_guarded _ E IndexOutOfRange); [done|]. unfold createRun, status_or_later. wp_safe.
    eexists. split; [done|by apply runFor_child].
Qed.

Lemma suite_children :
  faithfully (Reconcile ErrRequeueDelay CronParser spew enc req) (only E).
Proof.
  unfold Reconcile. apply hands_func, get_identified.
  { intros e. destruct (IgnoreNotFound _); by split; [constructor|]. }
  intros suite Hid. do 3 (apply skip_call; [done|]; intros []).
  apply skip_call; [done|]. intros [e|runs]; [by split; [constructor|]|].
  destruct (is_deleted _); [apply idle_end, suite_finalize_idle|].
  eapply hands_bind; [by apply suite_ensureFinalizer_keeps|]. intros suite1 Hid1.
  eapply hands_bind; [by apply handleSchedule_keeps|]. intros suite2 Hid2.
  eapply hands_bind; [by apply handleHelmTrigger_keeps|]. intros suite3 Hid3.
  eapply (hands_bind _ (λ _, True)).
  - apply (hands_guarded _ no_create IndexOutOfRange); [apply no_create_children|].
    unfold pruneRuns. wp_safe.
  - intros runs' _. eapply hands_bind; [by apply suite_ensurePhase_keeps|]. intros suite4 Hid4.
    case_match; apply hands_end; [by apply suite_isRunning_children|].
    eapply wp_mono; [|apply notRunning_idle]. intros t o [Ht _].
    eapply Forall_impl; [exact Ht|]. intros e. apply no_create_children.
Qed.

End suite.

(** * Every child has the type its controller looks for *)

(** C11: whatever a controller creates is well typed: its one owner reference
    is the controller reference to the object of the request, of that object's
    API version and kind; it lies in the same namespace; it is held by one finalizer,
    the Test controller's for pods and Tests and the suite controller's for
    runs; and the index function of its kind
    puts it under the very key the controller lists its children by, so that
    the next reconciliation of the same request finds it. A Test creates
    only pods, a run only Tests, a suite only runs. It holds whenever the
    server answers with the object that was asked for, of its declared kind. *)
Theorem children_typed `{AM : !ApiMachinery} `{SS : !SortSlice} ErrRequeueDelay CronParser spew enc req :
  wp (faithful (P:=KTest)) (TestController.Reconcile ErrRequeueDelay req)
    (only (creates_children (pod_of_request req))) ∧
  wp (faithful (P:=KTestRun)) (TestRunController.Reconcile ErrRequeueDelay req)
    (only (creates_children (test_of_request req))) ∧
  wp (faithful (P:=KTestSuite))
    (TestSuiteController.Reconcile ErrRequeueDelay CronParser spew enc req)
    (only (creates_children (run_of_request req))).
Proof. split_and!; [apply test_children|apply run_children|apply suite_children]. Qed.
