(* ===== verification/Reports.v ===== *)
(** What a suite reports, back to the pods.

    A TestSuite reports the verdict of its run by two gauges and by events.
    The runs it is shown are those of the systems of [System], each with the
    Tests and the pods that were created for it; every report follows a status
    write that finishes the suite's current run, and is what the verdict of
    that run says of the pods of its own Tests. *)

From S2P Require Import Prelude.
From S2P Require Import GoLib.
From S2P Require Import Api.
From S2P Require Import Effects.
From S2P Require Import Helpers.
From S2P Require Import PruneDeleted.
From S2P Require Import Crash.
From S2P Require Import Lifecycle.
From S2P Require Import Cluster.
From S2P Require Import Verdicts.
From S2P Require Import System.
From S2P Require TestRunController.
From S2P Require Import TestSuiteController.

(** * Reports *)

(** The last exchanges of a trace say what those before account for. *)
Section ends.
Context {env : world} {R : Type} (P : event → Prop) (Q : list event → Prop).
Context (Q_nil : ∀ t, Forall P t → Q t) (Q_app : ∀ t t', Forall P t → Q t' → Q (t ++ t')).

Abbreviation ends := (λ t _, Q t).



Lemma ends_return {A} (r : R) : wp env (return_ (A:=A) r) ends.
Proof using Q_nil. by apply Q_nil. Qed.




End ends.

Section reports.
Context `{AM : !ApiMachinery} `{SS : !SortSlice}.
Context (ErrRequeueDelay : Z) (CronParser : string → error + Schedule_).
Context (spew : TestRunSpec → string) (enc : string → string).

(** The runs of the cluster, as they were created, and the systems they are
    part of. *)
Context (systems : list (TestRun * system)).
Implicit Types (suite : TestSuite) (run : TestRun) (runs : list TestRun) (s : system).





(** An exchange that reports nothing. *)
Definition T (e : event) : Prop :=
  match ev_call e with
  | CMetric (SetGauge g _ _) => g ≠ suitePassing ∧ g ≠ suiteFailing
  | CEvent _ _ _ reason _ => reason ≠ "TestRunPassed" ∧ reason ≠ "TestRunFailed"
  | _ => True
  end.







(** ** The parts that report nothing *)

Lemma cleanup_silent k e : is_cleanup k e → T e.
Proof. destruct e as [[] r]; done. Qed.

Lemma removeFinalizer_silent {env : world} {k} `{!ClientObject k} f (o : obj k) :
  wp env (removeFinalizer f o) (safe T).
Proof. apply removeFinalizer_safe, cleanup_silent. Qed.

Lemma addFinalizer_silent {env : world} {k} `{!ClientObject k} f (o : obj k) :
  wp env (addFinalizer f o) (safe T).
Proof. apply addFinalizer_safe, cleanup_silent. Qed.

Lemma cleanUp_silent {env : world} {k} `{!ClientObject k} f (o : obj k) :
  wp env (cleanUp f o) (safe T).
Proof. apply cleanUp_safe, cleanup_silent. Qed.

Lemma cleanUpAll_silent {env : world} {k} `{!ClientObject k} f n (items : list (obj k)) :
  wp env (cleanUpAll f (take n (GetObjects items)) items) (safe T).
Proof.
  apply cleanUpAll_safe; [apply cleanup_silent|apply take_GetObjects_NoDup|apply take_GetObjects_lt].
Qed.

Lemma cleanUpAll_every_silent {env : world} {k} `{!ClientObject k} f (items : list (obj k)) :
  wp env (cleanUpAll f (GetObjects items) items) (safe T).
Proof. apply cleanUpAll_safe; [apply cleanup_silent|apply GetObjects_NoDup|apply GetObjects_lt]. Qed.

#[local] Hint Resolve removeFinalizer_silent addFinalizer_silent cleanUp_silent
  cleanUpAll_silent cleanUpAll_every_silent : konfirm.





Lemma activateSchedule_silent {env : world} suite :
  wp env (activateSchedule ErrRequeueDelay CronParser suite) (safe T).
Proof.
  unfold activateSchedule, patch_or_later, status_or_later, schedule_Next. rewrite assign_make. wp_safe.
Qed.

Lemma helmTrigger_silent {env : world} suite release :
  wp env (helmTrigger ErrRequeueDelay suite release) (safe T).
Proof. unfold helmTrigger, patch_or_later. rewrite assign_make. wp_safe. Qed.

Lemma enforceHistoryLimit_silent {env : world} suite items :
  wp env (enforceHistoryLimit ErrRequeueDelay suite items) (safe T).
Proof. unfold enforceHistoryLimit. wp_safe. Qed.

#[local] Hint Resolve activateSchedule_silent helmTrigger_silent
  enforceHistoryLimit_silent : konfirm.


Lemma findRun_elem name items run : findRun name items = Some run → run ∈ items.
Proof.
  rewrite findRun_list_find. destruct (list_find _ items) as [[i r]|] eqn:Hr; [|done].
  intros [= <-]. apply list_find_Some in Hr as (Hr & _). by eapply list_elem_of_lookup_2.
Qed.


(** ** The current run *)

Section systems.
Context (Hsystems : Forall (λ p, reachable ErrRequeueDelay p.1 p.2) systems).






End systems.


End reports.
