(* ===== verification/Logging.v ===== *)
(** [src/logging/logging.go]: the logger with its debug and trace levels, the
    encoders that name the levels below debug, and the options that install
    an encoder.

    [logr.Logger] and the names of zap's own levels are library code: a class
    of operations, and a parameter. A [zapcore.Level] is an [int8]. *)

From S2P Require Import Prelude.
From S2P Require Import GoLib.
From S2P Require Import Api.

Local Open Scope Z_scope.

(** * Logger *)

(** [logr.Logger]'s methods; the documentation of [V] says that levels are
    relative to those of the logger. *)
Class Logr := {
  logr_Logger : Type;
  logr_V : nat → logr_Logger → logr_Logger;
  logr_V_V m n l : logr_V m (logr_V n l) = logr_V (n + m)%nat l;
  logr_WithValues : list (string * string) → logr_Logger → logr_Logger;
  logr_WithName : string → logr_Logger → logr_Logger;
  logr_V_WithValues n kvs l : logr_V n (logr_WithValues kvs l) = logr_WithValues kvs (logr_V n l) }.

Section logger.
Context `{L : !Logr}.

Record Logger := mkLogger {
  base : logr_Logger;
  debug : logr_Logger;
  trace : logr_Logger }.

Definition NewLogger (from : logr_Logger) : Logger :=
  mkLogger from (logr_V 1 from) (logr_V 2 from).

(** [Logger.Debug], [Logger.Trace] and the embedded logger's [Info] log with
    these. *)
Inductive verb := Info | Debug | Trace.

Definition logger_of (l : Logger) (v : verb) : logr_Logger :=
  match v with Info => base l | Debug => debug l | Trace => trace l end.

Definition WithValues (kvs : list (string * string)) (l : Logger) : Logger :=
  NewLogger (logr_WithValues kvs (base l)).

(** [logr.FromContextOrDiscard(ctx)] is the argument [from]. *)
Definition FromContext (from : logr_Logger) (kvs : list (string * string)) : Logger :=
  NewLogger (logr_WithValues kvs from).

Definition FromContextWithName (from : logr_Logger) (name : string)
    (kvs : list (string * string)) : Logger :=
  NewLogger (logr_WithValues kvs (logr_WithName name from)).

End logger.

(** * Level encoders *)

(** [zapcore.DebugLevel] *)
Definition DebugLevel : Z := -1.

(** [int(zapcore.DebugLevel - level)], a subtraction of [int8] values. *)
Definition belowDebug (level : Z) : Z := to_int8 (DebugLevel - level).

Section encoders.
(** [Level.String] and [Level.CapitalString]. *)
Context (level_String level_CapitalString : Z → string).

(** What is appended to the encoder. *)
Definition LowercaseLevelEncoder (level : Z) : string :=
  if bool_decide (level < DebugLevel) then
    let str := "trace" in
    let l := belowDebug level in
    if bool_decide (1 < l) then str +:+ strconv.Itoa l else str
  else level_String level.

Definition CapitalLevelEncoder (level : Z) : string :=
  if bool_decide (level < DebugLevel) then
    let str := "TRACE" in
    let l := belowDebug level in
    if bool_decide (1 < l) then str +:+ strconv.Itoa l else str
  else level_CapitalString level.

End encoders.

(** ** Options *)

(** [zapcore.LevelEncoder], by what it appends. *)
Definition LevelEncoder := Z → string.

(** [zapcore.EncoderConfig] and [zap.Options], of which the program sets one
    field each. *)
Record EncoderConfig := mkEncoderConfig {
  EncodeLevel : LevelEncoder;
  ec_rest : Opaque }.

Definition EncoderConfigOption := EncoderConfig → EncoderConfig.

Record Options := mkOptions {
  EncoderConfigOptions : list EncoderConfigOption;
  zap_rest : Opaque }.

Definition EncoderLevelConfig (enc : LevelEncoder) : EncoderConfigOption :=
  λ c, mkEncoderConfig enc (ec_rest c).

Definition EncoderLevel (enc : LevelEncoder) : Options → Options :=
  λ o, mkOptions (EncoderConfigOptions o ++ [EncoderLevelConfig enc]) (zap_rest o).

(** * Properties *)

(** The values of an [int8]. *)
Definition is_int8 (z : Z) : Prop := (-128 ≤ z ≤ 127).

(** The subtraction does not overflow below debug. *)
Lemma belowDebug_exact level :
  is_int8 level → level < DebugLevel → belowDebug level = -1 - level ∧ 1 ≤ belowDebug level ≤ 127.
Proof.
  unfold is_int8, belowDebug, to_int8, DebugLevel. intros H1 H2.
  rewrite Z.mod_small by lia. lia.
Qed.

(** The number a trace level is printed with is read back. *)
Lemma trace_suffix level :
  is_int8 level → level < DebugLevel →
  belowDebug level = 1 ∧ level = -2 ∨
  1 < belowDebug level ∧ strconv.Atoi (strconv.Itoa (belowDebug level)) = inr (-1 - level).
Proof.
  intros H1 H2. destruct (belowDebug_exact level H1 H2) as [He Hb].
  destruct (decide (belowDebug level = 1)); [left; lia|right]. split; [lia|].
  rewrite strconv_facts.Atoi_Itoa by (unfold minInt64, maxInt64; lia). by rewrite He.
Qed.

Lemma trace_name_inj pre l1 l2 :
  let name l := if bool_decide (1 < belowDebug l) then pre +:+ strconv.Itoa (belowDebug l) else pre in
  is_int8 l1 → is_int8 l2 → l1 < DebugLevel → l2 < DebugLevel → name l1 = name l2 → l1 = l2.
Proof.
  intros name H1 H2 Hd1 Hd2. subst name. simpl.
  assert (∀ n, strconv.Itoa n = "" → ∀ m, strconv.Atoi (strconv.Itoa n) ≠ inr m) as Hne
    by (by intros n -> m).
  assert (∀ s, pre +:+ s = pre → s = "") as Hnil.
  { intros s. rewrite <-(str_app_nil_r pre) at 2. apply str_app_inj. }
  destruct (trace_suffix l1 H1 Hd1) as [[E1 F1]|[E1 F1]], (trace_suffix l2 H2 Hd2) as [[E2 F2]|[E2 F2]];
    repeat first [rewrite bool_decide_eq_true_2 by done | rewrite bool_decide_eq_false_2 by lia].
  - lia.
  - intros H. symmetry in H. by destruct (Hne _ (Hnil _ H) _ F2).
  - intros H. by destruct (Hne _ (Hnil _ H) _ F1).
  - intros H%str_app_inj. rewrite H, F2 in F1. injection F1. lia.
Qed.

(** Every [int8] level below debug is encoded by both encoders as "trace"
    followed by its distance from debug, without overflow; level -2 is plain
    "trace", and no two of the 127 levels are encoded alike. *)
Theorem level_encoders_injective str cap l1 l2 :
  is_int8 l1 → is_int8 l2 → l1 < DebugLevel → l2 < DebugLevel →
  LowercaseLevelEncoder str (-2) = "trace" ∧ CapitalLevelEncoder cap (-2) = "TRACE" ∧
  (LowercaseLevelEncoder str l1 = LowercaseLevelEncoder str l2 → l1 = l2) ∧
  (CapitalLevelEncoder cap l1 = CapitalLevelEncoder cap l2 → l1 = l2) ∧
  (l1 ≠ -2 → LowercaseLevelEncoder str l1 = "trace" +:+ strconv.Itoa (-1 - l1)).
Proof.
  intros H1 H2 Hd1 Hd2. destruct (belowDebug_exact l1 H1 Hd1) as [B1 _].
  unfold LowercaseLevelEncoder, CapitalLevelEncoder.
  rewrite !(bool_decide_eq_true_2 (l1 < DebugLevel)), !(bool_decide_eq_true_2 (l2 < DebugLevel)) by done.
  split_and!; [done|done|by apply trace_name_inj|by apply trace_name_inj|].
  intros Hne. rewrite B1, bool_decide_eq_true_2; [done|]. unfold DebugLevel in *. lia.
Qed.

(** However a logger is derived, its debug and trace messages are logged
    one and two levels below its own. *)
Theorem logger_levels `{L : !Logr} from name kvs kvs' :
  let l := WithValues kvs' (FromContextWithName from name kvs) in
  logger_of l Debug = logr_V 1 (logger_of l Info) ∧
  logger_of l Trace = logr_V 1 (logger_of l Debug) ∧
  logger_of l Debug = logr_WithValues kvs' (logr_WithValues kvs (logr_V 1 (logr_WithName name from))).
Proof.
  simpl. split_and!; [done|by rewrite logr_V_V|by rewrite !logr_V_WithValues].
Qed.

(** The encoder of the last [EncoderLevel] is the one in effect, where zap
    applies the options of the encoder in their order. *)
Theorem EncoderLevel_last (enc : LevelEncoder) (o : Options) (c : EncoderConfig) :
  let c' := fold_left (λ c opt, opt c) (EncoderConfigOptions (EncoderLevel enc o)) c in
  EncodeLevel c' = enc ∧
  ec_rest c' = ec_rest (fold_left (λ c opt, opt c) (EncoderConfigOptions o) c).
Proof. simpl. by rewrite fold_left_app. Qed.
