(* ===== verification/Manager.v ===== *)
(** [src/main.go], the [SetupWithManager] methods and the [init] functions: the
    flags, the metrics, the scheme, and the wiring of the controllers.

    The manager is library code. [mcall] lists what the program asks of it,
    each answered by an error or nil; [main] is the program against any
    answers, and yields the calls it made and the code it exits with. A
    controller that is completed carries its [Reconcile], so that the theorems
    speak of what the process runs. *)

From S2P Require Import Prelude.
From S2P Require Import GoLib.
From S2P Require Import Api.
From S2P Require Import Effects.
From S2P Require Import Helpers.
From S2P Require TestController.
From S2P Require TestRunController.
From S2P Require TestSuiteController.
From S2P Require HelmWatcher.
From S2P Require Logging.
From Stdlib Require Import Ascii String.
From stdpp Require Import strings.

(** * Metrics *)

Definition metricNamespace : string := "konfirm".

Inductive vec := CounterVec | GaugeVec.

Record metricOpts := mkMetricOpts {
  md_vec : vec;
  md_Namespace : string;
  md_Subsystem : string;
  md_Name : string;
  md_Help : string;
  md_labels : list string }.

(** The vectors of [test_controller.go] and [testsuite_controller.go]. *)
Definition passed_opts : metricOpts :=
  mkMetricOpts CounterVec metricNamespace "tests" "passed"
    "The number of Tests that have passed" ["test_namespace"].
Definition failed_opts : metricOpts :=
  mkMetricOpts CounterVec metricNamespace "tests" "failed"
    "The number of Tests that have failed" ["test_namespace"].
Definition suitePassing_opts : metricOpts :=
  mkMetricOpts GaugeVec metricNamespace "testsuites" "passing"
    "Test Suites are passing" ["test_namespace"; "test_suite"].
Definition suiteFailing_opts : metricOpts :=
  mkMetricOpts GaugeVec metricNamespace "testsuites" "failing"
    "Test Suites are failing" ["test_namespace"; "test_suite"].
Definition suiteRuns_opts : metricOpts :=
  mkMetricOpts CounterVec metricNamespace "testsuites" "runs"
    "Number of times Test Suites have run" ["test_namespace"; "test_suite"].

Definition opts_of (m : metric) : metricOpts :=
  match m with
  | passed => passed_opts | failed => failed_opts
  | suitePassing => suitePassing_opts | suiteFailing => suiteFailing_opts | suiteRuns => suiteRuns_opts
  end.

(** The metrics the two [init] functions register. *)
Definition init_test_metrics : list metric := [passed; failed].
Definition init_suite_metrics : list metric := [suitePassing; suiteFailing; suiteRuns].

(** The name a metric is exported under. *)
Definition fqName (m : metric) : string :=
  md_Namespace (opts_of m) +:+ "_" +:+ md_Subsystem (opts_of m) +:+ "_" +:+ md_Name (opts_of m).

(** The values a metric operation gives for the labels. *)
Definition labels_given (op : metric_op) : metric * list string :=
  match op with WithLabelValues m ls => (m, ls) | Inc m ls => (m, ls) | SetGauge m ls _ => (m, ls) end.

(** * Scheme *)

(** The [init] functions of the API package: the types each registers. *)
Definition init_helmpolicy : list string := ["HelmPolicy"; "HelmPolicyList"].
Definition init_test : list string := ["Test"; "TestList"].
Definition init_testrun : list string := ["TestRun"; "TestRunList"].
Definition init_testsuite : list string := ["TestSuite"; "TestSuiteList"].

(** [SchemeBuilder], after them; [AddToScheme] adds its types. *)
Definition SchemeBuilder : list string :=
  init_helmpolicy ++ init_test ++ init_testrun ++ init_testsuite.

(** * Flags *)

(** The variables the flags are bound to, zap's options, and the values of the
    flags that imported packages register on [flag.CommandLine] when they are
    initialised, such as the [kubeconfig] of controller-runtime. *)
Record flags := mkFlags {
  metricsAddr : string;
  probeAddr : string;
  enableLeaderElection : bool;
  opts : Logging.Options;
  imported : Opaque }.

(** [strconv.ParseBool] *)
Definition ParseBool (str : string) : option bool :=
  if bool_decide (str ∈ ["1"; "t"; "T"; "true"; "TRUE"; "True"]) then Some true
  else if bool_decide (str ∈ ["0"; "f"; "F"; "false"; "FALSE"; "False"]) then Some false
  else None.

(** The forms of an argument: not a flag, "--", a flag with bad syntax, or a
    flag with a name and maybe a value. *)
Inductive argument :=
| NonFlag
| Terminator
| BadSyntax
| Flag (name : string) (value : option string).

(** The name up to the first "=", and the value after it. *)
Definition split_value (s : string) : string * option string :=
  let i := strings_Index s "=" in
  if bool_decide (i = -1)%Z then (s, None) else (slice s 0 i, Some (slice s (i + 1) (len s))).

(** The first half of the flag package's [parseOne]. *)
Definition classify (s : string) : argument :=
  match s with
  | String "-" (String c r) =>
      let name := if c == "-"%char then r else String c r in
      if (c == "-"%char) && (r == "") then Terminator
      else
        match name with
        | "" => BadSyntax
        | String d _ =>
            if (d == "-"%char) || (d == "="%char) then BadSyntax
            else let '(n, v) := split_value name in Flag n v
        end
  | _ => NonFlag
  end.

Section flags.
(** The flags [zap.Options.BindFlags] adds: whether one is boolean, and how it
    sets its value, unless that is invalid. *)
Context (zapFlag : string → option (bool * (string → Logging.Options → option Logging.Options))).
(** The same for the flags of imported packages. *)
Context (importedFlag : string → option (bool * (string → Opaque → option Opaque))).

(** The flags that are defined, with what setting them does. *)
Definition lookup_flag (name : string) : option (bool * (string → flags → option flags)) :=
  if name == "metrics-bind-address" then
    Some (false, λ v f, Some (mkFlags v (probeAddr f) (enableLeaderElection f) (opts f) (imported f)))
  else if name == "health-probe-bind-address" then
    Some (false, λ v f, Some (mkFlags (metricsAddr f) v (enableLeaderElection f) (opts f) (imported f)))
  else if name == "leader-elect" then
    Some (true, λ v f,
      b ← ParseBool v; Some (mkFlags (metricsAddr f) (probeAddr f) b (opts f) (imported f)))
  else
    match zapFlag name with
    | Some (isBool, set) =>
        Some (isBool, λ v f, o ← set v (opts f);
          Some (mkFlags (metricsAddr f) (probeAddr f) (enableLeaderElection f) o (imported f)))
    | None =>
        '(isBool, set) ← importedFlag name;
        Some (isBool, λ v f, i ← set v (imported f);
          Some (mkFlags (metricsAddr f) (probeAddr f) (enableLeaderElection f) (opts f) i))
    end.

(** [flag.Parse]: the set of the command line exits on an error, with 0 when
    help was asked for, and with 2 otherwise. *)
Fixpoint parse (args : list string) (f : flags) : Z + flags :=
  match args with
  | [] => inr f
  | s :: args =>
      match classify s with
      | NonFlag => inr f
      | Terminator => inr f
      | BadSyntax => inl 2%Z
      | Flag name value =>
          match lookup_flag name with
          | None => if (name == "help") || (name == "h") then inl 0%Z else inl 2%Z
          | Some (true, set) =>
              match set (default "true" value) f with
              | Some f => parse args f
              | None => inl 2%Z
              end
          | Some (false, set) =>
              match value, args with
              | Some v, _ =>
                  match set v f with Some f => parse args f | None => inl 2%Z end
              | None, v :: args =>
                  match set v f with Some f => parse args f | None => inl 2%Z end
              | None, [] => inl 2%Z
              end
          end
      end
  end.

(** The arguments that set the program's own flags. *)
Definition print_flags (f : flags) : list string :=
  ["--metrics-bind-address=" +:+ metricsAddr f;
   "--health-probe-bind-address=" +:+ probeAddr f;
   "--leader-elect=" +:+ (if enableLeaderElection f then "true" else "false")].

Lemma split_value_app n v : str_mem "="%char n = false → split_value (n +:+ "=" +:+ v) = (n, Some v).
Proof.
  intros Hn. unfold split_value. change ("=" +:+ v) with (String "=" v).
  rewrite strings_Index_app by done. rewrite bool_decide_eq_false_2 by (unfold len; lia).
  change (n +:+ String "=" v) with (n +:+ ("=" +:+ v)). f_equal.
  - rewrite <-(str_app_nil_l (n +:+ _)). by rewrite slice_app.
  - f_equal. rewrite !len_app.
    replace (n +:+ ("=" +:+ v)) with ((n +:+ "=") +:+ v +:+ "")
      by (by rewrite str_app_nil_r, str_app_assoc).
    apply slice_app; rewrite ?len_app; unfold len; simpl; lia.
Qed.

Lemma classify_flag d n v :
  d ≠ "-"%char → d ≠ "="%char → str_mem "="%char n = false →
  classify ("--" +:+ (String d n +:+ "=" +:+ v)) = Flag (String d n) (Some v).
Proof.
  intros Hd He Hn. change ("--" +:+ ?s) with (String "-" (String "-" s)).
  unfold classify. rewrite (str_app_cons d n). cbn match. simpl ("-"%char == "-"%char).
  rewrite <-(str_app_cons d n), split_value_app.
  - rewrite (str_app_cons d n). cbn [andb]. by rewrite !bool_decide_eq_false_2 by done.
  - simpl. by rewrite bool_decide_eq_false_2.
Qed.

(** C40: the program's flags are read back from the arguments that set them,
    whatever the addresses, and nothing else is changed. *)
Theorem flags_roundtrip f f0 :
  parse (print_flags f) f0 =
    inr (mkFlags (metricsAddr f) (probeAddr f) (enableLeaderElection f) (opts f0) (imported f0)).
Proof.
  destruct f as [addr probe elect o i], f0 as [addr0 probe0 elect0 o0 i0]. unfold print_flags.
  cbn [parse metricsAddr probeAddr enableLeaderElection Logging.zap_rest opts imported].
  change ("--metrics-bind-address=" +:+ addr)
    with ("--" +:+ (String "m" "etrics-bind-address" +:+ "=" +:+ addr)).
  change ("--health-probe-bind-address=" +:+ probe)
    with ("--" +:+ (String "h" "ealth-probe-bind-address" +:+ "=" +:+ probe)).
  rewrite !classify_flag by done. cbn. by destruct elect.
Qed.

End flags.

(** * The manager *)

(** [ctrl.Options] *)
Record ManagerOptions := mkManagerOptions {
  Scheme : list string;
  BindAddress : string;
  HealthProbeBindAddress : string;
  LeaderElection : bool;
  LeaderElectionID : string }.

(** What [ctrl.NewControllerManagedBy] builds. *)
Record controller := mkController {
  ctl_For : kind;
  ctl_Owns : kind;
  ctl_Watches : option (HelmWatcher.watch_event KSecret → prog (option HelmWatcher.producer));
  ctl_Reconcile : Request → prog (Result * option error) }.

Inductive mcall :=
| MGetConfig (imported : Opaque)
| MNewManager (o : ManagerOptions)
| MIndexField (k : kind) (field : string) (extract : obj k → list string)
| MComplete (c : controller)
| MAddHealthzCheck (name : string)
| MAddReadyzCheck (name : string)
| MStart.

(** Calls with the answers [answer]: the calls made, and the result. *)
Definition setup (A : Type) := (mcall → option error) → list mcall * A.

Definition ask (c : mcall) : setup (option error) := λ answer, ([c], answer c).
Definition finish {A} (a : A) : setup A := λ _, ([], a).
Definition after {A B} (m : setup A) (f : A → setup B) : setup B := λ answer,
  let '(cs, a) := m answer in
  let '(cs', b) := f a answer in
  (cs ++ cs', b).

Notation "'let@' x := m 'in' f" := (after m (λ x, f))
  (at level 10, x name, m at level 200, f at level 200) : go_scope.

Section manager.
(** The types of client-go's scheme. *)
Context (clientgoscheme : list string).
Context `{AM : !ApiMachinery} `{SS : !SortSlice}.
Context (zapFlag : string → option (bool * (string → Logging.Options → option Logging.Options))).
Context (importedFlag : string → option (bool * (string → Opaque → option Opaque))).
Context (level_String : Logging.LevelEncoder) (zap_zero imported_zero : Opaque).
Context (cron_ParseStandard : string → error + TestSuiteController.Schedule_).
Context (spew_Fprintf : TestRunSpec → string) (rand_SafeEncodeString : string → string).

(** ** The reconcilers *)

(** The structs' fields, but for the client, the recorder, the scheme and the
    clock, which are the world. *)
Record TestReconciler := mkTestReconciler { test_ErrRequeueDelay : Z }.
Record TestRunReconciler := mkTestRunReconciler { run_ErrRequeueDelay : Z }.
Record TestSuiteReconciler := mkTestSuiteReconciler {
  suite_ErrRequeueDelay : Z;
  suite_CronParser : string → error + TestSuiteController.Schedule_ }.

(** ** [SetupWithManager] *)

Definition TestReconciler_controller (r : TestReconciler) : controller :=
  mkController KTest KPod None (TestController.Reconcile (test_ErrRequeueDelay r)).

Definition TestReconciler_SetupWithManager (r : TestReconciler) : setup (option error) :=
  let@ err := ask (MIndexField KPod TestController.podIndexKey TestController.podIndexer) in
  match err with
  | Some _ => finish err
  | None => ask (MComplete (TestReconciler_controller r))
  end.

Definition TestRunReconciler_controller (r : TestRunReconciler) : controller :=
  mkController KTestRun KTest None (TestRunController.Reconcile (run_ErrRequeueDelay r)).

Definition TestRunReconciler_SetupWithManager (r : TestRunReconciler) : setup (option error) :=
  let@ err := ask (MIndexField KTest TestRunController.testIndexKey TestRunController.testIndexer) in
  match err with
  | Some _ => finish err
  | None => ask (MComplete (TestRunReconciler_controller r))
  end.

(** The handler of the watch sees the events that pass the predicate. *)
Definition helmWatch (e : HelmWatcher.watch_event KSecret) : prog (option HelmWatcher.producer) :=
  if HelmWatcher.IsHelmRelease e then HelmWatcher.EnqueueForHelmTrigger e else Ret None.

Definition TestSuiteReconciler_controller (r : TestSuiteReconciler) : controller :=
  mkController KTestSuite KTestRun (Some helmWatch)
    (TestSuiteController.Reconcile (suite_ErrRequeueDelay r) (suite_CronParser r)
       spew_Fprintf rand_SafeEncodeString).

Definition TestSuiteReconciler_SetupWithManager (r : TestSuiteReconciler) : setup (option error) :=
  let@ err := ask (MIndexField KTestRun TestSuiteController.testRunIndexKey
                     TestSuiteController.testRunIndexer) in
  match err with
  | Some _ => finish err
  | None =>
      let@ err := ask (MIndexField KSecret "field:type" TestSuiteController.secretTypeIndexer) in
      match err with
      | Some _ => finish err
      | None => ask (MComplete (TestSuiteReconciler_controller r))
      end
  end.

(** ** [main] *)

(** [scheme], after [init]. *)
Definition init_scheme : list string := clientgoscheme ++ SchemeBuilder.

(** How the process ends: its code, and the error it logs. *)
Record exit := mkExit {
  code : Z;
  logged : option string }.

(** The options of the command line before it is parsed. *)
Definition defaults : flags :=
  mkFlags ":8080" ":8081" false
    (Logging.mkOptions
       [Logging.EncoderLevelConfig (Logging.LowercaseLevelEncoder level_String)] zap_zero)
    imported_zero.

Definition managerOptions (f : flags) : ManagerOptions :=
  mkManagerOptions init_scheme (metricsAddr f) (probeAddr f) (enableLeaderElection f)
    "1337e21f.goraft.tech".

(** [setupLog.Error(err, msg); os.Exit(1)]; [ctrl.GetConfigOrDie] exits by
    itself. *)
Definition fatal (msg : string) : setup exit := finish (mkExit 1 (Some msg)).

Definition serve (f : flags) : setup exit :=
  let@ err := ask (MGetConfig (imported f)) in
  match err with Some _ => finish (mkExit 1 None) | None =>
  let@ err := ask (MNewManager (managerOptions f)) in
  match err with Some _ => fatal "unable to start manager" | None =>
  let errMsg := "unable to create controller" in
  let@ err := TestReconciler_SetupWithManager (mkTestReconciler time.Minute) in
  match err with Some _ => fatal errMsg | None =>
  let@ err := TestRunReconciler_SetupWithManager (mkTestRunReconciler time.Minute) in
  match err with Some _ => fatal errMsg | None =>
  let@ err := TestSuiteReconciler_SetupWithManager
                (mkTestSuiteReconciler time.Minute cron_ParseStandard) in
  match err with Some _ => fatal errMsg | None =>
  let@ err := ask (MAddHealthzCheck "healthz") in
  match err with Some _ => fatal "unable to set up health check" | None =>
  let@ err := ask (MAddReadyzCheck "readyz") in
  match err with Some _ => fatal "unable to set up ready check" | None =>
  let@ err := ask MStart in
  match err with Some _ => fatal "problem running manager" | None =>
  finish (mkExit 0 None)
  end end end end end end end end.

(** [main], on the arguments after the program's name. *)
Definition main (args : list string) : setup exit :=
  match parse zapFlag importedFlag args defaults with
  | inl c => finish (mkExit c None)
  | inr f => serve f
  end.

(** Everything the program asks of the manager when nothing fails. *)
Definition wiring (f : flags) : list mcall :=
  [MGetConfig (imported f); MNewManager (managerOptions f);
   MIndexField KPod TestController.podIndexKey TestController.podIndexer;
   MComplete (TestReconciler_controller (mkTestReconciler time.Minute));
   MIndexField KTest TestRunController.testIndexKey TestRunController.testIndexer;
   MComplete (TestRunReconciler_controller (mkTestRunReconciler time.Minute));
   MIndexField KTestRun TestSuiteController.testRunIndexKey TestSuiteController.testRunIndexer;
   MIndexField KSecret "field:type" TestSuiteController.secretTypeIndexer;
   MComplete (TestSuiteReconciler_controller (mkTestSuiteReconciler time.Minute cron_ParseStandard));
   MAddHealthzCheck "healthz"; MAddReadyzCheck "readyz"; MStart].

(** [cs] stops at the first call of [all] that fails. *)
Inductive stops_at (answer : mcall → option error) : list mcall → list mcall → bool → Prop :=
| stops_end : stops_at answer [] [] true
| stops_here c all e : answer c = Some e → stops_at answer (c :: all) [c] false
| stops_later c all cs ok :
    answer c = None → stops_at answer all cs ok → stops_at answer (c :: all) (c :: cs) ok.

Lemma stops_at_ok answer all cs ok :
  stops_at answer all cs ok →
  cs `prefix_of` all ∧ (ok = true ↔ Forall (λ c, answer c = None) all) ∧ (ok = true → cs = all).
Proof.
  induction 1 as [|c all e Hc|c all cs ok Hc _ (Hp & Hok & Hall)]; [done|..].
  - split_and!; [by exists all| |done]. split; [done|]. intros [? _]%Forall_cons. congruence.
  - split_and!; [by apply prefix_cons|rewrite Hok, Forall_cons; naive_solver|].
    intros ->. by rewrite Hall.
Qed.

Lemma stops_at_failed answer all cs ok :
  stops_at answer all cs ok → ok = false → ∃ pre c err,
    cs = pre ++ [c] ∧ Forall (λ c, answer c = None) pre ∧ answer c = Some err.
Proof.
  induction 1 as [|c all e Hc|c all cs ok Hc _ IH]; [done|..]; intros Hok.
  - by exists [], c, e.
  - destruct (IH Hok) as (pre & d & err & -> & Hpre & Hd). exists (c :: pre), d, err.
    split; [done|]. split; [by constructor|done].
Qed.

Lemma stops_at_last answer all c cs ok :
  stops_at answer (all ++ [c]) cs ok → c ∈ cs → c ∉ all → Forall (λ c, answer c = None) all.
Proof.
  revert cs. induction all as [|x all IH]; intros cs Hs Hin Hc; [constructor|].
  apply not_elem_of_cons in Hc as [Hx Hc]. inversion Hs; subst.
  - by apply list_elem_of_singleton in Hin.
  - constructor; [done|]. eapply IH; [done| |done]. by apply elem_of_cons in Hin as [?|?].
Qed.

Lemma parse_codes args f c : parse zapFlag importedFlag args f = inl c → c = 0%Z ∨ c = 2%Z.
Proof.
  revert f. induction args as [args IH] using (induction_ltof1 _ length). unfold ltof in IH.
  intros f. destruct args as [|s args]; simpl; [done|].
  destruct (classify s) as [| | |name value]; try (intros; simplify_eq; by auto).
  destruct (lookup_flag zapFlag importedFlag name) as [[[] set]|].
  - destruct (set _ f); [apply IH; simpl; lia|intros; simplify_eq; by auto].
  - destruct value as [v|], args as [|v' args];
      repeat match goal with |- context [set ?v f] => destruct (set v f) end;
      try (intros; simplify_eq; by auto); apply IH; simpl; lia.
  - destruct (_ || _); intros; simplify_eq; by auto.
Qed.

Lemma serve_stops f answer :
  let '(cs, e) := serve f answer in
  stops_at answer (wiring f) cs (bool_decide (code e = 0%Z)) ∧ (code e = 0%Z ∨ code e = 1%Z).
Proof.
  unfold serve, TestReconciler_SetupWithManager, TestRunReconciler_SetupWithManager,
    TestSuiteReconciler_SetupWithManager, fatal, finish, after, ask, wiring.
  repeat match goal with
  | |- context [answer ?c] =>
      lazymatch goal with
      | H : answer c = _ |- _ => fail
      | _ => destruct (answer c) eqn:?
      end; cbn
  end; (split; [|by auto]); repeat first [by apply stops_here with (e := e)|econstructor; [eassumption|]|apply stops_end|by eapply stops_here].
Qed.

(** C39: the process exits with 0 exactly when its arguments are valid and no
    call fails, or help was asked for; invalid arguments make it exit with 2
    before any call. With valid ones the calls are those of the [wiring], in
    its order; the first that fails is the last one that is made, and makes it
    exit with 1, so that the manager is only started when everything is set
    up. *)
Theorem main_exits args answer :
  let '(cs, e) := main args answer in
  match parse zapFlag importedFlag args defaults with
  | inl c => cs = [] ∧ code e = c ∧ (c = 0%Z ∨ c = 2%Z)
  | inr f =>
      cs `prefix_of` wiring f ∧
      (code e = 0%Z ↔ Forall (λ c, answer c = None) (wiring f)) ∧
      (code e = 0%Z → cs = wiring f) ∧
      (code e ≠ 0%Z → code e = 1%Z ∧ ∃ pre c err,
         cs = pre ++ [c] ∧ Forall (λ c, answer c = None) pre ∧ answer c = Some err) ∧
      (MStart ∈ cs → Forall (λ c, answer c = None) (removelast (wiring f)))
  end.
Proof.
  unfold main. destruct (parse zapFlag importedFlag args defaults) as [c|f] eqn:Hp.
  { simpl. split_and!; [done..|by eapply parse_codes]. }
  pose proof (serve_stops f answer) as Hs. destruct (serve f answer) as [cs e].
  destruct Hs as [Hs Hc]. apply stops_at_ok in Hs as Hok. destruct Hok as (H1 & H2 & H3).
  rewrite bool_decide_eq_true in H2, H3. split_and!; [done..| |].
  { intros Hne. split; [by destruct Hc|]. eapply stops_at_failed; [exact Hs|]. by apply bool_decide_eq_false. }
  intros Hin.
  eapply (stops_at_last _ (removelast (wiring f)) MStart); [exact Hs|done|].
  intros Hm. repeat (apply elem_of_cons in Hm as [Hm|Hm]; [done|]). by apply elem_of_nil in Hm.
Qed.

(** A listing by fields only selects on exact values of fields that [cs]
    indexed. *)
Definition indexed (cs : list mcall) (e : event) : Prop :=
  match ev_call e with
  | CList k os => ∀ o, o ∈ os →
      match o with
      | MatchingFields key _ => ∃ extract, MIndexField k key extract ∈ cs
      | MatchingFieldsSelector _ => False
      | _ => True
      end
  | _ => True
  end.

(** The listing of a policy that exports to all namespaces, whose selector is
    not indexed. *)
Definition unindexed (e : event) : Prop :=
  ∃ ns release, ev_call e = CList KTestSuite
    [MatchingFieldsSelector ("metadata.namespace!=" +:+ ns); HelmWatcher.releaseLabelMatcher release].

Lemma test_event_indexed cs e :
  (∃ x, MIndexField KPod TestController.podIndexKey x ∈ cs) →
  TestController.test_event e → indexed cs e.
Proof.
  intros Hx He. destruct e as [[] r]; try done. destruct He as [-> (req & Hos)].
  unfold indexed. simpl in *. subst. intros o. rewrite !elem_of_cons.
  by intros [->|[->|?%elem_of_nil]].
Qed.

Lemma run_event_indexed cs e :
  (∃ x, MIndexField KTest TestRunController.testIndexKey x ∈ cs) →
  TestRunController.run_event e → indexed cs e.
Proof.
  intros Hx He. destruct e as [[] r]; try done. destruct He as [-> (req & Hos)].
  unfold indexed. simpl in *. subst. intros o. rewrite !elem_of_cons.
  by intros [->|[->|?%elem_of_nil]].
Qed.

Lemma suite_event_indexed spew enc cs e :
  (∃ x, MIndexField KTestRun TestSuiteController.testRunIndexKey x ∈ cs) →
  TestSuiteController.suite_event spew enc e → indexed cs e.
Proof.
  intros Hx He. destruct e as [[] r]; try done. unfold indexed. simpl in *.
  destruct He as [[-> (req & ->)]|[-> (ns & ls & ->)]]; intros o; rewrite !elem_of_cons.
  - by intros [->|[->|?%elem_of_nil]].
  - by intros [->|[->|?%elem_of_nil]].
Qed.

(** The watch lists by namespaces and labels, but for that listing. *)
Definition watched cs e : Prop := indexed cs e ∨ unindexed e.

Lemma by_labels_indexed cs ns release (r : error + list TestSuite) :
  indexed cs (Ev (CList KTestSuite [InNamespace ns; HelmWatcher.releaseLabelMatcher release]) r).
Proof. intros o. rewrite !elem_of_cons. by intros [->|[->|?%elem_of_nil]]. Qed.

Lemma drain_sendAll_watched cs items rest :
  wp any (HelmWatcher.drain rest) (only (watched cs)) →
  wp any (HelmWatcher.drain (HelmWatcher.sendAll items rest)) (only (watched cs)).
Proof.
  intros Hr. induction items as [|ts items IH]; [done|]. intros [] _. eapply wp_mono; [|exact IH].
  intros t o Ht. constructor; [by left|exact Ht].
Qed.

Lemma drain_Listing_watched cs opts rest :
  (∀ r, watched cs (Ev (CList KTestSuite opts) r)) →
  wp any (HelmWatcher.drain rest) (only (watched cs)) →
  wp any (HelmWatcher.drain (HelmWatcher.Listing opts (λ r, match r with
    | inl _ => HelmWatcher.Close | inr items => HelmWatcher.sendAll items rest end))) (only (watched cs)).
Proof.
  intros Ho Hr r _. destruct r as [e|items]; [by constructor|].
  eapply wp_mono; [|by apply drain_sendAll_watched]. intros t o Ht. by constructor.
Qed.

Lemma producerOf_watched cs release policy :
  wp any (HelmWatcher.drain (HelmWatcher.producerOf release policy)) (only (watched cs)).
Proof.
  unfold HelmWatcher.producerOf. destruct (HelmWatcher.exportAll policy).
  - apply drain_Listing_watched; [|by constructor]. intros r. right. by eexists _, _.
  - induction (ExportTo _) as [|ns nss IH]; [by constructor|].
    apply drain_Listing_watched; [|done]. intros r. left. apply by_labels_indexed.
Qed.

Lemma handleSecret_watched cs secret :
  wp any (HelmWatcher.handled (HelmWatcher.handleSecret secret)) (only (watched cs)).
Proof.
  unfold HelmWatcher.handled, HelmWatcher.handleSecret.
  destruct (ParseHelmReleaseSecret _) as [[release|] []]; [|by constructor..].
  intros r _. assert (watched cs (Ev (CList KTestSuite (HelmWatcher.ownSuites release)) r)) as Hr
    by (left; apply by_labels_indexed).
  destruct r as [e|items]; [by constructor|]. simpl. rewrite HelmWatcher.enqueueAll_drain.
  do 2 apply (proj1 (wp_bind _ _ _)).
  eapply wp_mono; [|apply (drain_sendAll_watched cs items HelmWatcher.Close); by constructor].
  intros t [[]|p] Ht; [|by constructor]. intros r _.
  destruct r as [e|policy]; cbn [bind wp].
  - constructor; [done|]. rewrite <-app_assoc. apply Forall_app. split; [exact Ht|]. by repeat constructor.
  - eapply wp_mono; [|apply producerOf_watched]. intros t' o Ht'. constructor; [done|].
    rewrite <-app_assoc. apply Forall_app. split; [exact Ht|]. constructor; [by left|exact Ht'].
Qed.

Lemma helmWatch_indexed cs e :
  wp any (HelmWatcher.handled (helmWatch e)) (only (watched cs)).
Proof.
  unfold helmWatch. destruct (HelmWatcher.IsHelmRelease e); [|by constructor].
  destruct e as [o| | |]; simpl; [apply handleSecret_watched|by constructor..].
Qed.

(** What the program asks for is a beginning of the [wiring]. *)
Lemma main_prefix args answer : ∃ f, (main args answer).1 `prefix_of` wiring f.
Proof.
  unfold main. destruct (parse zapFlag importedFlag args defaults) as [c|f].
  - exists defaults. apply prefix_nil.
  - exists f. pose proof (serve_stops f answer) as Hs. destruct (serve f answer) as [cs e].
    by destruct Hs as [(Hp & _)%stops_at_ok _].
Qed.

(** C38: whatever the arguments and the manager's answers, the [Reconcile] of
    every controller that is completed lists by no fields but those that were
    indexed before, for objects of the listed kind, and for exact values; for
    the suites as long as the server keeps the phase on metadata patches. So
    does the handler of its watch, if it has one, but for the listing of a
    policy that exports to "*". *)
Theorem listings_indexed args answer pre c post req :
  (main args answer).1 = pre ++ MComplete c :: post →
  wp TestSuiteController.keeps_phase (ctl_Reconcile c req) (only (indexed pre)) ∧
  ∀ watch e, ctl_Watches c = Some watch →
    wp any (HelmWatcher.handled (watch e)) (only (λ e, indexed pre e ∨ unindexed e)).
Proof.
  destruct (main_prefix args answer) as [f [rest Hw]]. intros Hm. rewrite Hm in Hw.
  rewrite <-app_assoc in Hw. cbn [app] in Hw. revert Hw.
  generalize (post ++ rest) as post'. clear Hm. intros post' Hw. unfold wiring in Hw.
  repeat match type of Hw with
  | _ = ?pre ++ _ =>
      destruct pre as [|? pre]; cbn [app] in Hw;
        [first [discriminate Hw|injection Hw as <- _]|first [discriminate Hw|injection Hw as <- Hw]]
  end.
  - split; [|done]. eapply wp_mono; [|apply TestController.test_Reconcile_events].
    intros t [r|?]; [|done]. intros Ht. eapply Forall_impl; [exact Ht|].
    intros e. apply test_event_indexed. set_solver.
  - split; [|done]. eapply wp_mono; [|apply TestRunController.run_Reconcile_events].
    intros t o [Ht _]. eapply Forall_impl; [exact Ht|].
    intros e. apply run_event_indexed. set_solver.
  - split; [|intros watch e [= <-]; apply helmWatch_indexed].
    eapply wp_mono; [|apply TestSuiteController.suite_Reconcile_events].
    intros t o [Ht _]. eapply Forall_impl; [exact Ht|].
    intros e. apply suite_event_indexed. set_solver.
Qed.

End manager.
