(* ===== verification/Mock.v ===== *)
(** [src/cmd/mock/main.go]: the program the integration tests run in a pod. It
    writes a termination message and exits, as its arguments say. *)

From S2P Require Import Prelude.
From S2P Require Import GoLib.

(** What the program does: the file it writes, if it does, and its exit code. *)
Record exit := mkExit {
  termination_log : option string;
  exitCode : Z }.

(** [main], from [os.Args]; indexing is in range in both cases. *)
Definition main (argv : list string) : exit :=
  let '(exitCode, message) :=
    match argv with
    | [_; a] => if a == "--fail" then (1%Z, "") else (0%Z, a)
    | [_; a; m] => (if a == "--fail" then 1%Z else 0%Z, m)
    | _ => (0%Z, "")
    end in
  mkExit (if message != "" then Some message else None) exitCode.

(** The mock fails exactly when its first argument of one or two is
    "--fail"; a sole argument that is not "--fail", or the second of two, is
    the termination message, unless it is empty. *)
Theorem main_spec prog args :
  let r := main (prog :: args) in
  (exitCode r = 1%Z ↔ head args = Some "--fail" ∧ length args ≤ 2) ∧
  (exitCode r = 0%Z ∨ exitCode r = 1%Z) ∧
  (∀ m, termination_log r = Some m ↔ m ≠ "" ∧
     (args = [m] ∧ m ≠ "--fail" ∨ ∃ a, args = [a; m])).
Proof.
  unfold main. assert (1 ≤ 2 ∧ 2 ≤ 2) by lia.
  destruct args as [|a [|m [|x args]]]; simpl; split_and!; repeat case_bool_decide; simplify_eq/=;
    try naive_solver; try (split; [done|lia || naive_solver]).
Qed.
