(* ===== verification/Witnesses.v ===== *)
(** Concrete inputs at which the hypotheses of the properties hold, and what
    the properties say there. *)

From S2P Require Import Prelude.
From S2P Require Import GoLib.
From S2P Require Import Api.
From S2P Require Import Effects.
From S2P Require Import Instances.
From S2P Require Import Helpers.
From S2P Require Import PruneDeleted.
From S2P Require TestController.
From S2P Require TestRunController.
From S2P Require TestSuiteController.
From S2P Require HelmWatcher.
From S2P Require Import Crash.
From S2P Require Import Server.
From S2P Require Import Lifecycle.
From S2P Require Import Cluster.
From S2P Require Import Verdicts.
From S2P Require Import ClusterServer.
From S2P Require Import System.
From S2P Require Import SystemServer.
From S2P Require Reports.
From S2P Require Logging.
From S2P Require Manager.
From S2P Require Import DeepCopy.

(** * Helpers *)

Definition pod_live : Pod := pod "p" PodRunning None ["other"].
Definition pod_gone : Pod := pod "q" PodRunning (Some 5%Z) ["other"].

Lemma finalizer_roundtrip_witness :
  "f" ∉ GetFinalizers (k:=KPod) pod_live ∧
  wp (stores_finalizers KPod)
    (let* '(_, o1) := addFinalizer (k:=KPod) "f" pod_live in removeFinalizer "f" o1)
    (returns (λ t '(_, o2), GetFinalizers (k:=KPod) o2 = ["other"] ∧ length t = 2)).
Proof.
  assert ("f" ∉ GetFinalizers (k:=KPod) pod_live) as Hf by (vm_compute; set_solver).
  split; [exact Hf|exact (finalizer_roundtrip (k:=KPod) "f" pod_live Hf)].
Defined.

Definition vanished : error := ErrAPI "NotFound" "pods not found".

Lemma cleanUp_reports_vanished_patch_witness :
  wp (λ c r, match c return reply c → Prop with
      | CPatch _ _ _ => λ r, r = inl vanished
      | CDelete _ _ => λ r, r = Some vanished
      | _ => λ _, True end r)
    (let* '(r1, _) := cleanUp (k:=KPod) "other" pod_gone in
     let* '(r2, _) := cleanUp (k:=KPod) "other" (SetObjectMeta (k:=KPod) (mkObjectMeta "" "" "" "" 0 0 None
       None None [] []) pod_gone) in Ret (r1, r2))
    (returns (λ _ r, r = ((false, Some vanished), (false, None)))).
Proof.
  apply (cleanUp_reports_vanished_patch (k:=KPod) "other" pod_gone vanished 5%Z);
    [reflexivity|reflexivity|vm_compute; by left].
Defined.

Definition release7 : Secret :=
  secret {["name" := "app"; "version" := "7"; "status" := "deployed"]}.

Lemma helm_version_roundtrip_witness :
  ∃ r, ParseHelmReleaseSecret (Some release7) = (Some r, true) ∧ hrm_Version r = 7%Z.
Proof.
  apply (helm_version_roundtrip release7 {["name" := "app"; "status" := "deployed"]} 7%Z).
  - unfold minInt64, maxInt64. lia.
  - reflexivity.
  - vm_compute. reflexivity.
  - vm_compute. eexists. reflexivity.
  - vm_compute. eexists. reflexivity.
Defined.

Lemma pruneDeleted_skips_tail_witness :
  wp (stores_finalizers KPod) (pruneDeleted (k:=KPod) "other" [pod_gone; pod_gone]) (returns (λ t r,
    Forall (λ e, ∃ new, ev_call e = CPatch KPod pod_gone new) t ∧ length t ≤ 1 ∧
    (r = inr [] ∨ ∃ e, r = inl e))).
Proof.
  apply (pruneDeleted_skips_tail (k:=KPod) "other" pod_gone [pod_gone]).
  repeat (apply Forall_cons; split; [reflexivity|]). apply Forall_nil. exact I.
Defined.

(** * TestController *)

(** The first pod is being deleted, the second one is live, and the third one
    is surplus. *)
Lemma selectPod_first_live_witness :
  wp (TestController.keeps_deletion KPod) (TestController.selectPod 60%Z [pod_gone; pod_live; pod_live])
    (returns (λ t r,
      (r = inr (Some pod_live) ∨ failing t ∧ ∃ err, r = inl (TestController.requeue 60%Z, Some err)) ∧
      Forall (λ e, ∃ q : Pod, TestController.writes_pod q e ∧
        (is_deleted (k:=KPod) q = true ∨ ∃ j, 1 < j ∧ [pod_gone; pod_live; pod_live] !! j = Some q)) t)).
Proof.
  apply (TestController.selectPod_first_live 60%Z [pod_gone; pod_live; pod_live] 1 pod_live);
    [reflexivity|reflexivity|].
  intros [|j] q Hj Hq; [simpl in Hq; by simplify_eq|lia].
Defined.

Definition test_running : Test := test "t" "run-0-" TestRunning [TestController.TestControllerFinalizer].

(** The pod of a running Test succeeded: the Test passes, and is counted if
    the write succeeds. *)
Lemma followPod_follows_witness :
  wp any (TestController.followPod 60%Z test_running (pod "p" PodSucceeded None []))
    (returns (λ t res, ∃ new ok, status_writes KTest t = [(test_running, new, ok)] ∧
      test_Phase (test_Status new) = TestPassed ∧
      counted t = (if ok : bool then [passed] else []))).
Proof.
  eapply wp_mono; [|apply (TestController.followPod_follows 60%Z test_running
    (pod "p" PodSucceeded None [])); reflexivity].
  intros t [res|p]; [|intros []]. intros [H _].
  destruct H as (new & ok & Hw & Hp & Hc & _); [right; right; left; reflexivity|discriminate|].
  exists new, ok. split; [exact Hw|]. split; [exact Hp|]. rewrite Hc. by destruct ok.
Defined.

Definition test_done : Test := test "t" "run-0-" TestPassed [].

(** A policy that retains nothing: the pod is deleted. *)
Lemma isComplete_retention_witness :
  wp any (TestController.isComplete 60%Z test_done [pod_live])
    (returns (λ t res, Forall (λ p, Exists (TestController.deletes p) t) [pod_live])).
Proof.
  eapply wp_mono; [|apply (TestController.isComplete_retention 60%Z test_done [pod_live])].
  - intros t [res|p]; [|intros []]. intros [H _]. exact H.
  - apply Forall_cons. split; [reflexivity|]. apply Forall_nil. exact I.
Defined.

Lemma finalize_swallows_error_witness :
  wp (λ c r, match c return reply c → Prop with
      | CPatch _ _ _ => λ r, r = inl (errors_New "timeout") | _ => λ _, True end r)
    (TestController.finalize 60%Z test_running [])
    (returns (λ t res, length t = 1 ∧ res = (noResult, None))).
Proof.
  apply (TestController.finalize_swallows_error 60%Z test_running (errors_New "timeout")).
  vm_compute. by left.
Defined.

(** * TestRunController *)

Definition two_templates : list TestTemplate :=
  [mkTestTemplate "first" RetainNever template; mkTestTemplate "second" RetainNever template].
Definition run2 : TestRun := testrun "run" 0 TestRunRunning two_templates.
Definition first_test : Test := test "run-0-x" "run-0-" TestPassed [].
Definition second_test : Test := test "run-1-y" "run-1-" TestFailed [].


(** Both Tests are listed, in the opposite order: the run failed. *)
Lemma isRunning_complete_listing_witness :
  wp any (TestRunController.isRunning 60%Z run2 [second_test; first_test]) (returns (λ t _,
    created KTest t = [] ∧ ∃ new ok, status_writes KTestRun t = [(run2, new, ok)] ∧
      run_Phase (run_Status new) = TestRunFailed)).
Proof.
  eapply wp_mono; [|apply (TestRunController.isRunning_complete_listing 60%Z run2 [second_test; first_test])].
  - intros t [res|p]; [|intros []]. intros (Hc & new & ok & Hw & Hp & _).
    split; [exact Hc|]. exists new, ok. split; [exact Hw|exact Hp].
  - vm_compute. apply Permutation_swap.
Defined.

(** There the first template is credited with the second Test's failure. *)
Lemma isRunning_misattributes_witness :
  wp any (TestRunController.isRunning 60%Z run2 [second_test; first_test]) (returns (λ t _, ∃ new ok,
    status_writes KTestRun t = [(run2, new, ok)] ∧
    run_Results (run_Status new) !! 0 = Some (mkTestResult "first" false "run-1-y"))).
Proof.
  apply (TestRunController.isRunning_misattributes 60%Z run2 [second_test; first_test] 0
    (mkTestTemplate "first" RetainNever template) second_test); [| |reflexivity..].
  - vm_compute. apply Permutation_swap.
  - repeat (apply Forall_cons; split; [reflexivity|]). apply Forall_nil. exact I.
Defined.

(** The first Test is gone: the second one, alone in the listing, has an index
    past its end. *)
Lemma isRunning_panics_witness :
  TestRunController.isRunning 60%Z run2 [second_test] = Panic IndexOutOfRange.
Proof.
  apply (TestRunController.isRunning_panics 60%Z run2 [second_test] second_test 1);
    [|by left|reflexivity|simpl; lia].
  apply Forall_cons. split; [exists 1; split; [reflexivity|simpl; lia]|apply Forall_nil; exact I].
Defined.

Definition run11 : TestRun :=
  testrun "run" 0 TestRunRunning (replicate 11 (mkTestTemplate "t" RetainNever template)).

Lemma isRunning_never_completes_witness :
  wp any (TestRunController.isRunning 60%Z run11 []) (λ t o,
    Forall (λ w : TestRun * TestRun * bool, run_Phase (run_Status w.1.2) = TestRunRunning)
      (status_writes KTestRun t) ∧
    (o = Done (noResult, None) → 11 ≤ length (created KTest t) + 10)).
Proof. apply (TestRunController.isRunning_never_completes 60%Z run11 []). vm_compute. lia. Defined.

Lemma testIndex_roundtrip_witness :
  TestRunController.testIndex (TestRunController.testGenerateName "run" 12) = inr 2%Z.
Proof.
  assert ("run" ≠ "") as Hne by discriminate.
  exact (proj1 (TestRunController.testIndex_roundtrip "run" 12 Hne)).
Defined.

(** * TestSuiteController *)

Definition enc (s : string) : string := s.
Definition spew (s : TestRunSpec) : string := trs_RetentionPolicy s.

Lemma suite_isRunning_creates_witness :
  wp any (TestSuiteController.isRunning 60%Z spew enc (suite TestSuiteRunning "" "") [])
    (returns (λ t res, created KTestRun t =
      [TestSuiteController.runFor spew enc (suite TestSuiteRunning "" "")])).
Proof.
  eapply wp_mono; [|apply (TestSuiteController.suite_isRunning_creates 60%Z spew enc
    (suite TestSuiteRunning "" "") []); reflexivity].
  intros t [res|p]; [|intros []]. intros [H _]. exact H.
Defined.

Definition run_passed : TestRun := testrun "run" 3 TestRunPassed [].
Definition suite_waiting : TestSuite := suite TestSuiteRunning "run" "".

(** The current run passed: the suite becomes Ready. *)
Lemma suite_isRunning_finishes_witness :
  wp any (TestSuiteController.isRunning 60%Z spew enc suite_waiting [run_passed])
    (returns (λ t res, ∃ new ok, status_writes KTestSuite t = [(suite_waiting, new, ok)] ∧
      TestSuiteController.finishes_run suite_waiting new ∧
      (ok = true → gauges t ≡ₚ [(suitePassing, 1%Z); (suiteFailing, 0%Z)]))).
Proof.
  assert (CurrentTestRun (suite_Status suite_waiting) ≠ "") as Hne by discriminate.
  eapply wp_mono; [|apply (TestSuiteController.suite_isRunning_finishes 60%Z spew enc
    suite_waiting [run_passed] Hne)].
  intros t [res|p]; [|intros []]. intros (new & ok & Hw & Hf & Ht & _).
  exists new, ok. split; [exact Hw|]. split; [exact Hf|]. intros Hok. apply Ht in Hok as (_ & _ & H). exact H.
Defined.

Definition run_old : TestRun := testrun "old" 1 TestRunRunning [].
Definition run_young : TestRun := testrun "young" 2 TestRunRunning [].

(** Two runs are not complete: the suite ends up on one no older than the
    older of the two. *)
Lemma ensurePhase_focuses_youngest_witness :
  wp reliable (TestSuiteController.ensurePhase 60%Z (suite TestSuiteReady "" "")
      (sort_Slice TestSuiteController.older [run_young; run_old]))
    (returns (λ t r, length (status_writes KTestSuite t) = 2 ∧ ∃ suite' current, r = inr suite' ∧
      CurrentTestRun (suite_Status suite') = Name (run_ObjectMeta current) ∧
      TestSuiteController.no_younger run_young current)).
Proof.
  eapply wp_mono; [|apply (TestSuiteController.ensurePhase_focuses_youngest 60%Z
    (suite TestSuiteReady "" "") [run_young; run_old] run_young); [reflexivity|by left|reflexivity]].
  intros t [res|p]; [|intros []].
  intros (Hlen & suite' & current & Hr & _ & Hcur & _ & _ & Hy). split; [exact Hlen|].
  exists suite', current. done.
Defined.

Definition app7 : HelmReleaseMeta := mkHelmReleaseMeta "ns" "app" 7 "7" "deployed".

Lemma helmTrigger_retriggers_witness :
  wp reliable (TestSuiteController.helmTrigger 60%Z (suite TestSuiteReady "" "app") app7)
    (returns (λ _ r, ∃ trigger suite', r = inr (trigger, suite') ∧
      TestSuiteController.isNewRelease suite' app7 = true)).
Proof.
  apply (TestSuiteController.helmTrigger_retriggers 60%Z (suite TestSuiteReady "" "app") app7).
  discriminate.
Defined.

(** Only a release named like its namespace wakes its suite. *)
Lemma helmLabel_mismatch_witness :
  TestSuiteController.helmLabel (suite TestSuiteReady "" "ns") =
    LabelValue (Some (mkHelmReleaseMeta "ns" "ns" 7 "7" "deployed")) ∧ "ns" = "ns".
Proof.
  split; [reflexivity|].
  apply (TestSuiteController.helmLabel_mismatch (suite TestSuiteReady "" "ns")
    (mkHelmReleaseMeta "ns" "ns" 7 "7" "deployed")); first [reflexivity|discriminate].
Defined.

(** * HelmWatcher *)

Definition policy_star : HelmPolicy := mkHelmPolicy (mkTypeMeta GroupVersion_String "HelmPolicy") (meta "ns" "app" "" 0 None []) (mkHelmPolicySpec ["a"]).

(** One suite is listed in the exported namespace, and enqueued. *)
Lemma goroutines_refine_drain_witness :
  let p := HelmWatcher.producerOf app7 policy_star in
  let s := suite TestSuiteReady "" "app" in
  ∃ t', exec (HelmWatcher.drain p) t' (Done tt) ∧ HelmWatcher.enqueued t' = [HelmWatcher.requestOf s].
Proof.
  intros p s.
  assert (HelmWatcher.steps (p, HelmWatcher.Receiving)
    ([Ev (CList KTestSuite [InNamespace "a"; HelmWatcher.releaseLabelMatcher app7]) (inr [s])] ++
     [] ++ [Ev (CEnqueue (HelmWatcher.requestOf s)) tt] ++ [] ++ [])
    (HelmWatcher.Close, HelmWatcher.Finished)) as Hs.
  { eapply HelmWatcher.steps_step; [apply HelmWatcher.step_list|].
    eapply HelmWatcher.steps_step; [apply HelmWatcher.step_pass|].
    eapply HelmWatcher.steps_step; [apply HelmWatcher.step_enqueue|].
    eapply HelmWatcher.steps_step; [apply HelmWatcher.step_closed|]. apply HelmWatcher.steps_refl. }
  destruct (HelmWatcher.goroutines_refine_drain _ _ Hs) as (t' & He & _ & Hq).
  exists t'. split; [exact He|]. by rewrite <-Hq.
Defined.

(** * Logging *)

Lemma level_encoders_injective_witness :
  Logging.LowercaseLevelEncoder (λ _, "debug") (-5)%Z = "trace4".
Proof.
  apply (Logging.level_encoders_injective (λ _, "debug") (λ _, "DEBUG") (-5)%Z (-7)%Z);
    unfold Logging.is_int8, Logging.DebugLevel; lia.
Defined.

(** * Life cycles *)

(** What the rest of the cluster answers: a pod that succeeded, the Test of
    template 0 that passed, a run that passed, and created objects as they
    are, but with a name for runs. *)
Definition answers (c : call) : reply c :=
  match c return reply c with
  | CGet _ _ => inl (ErrAPI reason_NotFound "not found")
  | CList k _ =>
      match k return error + list (obj k) with
      | KPod => inr [pod "test-1" PodSucceeded None []]
      | KTest => inr [test "run-0-1" "run-0-" TestPassed []]
      | KTestRun => inr [testrun "suite-1" 5 TestRunPassed []]
      | _ => inr []
      end
  | CCreate k o =>
      match k return obj k → error + obj k with
      | KTestRun => λ _, inr (testrun "suite-1" 5 "" [])
      | _ => inr
      end o
  | CDelete _ _ => None
  | CPatch _ _ new => inr new
  | CStatusPatch _ _ new => inr new
  | CEvent _ _ _ _ _ => tt
  | CMetric _ => tt
  | CNow => 0%Z
  | CEnqueue _ => tt
  end.

Definition req : NamespacedName := mkNamespacedName "ns" "name".

(** A new Test whose pod succeeded, reconciled twice: it is Passed, and
    counted once. *)
Example test_lifecycle_witness :
  let s := mkStore [TestPassed; TestPending; ""] [passed] in
  attempts (serves KTest) (TestController.Reconcile 5 req) created_store s ∧
  history TestController.phase_step (trail s) ∧
  (∀ p, p ∈ tail (trail s) → TestPhase_IsFinal p = false) ∧
  (counts s = [] ∨ ∃ m, counts s = [m] ∧ TestController.counter_of (stored s) = Some m).
Proof.
  intros s.
  assert (attempts (serves KTest) (TestController.Reconcile 5 req) created_store s) as Hs.
  { pose proof (runs_attempts (k:=KTest) answers 2 (TestController.Reconcile 5 req)
      (mkServer (k:=KTest) (test "name" "run-0-" "" [])
         created_store) eq_refl) as H.
    assert (log (runs (k:=KTest) answers 2 (TestController.Reconcile 5 req)
      (mkServer (k:=KTest) (test "name" "run-0-" "" [])
         created_store)) = s) as Heq by (by vm_compute).
    rewrite Heq in H. exact H. }
  split; [exact Hs|]. exact (TestLife.test_lifecycle 5 req s Hs).
Defined.

(** A new run whose only Test passed. *)
Example run_lifecycle_witness :
  let s := mkStore [TestRunPassed; TestRunStarting; ""] [] in
  attempts (serves KTestRun) (TestRunController.Reconcile 5 req) created_store s ∧
  history TestRunController.run_step (trail s) ∧
  (∀ p, p ∈ tail (trail s) → TestRunPhase_IsFinal p = false).
Proof.
  intros s.
  assert (attempts (serves KTestRun) (TestRunController.Reconcile 5 req) created_store s) as Hs.
  { pose proof (runs_attempts (k:=KTestRun) answers 2 (TestRunController.Reconcile 5 req)
      (mkServer (k:=KTestRun) (testrun "run" 1 "" [mkTestTemplate "first" RetainNever template])
         created_store) eq_refl) as H.
    assert (log (runs (k:=KTestRun) answers 2 (TestRunController.Reconcile 5 req)
      (mkServer (k:=KTestRun) (testrun "run" 1 "" [mkTestTemplate "first" RetainNever template])
         created_store)) = s) as Heq by (by vm_compute).
    rewrite Heq in H. exact H. }
  split; [exact Hs|]. exact (RunLife.run_lifecycle 5 req s Hs).
Defined.

(** A new suite that was triggered by hand: it runs, its run passes, and is
    counted. *)
Example suite_lifecycle_witness :
  let m := TestSuiteController.Reconcile 5 (λ _, inl (errors_New "no schedule")) (λ _, "") id req in
  let s := mkStore [TestSuiteReady; TestSuiteRunning; TestSuiteReady; TestSuitePending; ""] [suiteRuns] in
  attempts (serves KTestSuite) m created_store s ∧
  history TestSuiteController.suite_step (trail s) ∧ length (counts s) ≤ completions (trail s).
Proof.
  intros m s.
  assert (attempts (serves KTestSuite) m created_store s) as Hs.
  { pose proof (runs_attempts (k:=KTestSuite) answers 4 m
      (mkServer (k:=KTestSuite) (set_suite_Trigger (mkTestSuiteTrigger true) (suite "" "" ""))
         created_store) eq_refl) as H.
    assert (log (runs (k:=KTestSuite) answers 4 m
      (mkServer (k:=KTestSuite) (set_suite_Trigger (mkTestSuiteTrigger true) (suite "" "" ""))
         created_store)) = s) as Heq by (by vm_compute).
    rewrite Heq in H. exact H. }
  split; [exact Hs|]. exact (SuiteLife.suite_lifecycle 5 _ _ _ req s Hs).
Defined.

(** Without [current] the result of a Test is counted again: two
    reconciliations that both read the Test as it was before its verdict. *)
Lemma stale_reads_count_twice : ∃ s,
  attempts (stores KTest) (TestController.Reconcile 5 req)
    (mkStore [TestRunning; TestStarting; TestPending; ""] []) s ∧
  stored s = TestPassed ∧ counts s = [passed; passed].
Proof.
  set (old := test "name" "run-0-" TestRunning [TestController.TestControllerFinalizer]).
  eexists. split; [|split].
  - eapply rtc_l; [exact (lagging_attempt (k:=KTest) answers old (TestController.Reconcile 5 req) _)|].
    apply rtc_once. exact (lagging_attempt (k:=KTest) answers old (TestController.Reconcile 5 req) _).
  - vm_compute. reflexivity.
  - vm_compute. reflexivity.
Qed.

(** * Verdicts *)

(** A Test's pod succeeds at once; created pods get a name. *)
Definition succeed (p : Pod) : Pod :=
  if ended (pod_Phase (pod_Status p)) then p
  else mkPod (pod_ObjectMeta p) (pod_Spec p) (mkPodStatus PodSucceeded []).
Definition pods_succeed (w : TestVerdict.test_cluster) : TestVerdict.test_cluster :=
  mkCluster (P:=KTest) (K:=KPod) (parent w) (succeed <$> children w) (decided w).
Definition give_pod (p : obj KPod) : obj KPod :=
  mkPod (meta "ns" "t-x" (GenerateName (pod_ObjectMeta p)) 0 None []) (pod_Spec p) (mkPodStatus "" []).

Lemma pods_succeed_others w : others (P:=KTest) (K:=KPod) w (pods_succeed w).
Proof.
  split; [reflexivity|]. destruct (decided w); [reflexivity|]. split; [reflexivity|].
  apply Forall2_fmap_r, Forall_Forall2_diag, Forall_true. intros p. unfold compose, succeed.
  destruct (ended (pod_Phase (pod_Status p))) eqn:He; [reflexivity|].
  split; [done|]. split; [by left|]. apply rtc_once. exact He.
Qed.

Lemma give_pod_born p : born (P:=KTest) (K:=KPod) p (give_pod p).
Proof. by split_and!. Qed.

(** The Tests of a run pass at once when it is Running. *)
Definition pass (t : Test) : Test :=
  if TestPhase_IsFinal (test_Phase (test_Status t)) then t
  else TestController.set_test_Phase TestPassed t.
Definition tests_pass (w : RunVerdict.run_cluster) : RunVerdict.run_cluster :=
  if run_Phase (run_Status (parent w)) == TestRunRunning
  then mkCluster (P:=KTestRun) (K:=KTest) (parent w) (pass <$> children w) (decided w) else w.
Definition give_test (t : obj KTest) : obj KTest :=
  mkTest (test_TypeMeta t) (meta "ns" "run-x" (GenerateName (test_ObjectMeta t)) 0 None [])
    (test_Spec t) (mkTestStatus [] "" None).

Lemma tests_pass_others w : others (P:=KTestRun) (K:=KTest) w (tests_pass w).
Proof.
  unfold tests_pass. case_bool_decide; [|split; [done|by destruct (decided w)]].
  split; [reflexivity|]. destruct (decided w); [reflexivity|]. split; [reflexivity|].
  apply Forall2_fmap_r, Forall_Forall2_diag, Forall_true. intros t. unfold compose, pass.
  destruct (TestPhase_IsFinal (test_Phase (test_Status t))) eqn:Hf; [reflexivity|].
  split; [done|]. split; [by left|]. apply rtc_once. exact Hf.
Qed.

Lemma give_test_born t : born (P:=KTestRun) (K:=KTest) t (give_test t).
Proof. by split_and!. Qed.

Definition test_new : Test := test "t" "run-0-" "" [].
Definition run_new : TestRun := testrun "run" 0 "" two_templates.

(** The Test, and the run, after [n] reconciliations. *)
Definition test_after (n : nat) : TestVerdict.test_cluster :=
  rounds pods_succeed give_pod n (TestController.Reconcile 5 req) (newborn (P:=KTest) (K:=KPod) test_new).
Definition run_after (n : nat) : RunVerdict.run_cluster :=
  rounds tests_pass give_test n (TestRunController.Reconcile 5 req)
    (newborn (P:=KTestRun) (K:=KTest) run_new).

Lemma test_after_attempts n :
  attempts (settles (P:=KTest) (K:=KPod)) (TestController.Reconcile 5 req)
    (newborn (P:=KTest) (K:=KPod) test_new) (test_after n).
Proof. apply rounds_attempts; [apply pods_succeed_others|apply give_pod_born]. Qed.

Lemma run_after_attempts n :
  attempts (settles (P:=KTestRun) (K:=KTest)) (TestRunController.Reconcile 5 req)
    (newborn (P:=KTestRun) (K:=KTest) run_new) (run_after n).
Proof. apply rounds_attempts; [apply tests_pass_others|apply give_test_born]. Qed.

Lemma fresh_test_new : TestVerdict.fresh_test test_new.
Proof. by split. Qed.

Lemma fresh_run_new : RunVerdict.fresh_run run_new.
Proof. split_and!; [done..|simpl; lia]. Qed.

(** After two reconciliations the Test has passed, and a pod of it succeeded. *)
Lemma test_verdict_sound_witness : ∃ pods (p : Pod),
  decided (test_after 2) = Some (TestPassed, pods) ∧ p ∈ pods ∧ pod_Phase (pod_Status p) = PodSucceeded.
Proof.
  pose proof (TestVerdict.test_verdict_sound 5 req test_new (test_after 2)
    fresh_test_new (test_after_attempts 2)) as H.
  assert (∃ ps, decided (test_after 2) = Some (TestPassed, ps)) as [ps Hd] by (eexists; vm_compute; reflexivity).
  rewrite Hd in H. destruct H as (_ & _ & p & Hp & [[_ Hph]|[Hq _]]); [|discriminate Hq].
  exists ps, p. split; [exact Hd|]. split; [exact Hp|exact Hph].
Defined.

(** After two reconciliations both Tests of the run exist, and it passed. *)
Lemma run_verdict_sound_witness : ∃ ts : list Test,
  decided (run_after 2) = Some (TestRunPassed, ts) ∧ length ts = 2 ∧ Forall RunVerdict.passed_ ts.
Proof.
  pose proof (RunVerdict.run_verdict_sound 5 req run_new (run_after 2)
    fresh_run_new (run_after_attempts 2)) as H.
  assert (∃ ts, decided (run_after 2) = Some (TestRunPassed, ts)) as [ts Hd]
    by (eexists; vm_compute; reflexivity).
  rewrite Hd in H. destruct H as (_ & Hi & _ & [[_ Hp]|[Hq _]]); [|discriminate Hq].
  exists ts. split; [exact Hd|]. split; [|exact Hp].
  apply Permutation_length in Hi. rewrite !length_fmap in Hi. exact Hi.
Defined.

(** The items a listing is answered by. *)
Definition items_of (k : kind) (e : event) : option (list (obj k)) :=
  match e with
  | Ev c r =>
      match c return reply c → option (list (obj k)) with
      | CList k' _ => λ r, match r with inl _ => None | inr l => Some (omap (as_kind k) l) end
      | _ => λ _, None
      end r
  end.

Lemma items_of_elem k os (items : list (obj k)) (t : list event) :
  Ev (CList k os) (inr items) ∈ t → items ∈ omap (items_of k) t.
Proof.
  intros Hin. apply list_elem_of_omap. eexists. split; [exact Hin|]. simpl. f_equal. clear Hin.
  by induction items as [|x items IH]; [|destruct k; simpl; f_equal].
Qed.


(** And so does that of the run, whose Tests have both ended. *)
Lemma run_converges_witness :
  let r := run (serve_cluster tests_pass give_test) (TestRunController.Reconcile 5 req) (run_after 1) in
  decided (run_after 1) = None ∧ Forall succeeded r.1.1 ∧
  (∃ res, r.1.2 = Done (res, None)) ∧ decided r.2 ≠ None.
Proof.
  intros r. pose proof (RunVerdict.run_converges 5 req run_new (run_after 1) _ _ _ fresh_run_new
    (run_after_attempts 1) (run_exec (serve_cluster tests_pass give_test) _ (run_after 1))
    (run_settles tests_pass give_test tests_pass_others give_test_born _ _)) as H.
  fold r in H. assert (Forall succeeded r.1.1) as Ht by (vm_compute; repeat constructor; eexists; reflexivity).
  assert (∃ t1 t2 : Test, omap (items_of KTest) r.1.1 = [[t1; t2]] ∧
    RunVerdict.final t1 ∧ RunVerdict.final t2) as (t1 & t2 & Hl & H1 & H2).
  { do 2 eexists. vm_compute. split; [reflexivity|split; reflexivity]. }
  destruct H as (res & err & Ho & H). destruct (H eq_refl Ht) as [-> Hv].
  split; [reflexivity|]. split; [exact Ht|]. split; [exists res; exact Ho|].
  intros Hd. destruct (Hv Hd) as [_ Hn]. apply Hn. intros os items Hin%items_of_elem.
  rewrite Hl in Hin. apply list_elem_of_singleton in Hin as ->. split; [reflexivity|]. by repeat constructor.
Defined.

(** ** The whole system *)

Lemma give_test_fresh t : TestVerdict.fresh_test (give_test t).
Proof. by split. Qed.

(** The run creates its Tests, each of which is reconciled twice while its pod
    succeeds; then the run is reconciled again. *)
Definition reconcile_test_ i : system → system := reconcile_test 5 pods_succeed give_pod req i.
Definition reconcile_run_ : system → system := reconcile_run 5 give_test req.
Definition system_after : system :=
  reconcile_run_ (reconcile_test_ 1 (reconcile_test_ 1 (reconcile_test_ 0 (reconcile_test_ 0
    (reconcile_run_ (mkSystem run_new None [] None)))))).

Lemma reconcile_run_reachable s : reachable 5 run_new s → reachable 5 run_new (reconcile_run_ s).
Proof.
  intros [Hf Hs]. split; [exact Hf|]. etrans; [exact Hs|].
  exact (reconcile_run_steps 5 give_test give_test_born give_test_fresh req s).
Qed.

Lemma reconcile_test_reachable i s : reachable 5 run_new s → reachable 5 run_new (reconcile_test_ i s).
Proof.
  intros [Hf Hs]. split; [exact Hf|]. etrans; [exact Hs|].
  exact (reconcile_test_steps 5 pods_succeed give_pod pods_succeed_others (λ _, eq_refl)
    give_pod_born req i s).
Qed.

Lemma system_reachable : reachable 5 run_new system_after.
Proof.
  apply reconcile_run_reachable. do 4 apply reconcile_test_reachable. apply reconcile_run_reachable.
  split; [exact fresh_run_new|apply rtc_refl].
Qed.

(** The run passed, and a pod of the Test for its second template succeeded. *)
Lemma verdict_end_to_end_witness : ∃ v c pods (p : Pod),
  verdict system_after = Some (TestRunPassed, v) ∧ c ∈ v ∧
  RunVerdict.index_of (test_of c) = inr 1%Z ∧
  decided c = Some (TestPassed, pods) ∧ p ∈ pods ∧ pod_Phase (pod_Status p) = PodSucceeded.
Proof.
  pose proof (System.verdict_end_to_end 5 run_new system_after system_reachable) as H.
  assert (∃ v, verdict system_after = Some (TestRunPassed, v)) as [v Hv] by (eexists; vm_compute; reflexivity).
  rewrite Hv in H. destruct H as [_ [[_ H]|[Hq _]]]; [|discriminate Hq].
  destruct (H 1) as (c & pods & p & Hc & Hi & Hd & Hp & Hph); [simpl; lia|].
  exists v, c, pods, p. split; [exact Hv|]. split; [exact Hc|]. split; [exact Hi|].
  split; [exact Hd|]. split; [exact Hp|exact Hph].
Defined.


#[local] Strategy opaque [system_after].





(** * Deep copies *)

(** A library whose types have no references. *)
#[local] Instance plainLibrary : Library := {|
  ObjectMeta_ := ObjectMeta; ListMeta_ := ListMeta; PodTemplateSpec_ := PodTemplateSpec;
  Condition_ := Condition; LibCell := Empty_set |}.

#[local] Instance plainMethods : LibraryMethods := {|
  ObjectMeta_DeepCopyInto := ret; ListMeta_DeepCopyInto := ret;
  PodTemplateSpec_DeepCopyInto := ret; Condition_DeepCopyInto := ret;
  Time_DeepCopy l := let+ t := load CTime l in alloc (Array CTime t) |}.

#[local] Instance plainCopies : LibraryCopies.
Proof.
  refine {| ObjectMeta_Represents := plain; ListMeta_Represents := plain;
    PodTemplateSpec_Represents := plain; Condition_Represents := plain |}; try exact copies_ret.
  intros h l t Hl. destruct (alloc_fresh (Array CTime [t]) h) as (l' & Ha & Hl' & Hsub).
  exists l', (<[l' := Array CTime [t]]> h). cbn. unfold then_.
  rewrite (load_Array CTime l [t] h Hl). split_and!; [exact Ha|exact Hsub| |exact Hl'].
  apply lookup_insert_eq.
Defined.

(** A Test with messages, at 0, whose map is at 1. *)
Definition test_with_messages : Test :=
  set_test_Status (mkTestStatus [] TestPassed (Some {["main" := "done"]})) test_done.
Definition messages_heap : heap :=
  <[0 := Array CTest [mkTest_ (test_TypeMeta test_done) (test_ObjectMeta test_done)
          (mkTestSpec_ (ts_RetentionPolicy (test_Spec test_done)) (ts_Template (test_Spec test_done)))
          (mkTestStatus_ None TestPassed (Some 1))]]>
    {[1 := Map {["main" := "done"]}]}.

(** The copy of the Test stays as it is when the original's map is cleared. *)
Lemma DeepCopy_independent_witness :
  ∃ l' h' L', Test_DeepCopy (Some 0) messages_heap = Some (Some l', h') ∧
    owns_pointer CTest h' (Some l') (Some test_with_messages) L' ∧
    owns_pointer CTest (<[1 := Map ∅]> h') (Some l') (Some test_with_messages) L'.
Proof.
  assert (owns_pointer CTest messages_heap (Some 0) (Some test_with_messages) {[0; 1]}) as Ho.
  { eexists _, test_with_messages, {[1]}. split_and!; [reflexivity|reflexivity| |set_solver].
    split; [reflexivity|]. exists ∅, ∅, {[1]}. split_and!; [by split|by exists| |set_solver].
    split; [reflexivity|]. exists ∅, {[1]}. split_and!; [by split| |set_solver].
    eexists. split_and!; [reflexivity|reflexivity|reflexivity]. }
  destruct DeepCopy_independent as ((_ & Hcopy) & _).
  destruct (Hcopy _ _ _ _ Ho) as (l' & h' & L' & Hc & _ & Hd & _ & Hl' & _ & Hfr).
  exists l', h', L'. split; [exact Hc|]. split; [exact Hl'|]. apply Hfr.
  intros x Hx. apply lookup_insert_ne. set_solver.
Defined.

(** * Manager *)

(** The Test controller, completed after the index of the pods, when the
    manager then refuses to complete the next one. *)
Lemma listings_indexed_witness :
  wp TestSuiteController.keeps_phase (TestController.Reconcile time.Minute req)
    (only (Manager.indexed [Manager.MGetConfig "";
      Manager.MNewManager (Manager.managerOptions [] (Manager.defaults (λ _, "debug") "" ""));
      Manager.MIndexField KPod TestController.podIndexKey TestController.podIndexer])).
Proof.
  eapply (Manager.listings_indexed [] (λ _, None) (λ _, None) (λ _, "debug") "" ""
    (λ _, inl (errors_New "no schedule")) spew enc []
    (λ c, match c with
      | Manager.MIndexField KTest _ _ => Some (errors_New "conflict") | _ => None end) _
    (Manager.TestReconciler_controller (Manager.mkTestReconciler time.Minute)) _ req).
  reflexivity.
Defined.
